(* ===== verification/_CoqProject ===== *)
-Q . S2P
Prelude.v
Prog.v
Packet.v
Checksum.v
Kernel.v
Views.v
RefKernel.v
XdpBroker.v
TcBroker.v
CString.v
Server.v
Faults.v
Control.v
ControlSpec.v
ControlProps.v
EndToEnd.v
Interleaving.v
Concurrency.v
UnderLoad.v
CloneKern.v
CloneControl.v
CloneSpec.v
CloneProps.v
CloneConcurrency.v
Host.v
RefHost.v
Loader.v
LoaderSpec.v
LoaderProps.v
CloneLoader.v
Startup.v
Stats.v
