(* ===== verification/Prelude.v ===== *)
(** * bpf-broker: a publish/subscribe broker in eBPF

    The repository holds two brokers.  In both, a control program (a UDP
    server in user space) takes REGISTER, SUBSCRIBE and FLUSH commands and
    keeps the subscribers of every topic in BPF maps, and programs in the
    kernel readdress PUBLISH packets to the subscribers those maps hold.

    - src/bpf_broker/: [xdp_broker] serves topics with one subscriber in the
      driver, [tc_ingress_broker] clones the packet for the others
      (bpf_broker_kern.c); bpf_broker_proto.c is the control program.
    - src/bpf_broker_xdp/: one XDP program does the fan-out by asking the
      driver for copies ([XDP_CLONE_TX]); again with its control program.

    ** Files, and what they model

    - [Prelude]: fixed-width integers, bytes, byte order, memory as a list of
      bytes, tactics, the hint database [broker].
    - [Prog]: programs as trees of calls, their sequential execution [run],
      weakest preconditions [wp], also with restricted calls [gwp]; [um] adds
      undefined behaviour and exhausted loops ([uwp] allows neither, [owp]
      exhausted loops in given states), [pm] a private memory (the
      packet, the socket buffer), [em] early exits with a status.
    - [Packet]: parse_udp_packet, refresh_headers, starts_with,
      extract_topic_id of bpf_broker_kern.c over the packet's bytes.
    - [Checksum]: compute_ip_checksum and compute_udp_checksum, and RFC 1071.
    - [Kernel]: everything outside the repository the programs call (maps,
      descriptors, sockets, packet helpers) as the events [ev], with their
      documented effect [ev_spec] on the observable state [kview]; the
      classes [Kernel] (any system call may fail), [Deleting] (keys that are
      there can be deleted) and [Reliable] (failures only at the documented
      limits) are the parameters of the theorems.
      [RefKernel] is a concrete instance, used by the witnesses only;
      [Views] holds lemmas on states.
    - [XdpBroker]: the handler xdp_broker of bpf_broker_kern.c.
    - [TcBroker]: tc_ingress_broker and callback_fn of the same file.
    - [CString]: the string functions of the C library that are used.
    - [Server]: the server loop of both proto.c files over a record of
      operations, the abstract server, and the interfaces [Refines] and
      [Robust] it is verified against.  [Faults]: reasoning when calls fail.
    - [Control], [ControlSpec], [ControlProps]: add_topic, add_subscriber,
      flush_topic of bpf_broker_proto.c, the abstract broker (a map from
      topics to sets of subscribers), the invariant of the three maps, the
      instances of the interfaces and the theorems.
    - [EndToEnd]: control program, fast path and slow path together; what a
      command line and a packet make of a topic name.
    - [Interleaving]: pools of programs and their schedules, with any result
      a call may return: safety under a global invariant, termination and
      progress, freedom from interference.  [Concurrency], [UnderLoad]: the
      pool of the first broker (server, frames, socket buffers).
    - [CloneKern]: bpf_broker_xdp/bpf_broker_kern.c; [CloneControl],
      [CloneSpec], [CloneProps]: bpf_broker_xdp/bpf_broker_proto.c, the
      abstract broker (a list of subscriptions per topic) and the theorems of
      the second program; [CloneConcurrency]: its pool.
    - [Host]: libbpf and the system calls of the loaders and of the start of
      the control programs as the events [hev] on the state [hview] (links,
      programs attached, pins, descriptors), classes [Host] and [Dependable];
      [RefHost] is a concrete instance for the witnesses.
    - [Loader]: main of bpf_broker_user.c; [LoaderSpec], [LoaderProps]: what
      its steps and the whole do.  [CloneLoader]: the same for
      bpf_broker_xdp/bpf_broker_user.c.
    - [Startup]: main of both proto.c files, from the pinned maps to the loop
      over the descriptors opened, on host and kernel together.
    - [Stats]: poll_rps_loop of bpf_broker_proto.c.

    ** State and operations

    A packet is the list of bytes from [data] to [data_end]; a pointer is an
    offset, and a read or write outside the list is [UB].  A socket buffer
    adds the bytes beyond its linear part.  A map is a [gmap]; topic keys are
    lists of 20 bytes, packed subscribers 64-bit integers.  A C function
    that makes calls is a tree with the calls in program order, early
    returns included; a pure helper is a function into [option].  Integers
    are [Z] with the wrap-around of their type written out; the machine is
    little-endian.  Counters are those of the CPU that runs the program.

    ** What the theorems show

    - Memory safety and full functional specifications of the packet
      programs on every packet: [header_walk_safe], [starts_with_correct],
      [extract_topic_id_correct], [xdp_broker_refines_spec],
      [tc_clones_to_subscribers], [clone_broker_refines_spec].
    - Checksums against RFC 1071, with the exact cases in which the code's
      are wrong: odd lengths ([xdp_tx_odd_checksum_wrong]), more than 256
      bytes ([xdp_tx_long_checksum_wrong]), packets without a UDP checksum
      on the slow path ([tc_zero_checksum_wrong]).
    - Delivery: [broker_end_to_end], [publish_delivered],
      [tc_delivers_to_all], [clone_fanout].
    - The control programs refine abstract brokers
      ([serve_refines_broker], [clone_serve_refines_roster]).  When calls
      fail they record no stranger and, if they return, leak no descriptor;
      the second always returns, the first unless a flush is stuck on a key
      the kernel refuses to delete, where it loops forever ([serve_robust],
      [clone_serve_robust], [flush_stuck]).  Undefined behaviour is reached
      exactly for topic names of 20 bytes or more ([handle_datagram_ub_iff]);
      all other theorems on servers assume names that fit.
    - Topic names: command lines and packets lead to the same map key
      ([topic_keys_agree]), save that no packet leads to a name with a blank
      ([blank_topic_unreachable]).
    - Concurrency: under every interleaving no frame, clone or reply goes to
      an address that never subscribed ([concurrent_safety]), save copies of
      a flushed topic ([clone_concurrent_safety]); no schedule runs forever or gets stuck, and
      the server does what it does alone ([served_under_load],
      [clone_served_under_load]); races exist that drop
      ([first_subscription_window]) or misdirect ([stale_copy_to_zero]) a
      packet.
    - Loaders: they always end and touch nothing but their own pins and
      interfaces ([loader_confined], [clone_loader_confined]), install and
      remove the programs on a dependable host ([loader_installs],
      [clone_loader_installs]), but leave them behind when an interface
      fails ([loader_leaves_programs]) and cut large interface numbers
      ([resolve_interface_number]).
    - From the loader to the replies: [broker_boots], [clone_broker_boots].
    - The statistics thread and the machines it overruns its array on:
      [poll_rps_loop_correct].

    ** Bounds

    [flush_fuel] is 257 rounds: an inner map holds at most 256 keys; when
    deletes work, every round deletes one and the last finds the map empty
    ([flush_loop_wp], [flush_loop_kept]); when they do not, no fuel is enough
    ([flush_stuck]).
    [pin_fuel] is 2: a retry follows a successful unpin, which frees the path;
    [wait_fuel] is 1: sigwait returns signals of its mask only
    ([loader_confined] shows both are enough).  The other loops are
    structural: 20 characters of a topic, 10 and 128 (1024) checksum words,
    the entries the kernel visits, the count of a topic, the interfaces, maps
    and programs of a loader.  The server is verified over every finite
    sequence of datagrams; fewer than 2^32 of them, so that the 32-bit counts
    do not wrap.  The statistics thread over every finite sequence of lookups.

    ** Not modelled

    Messages (printf, perror, bpf_printk and bpf_printk_ip, which nothing
    calls), libbpf_set_print, list_bpf_programs, and the number of CPUs the
    loaders read and do not use: no effect on the state.  The constants of
    bpf_broker_common.h size program arrays that stay empty.  The program
    starts no statistics thread; its function is modelled all the same.  The
    Rust programs, the Python and shell scripts only drive the broker.

    [bpf_for_each_map_elem] is one call that returns the entries it visits;
    changes of a map while it is being walked are not modelled.  The order of
    an interleaving is that of calls; weak memory is not.  The checksum
    offload state of socket buffers is not modelled: checksums are complete
    in the packet.  The host's objects and the contents of the kernel's maps
    are separate states ([sum_ev]); [Startup.on_fds] lets a call of the loop
    reach the maps only through a descriptor of the map it is meant for.
    Descriptors of inner maps, which the loop opens and closes itself, are a
    table of their own. *)

From Stdlib Require Import ZArith Lia String Ascii.
From stdpp Require Import base tactics numbers list gmap fin_maps.

Declare Scope broker_scope.
Delimit Scope broker_scope with broker.
Local Open Scope Z_scope.

(** ** Machine integers and byte order *)

(** Truncations to the unsigned C types. *)
Definition u8 (z : Z) : Z := z mod 2 ^ 8.
Definition u16 (z : Z) : Z := z mod 2 ^ 16.
Definition u32 (z : Z) : Z := z mod 2 ^ 32.
Definition u64 (z : Z) : Z := z mod 2 ^ 64.

(** Truncation to the signed C type [int]. *)
Definition i32 (z : Z) : Z := (z + 2 ^ 31) mod 2 ^ 32 - 2 ^ 31.

(** [htons]/[ntohs] and [htonl]/[ntohl] on the little-endian hosts the
    programs are built for (x86-64 and the bpfel target). *)
Definition bswap16 (x : Z) : Z :=
  Z.lor (Z.shiftl (Z.land x 0xff) 8) (Z.land (Z.shiftr x 8) 0xff).

Definition bswap32 (x : Z) : Z :=
  Z.lor (Z.shiftl (bswap16 (Z.land x 0xffff)) 16) (bswap16 (Z.land (Z.shiftr x 16) 0xffff)).

Definition is_byte (b : Z) : Prop := 0 <= b < 256.
Definition bytes_ok (bs : list Z) : Prop := Forall is_byte bs.

#[global] Instance is_byte_dec b : Decision (is_byte b).
Proof. unfold is_byte. apply _. Defined.

#[global] Instance bytes_ok_dec bs : Decision (bytes_ok bs).
Proof. unfold bytes_ok. apply _. Defined.

(** The bytes of a string literal of the source. *)
Definition bytes_of_string (s : string) : list Z :=
  map (λ a, Z.of_nat (nat_of_ascii a)) (list_ascii_of_string s).

(** Value of a little-endian object and the object of a value. *)
Fixpoint le_val (bs : list Z) : Z :=
  match bs with
  | [] => 0
  | b :: r => b + 256 * le_val r
  end.

Fixpoint le_bytes (n : nat) (v : Z) : list Z :=
  match n with
  | O => []
  | S n' => (v mod 256) :: le_bytes n' (v / 256)
  end.

(** ** Bounds-checked memory

    A buffer is its list of bytes and a pointer into it the offset from its
    first byte.  An access that leaves the buffer has no value. *)
Definition load (m : list Z) (p n : nat) : option (list Z) :=
  if (p + n <=? length m)%nat then Some (take n (drop p m)) else None.

Definition store (m : list Z) (p : nat) (bs : list Z) : option (list Z) :=
  if (p + length bs <=? length m)%nat
  then Some (take p m ++ bs ++ drop (p + length bs) m) else None.

Definition ld8 (m : list Z) (p : nat) : option Z := m !! p.
Definition ld16 (m : list Z) (p : nat) : option Z := le_val <$> load m p 2.
Definition ld32 (m : list Z) (p : nat) : option Z := le_val <$> load m p 4.
Definition st16 (m : list Z) (p : nat) (v : Z) : option (list Z) := store m p (le_bytes 2 v).
Definition st32 (m : list Z) (p : nat) (v : Z) : option (list Z) := store m p (le_bytes 4 v).

(** ** Automation *)

Create HintDb broker discriminated.

(** Split every conjunction, existential and boolean test of the context. *)
Ltac split_hyps :=
  repeat match goal with
  | H : _ /\ _ |- _ => destruct H
  | H : exists _, _ |- _ => destruct H
  | H : (_ && _)%bool = true |- _ => apply andb_prop in H
  | H : (_ || _)%bool = false |- _ => apply orb_false_elim in H
  | H : (_ <? _) = true |- _ => apply Z.ltb_lt in H
  | H : (_ <? _) = false |- _ => apply Z.ltb_ge in H
  | H : (_ <=? _) = true |- _ => apply Z.leb_le in H
  | H : (_ <=? _) = false |- _ => apply Z.leb_gt in H
  | H : (_ =? _) = true |- _ => apply Z.eqb_eq in H
  | H : (_ =? _) = false |- _ => apply Z.eqb_neq in H
  | H : (_ <=? _)%nat = true |- _ => apply Nat.leb_le in H
  | H : (_ <=? _)%nat = false |- _ => apply Nat.leb_gt in H
  | H : (_ <? _)%nat = true |- _ => apply Nat.ltb_lt in H
  | H : (_ <? _)%nat = false |- _ => apply Nat.ltb_ge in H
  | H : negb _ = true |- _ => apply negb_true_iff in H
  | H : negb _ = false |- _ => apply negb_false_iff in H
  end.

(** Case analysis on the next test or scrutinee of the goal. *)
Ltac case_goal :=
  match goal with
  | |- context [if ?b then _ else _] => let E := fresh "E" in destruct b eqn:E
  | |- context [match ?x with _ => _ end] => let E := fresh "E" in destruct x eqn:E
  end.

(** Close a decidable goal by evaluation. *)
Ltac decide_goal :=
  lazymatch goal with |- ?P => refine (proj1 (bool_decide_eq_true P) _); vm_compute; reflexivity end.

(** Linear arithmetic with division and modulus by constants. *)
Ltac dlia := Z.to_euclidean_division_equations; lia.

(** ** Generic lemmas *)

Lemma u16_range z : 0 <= u16 z < 65536.
Proof. apply Z.mod_pos_bound. lia. Qed.

Lemma u32_range z : 0 <= u32 z < 2 ^ 32.
Proof. apply Z.mod_pos_bound. lia. Qed.

Lemma u16_small z : 0 <= z < 65536 -> u16 z = z.
Proof. apply Z.mod_small. Qed.

Lemma u32_small z : 0 <= z < 2 ^ 32 -> u32 z = z.
Proof. apply Z.mod_small. Qed.

(** Remove the truncations that [lia] shows to be identities, innermost first. *)
Ltac u32_simpl :=
  repeat match goal with
  | |- context [u32 ?x] =>
      lazymatch x with context [u32 _] => fail | _ => rewrite (u32_small x) by lia end
  end.

Lemma land_ff x : Z.land x 0xff = x mod 256.
Proof. apply (Z.land_ones x 8). lia. Qed.

Lemma land_ffff x : Z.land x 0xffff = x mod 65536.
Proof. apply (Z.land_ones x 16). lia. Qed.

Lemma shiftr_div x n k : 0 <= n -> k = 2 ^ n -> Z.shiftr x n = x / k.
Proof. intros ? ->. by apply Z.shiftr_div_pow2. Qed.

(** A shifted value joined with one that fits below it. *)
Lemma lor_shiftl_add a b n : 0 <= n -> 0 <= b < 2 ^ n -> Z.lor (Z.shiftl a n) b = a * 2 ^ n + b.
Proof.
  intros Hn Hb. rewrite <- (Z.shiftl_mul_pow2 a n) by done.
  destruct (decide (b = 0)) as [->|Hb0]; [by rewrite Z.lor_0_r, Z.add_0_r|].
  assert (Z.land (Z.shiftl a n) b = 0) as Hland.
  { apply Z.bits_inj'. intros i Hi. rewrite Z.land_spec, Z.bits_0.
    destruct (Z.lt_ge_cases i n); [by rewrite Z.shiftl_spec_low|].
    rewrite (Z.bits_above_log2 b i), ?andb_false_r; [done|lia|].
    apply Z.lt_le_trans with n; [apply Z.log2_lt_pow2; lia | lia]. }
  rewrite <- Z.lxor_lor by done. by rewrite Z.add_nocarry_lxor.
Qed.

Lemma bswap16_arith x : 0 <= x < 65536 -> bswap16 x = 256 * (x mod 256) + x / 256.
Proof.
  intros H. unfold bswap16. rewrite !land_ff, (shiftr_div x 8 256) by done.
  rewrite lor_shiftl_add by dlia.
  rewrite (Z.mod_small (x / 256)); dlia.
Qed.

Lemma bswap16_range x : 0 <= x < 65536 -> 0 <= bswap16 x < 65536.
Proof. intros H. rewrite bswap16_arith by done. dlia. Qed.

Lemma bswap16_involutive x : 0 <= x < 65536 -> bswap16 (bswap16 x) = x.
Proof.
  intros H. rewrite (bswap16_arith (bswap16 x)) by (by apply bswap16_range).
  rewrite bswap16_arith by done. dlia.
Qed.

Lemma bswap32_arith x : 0 <= x < 2 ^ 32 ->
  bswap32 x = bswap16 (x mod 65536) * 65536 + bswap16 (x / 65536).
Proof.
  intros H. unfold bswap32. rewrite !land_ffff, (shiftr_div x 16 65536) by done.
  rewrite (Z.mod_small (x / 65536)) by dlia.
  apply lor_shiftl_add; [lia|]. apply bswap16_range. dlia.
Qed.

Lemma bswap32_range x : 0 <= x < 2 ^ 32 -> 0 <= bswap32 x < 2 ^ 32.
Proof.
  intros H. rewrite bswap32_arith by done.
  pose proof (bswap16_range (x mod 65536)). pose proof (bswap16_range (x / 65536)). dlia.
Qed.

Lemma bswap32_involutive x : 0 <= x < 2 ^ 32 -> bswap32 (bswap32 x) = x.
Proof.
  intros H. rewrite (bswap32_arith (bswap32 x)) by (by apply bswap32_range).
  rewrite bswap32_arith by done.
  pose proof (bswap16_range (x mod 65536)). pose proof (bswap16_range (x / 65536)).
  replace ((bswap16 (x mod 65536) * 65536 + bswap16 (x / 65536)) mod 65536) with (bswap16 (x / 65536)) by dlia.
  replace ((bswap16 (x mod 65536) * 65536 + bswap16 (x / 65536)) / 65536) with (bswap16 (x mod 65536)) by dlia.
  rewrite !bswap16_involutive by dlia. dlia.
Qed.

Lemma le_bytes_length n v : length (le_bytes n v) = n.
Proof. revert v. induction n; intros; simpl; auto. Qed.

Lemma le_bytes_ok n v : bytes_ok (le_bytes n v).
Proof.
  revert v. induction n; intros v; simpl; constructor; [|apply IHn].
  apply Z.mod_pos_bound. lia.
Qed.

Lemma le_val_range bs : bytes_ok bs -> 0 <= le_val bs < 256 ^ Z.of_nat (length bs).
Proof.
  induction 1 as [|b r Hb Hr IH]; simpl le_val; [simpl; lia|].
  cbn [length]. rewrite Nat2Z.inj_succ, Z.pow_succ_r by lia. unfold is_byte in Hb. lia.
Qed.

Lemma le_val_le_bytes n v : 0 <= v < 256 ^ Z.of_nat n -> le_val (le_bytes n v) = v.
Proof.
  revert v. induction n as [|n IH]; intros v Hv; cbn [le_bytes le_val]; [simpl in Hv; lia|].
  rewrite Nat2Z.inj_succ, Z.pow_succ_r in Hv by lia.
  rewrite IH; dlia.
Qed.

Lemma le_bytes_le_val bs : bytes_ok bs -> le_bytes (length bs) (le_val bs) = bs.
Proof.
  induction 1 as [|b r Hb Hr IH]; [done|]. cbn [length le_bytes le_val]. unfold is_byte in Hb.
  f_equal; [dlia|]. etransitivity; [|exact IH]. f_equal. dlia.
Qed.
