(* ===== verification/Prog.v ===== *)
(** * Programs as trees of interactions

    Every C function that touches shared state (BPF maps, sockets, file
    descriptors, packet helpers) is a finite tree whose nodes are the calls
    it makes, in the order it makes them.  The same tree is executed
    sequentially ([run]), reasoned about with a weakest precondition ([wp])
    against a specification of the calls, and interleaved with other trees
    call by call.  On top of it: [um], programs that may reach undefined
    behaviour or exhaust the fuel of a [while] loop, [pm], such programs over
    a private piece of memory (the packet), and [em], such programs that may
    leave early with an exit status. *)

From S2P Require Import Prelude.
From stdpp Require Import base tactics numbers list.

Section Prog.
Context {E : Type -> Type}.

Inductive prog (A : Type) : Type :=
| Ret (a : A)
| Vis {X : Type} (e : E X) (k : X -> prog A).

Arguments Ret {A} a.
Arguments Vis {A X} e k.

Fixpoint pbind {A B} (p : prog A) (f : A -> prog B) : prog B :=
  match p with
  | Ret a => f a
  | Vis e k => Vis e (λ x, pbind (k x) f)
  end.

Definition trigger {X} (e : E X) : prog X := Vis e (λ x, Ret x).

(** Sequential execution against a system with state [S]. *)
Fixpoint run {S A} (h : forall X, E X -> S -> X * S) (p : prog A) (s : S) : A * S :=
  match p with
  | Ret a => (a, s)
  | Vis e k => let '(x, s') := h _ e s in run h (k x) s'
  end.

(** A contract of the calls over a view [V] of the system's state. *)
Definition contract (V : Type) : Type := forall X, E X -> V -> X -> V -> Prop.

Fixpoint wp {V A} (c : contract V) (p : prog A) (Q : A -> V -> Prop) (v : V) : Prop :=
  match p with
  | Ret a => Q a v
  | Vis e k => forall x v', c _ e v x v' -> wp c (k x) Q v'
  end.

Lemma wp_mono {V A} (c : contract V) (p : prog A) (Q R : A -> V -> Prop) v :
  (forall a v', Q a v' -> R a v') -> wp c p Q v -> wp c p R v.
Proof. intros HQR. revert v. induction p; simpl; eauto. Qed.

Lemma wp_bind {V A B} (c : contract V) (p : prog A) (f : A -> prog B) Q v :
  wp c p (λ a v', wp c (f a) Q v') v -> wp c (pbind p f) Q v.
Proof. revert v. induction p; simpl; eauto. Qed.

Lemma wp_trigger {V X} (c : contract V) (e : E X) Q v :
  (forall x v', c _ e v x v' -> Q x v') -> wp c (trigger e) Q v.
Proof. done. Qed.

(** A stronger contract proves no less. *)
Lemma wp_contract {V A} (c d : contract V) (p : prog A) Q v :
  (forall X (e : E X) v x v', d X e v x v' -> c X e v x v') ->
  wp c p Q v -> wp d p Q v.
Proof. intros Hcd. revert v. induction p; simpl; eauto. Qed.

(** Adequacy: a system whose calls meet the contract on a view of its
    state ends a sequential run in the postcondition. *)
Lemma wp_run {S V A} (h : forall X, E X -> S -> X * S) (view : S -> V) (c : contract V)
    (p : prog A) Q s :
  (forall X (e : E X) s, c X e (view s) (h X e s).1 (view (h X e s).2)) ->
  wp c p Q (view s) -> Q (run h p s).1 (view (run h p s).2).
Proof.
  intros Hh. revert s. induction p as [a|X e k IH]; simpl; intros s Hwp; [done|].
  specialize (Hh X e s). destruct (h X e s) as [x s']. simpl in *. by apply IH, Hwp.
Qed.

(** The same, with every call on the way in [G]. *)
Fixpoint gwp {V A} (G : forall X, E X -> Prop) (c : contract V) (p : prog A) (Q : A -> V -> Prop) (v : V) : Prop :=
  match p with
  | Ret a => Q a v
  | Vis e k => G _ e /\ forall x v', c _ e v x v' -> gwp G c (k x) Q v'
  end.

(** All calls of a program are in [G], whatever they answer. *)
Fixpoint calls {A} (G : forall X, E X -> Prop) (p : prog A) : Prop :=
  match p with
  | Ret _ => True
  | Vis e k => G _ e /\ forall x, calls G (k x)
  end.

Lemma gwp_mono {V A} G (c : contract V) (p : prog A) (Q R : A -> V -> Prop) v :
  (forall a v', Q a v' -> R a v') -> gwp G c p Q v -> gwp G c p R v.
Proof. intros HQR. revert v. induction p as [a|X e k IH]; simpl; [auto|]. intros v [He Hk]. eauto. Qed.

Lemma gwp_bind {V A B} G (c : contract V) (p : prog A) (f : A -> prog B) Q v :
  gwp G c p (λ a v', gwp G c (f a) Q v') v -> gwp G c (pbind p f) Q v.
Proof. revert v. induction p as [a|X e k IH]; simpl; [auto|]. intros v [He Hk]. eauto. Qed.

Lemma gwp_calls {V A} G (c : contract V) (p : prog A) Q v : wp c p Q v -> calls G p -> gwp G c p Q v.
Proof. revert v. induction p as [a|X e k IH]; simpl; [auto|]. intros v Hw [He Hk]. eauto. Qed.

Lemma calls_bind {A B} G (p : prog A) (f : A -> prog B) :
  calls G p -> (forall a, calls G (f a)) -> calls G (pbind p f).
Proof. induction p as [a|X e k IH]; simpl; [auto|]. intros [He Hk] Hf. split; [done|]. intros x. by apply IH. Qed.

Lemma calls_mono {A} (G H : forall X, E X -> Prop) (p : prog A) :
  (forall X (e : E X), G X e -> H X e) -> calls G p -> calls H p.
Proof. intros HGH. induction p as [a|X e k IH]; simpl; [auto|]. intros [He Hk]. eauto. Qed.

Lemma run_bind {S A B} (h : forall X, E X -> S -> X * S) (p : prog A) (f : A -> prog B) s :
  run h (pbind p f) s = let '(a, s') := run h p s in run h (f a) s'.
Proof.
  revert s. induction p as [a|X e k IH]; simpl; intros s; [done|].
  destruct (h X e s) as [x s']. apply IH.
Qed.
End Prog.

Arguments prog E A : clear implicits.
Arguments Ret {E A} a.
Arguments Vis {E A X} e k.

(** ** Programs that call two systems *)

Inductive sum_ev (E F : Type -> Type) (X : Type) : Type :=
| inl_ev (e : E X)
| inr_ev (f : F X).
Arguments inl_ev {E F X} e.
Arguments inr_ev {E F X} f.

Fixpoint embed {E G : Type -> Type} {A} (j : forall X, E X -> G X) (p : prog E A) : prog G A :=
  match p with
  | Ret a => Ret a
  | Vis e k => Vis (j _ e) (λ x, embed j (k x))
  end.

(** ** Outcomes of C code *)

Inductive res (A : Type) : Type :=
| Ok (a : A)
| UB          (* undefined behaviour: an access outside an object *)
| NoFuel.     (* a [while] loop ran longer than the bound given to it *)
Arguments Ok {A} a.
Arguments UB {A}.
Arguments NoFuel {A}.

Section Um.
Context {E : Type -> Type}.

Definition um (A : Type) : Type := prog E (res A).

Definition uret {A} (a : A) : um A := Ret (Ok a).
Definition ubind {A B} (m : um A) (f : A -> um B) : um B :=
  pbind m (λ r, match r with Ok a => f a | UB => Ret UB | NoFuel => Ret NoFuel end).
Definition ucall {X} (e : E X) : um X := Vis e (λ x, Ret (Ok x)).

(** A C library function that may read outside its object. *)
Definition ulift {A} (o : option A) : um A :=
  match o with Some a => uret a | None => Ret UB end.

Lemma ubind_uret {A B} (a : A) (f : A -> um B) : ubind (uret a) f = f a.
Proof. done. Qed.

Lemma ubind_UB {A B} (f : A -> um B) : ubind (Ret UB) f = Ret UB.
Proof. done. Qed.

(** The weakest precondition of an [um]: undefined behaviour is not allowed,
    an exhausted loop only in a state that satisfies [N]. *)
Definition owp {V A} (c : contract V) (N : V -> Prop) (m : um A) (Q : A -> V -> Prop) (v : V) : Prop :=
  wp c m (λ r v', match r with Ok a => Q a v' | UB => False | NoFuel => N v' end) v.

Section Owp.
Context {V : Type} (c : contract (E := E) V) (N : V -> Prop).

Lemma owp_ret {A} (a : A) (Q : A -> V -> Prop) v : Q a v -> owp c N (uret a) Q v.
Proof. done. Qed.

Lemma owp_bind {A B} (m : um A) (f : A -> um B) Q v :
  owp c N m (λ a v', owp c N (f a) Q v') v -> owp c N (ubind m f) Q v.
Proof.
  intros H. apply wp_bind. eapply wp_mono; [|exact H]. by intros [a| |] v'.
Qed.

Lemma owp_call {X} (e : E X) (Q : X -> V -> Prop) v :
  (forall x v', c _ e v x v' -> Q x v') -> owp c N (ucall e) Q v.
Proof. done. Qed.

Lemma owp_mono {A} (m : um A) (Q R : A -> V -> Prop) v :
  (forall a v', Q a v' -> R a v') -> owp c N m Q v -> owp c N m R v.
Proof. intros H. apply wp_mono. intros [a| |] v'; auto. Qed.

(** With a stronger contract, and more states to be stuck in. *)
Lemma owp_weaken (d : contract V) (M : V -> Prop) {A} (m : um A) Q v :
  (forall X (e : E X) v x v', d X e v x v' -> c X e v x v') -> (forall w, N w -> M w) ->
  owp c N m Q v -> owp d M m Q v.
Proof.
  intros Hcd HNM H. apply (wp_contract c d); [done|]. eapply wp_mono; [|exact H]. intros [a| |] w; auto.
Qed.
End Owp.

(** The total one: no exhausted loop either. *)
Definition uwp {V A} (c : contract V) (m : um A) (Q : A -> V -> Prop) (v : V) : Prop :=
  owp c (λ _, False) m Q v.

Lemma uwp_ret {V A} (c : contract V) (a : A) (Q : A -> V -> Prop) v :
  Q a v -> uwp c (uret a) Q v.
Proof. apply owp_ret. Qed.

Lemma uwp_bind {V A B} (c : contract V) (m : um A) (f : A -> um B) Q v :
  uwp c m (λ a v', uwp c (f a) Q v') v -> uwp c (ubind m f) Q v.
Proof. apply owp_bind. Qed.

Lemma uwp_call {V X} (c : contract V) (e : E X) (Q : X -> V -> Prop) v :
  (forall x v', c _ e v x v' -> Q x v') -> uwp c (ucall e) Q v.
Proof. apply owp_call. Qed.

Lemma uwp_mono {V A} (c : contract V) (m : um A) (Q R : A -> V -> Prop) v :
  (forall a v', Q a v' -> R a v') -> uwp c m Q v -> uwp c m R v.
Proof. apply owp_mono. Qed.

(** Programs over a private memory [S]. *)
Definition pm (S A : Type) : Type := S -> um (A * S).

Definition pret {S A} (a : A) : pm S A := λ s, uret (a, s).
Definition pmbind {S A B} (m : pm S A) (f : A -> pm S B) : pm S B :=
  λ s, ubind (m s) (λ '(a, s'), f a s').
Definition pcall {S X} (e : E X) : pm S X := λ s, ubind (ucall e) (λ x, uret (x, s)).

(** A read and a write of the private memory. *)
Definition prd {S A} (g : S -> option A) : pm S A :=
  λ s, match g s with Some a => uret (a, s) | None => Ret UB end.
Definition pwr {S} (g : S -> option S) : pm S unit :=
  λ s, match g s with Some s' => uret (tt, s') | None => Ret UB end.

Definition pwp {V S A} (c : contract V) (m : pm S A) (Q : A -> S -> V -> Prop)
    (s : S) (v : V) : Prop :=
  uwp c (m s) (λ r v', Q r.1 r.2 v') v.

Lemma pwp_ret {V S A} (c : contract V) (a : A) Q (s : S) v :
  Q a s v -> pwp c (pret a) Q s v.
Proof. done. Qed.

Lemma pwp_bind {V S A B} (c : contract V) (m : pm S A) (f : A -> pm S B) Q s v :
  pwp c m (λ a s' v', pwp c (f a) Q s' v') s v -> pwp c (pmbind m f) Q s v.
Proof.
  intros H. apply uwp_bind. eapply uwp_mono; [|exact H]. by intros [a s'] v'.
Qed.

Lemma pwp_call {V S X} (c : contract V) (e : E X) Q (s : S) v :
  (forall x v', c _ e v x v' -> Q x s v') -> pwp c (pcall e) Q s v.
Proof. done. Qed.

Lemma pwp_rd {V S A} (c : contract V) (g : S -> option A) Q (s : S) v a :
  g s = Some a -> Q a s v -> pwp c (prd g) Q s v.
Proof. unfold pwp, prd. by intros ->. Qed.

Lemma pwp_wr {V S} (c : contract V) (g : S -> option S) Q (s s' : S) v :
  g s = Some s' -> Q tt s' v -> pwp c (pwr g) Q s v.
Proof. unfold pwp, pwr. by intros ->. Qed.

Lemma pwp_mono {V S A} (c : contract V) (m : pm S A) (Q R : A -> S -> V -> Prop) s v :
  (forall a s' v', Q a s' v' -> R a s' v') -> pwp c m Q s v -> pwp c m R s v.
Proof. intros H. apply uwp_mono. intros [a s'] v'. apply H. Qed.

(** Restricted calls, over a private memory. *)
Definition pgwp {V S A} (G : forall X, E X -> Prop) (c : contract V) (m : pm S A) (Q : A -> S -> V -> Prop)
    (s : S) (v : V) : Prop :=
  gwp G c (m s) (λ r v', match r with Ok r => Q r.1 r.2 v' | _ => False end) v.

Lemma pgwp_call {V S X} G (c : contract V) (e : E X) Q (s : S) v :
  G _ e -> (forall x v', c _ e v x v' -> Q x s v') -> pgwp G c (pcall e) Q s v.
Proof. done. Qed.

(** What the two logics share: rules for steps without calls. *)
Class Triple {S V} (J : forall A, pm S A -> (A -> S -> V -> Prop) -> S -> V -> Prop) : Prop := {
  tr_pure {A} (m : pm S A) a s' Q s v : m s = uret (a, s') -> Q a s' v -> J A m Q s v;
  tr_bind {A B} (m : pm S A) (f : A -> pm S B) Q s v :
    J A m (λ a s' v', J B (f a) Q s' v') s v -> J B (pmbind m f) Q s v;
  tr_mono {A} (m : pm S A) (Q R : A -> S -> V -> Prop) s v :
    (forall a s' v', Q a s' v' -> R a s' v') -> J A m Q s v -> J A m R s v
}.

#[export] Instance pwp_triple {S V} (c : contract V) : Triple (S := S) (λ A, pwp c).
Proof.
  split; [|intros; by apply pwp_bind|intros; by eapply pwp_mono].
  intros A m a s' Q s v Hm HQ. unfold pwp. by rewrite Hm.
Qed.

#[export] Instance pgwp_triple {S V} G (c : contract V) : Triple (S := S) (λ A, pgwp G c).
Proof.
  split.
  - intros A m a s' Q s v Hm HQ. unfold pgwp. by rewrite Hm.
  - intros A B m f Q s v H. unfold pgwp, pmbind, ubind. apply gwp_bind. eapply gwp_mono; [|exact H].
    by intros [[a s']| |] v'.
  - intros A m Q R s v H. apply gwp_mono. intros [[a s']| |] v'; auto.
Qed.

Section Triple.
Context {S V : Type} {J : forall A, pm S A -> (A -> S -> V -> Prop) -> S -> V -> Prop} `{!Triple J}.

Lemma tr_ret {A} (a : A) Q s v : Q a s v -> J A (pret a) Q s v.
Proof. by apply tr_pure. Qed.

Lemma tr_rd {A} (g : S -> option A) Q s v a : g s = Some a -> Q a s v -> J A (prd g) Q s v.
Proof. intros Hg. apply tr_pure. unfold prd. by rewrite Hg. Qed.

Lemma tr_wr (g : S -> option S) Q s s' v : g s = Some s' -> Q tt s' v -> J unit (pwr g) Q s v.
Proof. intros Hg. apply tr_pure. unfold pwr. by rewrite Hg. Qed.
End Triple.

(** Which calls a program makes, statement by statement. *)
Section Calls.
Context (G : forall X, E X -> Prop).

Lemma calls_ubind {A B} (m : um A) (f : A -> um B) :
  calls G m -> (forall a, calls G (f a)) -> calls G (ubind m f).
Proof. intros Hm Hf. apply calls_bind; [done|]. intros [a| |]; cbn; auto. Qed.

Lemma calls_ulift {A} (o : option A) : calls G (ulift o).
Proof. by destruct o. Qed.

Lemma calls_ucall {X} (e : E X) : G _ e -> calls G (ucall e).
Proof. done. Qed.

Lemma calls_pmbind {S A B} (m : pm S A) (f : A -> pm S B) s :
  calls G (m s) -> (forall a s', calls G (f a s')) -> calls G (pmbind m f s).
Proof. intros Hm Hf. apply calls_ubind; [done|]. intros [a s']. apply Hf. Qed.

Lemma calls_pcall {S X} (e : E X) (s : S) : G _ e -> calls G (pcall e s).
Proof. done. Qed.

Lemma calls_prd {S A} (g : S -> option A) s : calls G (prd g s).
Proof. unfold prd. by destruct (g s). Qed.

Lemma calls_pwr {S} (g : S -> option S) s : calls G (pwr g s).
Proof. unfold pwr. by destruct (g s). Qed.
End Calls.

(** Programs that may leave early with an exit status. *)
Definition em (A : Type) : Type := um (Z + A).

Definition eret {A} (a : A) : em A := uret (inr a).
Definition efail {A} (code : Z) : em A := uret (inl code).
Definition elift {A} (m : um A) : em A := ubind m eret.
Definition ecall {X} (e : E X) : em X := elift (ucall e).
Definition ebind {A B} (m : em A) (f : A -> em B) : em B :=
  ubind m (λ r, match r with inl code => efail code | inr a => f a end).

(** A [for] loop over an array. *)
Fixpoint efor {A} (f : A -> em unit) (l : list A) : em unit :=
  match l with
  | [] => eret tt
  | a :: l' => ebind (f a) (λ _, efor f l')
  end.

Definition ewp {V A} (c : contract V) (m : em A) (F : Z -> V -> Prop) (Q : A -> V -> Prop) (v : V) : Prop :=
  uwp c m (λ r v', match r with inl code => F code v' | inr a => Q a v' end) v.

Lemma ewp_ret {V A} (c : contract V) (a : A) F (Q : A -> V -> Prop) v : Q a v -> ewp c (eret a) F Q v.
Proof. done. Qed.

Lemma ewp_fail {V A} (c : contract V) code F (Q : A -> V -> Prop) v : F code v -> ewp c (efail code) F Q v.
Proof. done. Qed.

Lemma ewp_lift {V A} (c : contract V) (m : um A) F (Q : A -> V -> Prop) v : uwp c m Q v -> ewp c (elift m) F Q v.
Proof. intros H. apply uwp_bind. exact H. Qed.

Lemma ewp_call {V X} (c : contract V) (e : E X) F (Q : X -> V -> Prop) v :
  (forall x v', c _ e v x v' -> Q x v') -> ewp c (ecall e) F Q v.
Proof. done. Qed.

Lemma ewp_bind {V A B} (c : contract V) (m : em A) (f : A -> em B) F Q v :
  ewp c m F (λ a v', ewp c (f a) F Q v') v -> ewp c (ebind m f) F Q v.
Proof.
  intros H. apply uwp_bind. eapply uwp_mono; [|exact H]. by intros [code|a] v'.
Qed.

Lemma ewp_mono {V A} (c : contract V) (m : em A) F F' (Q R : A -> V -> Prop) v :
  (forall code v', F code v' -> F' code v') -> (forall a v', Q a v' -> R a v') ->
  ewp c m F Q v -> ewp c m F' R v.
Proof. intros HF HQ. apply uwp_mono. intros [code|a] v'; auto. Qed.

(** One statement, with its own specification, and the rest. *)
Lemma ewp_seq {V A B} (c : contract V) (m : em A) (f : A -> em B) F (P : A -> V -> Prop) (Q : B -> V -> Prop) v :
  ewp c m F P v -> (forall a w, P a w -> ewp c (f a) F Q w) -> ewp c (ebind m f) F Q v.
Proof. intros Hm Hf. apply ewp_bind. eapply ewp_mono; [|exact Hf|exact Hm]. by intros code w. Qed.

(** A loop with the invariant [I] over the part of the array it has done. *)
Lemma ewp_for {V A} (c : contract V) (f : A -> em unit) (I : list A -> V -> Prop) F (l : list A) v :
  I [] v ->
  (forall pre a post w, l = pre ++ a :: post -> I pre w -> ewp c (f a) F (λ _, I (pre ++ [a])) w) ->
  ewp c (efor f l) F (λ _, I l) v.
Proof.
  intros H0 Hstep.
  enough (forall pre post w, l = pre ++ post -> I pre w -> ewp c (efor f post) F (λ _, I l) w) as H by by apply (H []).
  intros pre post. revert pre. induction post as [|a post IH]; intros pre w Hl Hw; cbn [efor].
  - apply ewp_ret. rewrite app_nil_r in Hl. by subst.
  - apply ewp_bind. eapply ewp_mono; [done| |by apply (Hstep pre a post)]. intros [] w' Hw'.
    apply (IH (pre ++ [a])); [|done]. by rewrite <- app_assoc.
Qed.

End Um.

Arguments um E A : clear implicits.
Arguments pm E S A : clear implicits.
Arguments em E A : clear implicits.

Notation "x <~ m ;; k" := (ubind m (λ x, k))
  (at level 100, m at next level, right associativity) : broker_scope.
Notation "m ;~ k" := (ubind m (λ _, k))
  (at level 100, right associativity) : broker_scope.
Notation "x <- m ;; k" := (pmbind m (λ x, k))
  (at level 100, m at next level, right associativity) : broker_scope.
Notation "m ;; k" := (pmbind m (λ _, k))
  (at level 100, right associativity) : broker_scope.
Notation "x <! m ;; k" := (ebind m (λ x, k))
  (at level 100, m at next level, right associativity) : broker_scope.
Notation "m ;! k" := (ebind m (λ _, k))
  (at level 100, right associativity) : broker_scope.

(** Goes through a program listing its calls; [tac] shows that a call is
    allowed. *)
Ltac calls_step tac :=
  lazymatch goal with
  | |- calls _ (ubind (ulift _) _) => apply calls_ubind; [apply calls_ulift|intros ?]
  | |- calls _ (ubind _ _) => apply calls_ubind; [|intros ?]
  | |- calls _ (uret _) => exact I
  | |- calls _ (Ret _) => exact I
  | |- calls _ (match ?x with _ => _ end) => destruct x
  | |- calls _ ((match ?x with _ => _ end) _) => destruct x
  | |- calls _ (let _ := _ in _) => cbv zeta
  | |- calls _ (ucall _) => apply calls_ucall; tac
  | |- calls _ (pmbind _ _ _) => apply calls_pmbind; [|intros ? ?; cbv beta]
  | |- calls _ (prd _ _) => apply calls_prd
  | |- calls _ (pwr _ _) => apply calls_pwr
  | |- calls _ (pcall _ _) => apply calls_pcall; tac
  | |- calls _ (pret _ _) => exact I
  end.
