(* ===== verification/Packet.v ===== *)
(** * Packets: header parsing and the publish payload

    The direct packet access of both kernel programs: the bounds-checked
    header walk ([parse_udp_packet], [refresh_headers]), the command test
    ([starts_with]) and the topic scanner ([extract_topic_id]).  A packet is
    the list of its bytes; [data] is offset 0 and [data_end] its length. *)

From S2P Require Import Prelude.
From Stdlib Require Import String.
From stdpp Require Import base tactics numbers list.
Local Open Scope Z_scope.

(** ** Constants of the wire formats and of the program *)

Definition ETH_P_IP : Z := 0x0800.
Definition IPPROTO_UDP : Z := 17.
Definition sizeof_ethhdr : nat := 14.
Definition sizeof_iphdr : nat := 20.
Definition sizeof_udphdr : nat := 8.
Definition ETH_ALEN : nat := 6.

Definition MAX_TOPIC_ID_CHARS : nat := 20.

(** Offsets of the fields the programs use inside their headers. *)
Definition eth_h_dest : nat := 0.
Definition eth_h_source : nat := 6.
Definition eth_h_proto : nat := 12.
Definition ip_protocol : nat := 9.
Definition ip_check : nat := 10.
Definition ip_saddr : nat := 12.
Definition ip_daddr : nat := 16.
Definition udp_source : nat := 0.
Definition udp_dest : nat := 2.
Definition udp_len : nat := 4.
Definition udp_check : nat := 6.

(** [bpf_probe_read_kernel(dst, n, src)]: the kernel helper that copies [n]
    bytes from [src].  Only its documented effect on a readable source is
    assumed. *)
Class ProbeRead : Type := {
  bpf_probe_read_kernel : list Z -> nat -> nat -> list Z;
  bpf_probe_read_kernel_ok m p n bs :
    load m p n = Some bs -> bpf_probe_read_kernel m p n = bs
}.

(** The header pointers the parsers hand back to their callers. *)
Record hdrs := Hdrs { eth : nat; ip : nat; udp : nat; payload : nat }.

(** ** [parse_udp_packet]

    The outer option is undefined behaviour, the inner one the return code
    (-1 is [None]). *)
Definition parse_udp_packet (f : list Z) : option (option hdrs) :=
  let data := 0%nat in
  let data_end := length f in
  let eth := data in
  if (data_end <? eth + sizeof_ethhdr)%nat then Some None else
  proto ← ld16 f (eth + eth_h_proto);
  if negb (proto =? bswap16 ETH_P_IP) then Some None else
  let ip := (eth + sizeof_ethhdr)%nat in
  if (data_end <? ip + sizeof_iphdr)%nat then Some None else
  protocol ← ld8 f (ip + ip_protocol);
  if negb (protocol =? IPPROTO_UDP) then Some None else
  let udp := (ip + sizeof_iphdr)%nat in
  if (data_end <? udp + sizeof_udphdr)%nat then Some None else
  let payload := (udp + sizeof_udphdr)%nat in
  if (data_end <? payload + 1)%nat then Some None else
  Some (Some (Hdrs eth ip udp payload)).

(** ** [refresh_headers]: the same walk over the linear part of an skb,
    without the payload test.  The payload pointer is the one the caller
    computes from [udp]. *)
Definition refresh_headers (f : list Z) : option (option hdrs) :=
  let data := 0%nat in
  let data_end := length f in
  let eth := data in
  if (data_end <? eth + sizeof_ethhdr)%nat then Some None else
  proto ← ld16 f (eth + eth_h_proto);
  if negb (proto =? bswap16 ETH_P_IP) then Some None else
  let ip := (eth + sizeof_ethhdr)%nat in
  if (data_end <? ip + sizeof_iphdr)%nat then Some None else
  protocol ← ld8 f (ip + ip_protocol);
  if negb (protocol =? IPPROTO_UDP) then Some None else
  let udp := (ip + sizeof_iphdr)%nat in
  if (data_end <? udp + sizeof_udphdr)%nat then Some None else
  Some (Some (Hdrs eth ip udp (udp + sizeof_udphdr))).

(** ** [starts_with]: [prefix] is the literal without its final NUL, where
    the loop stops. *)
Fixpoint starts_with (f : list Z) (p : nat) (prefix : list Z) (data_end : nat) : option bool :=
  match prefix with
  | [] => Some true
  | c :: prefix' =>
      if (data_end <=? p)%nat then Some false else
      b ← ld8 f p;
      if b =? c then starts_with f (S p) prefix' data_end else Some false
  end.

(** ** [extract_topic_id] *)

Definition is_delim (c : Z) : bool := (c =? 32) || (c =? 0) || (c =? 10).

Section Extract.
Context `{!ProbeRead}.

(** The loop from index [i], with [n] iterations left. *)
Fixpoint extract_loop (f : list Z) (s data_end n i : nat) (out_id : list Z) : Z * list Z :=
  match n with
  | O => (0, <[(MAX_TOPIC_ID_CHARS - 1)%nat := 0]> out_id)
  | S n' =>
      if (data_end <? s + i + 1)%nat then (-1, out_id) else
      let c := le_val (bpf_probe_read_kernel f (s + i) 1) in
      if is_delim c then (0, <[i := 0]> out_id)
      else extract_loop f s data_end n' (S i) (<[i := c]> out_id)
  end.

Definition extract_topic_id (f : list Z) (s data_end : nat) (out_id : list Z) : Z * list Z :=
  extract_loop f s data_end MAX_TOPIC_ID_CHARS 0 out_id.
End Extract.

(** The zero-initialised array [char topic_id\[MAX_TOPIC_ID_CHARS\] = {}]. *)
Definition zero_key : list Z := replicate MAX_TOPIC_ID_CHARS 0.

(** ** Specifications *)

(** An IPv4/UDP frame with at least [n] bytes. *)
Definition udp_frame (n : nat) (f : list Z) : bool :=
  (n <=? length f)%nat &&
  bool_decide (f !! 12%nat = Some 8) && bool_decide (f !! 13%nat = Some 0) &&
  bool_decide (f !! 23%nat = Some 17).

(** The header pointers of such a frame. *)
Definition std_hdrs : hdrs := Hdrs 0 14 34 42.

(** The bytes before the first delimiter among the first [n]; [None] when
    the data ends before one is found. *)
Fixpoint scan (n : nat) (bs : list Z) : option (list Z) :=
  match n with
  | O => Some []
  | S n' =>
      match bs with
      | [] => None
      | c :: r => if is_delim c then Some [] else cons c <$> scan n' r
      end
  end.

(** A topic name as a map key: at most 19 bytes, padded with NULs. *)
Definition pad_key (name : list Z) : list Z :=
  take 19 name ++ replicate (20 - length (take 19 name)) 0.

Lemma udp_frame_iff n f :
  udp_frame n f = true <->
  (n <= length f)%nat /\ f !! 12%nat = Some 8 /\ f !! 13%nat = Some 0 /\ f !! 23%nat = Some 17.
Proof.
  unfold udp_frame. rewrite !andb_true_iff, Nat.leb_le, !bool_decide_eq_true. tauto.
Qed.

Lemma udp_frame_length n f : udp_frame n f = true -> (n <= length f)%nat.
Proof. rewrite udp_frame_iff. tauto. Qed.

(** ** Memory lemmas *)

Lemma load_Some m p n bs : load m p n = Some bs <-> (p + n <= length m)%nat /\ bs = take n (drop p m).
Proof.
  unfold load. destruct (p + n <=? length m)%nat eqn:E; split_hyps.
  - split; [by intros [= <-]|by intros [_ ->]].
  - split; [done|lia].
Qed.

Lemma load_length m p n bs : load m p n = Some bs -> length bs = n.
Proof. intros [? ->]%load_Some. rewrite length_take, length_drop. lia. Qed.

Lemma ld8_Some m p : (p < length m)%nat -> exists b, ld8 m p = Some b.
Proof. intros H. by apply lookup_lt_is_Some. Qed.

Lemma load_1 m p b : ld8 m p = Some b -> load m p 1 = Some [b].
Proof.
  unfold ld8. intros H. pose proof (lookup_lt_Some _ _ _ H).
  apply load_Some. split; [lia|]. by rewrite (drop_S m b p H).
Qed.

Lemma load_2 m p a b : ld8 m p = Some a -> ld8 m (S p) = Some b -> load m p 2 = Some [a; b].
Proof.
  unfold ld8. intros Ha Hb. pose proof (lookup_lt_Some _ _ _ Hb).
  apply load_Some. split; [lia|]. by rewrite (drop_S m a p Ha), (drop_S m b (S p) Hb).
Qed.

Lemma ld16_Some m p a b : ld8 m p = Some a -> ld8 m (S p) = Some b -> ld16 m p = Some (a + 256 * b).
Proof. intros Ha Hb. unfold ld16. rewrite (load_2 _ _ _ _ Ha Hb). simpl. f_equal. lia. Qed.

Lemma ld8_byte f p b : bytes_ok f -> ld8 f p = Some b -> is_byte b.
Proof. intros Hf Hb. by apply (Forall_lookup_1 _ _ _ _ Hf Hb). Qed.

Lemma probe_read_1 `{!ProbeRead} f p b :
  ld8 f p = Some b -> le_val (bpf_probe_read_kernel f p 1) = b.
Proof. intros Hb%load_1. rewrite (bpf_probe_read_kernel_ok _ _ _ _ Hb). simpl. lia. Qed.

#[export] Hint Resolve ld8_byte : broker.


(** ** The header walk *)

Lemma ethertype_ip f a b :
  bytes_ok f -> ld8 f 12 = Some a -> ld8 f 13 = Some b ->
  (a + 256 * b =? bswap16 ETH_P_IP) =
    bool_decide (f !! 12%nat = Some 8) && bool_decide (f !! 13%nat = Some 0).
Proof.
  intros Hf Ha Hb. pose proof (ld8_byte _ _ _ Hf Ha). pose proof (ld8_byte _ _ _ Hf Hb).
  unfold ld8, is_byte in *. rewrite Ha, Hb. change (bswap16 ETH_P_IP) with 8.
  apply eq_true_iff_eq. rewrite andb_true_iff, !bool_decide_eq_true, Z.eqb_eq.
  split; [intros; split; f_equal; lia | intros [[=] [=]]; lia].
Qed.

Lemma ipproto_udp f b :
  ld8 f 23 = Some b -> (b =? IPPROTO_UDP) = bool_decide (f !! 23%nat = Some 17).
Proof.
  unfold ld8. intros ->. apply eq_true_iff_eq. rewrite bool_decide_eq_true, Z.eqb_eq.
  unfold IPPROTO_UDP. naive_solver.
Qed.

(** Both parsers agree with [udp_frame]; they differ in the bytes they
    demand after the UDP header. *)
Ltac walk_byte f n b Hb := destruct (ld8_Some f n) as [b Hb]; [lia|].
Ltac walk_bound f k := destruct (length f <? k)%nat eqn:?; split_hyps; [done || lia|].
Ltac solve_walk_case f Hf :=
  walk_bound f 14%nat;
  (let a := fresh "a" in let Ha := fresh "Ha" in let b := fresh "b" in let Hb := fresh "Hb" in
   walk_byte f 12%nat a Ha; (walk_byte f 13%nat b Hb);
   rewrite (ld16_Some _ _ _ _ Ha Hb); simpl; rewrite (ethertype_ip _ _ _ Hf Ha Hb));
  (destruct (bool_decide (f !! 12%nat = Some 8) && bool_decide (f !! 13%nat = Some 0)); [|done]);
  simpl; (walk_bound f 34%nat);
  (let c := fresh "c" in let Hc := fresh "Hc" in
   walk_byte f 23%nat c Hc; rewrite Hc; simpl; rewrite (ipproto_udp _ _ Hc));
  (destruct (bool_decide (f !! 23%nat = Some 17)); [|done]);
  simpl; (walk_bound f 42%nat); try (walk_bound f 43%nat); done || lia.
Ltac solve_walk f Hf n :=
  unfold udp_frame; simpl Nat.add;
  destruct (n <=? length f)%nat eqn:?; split_hyps; simpl; solve_walk_case f Hf.

Lemma parse_udp_packet_eq f :
  bytes_ok f -> parse_udp_packet f = Some (if udp_frame 43 f then Some std_hdrs else None).
Proof.
  intros Hf. unfold parse_udp_packet, eth_h_proto, ip_protocol, sizeof_ethhdr, sizeof_iphdr,
    sizeof_udphdr. solve_walk f Hf 43%nat.
Qed.

Lemma refresh_headers_eq f :
  bytes_ok f -> refresh_headers f = Some (if udp_frame 42 f then Some std_hdrs else None).
Proof.
  intros Hf. unfold refresh_headers, eth_h_proto, ip_protocol, sizeof_ethhdr, sizeof_iphdr,
    sizeof_udphdr. solve_walk f Hf 42%nat.
Qed.

(** ** The command test *)

Lemma starts_with_eq f p prefix :
  starts_with f p prefix (length f) = Some (bool_decide (prefix = take (length prefix) (drop p f))).
Proof.
  revert p. induction prefix as [|c prefix IH]; intros p; simpl; [done|].
  destruct (length f <=? p)%nat eqn:E; split_hyps.
  { rewrite drop_ge by done. by rewrite bool_decide_eq_false_2. }
  destruct (ld8_Some f p) as [b Hb]; [lia|]. rewrite Hb. simpl. unfold ld8 in Hb.
  rewrite (drop_S f b p Hb). simpl.
  destruct (b =? c) eqn:Ebc; split_hyps; subst.
  - rewrite IH. f_equal. apply bool_decide_ext. split; [by intros <-|congruence].
  - rewrite bool_decide_eq_false_2; [done|]. congruence.
Qed.

(** ** The topic scanner *)

Lemma insert_replicate_pad (pre : list Z) n x :
  (0 < n)%nat ->
  <[length pre := x]> (pre ++ replicate n 0) = (pre ++ [x]) ++ replicate (n - 1) 0.
Proof.
  intros Hn. rewrite insert_app_r_alt by done. rewrite Nat.sub_diag, <- app_assoc. f_equal.
  destruct n; [lia|]. simpl. by rewrite Nat.sub_0_r.
Qed.

Lemma pad_key_length name : length (pad_key name) = MAX_TOPIC_ID_CHARS.
Proof.
  unfold pad_key, MAX_TOPIC_ID_CHARS. rewrite length_app, length_replicate.
  pose proof (length_take name 19). lia.
Qed.

Lemma extract_loop_eq `{!ProbeRead} f s n pre :
  (length pre + n = MAX_TOPIC_ID_CHARS)%nat -> (0 < length pre + n)%nat ->
  match scan n (drop (s + length pre) f) with
  | None => exists out,
      extract_loop f s (length f) n (length pre) (pre ++ replicate n 0) = (-1, out)
  | Some name =>
      extract_loop f s (length f) n (length pre) (pre ++ replicate n 0) = (0, pad_key (pre ++ name))
  end.
Proof.
  unfold MAX_TOPIC_ID_CHARS. revert pre. induction n as [|n IH]; intros pre Hlen Hpos.
  - simpl. rewrite !app_nil_r. f_equal. unfold pad_key, MAX_TOPIC_ID_CHARS.
    assert (length (take 19 pre) = 19%nat) as -> by (rewrite length_take; lia).
    rewrite <- (take_drop 19 pre) at 1.
    rewrite insert_app_r_alt by (rewrite length_take; lia).
    rewrite length_take. replace (length pre) with 20%nat by lia. f_equal.
    assert (length (drop 19 pre) = 1%nat) as Hd by (rewrite length_drop; lia).
    destruct (drop 19 pre) as [|x [|y l]]; simpl in *; try lia; done.
  - cbn [extract_loop scan].
    destruct (length f <? s + length pre + 1)%nat eqn:E; split_hyps.
    { rewrite drop_ge by lia. eauto. }
    destruct (ld8_Some f (s + length pre)) as [c Hc]; [lia|].
    rewrite (probe_read_1 _ _ _ Hc). unfold ld8 in Hc.
    rewrite (drop_S f c _ Hc). cbv beta iota zeta.
    destruct (is_delim c).
    + rewrite insert_replicate_pad by lia. f_equal. rewrite app_nil_r. unfold pad_key.
      rewrite take_ge by lia. rewrite <- app_assoc.
      replace (20 - length pre)%nat with (S n) by lia. simpl. by rewrite Nat.sub_0_r.
    + rewrite insert_replicate_pad by lia. rewrite Nat.sub_succ, Nat.sub_0_r.
      specialize (IH (pre ++ [c])). rewrite length_app in IH. simpl in IH.
      replace (s + (length pre + 1))%nat with (S (s + length pre)) in IH by lia.
      replace (length pre + 1)%nat with (S (length pre)) in IH by lia.
      specialize (IH ltac:(lia) ltac:(lia)).
      destruct (scan n (drop (S (s + length pre)) f)) as [name|]; simpl; [|exact IH].
      rewrite IH. do 2 f_equal. by rewrite <- app_assoc.
Qed.

(** ** Sample packets

    The helper as a plain copy, and concrete frames on which the theorems
    are instantiated. *)
#[export] Instance direct_read : ProbeRead := {|
  bpf_probe_read_kernel m p n := default (replicate n 0) (load m p n);
  bpf_probe_read_kernel_ok m p n bs H := f_equal (default (replicate n 0)) H
|}.

(** A UDP datagram from 10.0.0.1:40000 to 10.0.0.2:[port] with a zero UDP
    checksum field; [pad] follows the datagram in the frame. *)
Definition sample_frame (port : Z) (body pad : list Z) : list Z :=
  let ulen := 8 + Z.of_nat (length body) in
  [2; 0; 0; 0; 0; 2] ++ [2; 0; 0; 0; 0; 1] ++ [8; 0] ++
  [0x45; 0] ++ rev (le_bytes 2 (20 + ulen)) ++ [0; 0; 0x40; 0; 64; 17; 0; 0] ++
  [10; 0; 0; 1] ++ [10; 0; 0; 2] ++
  rev (le_bytes 2 40000) ++ rev (le_bytes 2 port) ++ rev (le_bytes 2 ulen) ++ [0; 0] ++
  body ++ pad.

(** "PUBLISH t hello", even length, and the same with one more byte. *)
Definition publish_even : list Z := sample_frame 49152 (bytes_of_string "PUBLISH t hell") [].
Definition publish_odd : list Z := sample_frame 49152 (bytes_of_string "PUBLISH t hello") [].
Definition publish_long : list Z :=
  sample_frame 49152 (bytes_of_string "PUBLISH t " ++ repeat 97 300) [].

(** ** Properties *)

(** C28. On every packet both header walks return without leaving the buffer,
    and succeed exactly on IPv4/UDP frames long enough for what the caller
    reads: 43 bytes for [parse_udp_packet], 42 for [refresh_headers]. *)
Theorem header_walk_safe f :
  bytes_ok f ->
  parse_udp_packet f = Some (if udp_frame 43 f then Some std_hdrs else None) /\
  refresh_headers f = Some (if udp_frame 42 f then Some std_hdrs else None).
Proof. split; [by apply parse_udp_packet_eq|by apply refresh_headers_eq]. Qed.

Lemma header_walk_safe_witness :
  parse_udp_packet publish_even = Some (Some std_hdrs) /\
  refresh_headers (take 42 publish_even) = Some (Some std_hdrs) /\
  parse_udp_packet (take 42 publish_even) = Some None.
Proof.
  destruct (header_walk_safe publish_even) as [H1 _]; [decide_goal|].
  destruct (header_walk_safe (take 42 publish_even)) as [H2 H3]; [decide_goal|].
  rewrite H1, H2, H3. split_and!; vm_compute; reflexivity.
Defined.

(** [starts_with] never reads past the packet and answers whether the
    bytes at the payload pointer begin with the prefix. *)
Theorem starts_with_correct f p prefix :
  starts_with f p prefix (length f) = Some (bool_decide (prefix = take (length prefix) (drop p f))).
Proof. apply starts_with_eq. Qed.

(** C27. [extract_topic_id] on a zeroed array computes the topic key of the
    bytes at [s]: the name up to the first blank, NUL or newline, cut to 19
    bytes and padded to 20; it fails exactly when the packet ends before a
    delimiter and before 20 bytes. *)
Theorem extract_topic_id_correct `{!ProbeRead} f s :
  match scan MAX_TOPIC_ID_CHARS (drop s f) with
  | Some name => extract_topic_id f s (length f) zero_key = (0, pad_key name)
  | None => exists out, extract_topic_id f s (length f) zero_key = (-1, out)
  end.
Proof.
  pose proof (extract_loop_eq f s 20 [] eq_refl ltac:(simpl; lia)) as He.
  cbn [length app] in He. rewrite Nat.add_0_r in He.
  unfold extract_topic_id, zero_key, MAX_TOPIC_ID_CHARS.
  destruct (scan 20 (drop s f)); exact He.
Qed.
