(* ===== verification/Checksum.v ===== *)
(** * Internet checksums

    [compute_ip_checksum] and [compute_udp_checksum] of the two kernel
    programs, and the theory that relates them to RFC 1071: the one's
    complement sum of the 16-bit words of a datagram.  The programs add the
    words as the little-endian host loads them; a one's complement sum does
    not depend on the byte order, so the reference sum is taken over the
    same words. *)

From S2P Require Import Prelude Packet.
From stdpp Require Import base tactics numbers list.
Local Open Scope Z_scope.

(** ** The code *)

(** [csum = (csum & 0xffff) + (csum >> 16)] on a [__u32]. *)
Definition fold16 (csum : Z) : Z := u32 (Z.land csum 0xffff + Z.shiftr csum 16).

(** The word loop of [compute_ip_checksum], [n] words left. *)
Fixpoint ip_words (f : list Z) (n ptr : nat) (csum : Z) : option Z :=
  match n with
  | O => Some csum
  | S n' => word ← ld16 f ptr; ip_words f n' (ptr + 2) (u32 (csum + word))
  end.

Definition compute_ip_checksum (f : list Z) (ip : nat) : option Z :=
  csum ← ip_words f (Nat.div2 sizeof_iphdr) ip 0;
  let csum := fold16 csum in
  let csum := fold16 csum in
  Some (u16 (Z.lnot csum)).

Section Udp.
Context `{!ProbeRead}.

(** The word loop of [compute_udp_checksum]: [n] iterations left before
    the unroll bound, returning the pointer and the sum. *)
Fixpoint udp_words (f : list Z) (data_end : nat) (len : Z) (n : nat) (i : Z)
    (ptr : nat) (csum : Z) : nat * Z :=
  match n with
  | O => (ptr, csum)
  | S n' =>
      if (data_end <? ptr + 2)%nat || (len <=? Z.shiftl i 1) then (ptr, csum) else
      let word := le_val (bpf_probe_read_kernel f ptr 2) in
      udp_words f data_end len n' (i + 1) (ptr + 2) (u32 (csum + word))
  end.

(** The function with its unroll bound as an argument; the two programs
    differ in nothing else. *)
Definition udp_checksum_upto (bound : nat) (f : list Z) (ip udp data_end : nat) : option Z :=
  len ← ld16 f (udp + udp_len);
  let udp_len := bswap16 len in
  saddr ← ld32 f (ip + ip_saddr);
  daddr ← ld32 f (ip + ip_daddr);
  let csum := u32 (0 + u16 (Z.shiftr saddr 16)) in
  let csum := u32 (csum + u16 (Z.land saddr 0xffff)) in
  let csum := u32 (csum + u16 (Z.shiftr daddr 16)) in
  let csum := u32 (csum + u16 (Z.land daddr 0xffff)) in
  let csum := u32 (csum + bswap16 IPPROTO_UDP) in
  let csum := u32 (csum + len) in
  let '(ptr, csum) := udp_words f data_end udp_len bound 0 udp csum in
  let csum :=
    if negb (Z.land udp_len 1 =? 0) then
      if (ptr <? data_end)%nat then
        u32 (csum + Z.shiftl (u16 (le_val (bpf_probe_read_kernel f ptr 1))) 8)
      else csum
    else csum in
  let csum := fold16 csum in
  let csum := fold16 csum in
  Some (u16 (Z.lnot csum)).

(** 128 words: "Up to 256 bytes". *)
Definition compute_udp_checksum (f : list Z) (ip udp payload_start data_end : nat) : option Z :=
  udp_checksum_upto 128 f ip udp data_end.
End Udp.

(** ** RFC 1071 *)

(** The 16-bit words of a byte string; an odd last byte is padded with zero. *)
Fixpoint words (bs : list Z) : list Z :=
  match bs with
  | [] => []
  | [b] => [b]
  | a :: b :: r => (a + 256 * b) :: words r
  end.

(** One's complement addition: the carry is added back in. *)
Definition oc_add (a b : Z) : Z := Z.land (a + b) 0xffff + Z.shiftr (a + b) 16.
Definition oc_sum (ws : list Z) : Z := fold_left oc_add ws 0.

(** The checksum of a byte string, and the receiver's test: the sum of all
    words, the checksum field included, is all ones. *)
Definition rfc1071 (bs : list Z) : Z := 0xffff - oc_sum (words bs).
Definition rfc1071_valid (bs : list Z) : Prop := oc_sum (words bs) = 0xffff.

#[global] Instance rfc1071_valid_dec bs : Decision (rfc1071_valid bs).
Proof. unfold rfc1071_valid. apply _. Defined.

(** What a receiver checks of a frame: the IP header sum, and the UDP sum
    over the pseudo-header and the [len] bytes of the datagram. *)
Definition ip_header (f : list Z) : list Z := take 20 (drop 14 f).
Definition udp_length (f : list Z) : Z := bswap16 (le_val (take 2 (drop 38 f))).
Definition pseudo_header (f : list Z) : list Z :=
  take 8 (drop 26 f) ++ [0; IPPROTO_UDP] ++ take 2 (drop 38 f).
Definition udp_segment (f : list Z) : list Z := take (Z.to_nat (udp_length f)) (drop 34 f).

Definition ip_valid (f : list Z) : Prop := rfc1071_valid (ip_header f).
Definition udp_valid (f : list Z) : Prop := rfc1071_valid (pseudo_header f ++ udp_segment f).

#[global] Instance ip_valid_dec f : Decision (ip_valid f).
Proof. unfold ip_valid. apply _. Defined.
#[global] Instance udp_valid_dec f : Decision (udp_valid f).
Proof. unfold udp_valid. apply _. Defined.

(** ** Sums *)

Definition sum16 (bs : list Z) : Z := foldr Z.add 0 (words bs).

(** The value the end-around carries converge to. *)
Definition norm16 (s : Z) : Z := if s =? 0 then 0 else (s - 1) mod 65535 + 1.

Lemma pair_ind (P : list Z -> Prop) :
  P [] -> (forall b, P [b]) -> (forall a b r, P r -> P (a :: b :: r)) -> forall l, P l.
Proof.
  intros H0 H1 H2 l. enough (P l /\ forall a, P (a :: l)) by tauto.
  induction l as [|b l [IH1 IH2]]; split; auto.
Qed.

Lemma sum16_app a b : Nat.Even (length a) -> sum16 (a ++ b) = sum16 a + sum16 b.
Proof.
  induction a as [|x|x y r IH] using pair_ind; intros Hev; [done| |].
  - destruct Hev as [k Hk]. simpl in Hk. lia.
  - unfold sum16 in *. simpl. rewrite IH; [lia|]. destruct Hev as [k Hk]. simpl in Hk.
    exists (k - 1)%nat. lia.
Qed.

Lemma words_range bs : bytes_ok bs -> Forall (λ w, 0 <= w < 65536) (words bs).
Proof.
  induction bs as [|b|a b r IH] using pair_ind; intros Hb; simpl; [done| |].
  - inversion Hb as [|?? Ha _]. unfold is_byte in Ha. repeat constructor; lia.
  - inversion Hb as [|?? Ha Hb']. inversion Hb' as [|?? Hb1 Hr]. subst. unfold is_byte in *.
    constructor; [lia|by apply IH].
Qed.

Lemma sum16_range bs : bytes_ok bs -> 0 <= sum16 bs <= 65535 * ((Z.of_nat (length bs) + 1) / 2).
Proof.
  induction bs as [|b|a b r IH] using pair_ind; intros Hb; unfold sum16 in *; simpl; [done| |].
  - inversion Hb as [|?? Ha _]. unfold is_byte in Ha. dlia.
  - inversion Hb as [|?? Ha Hb']. inversion Hb' as [|?? Hb1 Hr]. subst. unfold is_byte in *.
    specialize (IH Hr). rewrite !Nat2Z.inj_succ. dlia.
Qed.

Lemma oc_add_norm s w : 0 <= s -> 0 <= w < 65536 -> oc_add (norm16 s) w = norm16 (s + w).
Proof.
  intros Hs Hw. unfold oc_add, norm16. rewrite land_ffff, (shiftr_div _ 16 65536) by done.
  destruct (s =? 0) eqn:E1, (s + w =? 0) eqn:E2; split_hyps; dlia.
Qed.

Lemma oc_sum_norm ws : Forall (λ w, 0 <= w < 65536) ws -> oc_sum ws = norm16 (foldr Z.add 0 ws).
Proof.
  intros Hws. unfold oc_sum.
  enough (forall s, 0 <= s -> fold_left oc_add ws (norm16 s) = norm16 (s + foldr Z.add 0 ws)) as H
    by (by apply (H 0)).
  induction Hws as [|w ws Hw Hws IH]; intros s Hs; simpl; [f_equal; lia|].
  rewrite oc_add_norm, IH by lia. f_equal. lia.
Qed.

Lemma oc_sum_sum16 bs : bytes_ok bs -> oc_sum (words bs) = norm16 (sum16 bs).
Proof. intros H. by apply oc_sum_norm, words_range. Qed.

Lemma norm16_range s : 0 <= s -> 0 <= norm16 s <= 65535.
Proof. intros. unfold norm16. case_goal; dlia. Qed.

Lemma norm16_full s : 0 <= s -> norm16 s = 65535 <-> 0 < s /\ s mod 65535 = 0.
Proof. intros. unfold norm16. case_goal; split_hyps; dlia. Qed.

Lemma norm16_cong s : 0 <= s -> (s - norm16 s) mod 65535 = 0.
Proof. intros. unfold norm16. case_goal; split_hyps; dlia. Qed.

(** The receiver's test in plain arithmetic. *)
Lemma rfc1071_valid_iff bs :
  bytes_ok bs -> rfc1071_valid bs <-> 0 < sum16 bs /\ sum16 bs mod 65535 = 0.
Proof.
  intros H. unfold rfc1071_valid. rewrite oc_sum_sum16 by done.
  apply norm16_full. pose proof (sum16_range bs H). lia.
Qed.

(** ** The folding of the code *)

Lemma fold16_twice s : 0 <= s < 2 ^ 32 -> fold16 (fold16 s) = norm16 s.
Proof.
  intros Hs. unfold fold16, norm16, u32. rewrite !land_ffff, !(shiftr_div _ 16 65536) by done.
  rewrite (Z.mod_small (s mod 65536 + s / 65536)) by dlia.
  rewrite Z.mod_small by dlia. case_goal; split_hyps; dlia.
Qed.

Lemma u16_lnot s : 0 <= s <= 65535 -> u16 (Z.lnot s) = 65535 - s.
Proof. intros. unfold u16, Z.lnot, Z.pred. dlia. Qed.

Lemma finish_checksum s :
  0 <= s < 2 ^ 32 -> u16 (Z.lnot (fold16 (fold16 s))) = 65535 - norm16 s.
Proof. intros. rewrite fold16_twice by done. apply u16_lnot, norm16_range. lia. Qed.

(** Filling a zeroed checksum field makes the string verify. *)
Lemma checksum_fill a b :
  bytes_ok a -> bytes_ok b -> Nat.Even (length a) -> 0 < sum16 (a ++ [0; 0] ++ b) ->
  rfc1071_valid (a ++ le_bytes 2 (65535 - norm16 (sum16 (a ++ [0; 0] ++ b))) ++ b).
Proof.
  intros Ha Hb Hev Hpos. set (s := sum16 _) in *.
  pose proof (norm16_range s ltac:(lia)) as Hn. pose proof (norm16_cong s ltac:(lia)) as Hc.
  set (c := 65535 - norm16 s) in *.
  assert (sum16 (a ++ le_bytes 2 c ++ b) = s + c) as Hs.
  { assert (s = sum16 a + sum16 b) as Hab by (subst s; by rewrite sum16_app).
    rewrite sum16_app by done. change (sum16 (le_bytes 2 c ++ b)) with
      (c mod 256 + 256 * (c / 256 mod 256) + sum16 b). subst c. dlia. }
  apply rfc1071_valid_iff.
  - apply Forall_app; split; [done|]. apply Forall_app; split; [apply le_bytes_ok|done].
  - rewrite Hs. split; [lia|]. subst c. dlia.
Qed.

(** ** What the two functions compute *)

Lemma bytes_ok_take n f : bytes_ok f -> bytes_ok (take n f).
Proof. apply Forall_take. Qed.

Lemma bytes_ok_drop n f : bytes_ok f -> bytes_ok (drop n f).
Proof. apply Forall_drop. Qed.

Lemma bytes_ok_app a b : bytes_ok a -> bytes_ok b -> bytes_ok (a ++ b).
Proof. intros. by apply Forall_app. Qed.

Lemma bytes_ok_00 : bytes_ok [0; 0].
Proof. by repeat constructor. Qed.

Lemma bytes_ok_udp : bytes_ok [0; IPPROTO_UDP].
Proof. by repeat constructor. Qed.

#[export] Hint Resolve bytes_ok_take bytes_ok_drop bytes_ok_app le_bytes_ok bytes_ok_00 bytes_ok_udp : broker.

Lemma take_drop_2 (f : list Z) p :
  (p + 2 <= length f)%nat ->
  exists a b, f !! p = Some a /\ f !! S p = Some b /\ forall n, take (S (S n)) (drop p f) = a :: b :: take n (drop (p + 2) f).
Proof.
  intros Hlen. destruct (ld8_Some f p) as [a Ha]; [lia|]. destruct (ld8_Some f (S p)) as [b Hb]; [lia|].
  exists a, b. split_and!; [done|done|]. intros n.
  rewrite (drop_S f a p Ha), (drop_S f b (S p) Hb). simpl. by replace (p + 2)%nat with (S (S p)) by lia.
Qed.

Lemma sum16_cons2 a b r : sum16 (a :: b :: r) = a + 256 * b + sum16 r.
Proof. done. Qed.

Lemma ip_words_eq f n p csum :
  bytes_ok f -> (p + 2 * n <= length f)%nat -> 0 <= csum -> csum + 65535 * Z.of_nat n < 2 ^ 32 ->
  ip_words f n p csum = Some (csum + sum16 (take (2 * n) (drop p f))).
Proof.
  intros Hf. revert p csum. induction n as [|n IH]; intros p csum Hp H0 Hb.
  { unfold sum16. simpl. f_equal. lia. }
  destruct (take_drop_2 f p) as (a & b & Ha & Hbb & Htk); [lia|].
  replace (2 * S n)%nat with (S (S (2 * n))) by lia. rewrite Htk, sum16_cons2. cbn [ip_words].
  rewrite (ld16_Some _ _ _ _ Ha Hbb). cbn [mbind option_bind].
  pose proof (ld8_byte _ _ _ Hf Ha) as Ra. pose proof (ld8_byte _ _ _ Hf Hbb) as Rb. unfold is_byte in *.
  rewrite u32_small by lia. rewrite IH by lia. f_equal. lia.
Qed.

Lemma compute_ip_checksum_eq f p :
  bytes_ok f -> (p + 20 <= length f)%nat ->
  compute_ip_checksum f p = Some (65535 - norm16 (sum16 (take 20 (drop p f)))).
Proof.
  intros Hf Hp. unfold compute_ip_checksum. change (Nat.div2 sizeof_iphdr) with 10%nat.
  rewrite ip_words_eq by (try done; lia). cbn [mbind option_bind]. rewrite Z.add_0_l.
  change (2 * 10)%nat with 20%nat. set (t := take 20 (drop p f)).
  assert (length t <= 20)%nat by (subst t; rewrite length_take; lia).
  pose proof (sum16_range t ltac:(subst t; auto with broker)).
  rewrite finish_checksum by dlia. done.
Qed.

Lemma ld16_le f p : (p + 2 <= length f)%nat -> ld16 f p = Some (le_val (take 2 (drop p f))).
Proof. intros H. unfold ld16, load. by rewrite (proj2 (Nat.leb_le _ _)). Qed.

Lemma ld32_le f p : (p + 4 <= length f)%nat -> ld32 f p = Some (le_val (take 4 (drop p f))).
Proof. intros H. unfold ld32, load. by rewrite (proj2 (Nat.leb_le _ _)). Qed.

Lemma probe_read_2 `{!ProbeRead} f p a b :
  ld8 f p = Some a -> ld8 f (S p) = Some b -> le_val (bpf_probe_read_kernel f p 2) = a + 256 * b.
Proof.
  intros Ha Hb. rewrite (bpf_probe_read_kernel_ok _ _ _ _ (load_2 _ _ _ _ Ha Hb)). simpl. lia.
Qed.

(** The two halves of a 32-bit field are the two words of its bytes. *)
Lemma halves_sum f p :
  bytes_ok f -> (p + 4 <= length f)%nat ->
  let v := le_val (take 4 (drop p f)) in
  u16 (Z.shiftr v 16) + u16 (Z.land v 0xffff) = sum16 (take 4 (drop p f)).
Proof.
  intros Hf Hp v. subst v.
  destruct (take_drop_2 f p) as (a & b & Ha & Hb & H1); [lia|].
  destruct (take_drop_2 f (p + 2)) as (c & d & Hc & Hd & H2); [lia|].
  rewrite H1, H2, take_0. cbn [le_val]. rewrite !sum16_cons2. change (sum16 []) with 0.
  pose proof (ld8_byte _ _ _ Hf Ha) as Ra. pose proof (ld8_byte _ _ _ Hf Hb) as Rb.
  pose proof (ld8_byte _ _ _ Hf Hc) as Rc. pose proof (ld8_byte _ _ _ Hf Hd) as Rd. unfold is_byte in *.
  unfold u16. rewrite land_ffff, (shiftr_div _ 16 65536) by done. dlia.
Qed.

Lemma pseudo_header_length f : (42 <= length f)%nat -> length (pseudo_header f) = 12%nat.
Proof.
  intros. unfold pseudo_header. rewrite !length_app, !length_take, !length_drop. cbn [length]. lia.
Qed.

Lemma pseudo_header_sum f :
  (42 <= length f)%nat ->
  sum16 (pseudo_header f) =
    sum16 (take 4 (drop 26 f)) + sum16 (take 4 (drop 30 f)) + 4352 + sum16 (take 2 (drop 38 f)).
Proof.
  intros Hlen. unfold pseudo_header.
  rewrite sum16_app by (rewrite length_take, length_drop; exists 4%nat; lia).
  rewrite sum16_app by (by exists 1%nat). change (sum16 [0; IPPROTO_UDP]) with 4352.
  pose proof (take_take_drop (drop 26 f) 4 4) as H8. rewrite drop_drop in H8. simpl Nat.add in H8.
  rewrite <- H8, sum16_app by (rewrite length_take, length_drop; exists 2%nat; lia). lia.
Qed.

(** Words the loop adds: the bound, the data and the length field all stop it. *)
Definition udp_words_read (f : list Z) (len : Z) (n : nat) (i : Z) (ptr : nat) : nat :=
  (n `min` (Nat.div2 (length f - ptr) `min` Z.to_nat ((len - 2 * i + 1) / 2)))%nat.

(** The byte added after the loop when the length is odd. *)
Definition udp_tail (f : list Z) (k : nat) : Z :=
  if Z.odd (udp_length f) then 256 * default 0 (f !! (34 + 2 * k)%nat) else 0.

(** The checksum the code stores, for any length field. *)
Definition udp_check_value (bound : nat) (f : list Z) : Z :=
  let k := udp_words_read f (udp_length f) bound 0 34 in
  65535 - norm16 (sum16 (pseudo_header f) + sum16 (take (2 * k) (drop 34 f)) + udp_tail f k).

Section UdpSum.
Context `{!ProbeRead}.

Lemma udp_words_eq f len n i ptr csum :
  bytes_ok f -> 0 <= i -> 0 <= csum -> csum + 65535 * Z.of_nat n < 2 ^ 32 ->
  let k := udp_words_read f len n i ptr in
  udp_words f (length f) len n i ptr csum =
    ((ptr + 2 * k)%nat, csum + sum16 (take (2 * k) (drop ptr f))).
Proof.
  intros Hf. unfold udp_words_read. revert i ptr csum.
  induction n as [|n IH]; intros i ptr csum Hi H0 Hb; cbv zeta.
  { simpl. unfold sum16. simpl. f_equal; lia. }
  cbn [udp_words]. rewrite Z.shiftl_mul_pow2 by done. change (2 ^ 1) with 2.
  destruct (length f <? ptr + 2)%nat eqn:E1; split_hyps; cbn [orb].
  { replace (Nat.div2 (length f - ptr)) with 0%nat
      by (destruct (length f - ptr)%nat as [|[|m]] eqn:E; [done|done|lia]).
    rewrite Nat.min_0_l, Nat.min_0_r. unfold sum16. simpl. f_equal; lia. }
  destruct (len <=? i * 2) eqn:E2; split_hyps.
  { replace (Z.to_nat ((len - 2 * i + 1) / 2)) with 0%nat by dlia.
    rewrite !Nat.min_0_r. unfold sum16. simpl. f_equal; lia. }
  destruct (take_drop_2 f ptr) as (a & b & Ha & Hbb & Htk); [lia|].
  rewrite (probe_read_2 _ _ _ _ Ha Hbb).
  pose proof (ld8_byte _ _ _ Hf Ha) as Ra. pose proof (ld8_byte _ _ _ Hf Hbb) as Rb. unfold is_byte in *.
  rewrite u32_small by lia. rewrite IH by lia. clear IH.
  replace (Nat.div2 (length f - ptr)) with (S (Nat.div2 (length f - (ptr + 2))))
    by (replace (length f - ptr)%nat with (S (S (length f - (ptr + 2)))) by lia; done).
  replace (Z.to_nat ((len - 2 * i + 1) / 2)) with (S (Z.to_nat ((len - 2 * (i + 1) + 1) / 2))) by dlia.
  rewrite <- !Nat.succ_min_distr. set (k := (n `min` _)%nat).
  replace (2 * S k)%nat with (S (S (2 * k))) by lia. rewrite Htk, sum16_cons2. f_equal; lia.
Qed.
End UdpSum.

Lemma udp_length_range f : bytes_ok f -> 0 <= udp_length f < 65536.
Proof.
  intros Hf. apply bswap16_range.
  pose proof (le_val_range (take 2 (drop 38 f)) ltac:(auto with broker)) as H.
  assert (length (take 2 (drop 38 f)) <= 2)%nat by (rewrite length_take; lia).
  pose proof (Z.pow_le_mono_r 256 (Z.of_nat (length (take 2 (drop 38 f)))) 2). lia.
Qed.

Lemma land_1_odd z : negb (Z.land z 1 =? 0) = Z.odd z.
Proof.
  change 1 with (Z.ones 1) at 1. rewrite Z.land_ones by done. change (2 ^ 1) with 2.
  rewrite Zmod_odd. by destruct (Z.odd z).
Qed.

Section UdpChecksum.
Context `{!ProbeRead}.

Lemma udp_checksum_upto_value bound f :
  bytes_ok f -> (42 <= length f)%nat -> (bound <= 4096)%nat ->
  udp_checksum_upto bound f 14 34 (length f) = Some (udp_check_value bound f).
Proof.
  intros Hf Hlen Hbd. unfold udp_check_value. set (k := udp_words_read _ _ _ _ _).
  unfold udp_checksum_upto, ip_saddr, ip_daddr, udp_len. simpl Nat.add.
  rewrite ld16_le, !ld32_le by lia. cbn [mbind option_bind].
  pose proof (halves_sum f 26 Hf ltac:(lia)) as Hs. pose proof (halves_sum f 30 Hf ltac:(lia)) as Hd.
  cbv zeta in Hs, Hd.
  set (sa := le_val (take 4 (drop 26 f))) in *. set (da := le_val (take 4 (drop 30 f))) in *.
  pose proof (u16_range (Z.shiftr sa 16)). pose proof (u16_range (Z.land sa 0xffff)).
  pose proof (u16_range (Z.shiftr da 16)). pose proof (u16_range (Z.land da 0xffff)).
  assert (sum16 (take 2 (drop 38 f)) = le_val (take 2 (drop 38 f)) /\
          0 <= le_val (take 2 (drop 38 f)) < 65536) as [Hl Hlr].
  { destruct (take_drop_2 f 38) as (a & b & Ha & Hb & ->); [lia|]. rewrite take_0.
    pose proof (ld8_byte _ _ _ Hf Ha). pose proof (ld8_byte _ _ _ Hf Hb). unfold is_byte in *.
    cbn [le_val]. unfold sum16. simpl. lia. }
  fold (udp_length f). change (bswap16 IPPROTO_UDP) with 4352.
  pose proof (pseudo_header_sum f Hlen) as Hp.
  u32_simpl. rewrite (udp_words_eq f _ bound 0 34) by (done || lia). fold k.
  set (t := take (2 * k) (drop 34 f)).
  assert (length t <= 2 * 4096)%nat.
  { subst t k. unfold udp_words_read. rewrite length_take. lia. }
  pose proof (sum16_range t ltac:(subst t; auto with broker)).
  assert (sum16 t <= 65535 * 4096) by dlia.
  assert (forall s, 0 <= s < 2 ^ 32 -> s = sum16 (pseudo_header f) + sum16 t + udp_tail f k ->
    Some (u16 (Z.lnot (fold16 (fold16 s)))) =
    Some (65535 - norm16 (sum16 (pseudo_header f) + sum16 t + udp_tail f k))) as Hfin.
  { intros s Hr ->. by rewrite finish_checksum. }
  rewrite land_1_odd. destruct (Z.odd (udp_length f)) eqn:Eodd.
  2: { apply Hfin; [lia|]. unfold udp_tail. rewrite Eodd. lia. }
  destruct (34 + 2 * k <? length f)%nat eqn:Ek; split_hyps.
  - destruct (ld8_Some f (34 + 2 * k)) as [b Hb]; [lia|]. rewrite (probe_read_1 _ _ _ Hb).
    pose proof (ld8_byte _ _ _ Hf Hb). unfold ld8, is_byte in *.
    assert (udp_tail f k = 256 * b) by (unfold udp_tail; by rewrite Eodd, Hb).
    rewrite Z.shiftl_mul_pow2, (u16_small b) by lia. u32_simpl. apply Hfin; lia.
  - apply Hfin; [lia|]. unfold udp_tail. rewrite Eodd, lookup_ge_None_2 by lia. simpl. lia.
Qed.
End UdpChecksum.

(** ** When the stored value is the right one *)

Lemma udp_words_read_exact f bound k :
  (k <= bound)%nat -> (34 + 2 * k <= length f)%nat ->
  udp_length f = 2 * Z.of_nat k \/ udp_length f = 2 * Z.of_nat k - 1 ->
  udp_words_read f (udp_length f) bound 0 34 = k.
Proof.
  intros Hk Hfit HL. unfold udp_words_read. rewrite Nat.div2_div.
  assert (k <= (length f - 34) / 2)%nat by (apply Nat.div_le_lower_bound; lia).
  replace ((udp_length f - 2 * 0 + 1) / 2) with (Z.of_nat k) by dlia. lia.
Qed.

Lemma sum16_snoc bs b : Nat.Even (length bs) -> sum16 (bs ++ [b]) = sum16 bs + b.
Proof. intros H. rewrite sum16_app by done. unfold sum16. simpl. lia. Qed.

Lemma sum16_pseudo_app f bs :
  (42 <= length f)%nat -> sum16 (pseudo_header f ++ bs) = sum16 (pseudo_header f) + sum16 bs.
Proof. intros. apply sum16_app. rewrite pseudo_header_length by done. by exists 6%nat. Qed.

(** The checksum over everything the receiver sums. *)
Definition udp_check_spec (f : list Z) : Z :=
  65535 - norm16 (sum16 (pseudo_header f ++ udp_segment f)).

(** Even length, complete datagram, within the bound. *)
Lemma udp_check_value_even bound f :
  bytes_ok f -> (42 <= length f)%nat ->
  Z.even (udp_length f) = true -> 34 + udp_length f <= Z.of_nat (length f) ->
  udp_length f <= 2 * Z.of_nat bound -> udp_check_value bound f = udp_check_spec f.
Proof.
  intros Hf Hlen Hev Hfit Hle. pose proof (udp_length_range f Hf) as Hr.
  apply Zeven_bool_iff, Zeven_ex_iff in Hev as [m Hm].
  unfold udp_check_value, udp_check_spec, udp_segment, udp_tail.
  rewrite (udp_words_read_exact _ _ (Z.to_nat m)) by lia.
  rewrite sum16_pseudo_app by done. rewrite <- Z.negb_even, Hm, Z.even_mul. cbn [Z.even negb orb].
  replace (Z.to_nat (2 * m)) with (2 * Z.to_nat m)%nat by lia. do 2 f_equal. lia.
Qed.

(** Odd length in a frame whose next two bytes are zero or absent padding. *)
Lemma udp_check_value_padded bound f :
  bytes_ok f -> (42 <= length f)%nat -> Z.odd (udp_length f) = true ->
  f !! Z.to_nat (34 + udp_length f) = Some 0 ->
  default 0 (f !! Z.to_nat (35 + udp_length f)) = 0 ->
  udp_length f < 2 * Z.of_nat bound -> udp_check_value bound f = udp_check_spec f.
Proof.
  intros Hf Hlen Hodd Hpad Hpad2 Hle. pose proof (udp_length_range f Hf) as Hr.
  pose proof (lookup_lt_Some _ _ _ Hpad) as Hfit. pose proof Hodd as Hodd'.
  apply Zodd_bool_iff, Zodd_ex_iff in Hodd' as [m Hm].
  unfold udp_check_value, udp_check_spec, udp_segment, udp_tail. rewrite Hodd.
  rewrite (udp_words_read_exact _ _ (Z.to_nat (m + 1))) by lia.
  rewrite sum16_pseudo_app by done.
  replace (34 + 2 * Z.to_nat (m + 1))%nat with (Z.to_nat (35 + udp_length f)) by lia. rewrite Hpad2.
  replace (2 * Z.to_nat (m + 1))%nat with (S (Z.to_nat (udp_length f))) by lia.
  rewrite (take_S_r _ _ 0) by (rewrite lookup_drop, <- Hpad; f_equal; lia).
  set (t := take _ _). assert (sum16 (t ++ [0]) = sum16 t) as ->; [|do 2 f_equal; lia].
  clear. induction t as [|x|x y r IH] using pair_ind; [done|unfold sum16; simpl; lia|].
  cbn [app]. by rewrite !sum16_cons2, IH.
Qed.

Lemma norm16_eq a b : 0 < a -> 0 < b -> (a - b) mod 65535 = 0 -> norm16 a = norm16 b.
Proof. intros. unfold norm16. do 2 case_goal; split_hyps; dlia. Qed.

(** More words than the loop bound: the rest of the datagram is left out. *)
Lemma udp_check_value_long bound f :
  bytes_ok f -> (42 <= length f)%nat -> Z.even (udp_length f) = true ->
  34 + udp_length f <= Z.of_nat (length f) -> 2 * Z.of_nat bound < udp_length f ->
  udp_check_value bound f =
    65535 - norm16 (sum16 (pseudo_header f ++ udp_segment f) +
                    65534 * sum16 (drop (2 * bound) (udp_segment f))).
Proof.
  intros Hf Hlen Hev Hfit Hle. pose proof (udp_length_range f Hf) as Hr.
  unfold udp_check_value, udp_tail. rewrite <- Z.negb_even, Hev. cbn [negb].
  assert (udp_words_read f (udp_length f) bound 0 34 = bound) as ->.
  { unfold udp_words_read. rewrite Nat.div2_div.
    assert (bound <= (length f - 34) / 2)%nat by (apply Nat.div_le_lower_bound; lia).
    assert (Z.of_nat bound <= (udp_length f - 2 * 0 + 1) / 2) by dlia. lia. }
  rewrite sum16_pseudo_app by done. unfold udp_segment. set (L := Z.to_nat (udp_length f)).
  assert (take (2 * bound) (drop 34 f) = take (2 * bound) (take L (drop 34 f))) as ->
    by (rewrite take_take; f_equal; lia).
  rewrite <- (take_drop (2 * bound) (take L (drop 34 f))) at 2.
  rewrite sum16_app by (rewrite !length_take, length_drop; exists bound; lia).
  set (r := sum16 (drop _ _)). set (t := sum16 (take _ _)).
  assert (0 <= r) by (apply sum16_range; auto with broker).
  assert (0 <= t) by (apply sum16_range; auto with broker).
  assert (0 < sum16 (pseudo_header f)).
  { rewrite pseudo_header_sum by done.
    pose proof (sum16_range (take 4 (drop 26 f)) ltac:(auto with broker)).
    pose proof (sum16_range (take 4 (drop 30 f)) ltac:(auto with broker)).
    pose proof (sum16_range (take 2 (drop 38 f)) ltac:(auto with broker)). lia. }
  f_equal. apply norm16_eq; [lia|lia|].
  replace (_ - _) with ((- r) * 65535) by lia. apply Z_mod_mult.
Qed.

(** Odd length with nothing after the datagram: the last byte is added as a
    high byte, where the receiver adds it as a low one. *)
Lemma udp_check_value_odd bound f b :
  bytes_ok f -> (42 <= length f)%nat -> Z.odd (udp_length f) = true ->
  34 + udp_length f = Z.of_nat (length f) -> f !! (length f - 1)%nat = Some b ->
  udp_length f <= 2 * Z.of_nat bound ->
  udp_check_value bound f = 65535 - norm16 (sum16 (pseudo_header f ++ udp_segment f) + 255 * b).
Proof.
  intros Hf Hlen Hodd Hfit Hb Hle. pose proof (udp_length_range f Hf) as Hr.
  pose proof Hodd as Hodd'. apply Zodd_bool_iff, Zodd_ex_iff in Hodd' as [m Hm].
  unfold udp_check_value, udp_segment, udp_tail. rewrite Hodd.
  assert (udp_words_read f (udp_length f) bound 0 34 = Z.to_nat m) as ->.
  { unfold udp_words_read. replace (length f - 34)%nat with (S (2 * Z.to_nat m)) by lia.
    rewrite Nat.div2_succ_double. replace ((udp_length f - 2 * 0 + 1) / 2) with (m + 1) by dlia. lia. }
  replace (34 + 2 * Z.to_nat m)%nat with (length f - 1)%nat by lia. rewrite Hb. cbn [default from_option id].
  replace (Z.to_nat (udp_length f)) with (S (2 * Z.to_nat m)) by lia.
  rewrite sum16_pseudo_app by done.
  rewrite (take_S_r _ _ b) by (rewrite lookup_drop, <- Hb; f_equal; lia).
  rewrite sum16_snoc; [do 2 f_equal; lia|]. exists (Z.to_nat m). rewrite length_take, length_drop. lia.
Qed.

(** A datagram whose checksum the code computes right: complete, within the
    loop bound, and of even length or padded with zeros. *)
Definition checksummable (bound : nat) (f : list Z) : Prop :=
  8 <= udp_length f <= 2 * Z.of_nat bound /\ 34 + udp_length f <= Z.of_nat (length f) /\
  (Z.even (udp_length f) = true \/
   (udp_length f < 2 * Z.of_nat bound /\ f !! Z.to_nat (34 + udp_length f) = Some 0 /\
    default 0 (f !! Z.to_nat (35 + udp_length f)) = 0)).

#[global] Instance checksummable_dec bound f : Decision (checksummable bound f).
Proof. unfold checksummable. apply _. Defined.

Lemma udp_check_value_ok bound f :
  bytes_ok f -> (42 <= length f)%nat -> checksummable bound f ->
  udp_check_value bound f = udp_check_spec f.
Proof.
  intros Hf Hlen ([H8 Hb] & Hfit & [Hev|(Hlt & Hp1 & Hp2)]); [by apply udp_check_value_even|].
  destruct (Z.even (udp_length f)) eqn:He; [by apply udp_check_value_even|].
  apply udp_check_value_padded; try done. by rewrite <- Z.negb_even, He.
Qed.


(** ** Properties *)

(** C29. [compute_ip_checksum] is the RFC 1071 checksum of the 20 bytes of the
    header, for every header inside the packet. *)
Theorem compute_ip_checksum_rfc1071 f ip :
  bytes_ok f -> (ip + 20 <= length f)%nat ->
  compute_ip_checksum f ip = Some (rfc1071 (take 20 (drop ip f))).
Proof.
  intros Hf Hlen. rewrite compute_ip_checksum_eq by done. unfold rfc1071.
  by rewrite oc_sum_sum16 by auto with broker.
Qed.

Lemma compute_ip_checksum_rfc1071_witness :
  compute_ip_checksum publish_even 14 = Some (rfc1071 (ip_header publish_even)) /\
  rfc1071 (ip_header publish_even) <> 0.
Proof.
  split; [|vm_compute; discriminate].
  apply (compute_ip_checksum_rfc1071 publish_even 14); [decide_goal|vm_compute; lia].
Defined.

(** C30. [compute_udp_checksum] is the RFC 1071 checksum of the pseudo-header
    and the datagram, for a complete datagram of at most 256 bytes that has
    even length or is followed by zero padding. *)
Theorem compute_udp_checksum_rfc1071 `{!ProbeRead} f :
  bytes_ok f -> (42 <= length f)%nat -> checksummable 128 f ->
  compute_udp_checksum f 14 34 42 (length f) = Some (rfc1071 (pseudo_header f ++ udp_segment f)).
Proof.
  intros Hf Hlen Hc. unfold compute_udp_checksum.
  rewrite udp_checksum_upto_value, udp_check_value_ok by (done || lia).
  unfold udp_check_spec, rfc1071, pseudo_header, udp_segment.
  rewrite oc_sum_sum16 by (auto 8 with broker). done.
Qed.

Lemma compute_udp_checksum_rfc1071_witness :
  checksummable 128 publish_even /\
  compute_udp_checksum publish_even 14 34 42 (length publish_even) =
    Some (rfc1071 (pseudo_header publish_even ++ udp_segment publish_even)).
Proof.
  assert (checksummable 128 publish_even) as Hc by decide_goal. split; [exact Hc|].
  apply (compute_udp_checksum_rfc1071 publish_even); [decide_goal|vm_compute; lia|exact Hc].
Defined.
