(* ===== verification/Kernel.v ===== *)
(** * The interface between the programs and the kernel

    The BPF maps, file descriptors, sockets and packet helpers the programs
    call are kernel code, outside the repository.  [ev] lists the calls;
    [Kernel] is the class of systems that answer them, a parameter of every
    theorem.  All that is assumed of such a system is [ev_spec], the
    documented effect of each call on [kview], the observable state: which
    keys the maps hold, which descriptors are open and what has been sent.

    Every system call of the control programs may fail for any reason,
    lookups and deletes of keys that are there included (only closing a
    descriptor always frees it); of the helpers of
    the packet programs those may that have an error to return (a lookup has
    none: it returns the entry or a null pointer).  [Deleting] is the
    assumption that a key an inner map holds can be deleted, [Reliable] that
    all calls fail only for the documented capacity limits. *)

From S2P Require Import Prelude Prog.
From stdpp Require Import base tactics numbers list gmap fin_maps.
Local Open Scope Z_scope.

(** ** The maps *)

Definition MAX_TOPIC_ID : Z := 10.
Definition MAX_SUBSCRIBERS : Z := 2048.

Inductive map_type := BPF_MAP_TYPE_HASH | BPF_MAP_TYPE_ARRAY.

Record bpf_attr := BpfAttr {
  ba_map_type : map_type;
  ba_key_size : Z;
  ba_value_size : Z;
  ba_max_entries : Z
}.

(** Maps keyed by a topic: the outer map of inner maps ([topic_subscribe] of
    the first program, [topic_sub_array] of the second), the subscriber
    counts and the first subscriber of a topic. *)
Inductive tmap := topic_outer | topic_sub_cnt | topic_first_sub.

(** Statistics maps, as the CPU that runs the program sees them. *)
Inductive smap := pub_counter_2 | clone_counter_2 | queue_count_map.

(** Maps keyed by an integer: an inner map, reached from the kernel by the
    object an outer lookup returned or from user space by descriptor, or a
    statistics map. *)
Inductive emap := by_id (id : Z) | by_fd (fd : Z) | stat (m : smap).

(** ** Socket buffers *)

Record skb := Skb {
  skb_data : list Z;            (* the linear part, [data] to [data_end] *)
  skb_paged : list Z;           (* bytes beyond [data_end] *)
  skb_ifindex : Z;
  skb_queue_mapping : Z
}.

Definition skb_len (s : skb) : Z := Z.of_nat (length (skb_data s) + length (skb_paged s)).
Definition skb_set_data (d : list Z) (s : skb) : skb :=
  Skb d (skb_paged s) (skb_ifindex s) (skb_queue_mapping s).
Definition skb_bytes (s : skb) : list Z := skb_data s ++ skb_paged s.

Inductive layer := L3 | L4.

(** ** The calls *)

Inductive ev : Type -> Type :=
| TopicLookup (m : tmap) (k : list Z) : ev (option Z)     (* the helper *)
| TopicGet (m : tmap) (k : list Z) : ev (option Z)        (* the system call *)
| TopicUpdate (m : tmap) (k : list Z) (v : Z) : ev Z
| TopicDelete (m : tmap) (k : list Z) : ev Z
| ElemLookup (m : emap) (k : Z) : ev (option Z)
| ElemUpdate (m : emap) (k v : Z) : ev Z
| ElemDelete (m : emap) (k : Z) : ev Z
| ElemNextKey (m : emap) (k : option Z) : ev (option Z)
| ElemForEach (m : emap) : ev (list (Z * Z))
| AtomicAdd (m : emap) (k n : Z) : ev unit
| MapCreate (a : bpf_attr) : ev Z
| MapGetFdById (id : Z) : ev Z
| CloseFd (fd : Z) : ev unit
| SendTo (msg : list Z) (addr port : Z) : ev Z
| SkbPullData (s : skb) (len : Z) : ev (Z * skb)
| CsumReplace (l : layer) (s : skb) (off : nat) (from to flags : Z) : ev (Z * skb)
| CloneRedirect (s : skb) (ifindex flags : Z) : ev Z.

(** ** The observable state *)

Record mobj := MObj { mo_attr : bpf_attr; mo_elems : gmap Z Z }.

Inductive output :=
| Datagram (msg : list Z) (addr port : Z)
| Clone (frame : list Z) (ifindex : Z).

Record kview := KView {
  v_outer : gmap (list Z) Z;    (* topic to the id of its inner map *)
  v_cnt : gmap (list Z) Z;
  v_first : gmap (list Z) Z;
  v_objs : gmap Z mobj;         (* inner maps by id *)
  v_fds : gmap Z Z;             (* open map descriptors to ids *)
  v_pub : gmap Z Z;
  v_clone : gmap Z Z;
  v_queue : gmap Z Z;
  v_out : list output
}.

Definition topic_of (m : tmap) (v : kview) : gmap (list Z) Z :=
  match m with topic_outer => v_outer v | topic_sub_cnt => v_cnt v | topic_first_sub => v_first v end.

Definition set_topic (m : tmap) (g : gmap (list Z) Z) (v : kview) : kview :=
  let 'KView o c f ob fd p cl q out := v in
  match m with
  | topic_outer => KView g c f ob fd p cl q out
  | topic_sub_cnt => KView o g f ob fd p cl q out
  | topic_first_sub => KView o c g ob fd p cl q out
  end.

Definition set_objs (g : gmap Z mobj) (v : kview) : kview :=
  let 'KView o c f _ fd p cl q out := v in KView o c f g fd p cl q out.
Definition set_fds (g : gmap Z Z) (v : kview) : kview :=
  let 'KView o c f ob _ p cl q out := v in KView o c f ob g p cl q out.
Definition add_out (x : output) (v : kview) : kview :=
  let 'KView o c f ob fd p cl q out := v in KView o c f ob fd p cl q (out ++ [x]).

Definition stat_of (m : smap) (v : kview) : gmap Z Z :=
  match m with pub_counter_2 => v_pub v | clone_counter_2 => v_clone v | queue_count_map => v_queue v end.
Definition set_stat (m : smap) (g : gmap Z Z) (v : kview) : kview :=
  let 'KView o c f ob fd p cl q out := v in
  match m with
  | pub_counter_2 => KView o c f ob fd g cl q out
  | clone_counter_2 => KView o c f ob fd p g q out
  | queue_count_map => KView o c f ob fd p cl g out
  end.

(** The object an element map denotes, its entries and the view with new ones. *)
Definition obj_id (m : emap) (v : kview) : option Z :=
  match m with by_id id => Some id | by_fd fd => v_fds v !! fd | stat _ => None end.
Definition obj_of (m : emap) (v : kview) : option mobj :=
  id ← obj_id m v; v_objs v !! id.

Definition elems_of (m : emap) (v : kview) : gmap Z Z :=
  match m with
  | stat s => stat_of s v
  | _ => match obj_of m v with Some o => mo_elems o | None => ∅ end
  end.

Definition set_elems (m : emap) (g : gmap Z Z) (v : kview) : kview :=
  match m with
  | stat s => set_stat s g v
  | _ => match obj_id m v with
         | Some id => set_objs (alter (λ o, MObj (mo_attr o) g) id (v_objs v)) v
         | None => v
         end
  end.

(** Attributes of the statistics maps. *)
Definition stat_attr (m : smap) : bpf_attr :=
  match m with
  | pub_counter_2 => BpfAttr BPF_MAP_TYPE_ARRAY 4 4 1
  | clone_counter_2 => BpfAttr BPF_MAP_TYPE_ARRAY 4 4 1
  | queue_count_map => BpfAttr BPF_MAP_TYPE_HASH 4 8 64
  end.

Definition attr_of (m : emap) (v : kview) : option bpf_attr :=
  match m with stat s => Some (stat_attr s) | _ => mo_attr <$> obj_of m v end.

(** A hash map takes a key it holds or a new one below [max_entries]; an
    array takes the indices below it. *)
Definition room `{Countable K} (max : Z) (g : gmap K Z) (k : K) : Prop :=
  is_Some (g !! k) \/ Z.of_nat (size g) < max.

Definition elem_room (m : emap) (v : kview) (k : Z) : Prop :=
  match attr_of m v with
  | Some a =>
      match ba_map_type a with
      | BPF_MAP_TYPE_HASH => room (ba_max_entries a) (elems_of m v) k
      | BPF_MAP_TYPE_ARRAY => 0 <= k < ba_max_entries a
      end
  | None => False
  end.

(** A hash map deletes the keys it holds, an array none. *)
Definition deletable (m : emap) (v : kview) (k : Z) : Prop :=
  ba_map_type <$> attr_of m v = Some BPF_MAP_TYPE_HASH /\ is_Some (elems_of m v !! k).

(** What an update of a topic map stores: user space writes a descriptor to
    the outer map, which keeps the map object. *)
Definition stored (m : tmap) (v : kview) (x : Z) : option Z :=
  match m with topic_outer => v_fds v !! x | _ => Some x end.

(** The entries of a new map: an array starts with all indices at zero. *)
Definition new_obj (a : bpf_attr) : mobj :=
  MObj a match ba_map_type a with
         | BPF_MAP_TYPE_HASH => ∅
         | BPF_MAP_TYPE_ARRAY => list_to_map ((λ i, (Z.of_nat i, 0)) <$> seq 0 (Z.to_nat (ba_max_entries a)))
         end.

(** The 16-bit words of a changed header field of [size] bytes. *)
Definition field_sum (size v : Z) : Z :=
  if size =? 4 then Z.land v 0xffff + Z.shiftr v 16 else v.

(** The flag that declares the changed field part of the pseudo-header. *)
Definition BPF_F_PSEUDO_HDR : Z := 0x10.

(** The incremental update of RFC 1624, up to the two zeros of one's
    complement, by a field of the size in the low bits of [flags].  It is
    promised for the IP header, and for the transport header only with
    [BPF_F_PSEUDO_HDR], bit 4 of [flags]: without it nothing is known of the
    new checksum.  The checksum in the packet is taken to be complete; the
    offload state of a buffer (a checksum left to the device, [skb->csum]) is
    not part of the model. *)
Definition csum_update (l : layer) (c0 c flags from to : Z) : Prop :=
  let size := Z.land flags 0xf in
  0 <= c < 65536 /\
  (l = L3 \/ Z.testbit flags 4 = true -> (c - (c0 + field_sum size from - field_sum size to)) mod 65535 = 0).

(** The width of the counters behind [__sync_fetch_and_add]. *)
Definition counter_wrap (m : emap) (x : Z) : Z :=
  match m with stat queue_count_map => u64 x | _ => u32 x end.

(** ** The documented effect of the calls *)

Definition ev_spec {X} (e : ev X) (v : kview) : X -> kview -> Prop :=
  match e in ev X return X -> kview -> Prop with
  | TopicLookup m k => λ x v', v' = v /\ x = topic_of m v !! k
  | TopicGet m k => λ x v', v' = v /\ (x = topic_of m v !! k \/ x = None)
  | TopicUpdate m k val => λ x v',
      (x = 0 /\ room MAX_TOPIC_ID (topic_of m v) k /\
       exists w, stored m v val = Some w /\ v' = set_topic m (<[k := w]> (topic_of m v)) v)
      \/ (x < 0 /\ v' = v)
  | TopicDelete m k => λ x v',
      (x = 0 /\ is_Some (topic_of m v !! k) /\ v' = set_topic m (delete k (topic_of m v)) v)
      \/ (x < 0 /\ v' = v)
  | ElemLookup m k => λ x v', v' = v /\ x = elems_of m v !! k
  | ElemUpdate m k val => λ x v',
      (x = 0 /\ elem_room m v k /\ v' = set_elems m (<[k := val]> (elems_of m v)) v)
      \/ (x < 0 /\ v' = v)
  | ElemDelete m k => λ x v',
      (x = 0 /\ deletable m v k /\ v' = set_elems m (delete k (elems_of m v)) v)
      \/ (x < 0 /\ v' = v)
  | ElemNextKey m None => λ x v',
      v' = v /\ match x with Some k => is_Some (elems_of m v !! k) | None => True end
  | ElemNextKey m (Some _) => λ x v', v' = v
  | ElemForEach m => λ x v', v' = v /\ x ≡ₚ map_to_list (elems_of m v)
  | AtomicAdd m k n => λ _ v',
      v' = set_elems m (alter (λ c, counter_wrap m (c + n)) k (elems_of m v)) v
  | MapCreate a => λ x v',
      (0 <= x < 2 ^ 31 /\ v_fds v !! x = None /\
       exists id, v_objs v !! id = None /\
         v' = set_fds (<[x := id]> (v_fds v)) (set_objs (<[id := new_obj a]> (v_objs v)) v))
      \/ (x < 0 /\ v' = v)
  | MapGetFdById id => λ x v',
      (0 <= x < 2 ^ 31 /\ v_fds v !! x = None /\ is_Some (v_objs v !! id) /\
       v' = set_fds (<[x := id]> (v_fds v)) v)
      \/ (x < 0 /\ v' = v)
  | CloseFd fd => λ _ v', v' = set_fds (delete fd (v_fds v)) v
  | SendTo msg addr port => λ x v',
      (0 <= x /\ v' = add_out (Datagram msg addr port) v) \/ (x < 0 /\ v' = v)
  | SkbPullData s len => λ x v',
      v' = v /\ skb_bytes x.2 = skb_bytes s /\
      skb_ifindex x.2 = skb_ifindex s /\ skb_queue_mapping x.2 = skb_queue_mapping s /\
      (0 <= x.1 -> len <= Z.of_nat (length (skb_data x.2)))
  | CsumReplace l s off from to flags => λ x v',
      v' = v /\
      ((x.1 < 0 /\ x.2 = s) \/
       (0 <= x.1 /\ exists c0 c d, ld16 (skb_data s) off = Some c0 /\
          csum_update l c0 c flags from to /\
          st16 (skb_data s) off c = Some d /\ x.2 = skb_set_data d s))
  | CloneRedirect s ifindex flags => λ x v',
      (0 <= x /\ v' = add_out (Clone (skb_bytes s) ifindex) v) \/ (x < 0 /\ v' = v)
  end.

Definition kernel_spec : contract kview := λ X e v x v', @ev_spec X e v x v'.

(** ** Calls that fail only for the documented limits

    A descriptor is only promised to a process that holds none on an inner
    map, which is the situation of the control program between commands. *)

Definition ev_reliable {X} (e : ev X) (v : kview) : X -> Prop :=
  match e in ev X return X -> Prop with
  | TopicGet m k => λ x, x = topic_of m v !! k
  | TopicUpdate m k val => λ x,
      room MAX_TOPIC_ID (topic_of m v) k -> is_Some (stored m v val) -> 0 <= x
  | TopicDelete m k => λ x, is_Some (topic_of m v !! k) -> 0 <= x
  | ElemUpdate m k val => λ x, elem_room m v k -> 0 <= x
  | ElemDelete m k => λ x, deletable m v k -> 0 <= x
  | ElemNextKey m None => λ x, x = None -> elems_of m v = ∅
  | MapCreate _ => λ x, v_fds v = ∅ -> 0 <= x
  | MapGetFdById id => λ x, v_fds v = ∅ -> is_Some (v_objs v !! id) -> 0 <= x
  | SendTo _ _ _ => λ x, 0 <= x
  | SkbPullData s len => λ x, len <= skb_len s -> 0 <= x.1
  | CsumReplace _ s off _ _ _ => λ x, (off + 2 <= length (skb_data s))%nat -> 0 <= x.1
  | CloneRedirect _ _ _ => λ x, 0 <= x
  | _ => λ _, True
  end.

Definition reliable_spec : contract kview :=
  λ X e v x v', @ev_spec X e v x v' /\ @ev_reliable X e v x.

(** ** Calls that delete what is there

    When [D] holds; with [D := False] nothing is assumed. *)

Definition ev_deleting {X} (e : ev X) (v : kview) : X -> Prop :=
  match e in ev X return X -> Prop with
  | ElemDelete m k => λ x, deletable m v k -> 0 <= x
  | _ => λ _, True
  end.

Definition deleting_spec (D : Prop) : contract kview :=
  λ X e v x v', @ev_spec X e v x v' /\ (D -> @ev_deleting X e v x).

(** Contracts that promise the documented effect, at least. *)
Class Documented (c : contract (E := ev) kview) : Prop :=
  documented : forall X (e : ev X) v x v', c X e v x v' -> ev_spec e v x v'.

#[export] Instance kernel_documented : Documented kernel_spec.
Proof. by intros X e v x v'. Qed.
#[export] Instance deleting_documented D : Documented (deleting_spec D).
Proof. by intros X e v x v' []. Qed.
#[export] Instance reliable_documented : Documented reliable_spec.
Proof. by intros X e v x v' []. Qed.

(** ** Kernels *)

Class Kernel (K : Type) : Type := {
  kdo : forall X, ev X -> K -> X * K;
  kview_of : K -> kview;
  kdo_ok : forall X (e : ev X) (s : K),
    ev_spec e (kview_of s) (kdo X e s).1 (kview_of (kdo X e s).2)
}.

Class Reliable (K : Type) `{!Kernel K} : Prop :=
  kdo_reliable : forall X (e : ev X) (s : K), ev_reliable e (kview_of s) (kdo X e s).1.

Class Deleting (K : Type) `{!Kernel K} : Prop :=
  kdo_deleting : forall X (e : ev X) (s : K), ev_deleting e (kview_of s) (kdo X e s).1.

#[export] Instance reliable_deleting (K : Type) `{!Kernel K, !Reliable K} : Deleting K.
Proof. intros X e s. pose proof (kdo_reliable X e s) as H. by destruct e. Qed.

Section Run.
Context {K : Type} `{!Kernel K}.

(** Sequential execution of a program and of a packet program. *)
Definition krun {A} (p : prog ev A) (s : K) : A * K := run kdo p s.

Lemma krun_wp {A} (p : prog ev A) Q s :
  wp kernel_spec p Q (kview_of s) -> Q (krun p s).1 (kview_of (krun p s).2).
Proof. apply wp_run. intros. apply kdo_ok. Qed.

Lemma krun_wp_reliable `{!Reliable K} {A} (p : prog ev A) Q s :
  wp reliable_spec p Q (kview_of s) -> Q (krun p s).1 (kview_of (krun p s).2).
Proof. apply wp_run. intros. split; [apply kdo_ok|apply kdo_reliable]. Qed.

Lemma krun_wp_deleting (D : Prop) {A} (p : prog ev A) Q s :
  (D -> Deleting K) -> wp (deleting_spec D) p Q (kview_of s) -> Q (krun p s).1 (kview_of (krun p s).2).
Proof. intros HD. apply wp_run. intros. split; [apply kdo_ok|intros H; by apply HD]. Qed.
End Run.
