(* ===== verification/Views.v ===== *)
(** * Views of the kernel's state

    Lemmas and tactics for proofs about the control programs: inner maps
    reached through descriptors, room in the topic maps, and the tactics
    [call] and [view_cbn] that step through a program on a kernel that fails
    only for documented reasons. *)

From S2P Require Import Prelude Prog Kernel.
From stdpp Require Import base tactics numbers list gmap fin_maps.
Local Open Scope Z_scope.
Local Open Scope broker_scope.

(** ** Maps whose keys are topics of the outer map have room *)

Lemma room_dom (max : Z) (g o : gmap (list Z) Z) k :
  dom g ⊆ dom o -> Z.of_nat (size o) <= max -> is_Some (o !! k) -> room max g k.
Proof.
  intros Hd Hs Hk. unfold room. destruct (g !! k) eqn:Hg; [by left|right].
  assert (dom g ⊆ dom o ∖ {[k]}) as Hsub.
  { intros t Ht. apply elem_of_difference. split; [by apply Hd|]. intros ->%elem_of_singleton.
    apply elem_of_dom in Ht as [? Ht]. congruence. }
  apply subseteq_size in Hsub. rewrite size_difference, size_singleton, !size_dom in Hsub
    by (apply singleton_subseteq_l, elem_of_dom, Hk).
  assert (size o <> 0)%nat by (intros ->%map_size_empty_iff; destruct Hk as [? Hk]; by rewrite lookup_empty in Hk).
  lia.
Qed.

(** The inner map behind a descriptor. *)
Lemma fd_object v fd id a g :
  v_fds v !! fd = Some id -> v_objs v !! id = Some (MObj a g) ->
  elems_of (by_fd fd) v = g /\ attr_of (by_fd fd) v = Some a /\
  forall g', set_elems (by_fd fd) g' v = set_objs (alter (λ x, MObj (mo_attr x) g') id (v_objs v)) v.
Proof. intros Hf Ho. cbn. unfold obj_of. cbn. rewrite Hf. cbn. by rewrite Ho. Qed.

Lemma elems_by_id id v g a : v_objs v !! id = Some (MObj a g) -> elems_of (by_id id) v = g.
Proof. intros H. cbn. unfold obj_of. cbn. by rewrite H. Qed.

(** A descriptor that was opened and closed. *)
Lemma open_close fd id v :
  v_fds v !! fd = None -> set_fds (delete fd (v_fds (set_fds (<[fd := id]> (v_fds v)) v))) (set_fds (<[fd := id]> (v_fds v)) v) = v.
Proof. intros H. destruct v; cbn in *. by rewrite delete_insert_id. Qed.

Lemma alter_Some (f : mobj -> mobj) (i : Z) (m : gmap Z mobj) x : m !! i = Some x -> alter f i m = <[i := f x]> m.
Proof.
  intros H. apply map_eq. intros j. destruct (decide (i = j)) as [->|Hne].
  - by rewrite lookup_alter_eq, lookup_insert_eq, H.
  - by rewrite lookup_alter_ne, lookup_insert_ne.
Qed.

Lemma set_objs_objs g h v : set_objs g (set_objs h v) = set_objs g v.
Proof. by destruct v. Qed.

(** Next call of a control program; its contract comes as [Hs], and the
    promise that it fails only for a documented reason as [Hr]. *)
Tactic Notation "call" simple_intropattern(x) ident(v') ident(Hs) ident(Hr) :=
  first [apply uwp_bind, uwp_call | apply uwp_call]; intros x v' [Hs Hr];
  cbn [ev_spec ev_reliable topic_of] in Hs, Hr.

(** The same for a lookup, which then finds what is there. *)
Tactic Notation "lookup" ident(v') :=
  let Hs := fresh in let Hr := fresh in
  first [apply uwp_bind, uwp_call | apply uwp_call]; intros ? v' [Hs Hr];
  cbn [ev_spec ev_reliable topic_of] in Hs, Hr; destruct Hs as [-> _]; revert Hr; intros ->.

(** Computes the view a program has reached. *)
Ltac view_cbn :=
  match goal with |- uwp _ _ _ ?v => let v' := eval cbn in v in change v with v' end.
