(* ===== verification/RefKernel.v ===== *)
(** * A reference kernel

    A concrete system that answers every call and fails only at the
    documented limits.  It shows that the interface of [Kernel] can be met
    and lets the programs be executed on concrete inputs; no theorem about
    the programs depends on it. *)

From Stdlib Require Import String.
From S2P Require Import Prelude Prog Packet Kernel.
From stdpp Require Import base tactics numbers list gmap fin_maps.
Local Open Scope Z_scope.

(** A key above every key of a map. *)
Definition fresh_key {A} (g : gmap Z A) : Z := map_fold (λ k _ m, Z.max m (k + 1)) 1 g.

Lemma fresh_key_above {A} (g : gmap Z A) : 1 <= fresh_key g /\ forall k, is_Some (g !! k) -> k < fresh_key g.
Proof.
  unfold fresh_key.
  apply (map_fold_weak_ind (λ b m, 1 <= b /\ forall k, is_Some (m !! k) -> k < b)).
  - split; [lia|]. intros k [x Hx]. by rewrite lookup_empty in Hx.
  - intros i x m b Hm [H1 Hb]. split; [lia|]. intros k Hk. destruct (decide (i = k)) as [->|Hne].
    + lia.
    + rewrite lookup_insert_ne in Hk by done. specialize (Hb k Hk). lia.
Qed.

Lemma fresh_key_None {A} (g : gmap Z A) : g !! fresh_key g = None.
Proof.
  destruct (g !! fresh_key g) eqn:E; [|done].
  destruct (fresh_key_above g) as [_ H]. specialize (H _ (mk_is_Some _ _ E)). lia.
Qed.

#[export] Instance room_dec `{Countable K} max (g : gmap K Z) k : Decision (room max g k).
Proof. unfold room. apply _. Defined.

#[export] Instance elem_room_dec m v k : Decision (elem_room m v k).
Proof. unfold elem_room. destruct (attr_of m v) as [[[] ? ? ?]|]; apply _. Defined.

Definition ref_csum (c0 size from to : Z) : Z := (c0 + field_sum size from - field_sum size to) mod 65535.

Definition ref_do {X} (e : ev X) (v : kview) : X * kview :=
  match e in ev X return X * kview with
  | TopicLookup m k | TopicGet m k => (topic_of m v !! k, v)
  | TopicUpdate m k val =>
      if decide (room MAX_TOPIC_ID (topic_of m v) k) then
        match stored m v val with
        | Some w => (0, set_topic m (<[k := w]> (topic_of m v)) v)
        | None => (-1, v)
        end
      else (-1, v)
  | TopicDelete m k =>
      match topic_of m v !! k with
      | Some _ => (0, set_topic m (delete k (topic_of m v)) v)
      | None => (-1, v)
      end
  | ElemLookup m k => (elems_of m v !! k, v)
  | ElemUpdate m k val =>
      if decide (elem_room m v k) then (0, set_elems m (<[k := val]> (elems_of m v)) v) else (-1, v)
  | ElemDelete m k =>
      match ba_map_type <$> attr_of m v, elems_of m v !! k with
      | Some BPF_MAP_TYPE_HASH, Some _ => (0, set_elems m (delete k (elems_of m v)) v)
      | _, _ => (-1, v)
      end
  | ElemNextKey m _ => (fst <$> head (map_to_list (elems_of m v)), v)
  | ElemForEach m => (map_to_list (elems_of m v), v)
  | AtomicAdd m k n => (tt, set_elems m (alter (λ c, counter_wrap m (c + n)) k (elems_of m v)) v)
  | MapCreate a =>
      let fd := fresh_key (v_fds v) in let id := fresh_key (v_objs v) in
      if 2 ^ 31 <=? fd then (-1, v) else (fd, set_fds (<[fd := id]> (v_fds v)) (set_objs (<[id := new_obj a]> (v_objs v)) v))
  | MapGetFdById id =>
      match v_objs v !! id with
      | Some _ =>
          let fd := fresh_key (v_fds v) in
          if 2 ^ 31 <=? fd then (-1, v) else (fd, set_fds (<[fd := id]> (v_fds v)) v)
      | None => (-1, v)
      end
  | CloseFd fd => (tt, set_fds (delete fd (v_fds v)) v)
  | SendTo msg addr port => (Z.of_nat (length msg), add_out (Datagram msg addr port) v)
  | SkbPullData s len =>
      if len <=? skb_len s
      then ((0, Skb (skb_bytes s) [] (skb_ifindex s) (skb_queue_mapping s)), v)
      else ((-1, s), v)
  | CsumReplace l s off from to flags =>
      match ld16 (skb_data s) off with
      | Some c0 =>
          match st16 (skb_data s) off (ref_csum c0 (Z.land flags 0xf) from to) with
          | Some d => ((0, skb_set_data d s), v)
          | None => ((-1, s), v)
          end
      | None => ((-1, s), v)
      end
  | CloneRedirect s ifindex flags => (0, add_out (Clone (skb_bytes s) ifindex) v)
  end.

Lemma ref_do_ok {X} (e : ev X) v : ev_spec e v (ref_do e v).1 (ref_do e v).2.
Proof.
  destruct e; simpl; try done.
  - auto.
  - case_decide; [|right; simpl; split; [lia|done]].
    destruct (stored m v v0) eqn:E; simpl; [left|right]; eauto 10 with lia.
  - destruct (topic_of m v !! k); simpl; [left|right]; auto with lia.
  - case_decide; simpl; [left|right]; auto with lia.
  - unfold deletable.
    destruct (ba_map_type <$> attr_of m v) as [[]|], (elems_of m v !! k) eqn:E; simpl; auto with lia.
  - destruct k as [k|]; simpl; [done|]. split; [done|].
    destruct (map_to_list (elems_of m v)) as [|[k x] l] eqn:E; simpl.
    + done.
    + exists x. apply elem_of_map_to_list. rewrite E. left.
  - pose proof (fresh_key_above (v_fds v)).
    destruct (2 ^ 31 <=? fresh_key (v_fds v)) eqn:E; split_hyps; simpl; [auto with lia|left].
    split_and!; [lia|lia|apply fresh_key_None|]. eexists. split; [apply fresh_key_None|done].
  - pose proof (fresh_key_above (v_fds v)).
    destruct (v_objs v !! id) eqn:Eo; simpl; [|auto with lia].
    destruct (2 ^ 31 <=? fresh_key (v_fds v)) eqn:E; split_hyps; simpl; [auto with lia|left].
    split_and!; [lia|lia|apply fresh_key_None|done|done].
  - left. split; [lia|done].
  - destruct (len <=? skb_len s) eqn:E; split_hyps; simpl; split_and!; try done.
    + unfold skb_bytes. simpl. by rewrite app_nil_r.
    + unfold skb_len, skb_bytes in *. rewrite length_app. lia.
  - destruct (ld16 (skb_data s) off) as [c0|] eqn:E; simpl; [|auto with lia].
    destruct (st16 _ _ _) as [d|] eqn:Ed; simpl; [|auto with lia].
    split; [done|right]. split; [lia|]. eexists c0, _, d. split_and!; try done.
    unfold csum_update, ref_csum. set (t := c0 + _ - _). clearbody t. dlia.
  - left. done.
Qed.

Lemma ref_do_reliable {X} (e : ev X) v : ev_reliable e v (ref_do e v).1.
Proof.
  destruct e; simpl; try done.
  - intros Hr [w Hw]. rewrite decide_True by done. by rewrite Hw.
  - intros [w ->]. done.
  - intros Hr. by rewrite decide_True.
  - intros [-> [w ->]]. done.
  - destruct k; [done|]. destruct (map_to_list (elems_of m v)) as [|[k x] l] eqn:E; simpl; [|done].
    intros _. by apply map_to_list_empty_iff.
  - intros ->. done.
  - intros -> [o Ho]. by rewrite Ho.
  - lia.
  - intros Hl. apply Z.leb_le in Hl. by rewrite Hl.
  - intros Hl. unfold ld16, st16, load, store.
    rewrite (proj2 (Nat.leb_le _ _) Hl). simpl. by rewrite (proj2 (Nat.leb_le _ _) Hl).
Qed.

#[export] Instance ref_kernel : Kernel kview := {|
  kdo X e v := ref_do e v;
  kview_of v := v;
  kdo_ok X e v := ref_do_ok e v
|}.

#[export] Instance ref_kernel_reliable : Reliable kview.
Proof. intros X e v. apply ref_do_reliable. Qed.

(** The state after the loader ran: empty maps, counters at zero. *)
Definition boot_view : kview :=
  KView ∅ ∅ ∅ ∅ ∅ {[0 := 0]} {[0 := 0]} ∅ [].

(** Topic "t" and two subscribers, 10.0.0.3:5000 and 10.0.0.4:5001, as the
    maps hold them. *)
Definition key_t : list Z := pad_key (bytes_of_string "t").

Definition sub_a : Z := Z.lor (Z.shiftl (le_val [10; 0; 0; 3]) 32) (Z.shiftl (bswap16 5000) 16).
Definition sub_b : Z := Z.lor (Z.shiftl (le_val [10; 0; 0; 4]) 32) (Z.shiftl (bswap16 5001) 16).

(** A kernel whose topic "t" has the one subscriber [sub_a]. *)
Definition one_sub : kview :=
  KView {[key_t := 1]} {[key_t := 1]} {[key_t := sub_a]}
    {[1 := MObj (BpfAttr BPF_MAP_TYPE_HASH 8 4 256) {[sub_a := 1]}]} ∅
    {[0 := 0]} {[0 := 0]} ∅ [].

