(* ===== verification/XdpBroker.v ===== *)
(** * The XDP fast path: [xdp_broker] of bpf_broker/bpf_broker_kern.c

    A publish for a topic with exactly one subscriber is turned around in
    the driver: the frame is readdressed to that subscriber and sent back
    ([XDP_TX]).  Everything else goes up the stack ([XDP_PASS]). *)

From Stdlib Require Import String.
From S2P Require Import Prelude Prog Packet Checksum Kernel RefKernel.
From stdpp Require Import base tactics numbers list gmap fin_maps.
Local Open Scope Z_scope.
Local Open Scope broker_scope.

(** ** The code *)

Definition XDP_DROP : Z := 1.
Definition XDP_PASS : Z := 2.
Definition XDP_TX : Z := 3.

Definition PUBLISH : list Z := bytes_of_string "PUBLISH ".

(** The ports the programs listen on. *)
Definition port_in_range (dport : Z) : bool := negb ((dport <? 49152) || (49167 <? dport)).

(** [cnt = bpf_map_lookup_elem(&m, &idx); if (cnt) __sync_fetch_and_add(cnt, 1);] *)
Definition count_event {S} (m : smap) : pm ev S unit :=
  p <- pcall (ElemLookup (stat m) 0) ;;
  match p with
  | Some _ => pcall (AtomicAdd (stat m) 0 1)
  | None => pret tt
  end.

(** Destination of a packed subscriber. *)
Definition packed_ip (packed : Z) : Z := u32 (Z.shiftr packed 32).
Definition packed_port (packed : Z) : Z := u16 (Z.land (Z.shiftr packed 16) 0xffff).

(** "Rewrite Ethernet MAC addresses". *)
Definition swap_macs (eth : nat) : pm ev (list Z) unit :=
  temp_mac <- prd (λ f, load f (eth + eth_h_source) ETH_ALEN) ;;
  dest <- prd (λ f, load f (eth + eth_h_dest) ETH_ALEN) ;;
  pwr (λ f, store f (eth + eth_h_source) dest) ;;
  pwr (λ f, store f (eth + eth_h_dest) temp_mac).

Section Xdp.
Context `{!ProbeRead}.

(** "Swap IP addresses" and "Swap UDP ports", with the checksums. *)
Definition readdress (csum : list Z -> nat -> nat -> nat -> nat -> option Z)
    (ip udp : nat) (dest_ip_net dest_port_net : Z) : pm ev (list Z) unit :=
  d <- prd (λ f, ld32 f (ip + ip_daddr)) ;;
  pwr (λ f, st32 f (ip + ip_saddr) d) ;;
  pwr (λ f, st32 f (ip + ip_daddr) dest_ip_net) ;;
  pwr (λ f, st16 f (ip + ip_check) 0) ;;
  c <- prd (λ f, compute_ip_checksum f ip) ;;
  pwr (λ f, st16 f (ip + ip_check) c) ;;
  p <- prd (λ f, ld16 f (udp + udp_dest)) ;;
  pwr (λ f, st16 f (udp + udp_source) p) ;;
  pwr (λ f, st16 f (udp + udp_dest) dest_port_net) ;;
  pwr (λ f, st16 f (udp + udp_check) 0) ;;
  c <- prd (λ f, csum f ip udp (udp + sizeof_udphdr)%nat (length f)) ;;
  pwr (λ f, st16 f (udp + udp_check) c).

Definition xdp_broker : pm ev (list Z) Z :=
  h <- prd parse_udp_packet ;;
  match h with
  | None => pret XDP_PASS
  | Some (Hdrs eth ip udp payload) =>
      dest <- prd (λ f, ld16 f (udp + udp_dest)) ;;
      if negb (port_in_range (bswap16 dest)) then pret XDP_PASS else
      pub <- prd (λ f, starts_with f payload PUBLISH (length f)) ;;
      if negb pub then pret XDP_PASS else
      count_event pub_counter_2 ;;
      r <- prd (λ f, Some (extract_topic_id f (payload + 8) (length f) zero_key)) ;;
      let '(rc, topic_id) := r in
      if rc <? 0 then pret XDP_PASS else
      sub_count <- pcall (TopicLookup topic_sub_cnt topic_id) ;;
      if negb (bool_decide (sub_count = Some 1)) then pret XDP_PASS else
      packed_ptr <- pcall (TopicLookup topic_first_sub topic_id) ;;
      match packed_ptr with
      | None => pret XDP_DROP
      | Some packed =>
          swap_macs eth ;;
          readdress compute_udp_checksum ip udp (packed_ip packed) (packed_port packed) ;;
          count_event clone_counter_2 ;;
          pret XDP_TX
      end
  end.
End Xdp.

(** ** What a turned-around frame looks like *)

Definition swapped (f : list Z) : list Z := take 6 (drop 6 f) ++ take 6 f ++ drop 12 f.

(** The frame with the source address and port replaced by the destination's,
    a new destination, and the two checksum fields. *)
Definition readdressed (f daddr dport icheck ucheck : list Z) : list Z :=
  take 24 f ++ icheck ++ take 4 (drop 30 f) ++ daddr ++ take 2 (drop 36 f) ++ dport ++
  take 2 (drop 38 f) ++ ucheck ++ drop 42 f.

(** The IP checksum of such a frame. *)
Definition new_ip_check (f daddr : list Z) : Z :=
  65535 - norm16 (sum16 (ip_header (readdressed f daddr [0; 0] [0; 0] [0; 0]))).

(** ** Symbolic execution of the rewriting *)

Lemma explode n (f : list Z) :
  (n <= length f)%nat -> exists h t, f = h ++ t /\ length h = n.
Proof. intros H. exists (take n f), (drop n f). rewrite take_drop, length_take. split; [done|lia]. Qed.

(** Turn a list of known length into its elements. *)
Ltac enumerate h H :=
  repeat (destruct h as [|? h]; [discriminate H|]; cbn [length] in H; apply Nat.succ_inj in H);
  destruct h; [clear H | discriminate H].

Lemma swap_macs_eq f : (42 <= length f)%nat -> swap_macs 0 f = uret (tt, swapped f).
Proof. intros Hlen. destruct (explode 12 f) as (h & t & -> & Hh); [lia|]. by enumerate h Hh. Qed.

Lemma swap_macs_wp {V} (c : contract V) f Q v :
  (42 <= length f)%nat -> Q tt (swapped f) v -> pwp c (swap_macs 0) Q f v.
Proof.
  intros Hlen HQ. unfold pwp. by rewrite swap_macs_eq.
Qed.

Lemma swapped_length f : length (swapped f) = length f.
Proof. unfold swapped. rewrite !length_app, !length_take, !length_drop. lia. Qed.

Lemma swapped_ok f : bytes_ok f -> bytes_ok (swapped f).
Proof. intros. unfold swapped. auto with broker. Qed.

Lemma readdressed_length f da ic uc dp :
  (42 <= length f)%nat -> length da = 4%nat -> length dp = 2%nat -> length ic = 2%nat ->
  length uc = 2%nat -> length (readdressed f da dp ic uc) = length f.
Proof.
  intros. unfold readdressed. rewrite !length_app, !length_take, !length_drop. lia.
Qed.

Lemma readdressed_ok f da ic uc dp :
  bytes_ok f -> bytes_ok da -> bytes_ok dp -> bytes_ok ic -> bytes_ok uc ->
  bytes_ok (readdressed f da dp ic uc).
Proof. intros. unfold readdressed. auto 12 with broker. Qed.

#[export] Hint Resolve swapped_ok readdressed_ok : broker.

(** A stored value as its bytes. *)
Lemma st32_bytes m p x bs : le_bytes 4 x = bs -> st32 m p x = store m p bs.
Proof. by intros <-. Qed.
Lemma st16_bytes m p x bs : le_bytes 2 x = bs -> st16 m p x = store m p bs.
Proof. by intros <-. Qed.

Lemma le_bytes_le_val_n n bs : length bs = n -> bytes_ok bs -> le_bytes n (le_val bs) = bs.
Proof. intros <-. apply le_bytes_le_val. Qed.

(** One step of a packet program over a frame of known bytes. *)
Ltac step_rd := eapply pwp_bind, pwp_rd; [|cbv beta].
Ltac step_wr := first [eapply pwp_bind, pwp_wr | eapply pwp_wr]; [|cbv beta].

Lemma readdress_wp {V} (c : contract V) csum f ipn portn uc Q v :
  bytes_ok f -> (42 <= length f)%nat ->
  csum (readdressed f (le_bytes 4 ipn) (le_bytes 2 portn)
          (le_bytes 2 (new_ip_check f (le_bytes 4 ipn))) [0; 0]) 14%nat 34%nat 42%nat (length f) = Some uc ->
  Q tt (readdressed f (le_bytes 4 ipn) (le_bytes 2 portn)
          (le_bytes 2 (new_ip_check f (le_bytes 4 ipn))) (le_bytes 2 uc)) v ->
  pwp c (readdress csum 14 34 ipn portn) Q f v.
Proof.
  intros Hf Hlen Hcs HQ.
  pose proof (le_bytes_length 4 ipn) as Hda. pose proof (le_bytes_ok 4 ipn) as Oda.
  pose proof (le_bytes_length 2 portn) as Hdp.
  destruct (le_bytes 4 ipn) as [|d0 [|d1 [|d2 [|d3 [|]]]]] eqn:Eda; try discriminate Hda.
  destruct (le_bytes 2 portn) as [|p0 [|p1 [|]]] eqn:Edp; try discriminate Hdp.
  set (ic := new_ip_check f [d0; d1; d2; d3]) in *.
  pose proof (le_bytes_length 2 ic) as Hic. pose proof (le_bytes_length 2 uc) as Huc.
  destruct (le_bytes 2 ic) as [|i0 [|i1 [|]]] eqn:Eic; try discriminate Hic.
  destruct (le_bytes 2 uc) as [|u0 [|u1 [|]]] eqn:Euc; try discriminate Huc.
  assert (E30 : le_bytes 4 (le_val (take 4 (drop 30 f))) = take 4 (drop 30 f)).
  { apply le_bytes_le_val_n; [|auto with broker]. rewrite length_take, length_drop. lia. }
  assert (E36 : le_bytes 2 (le_val (take 2 (drop 36 f))) = take 2 (drop 36 f)).
  { apply le_bytes_le_val_n; [|auto with broker]. rewrite length_take, length_drop. lia. }
  assert (Oic : bytes_ok [i0; i1]) by (rewrite <- Eic; apply le_bytes_ok).
  assert (Eck : forall f', bytes_ok f' -> (34 <= length f')%nat ->
            take 20 (drop 14 f') = ip_header (readdressed f [d0; d1; d2; d3] [0; 0] [0; 0] [0; 0]) ->
            compute_ip_checksum f' 14 = Some ic).
  { intros f' Hf' Hlen' Hh. rewrite compute_ip_checksum_eq by done. by rewrite Hh. }
  assert (Oh : bytes_ok (take 12 f ++ take 12 (drop 12 f) ++ [0; 0] ++ take 4 (drop 30 f) ++
                 [d0; d1; d2; d3] ++ drop 34 f)) by auto 10 with broker.
  clearbody ic. destruct (explode 42 f) as (h & t & -> & Hh); [done|]. enumerate h Hh.
  unfold readdressed, ip_header in *. cbn [app take drop] in *.
  unfold readdress.
  step_rd. { cbn -[le_val]. reflexivity. }
  step_wr.
  { rewrite (st32_bytes _ _ _ _ E30). reflexivity. }
  step_wr. { rewrite (st32_bytes _ _ _ _ Eda). reflexivity. }
  step_wr. { reflexivity. }
  cbn [app take drop le_bytes length Nat.add].
  step_rd. { apply Eck; [exact Oh|apply Nat.leb_le; reflexivity|reflexivity]. }
  step_wr. { rewrite (st16_bytes _ _ _ _ Eic). reflexivity. }
  step_rd. { cbn -[le_val]. reflexivity. }
  step_wr. { rewrite (st16_bytes _ _ _ _ E36). reflexivity. }
  step_wr. { rewrite (st16_bytes _ _ _ _ Edp). reflexivity. }
  step_wr. { reflexivity. }
  step_rd. { exact Hcs. }
  step_wr. { rewrite (st16_bytes _ _ _ _ Euc). reflexivity. }
  exact HQ.
Qed.

(** ** Specification of the handler *)

Definition dport (f : list Z) : Z := bswap16 (le_val (take 2 (drop 36 f))).

(** A publish command on one of the broker's ports. *)
Definition is_publish (f : list Z) : bool :=
  udp_frame 43 f && port_in_range (dport f) && bool_decide (PUBLISH = take 8 (drop 42 f)).

(** The map key of its topic; [None] when the name runs into the end of the
    packet. *)
Definition published_topic (f : list Z) : option (list Z) := pad_key <$> scan 20 (drop 50 f).

(** The frame sent to a subscriber. *)
Definition turned (bound : nat) (f : list Z) (packed : Z) : list Z :=
  let g := swapped f in
  let da := le_bytes 4 (packed_ip packed) in
  let dp := le_bytes 2 (packed_port packed) in
  let ic := le_bytes 2 (new_ip_check g da) in
  readdressed g da dp ic (le_bytes 2 (udp_check_value bound (readdressed g da dp ic [0; 0]))).

(** One more event in a statistics counter. *)
Definition bumped (m : smap) (v : kview) : kview :=
  set_stat m (alter (λ c, counter_wrap (stat m) (c + 1)) 0 (stat_of m v)) v.

Definition xdp_spec (f : list Z) (v : kview) : Z * list Z * kview :=
  if negb (is_publish f) then (XDP_PASS, f, v) else
  let v1 := bumped pub_counter_2 v in
  match published_topic f with
  | None => (XDP_PASS, f, v1)
  | Some t =>
      if negb (bool_decide (v_cnt v !! t = Some 1)) then (XDP_PASS, f, v1) else
      match v_first v !! t with
      | None => (XDP_DROP, f, v1)
      | Some packed => (XDP_TX, turned 128 f packed, bumped clone_counter_2 v1)
      end
  end.

(** ** The handler meets it *)

Lemma set_stat_same m v : set_stat m (stat_of m v) v = v.
Proof. by destruct m, v. Qed.

Lemma count_event_wp {S} (c : contract kview) m Q (s : S) v :
  (forall X (e : ev X) v x v', c X e v x v' -> ev_spec e v x v') ->
  Q tt s (bumped m v) -> pwp c (count_event m) Q s v.
Proof.
  intros Hc HQ. unfold count_event. apply pwp_bind, pwp_call.
  intros x v' [-> ->]%Hc. simpl. destruct (stat_of m v !! 0) eqn:E.
  - apply pwp_call. intros [] v' ->%Hc. exact HQ.
  - apply pwp_ret. unfold bumped in HQ. rewrite alter_id in HQ by naive_solver.
    by rewrite set_stat_same in HQ.
Qed.

Lemma topic_of_bumped m t v : topic_of t (bumped m v) = topic_of t v.
Proof. by destruct t, m, v. Qed.

Section XdpSpec.
Context `{!ProbeRead}.

(** The topic scanner as the callers use it. *)
Lemma extract_topic f :
  match published_topic f with
  | Some t => extract_topic_id f 50 (length f) zero_key = (0, t)
  | None => exists out, extract_topic_id f 50 (length f) zero_key = (-1, out)
  end.
Proof.
  pose proof (extract_loop_eq f 50 20 [] eq_refl ltac:(simpl; lia)) as He.
  unfold published_topic. simpl Nat.add in He. unfold extract_topic_id.
  destruct (scan 20 (drop 50 f)); exact He.
Qed.

Lemma readdress_udp_wp {V} (c : contract V) bound csum g packed Q v :
  (forall f ip udp p e, csum f ip udp p e = udp_checksum_upto bound f ip udp e) ->
  bytes_ok g -> (42 <= length g)%nat -> (bound <= 4096)%nat ->
  (forall da dp ic, da = le_bytes 4 (packed_ip packed) -> dp = le_bytes 2 (packed_port packed) ->
    ic = le_bytes 2 (new_ip_check g da) ->
    Q tt (readdressed g da dp ic (le_bytes 2 (udp_check_value bound (readdressed g da dp ic [0; 0])))) v) ->
  pwp c (readdress csum 14 34 (packed_ip packed) (packed_port packed)) Q g v.
Proof.
  intros Hcs Hg Hlen Hb HQ. eapply readdress_wp; [done|done| |by apply HQ].
  rewrite Hcs. set (z := readdressed _ _ _ _ _).
  assert (length z = length g) as Hz by (subst z; by rewrite readdressed_length).
  rewrite <- Hz. apply udp_checksum_upto_value; [subst z; auto 10 with broker|lia|done].
Qed.

Lemma xdp_broker_wp (c : contract kview) f v :
  (forall X (e : ev X) v x v', c X e v x v' -> ev_spec e v x v') ->
  bytes_ok f -> pwp c xdp_broker (λ rc f' v', (rc, f', v') = xdp_spec f v) f v.
Proof.
  intros Hc Hf. unfold xdp_broker, xdp_spec, is_publish.
  eapply pwp_bind, pwp_rd; [by apply parse_udp_packet_eq|].
  destruct (udp_frame 43 f) eqn:Hfr; cbn [andb negb std_hdrs]; [|by apply pwp_ret].
  apply udp_frame_length in Hfr.
  eapply pwp_bind, pwp_rd; [apply ld16_le; change (38 <= length f)%nat; lia|].
  change (34 + udp_dest)%nat with 36%nat. fold (dport f).
  destruct (port_in_range (dport f)); cbn [andb negb]; [|by apply pwp_ret].
  eapply pwp_bind, pwp_rd; [apply starts_with_eq|]. change (length PUBLISH) with 8%nat.
  destruct (bool_decide (PUBLISH = take 8 (drop 42 f))); cbn [negb]; [|by apply pwp_ret].
  apply pwp_bind, (count_event_wp _ _ _ _ _ Hc).
  eapply pwp_bind, pwp_rd; [done|]. change (42 + 8)%nat with 50%nat.
  pose proof (extract_topic f) as Ht. destruct (published_topic f) as [t|].
  2: { destruct Ht as [out ->]. by apply pwp_ret. }
  rewrite Ht. cbn [Z.ltb]. apply pwp_bind, pwp_call. intros x v' [-> ->]%Hc.
  rewrite topic_of_bumped. cbn [topic_of].
  destruct (bool_decide (v_cnt v !! t = Some 1)); cbn [negb]; [|by apply pwp_ret].
  apply pwp_bind, pwp_call. intros x v' [-> ->]%Hc. rewrite topic_of_bumped. cbn [topic_of].
  destruct (v_first v !! t) as [packed|]; [|by apply pwp_ret].
  apply pwp_bind, swap_macs_wp; [lia|].
  apply pwp_bind, (readdress_udp_wp _ 128 compute_udp_checksum); [done|auto with broker| |lia|].
  { rewrite swapped_length. lia. }
  intros da dp ic -> -> ->. apply pwp_bind, (count_event_wp _ _ _ _ _ Hc), pwp_ret. done.
Qed.
End XdpSpec.

(** ** Fields of the outgoing frame *)

(** Compute with a frame of 42 known header bytes and fields of known size. *)
Ltac explode_frame g Hg :=
  let h := fresh "h" in let t := fresh "t" in let Hh := fresh "Hh" in
  destruct (explode 42 g Hg) as (h & t & -> & Hh); enumerate h Hh.

Definition field_sizes (da dp ic uc : list Z) : Prop :=
  length da = 4%nat /\ length dp = 2%nat /\ length ic = 2%nat /\ length uc = 2%nat.

Ltac solve_fields :=
  intros Hg (Hda & Hdp & Hic & Huc);
  match goal with |- context [readdressed ?g ?da ?dp ?ic ?uc] =>
  enumerate da Hda; enumerate dp Hdp; enumerate ic Hic; enumerate uc Huc;
  explode_frame g Hg; reflexivity
  end.

Lemma readdressed_ip_header g da dp ic uc :
  (42 <= length g)%nat -> field_sizes da dp ic uc ->
  ip_header (readdressed g da dp ic uc) = take 10 (drop 14 g) ++ ic ++ (take 4 (drop 30 g) ++ da).
Proof. solve_fields. Qed.

Lemma readdressed_pseudo g da dp ic uc :
  (42 <= length g)%nat -> field_sizes da dp ic uc ->
  pseudo_header (readdressed g da dp ic uc) =
    take 4 (drop 30 g) ++ da ++ [0; IPPROTO_UDP] ++ take 2 (drop 38 g).
Proof. solve_fields. Qed.

Lemma readdressed_udp_length g da dp ic uc :
  (42 <= length g)%nat -> field_sizes da dp ic uc -> udp_length (readdressed g da dp ic uc) = udp_length g.
Proof. solve_fields. Qed.

Lemma readdressed_udp g da dp ic uc :
  (42 <= length g)%nat -> field_sizes da dp ic uc ->
  drop 34 (readdressed g da dp ic uc) =
    take 2 (drop 36 g) ++ dp ++ take 2 (drop 38 g) ++ uc ++ drop 42 g.
Proof. solve_fields. Qed.

Lemma readdressed_eth g da dp ic uc :
  (42 <= length g)%nat -> field_sizes da dp ic uc -> take 14 (readdressed g da dp ic uc) = take 14 g.
Proof. solve_fields. Qed.

Lemma readdressed_addrs g da dp ic uc :
  (42 <= length g)%nat -> field_sizes da dp ic uc ->
  take 8 (drop 26 (readdressed g da dp ic uc)) = take 4 (drop 30 g) ++ da.
Proof. solve_fields. Qed.

Lemma swapped_drop f n : (12 <= n)%nat -> (12 <= length f)%nat -> drop n (swapped f) = drop n f.
Proof.
  intros Hn Hf. unfold swapped. rewrite app_assoc, drop_app_ge; rewrite !length_app, !length_take, !length_drop; [|lia].
  rewrite drop_drop. f_equal. lia.
Qed.

Lemma sum16_pos bs i b : bytes_ok bs -> bs !! i = Some b -> 0 < b -> 0 < sum16 bs.
Proof.
  revert i. induction bs as [|x|x y r IH] using pair_ind; intros i Hok Hi Hb; [done| |].
  - destruct i; [|done]. injection Hi as ->. unfold sum16. simpl. lia.
  - inversion Hok as [|?? Hx Hok']. inversion Hok' as [|?? Hy Hr]. subst. unfold is_byte in *.
    rewrite sum16_cons2. pose proof (sum16_range r Hr).
    destruct i as [|[|i]]; simpl in Hi; [injection Hi as ->; lia|injection Hi as ->; lia|].
    specialize (IH i Hr Hi Hb). lia.
Qed.

(** The IP checksum of a turned frame verifies. *)
Lemma turned_ip_valid bound f packed :
  bytes_ok f -> udp_frame 42 f = true -> ip_valid (turned bound f packed).
Proof.
  intros Hf Hfr. pose proof (udp_frame_length _ _ Hfr) as Hlen.
  apply udp_frame_iff in Hfr as (_ & _ & _ & H23).
  unfold ip_valid, turned. set (da := le_bytes 4 _).
  assert (length da = 4%nat) as Hda by apply le_bytes_length.
  assert (bytes_ok da) as Oda by apply le_bytes_ok.
  assert (42 <= length (swapped f))%nat as Hg by (by rewrite swapped_length).
  rewrite readdressed_ip_header by (done || (repeat split; try done; apply le_bytes_length)).
  unfold new_ip_check. rewrite readdressed_ip_header by done.
  rewrite (swapped_drop f 14), (swapped_drop f 30) by lia.
  apply checksum_fill; [auto with broker|auto with broker| |].
  - rewrite length_take, length_drop. exists 5%nat. lia.
  - apply (sum16_pos _ 9 17); [auto 8 with broker| |lia].
    rewrite lookup_app_l by (rewrite length_take, length_drop; lia).
    by rewrite lookup_take_lt, lookup_drop by lia.
Qed.

Lemma readdressed_tail g da dp ic uc n :
  (42 <= length g)%nat -> field_sizes da dp ic uc -> (42 <= n)%nat ->
  readdressed g da dp ic uc !! n = g !! n.
Proof.
  intros Hg Hs Hn. replace n with (34 + (n - 34))%nat by lia.
  rewrite <- !lookup_drop, readdressed_udp by done. destruct Hs as (?&?&?&?).
  rewrite !app_assoc, lookup_app_r; rewrite !length_app, !length_take, !length_drop; [|lia].
  rewrite !lookup_drop. f_equal. lia.
Qed.

Lemma readdressed_checksummable bound g da dp ic uc :
  (42 <= length g)%nat -> field_sizes da dp ic uc -> checksummable bound g ->
  checksummable bound (readdressed g da dp ic uc).
Proof.
  intros Hg Hs Hc. pose proof Hs as (?&?&?&?). unfold checksummable in *.
  rewrite readdressed_udp_length, readdressed_length by done.
  destruct Hc as (Hr & Hfit & Hc). split_and!; [lia|lia|lia|].
  destruct Hc as [Hc|(Hlt & Hp1 & Hp2)]; [by left|right].
  rewrite !readdressed_tail by (done || lia). done.
Qed.

Lemma readdressed_udp_sum g da dp ic uc :
  (42 <= length g)%nat -> field_sizes da dp ic uc -> 8 <= udp_length g ->
  let z := readdressed g da dp ic uc in
  pseudo_header z ++ udp_segment z =
    (take 4 (drop 30 g) ++ da ++ [0; IPPROTO_UDP] ++ take 2 (drop 38 g) ++
     take 2 (drop 36 g) ++ dp ++ take 2 (drop 38 g)) ++ uc ++
    take (Z.to_nat (udp_length g) - 8) (drop 42 g).
Proof.
  intros Hg Hs H8 z. subst z. unfold udp_segment.
  rewrite readdressed_udp_length, readdressed_pseudo, readdressed_udp by done.
  destruct Hs as (?&?&?&?). set (L := Z.to_nat (udp_length g)). rewrite <- !app_assoc. do 4 f_equal.
  rewrite !(app_assoc _ _ (drop 42 g)), !app_assoc, take_app_ge;
    rewrite !length_app, !length_take, !length_drop; [|lia].
  rewrite <- !app_assoc. do 4 f_equal. f_equal. lia.
Qed.

(** The UDP checksum of a turned frame verifies when it can be computed. *)
Lemma readdressed_udp_valid bound g da dp ic :
  bytes_ok g -> bytes_ok da -> bytes_ok dp -> bytes_ok ic ->
  (42 <= length g)%nat -> length da = 4%nat -> length dp = 2%nat -> length ic = 2%nat ->
  checksummable bound g ->
  udp_valid (readdressed g da dp ic
    (le_bytes 2 (udp_check_value bound (readdressed g da dp ic [0; 0])))).
Proof.
  intros Og Oa Op Oi Hg Ha Hp Hi Hc. assert (8 <= udp_length g) as H8 by apply Hc.
  assert (field_sizes da dp ic [0; 0]) as Hs0 by done.
  rewrite udp_check_value_ok.
  - unfold udp_valid, udp_check_spec. rewrite !readdressed_udp_sum by (done || by repeat split).
    apply checksum_fill; [auto 12 with broker|auto with broker| |].
    + rewrite !length_app, !length_take, !length_drop. exists 9%nat. cbn [length]. lia.
    + apply (sum16_pos _ 9 17); [auto 12 with broker| |lia].
      rewrite <- !app_assoc, lookup_app_r; rewrite !length_take, !length_drop; [|lia].
      rewrite lookup_app_r by lia. replace (9 - _ - _)%nat with 1%nat by lia. done.
  - auto 10 with broker.
  - by rewrite readdressed_length.
  - by apply readdressed_checksummable.
Qed.

Lemma swapped_checksummable bound f :
  (42 <= length f)%nat -> checksummable bound f -> checksummable bound (swapped f).
Proof.
  intros Hlen. unfold checksummable, udp_length. rewrite swapped_length, swapped_drop by lia.
  set (L := bswap16 _). intros (Hr & Hfit & Hc). split_and!; [lia|lia|lia|].
  assert (forall n, (42 <= n)%nat -> swapped f !! n = f !! n) as Hlk.
  { intros n Hn. replace n with (12 + (n - 12))%nat by lia. by rewrite <- !lookup_drop, swapped_drop by lia. }
  destruct Hc as [Hc|(Hlt & Hp1 & Hp2)]; [by left|right]. rewrite !Hlk by lia. done.
Qed.

Lemma turned_udp_valid bound f packed :
  bytes_ok f -> (42 <= length f)%nat -> checksummable bound f -> udp_valid (turned bound f packed).
Proof.
  intros Hf Hlen Hc. unfold turned.
  apply readdressed_udp_valid; auto using le_bytes_length, swapped_checksummable with broker.
  by rewrite swapped_length.
Qed.

Lemma xdp_run `{!ProbeRead} {K} `{!Kernel K} f (s : K) :
  bytes_ok f ->
  exists rc f', (krun (xdp_broker f) s).1 = Ok (rc, f') /\
    (rc, f', kview_of (krun (xdp_broker f) s).2) = xdp_spec f (kview_of s).
Proof.
  intros Hf. pose proof (krun_wp (xdp_broker f) _ s
    (xdp_broker_wp kernel_spec f (kview_of s) (λ _ _ _ _ _ H, H) Hf)) as Hrun. simpl in Hrun.
  destruct (krun (xdp_broker f) s).1 as [[rc f']| |]; [|done|done]. by exists rc, f'.
Qed.

(** The transmit case of the specification. *)
Lemma xdp_spec_tx f v f' v' :
  (XDP_TX, f', v') = xdp_spec f v ->
  is_publish f = true /\ exists t packed, published_topic f = Some t /\ v_cnt v !! t = Some 1 /\
    v_first v !! t = Some packed /\ f' = turned 128 f packed.
Proof.
  unfold xdp_spec. destruct (is_publish f); [|done]. cbn [negb].
  destruct (published_topic f) as [t|]; [|done].
  destruct (bool_decide _) eqn:Hc; [|done]. apply bool_decide_eq_true in Hc. cbn [negb].
  destruct (v_first v !! t) as [packed|] eqn:Hfs; [|done]. intros [= -> _]. eauto 10.
Qed.

Lemma is_publish_frame f : is_publish f = true -> udp_frame 42 f = true.
Proof.
  unfold is_publish. rewrite !andb_true_iff. intros [[Hfr _] _].
  apply udp_frame_iff. apply udp_frame_iff in Hfr as (? & ?). split; [lia|done].
Qed.

Lemma is_publish_length f : is_publish f = true -> (43 <= length f)%nat.
Proof. unfold is_publish. rewrite !andb_true_iff. intros [[Hfr _] _]. by apply udp_frame_length in Hfr. Qed.

Lemma turned_fields bound f packed :
  (42 <= length f)%nat ->
  let f' := turned bound f packed in
  take 14 f' = take 6 (drop 6 f) ++ take 6 f ++ take 2 (drop 12 f) /\
  take 8 (drop 26 f') = take 4 (drop 30 f) ++ le_bytes 4 (packed_ip packed) /\
  take 6 (drop 34 f') = take 2 (drop 36 f) ++ le_bytes 2 (packed_port packed) ++ take 2 (drop 38 f) /\
  drop 42 f' = drop 42 f.
Proof.
  intros Hlen f'. subst f'. unfold turned.
  set (da := le_bytes 4 _). set (dp := le_bytes 2 (packed_port _)). set (ic := le_bytes 2 (new_ip_check _ _)).
  set (uc := le_bytes 2 (udp_check_value _ _)).
  assert (length da = 4%nat) as Ha by apply le_bytes_length.
  assert (length dp = 2%nat) as Hp by apply le_bytes_length.
  assert (length ic = 2%nat) as Hi by apply le_bytes_length.
  assert (length uc = 2%nat) as Hu by apply le_bytes_length.
  clearbody da dp ic uc. enumerate da Ha. enumerate dp Hp. enumerate ic Hi. enumerate uc Hu.
  explode_frame f Hlen. split_and!; reflexivity.
Qed.

(** ** Frames whose UDP checksum comes out wrong *)

(** The receiver's sum of a frame whose check field was computed as [65535 -
    norm16 (S + e)] instead of [65535 - norm16 S]. *)
Lemma checksum_off a b e :
  bytes_ok a -> bytes_ok b -> Nat.Even (length a) -> 0 <= e -> e mod 65535 <> 0 ->
  ~ rfc1071_valid (a ++ le_bytes 2 (65535 - norm16 (sum16 (a ++ [0; 0] ++ b) + e)) ++ b).
Proof.
  intros Ha Hb Hev He Hne. set (s := sum16 (a ++ [0; 0] ++ b)).
  pose proof (sum16_range (a ++ [0; 0] ++ b) ltac:(auto with broker)) as Hs. fold s in Hs.
  pose proof (norm16_range (s + e) ltac:(lia)) as Hn. pose proof (norm16_cong (s + e) ltac:(lia)) as Hc.
  set (n := norm16 (s + e)) in *. rewrite rfc1071_valid_iff by auto with broker.
  assert (s = sum16 a + sum16 b) as Hab by (subst s; by rewrite sum16_app).
  rewrite sum16_app by done. change (sum16 (le_bytes 2 (65535 - n) ++ b)) with
    ((65535 - n) mod 256 + 256 * ((65535 - n) / 256 mod 256) + sum16 b).
  clearbody s n. intros [_ Hv]. apply Hne. dlia.
Qed.

Lemma udp_valid_off bound g da dp ic e :
  bytes_ok g -> bytes_ok da -> bytes_ok dp -> bytes_ok ic ->
  (42 <= length g)%nat -> length da = 4%nat -> length dp = 2%nat -> length ic = 2%nat ->
  8 <= udp_length g -> 0 <= e -> e mod 65535 <> 0 ->
  let z := readdressed g da dp ic [0; 0] in
  udp_check_value bound z = 65535 - norm16 (sum16 (pseudo_header z ++ udp_segment z) + e) ->
  ~ udp_valid (readdressed g da dp ic (le_bytes 2 (udp_check_value bound z))).
Proof.
  intros Og Oa Op Oi Hg Ha Hp Hi H8 He Hne z ->. unfold udp_valid. subst z.
  rewrite !readdressed_udp_sum by (done || by repeat split).
  apply checksum_off; [auto 12 with broker|auto with broker| |done|done].
  rewrite !length_app, !length_take, !length_drop. exists 9%nat. cbn [length]. lia.
Qed.

Lemma turned_zeroed bound f packed :
  bytes_ok f -> (42 <= length f)%nat ->
  exists z, bytes_ok z /\ length z = length f /\ udp_length z = udp_length f /\
    drop 42 z = drop 42 f /\
    forall e, 8 <= udp_length f -> 0 <= e -> e mod 65535 <> 0 ->
      udp_check_value bound z = 65535 - norm16 (sum16 (pseudo_header z ++ udp_segment z) + e) ->
      ~ udp_valid (turned bound f packed).
Proof.
  intros Hf Hlen. set (g := swapped f). set (da := le_bytes 4 (packed_ip packed)).
  set (dp := le_bytes 2 (packed_port packed)). set (ic := le_bytes 2 (new_ip_check g da)).
  pose proof (swapped_length f) as Hsl. fold g in Hsl.
  assert (bytes_ok g) as Og by (by apply swapped_ok).
  assert (udp_length g = udp_length f) as Hul by (unfold udp_length, g; by rewrite swapped_drop by lia).
  assert (field_sizes da dp ic [0; 0]) as Hs by (repeat split; apply le_bytes_length).
  exists (readdressed g da dp ic [0; 0]). split_and!.
  - unfold da, dp, ic. auto 10 with broker.
  - rewrite readdressed_length; (done || lia || apply le_bytes_length).
  - by rewrite readdressed_udp_length by (done || lia).
  - apply list_eq. intros n. rewrite !lookup_drop, readdressed_tail by (done || lia).
    replace (42 + n)%nat with (12 + (30 + n))%nat by lia.
    rewrite <- !(lookup_drop _ 12). unfold g. by rewrite swapped_drop by lia.
  - intros e H8 He Hne Hck. unfold turned. fold g da dp ic.
    apply (udp_valid_off _ _ _ _ _ e); unfold da, dp, ic; auto using le_bytes_length with broker; lia.
Qed.

(** Odd length and no padding. *)
Lemma turned_odd_invalid bound f packed b :
  bytes_ok f -> (43 <= length f)%nat -> Z.odd (udp_length f) = true ->
  34 + udp_length f = Z.of_nat (length f) -> udp_length f <= 2 * Z.of_nat bound ->
  last f = Some b -> b <> 0 -> ~ udp_valid (turned bound f packed).
Proof.
  intros Hf Hlen Hodd Hfit Hle Hlast Hb. rewrite last_lookup in Hlast.
  pose proof (Forall_lookup_1 _ _ _ _ Hf Hlast) as Rb. unfold is_byte in Rb.
  destruct (turned_zeroed bound f packed Hf ltac:(lia)) as (z & Oz & Hz & Hzl & Hzd & Hinv).
  apply (Hinv (255 * b)); [lia|lia|dlia|].
  apply udp_check_value_odd; rewrite ?Hz, ?Hzl; try done; [lia|].
  replace (length f - 1)%nat with (42 + (length f - 43))%nat by lia.
  rewrite <- lookup_drop, Hzd, lookup_drop, <- Hlast. f_equal. lia.
Qed.

(** More bytes than the unrolled loop adds. *)
Lemma turned_long_invalid bound f packed :
  bytes_ok f -> (42 <= length f)%nat -> Z.even (udp_length f) = true -> (4 <= bound)%nat ->
  34 + udp_length f <= Z.of_nat (length f) -> 2 * Z.of_nat bound < udp_length f ->
  sum16 (drop (2 * bound) (udp_segment f)) mod 65535 <> 0 -> ~ udp_valid (turned bound f packed).
Proof.
  intros Hf Hlen Hev Hb Hfit Hlong Hrest.
  destruct (turned_zeroed bound f packed Hf Hlen) as (z & Oz & Hz & Hzl & Hzd & Hinv).
  assert (drop (2 * bound) (udp_segment z) = drop (2 * bound) (udp_segment f)) as Hseg.
  { unfold udp_segment. rewrite Hzl, !skipn_firstn_comm, !drop_drop. f_equal.
    replace (34 + 2 * bound)%nat with (42 + (2 * bound - 8))%nat by lia. by rewrite <- !drop_drop, Hzd. }
  set (r := sum16 (drop (2 * bound) (udp_segment f))) in *.
  assert (0 <= r) by (apply sum16_range; auto with broker; unfold udp_segment; auto with broker).
  apply (Hinv (65534 * r)); [lia|lia|dlia|].
  rewrite udp_check_value_long by (rewrite ?Hz, ?Hzl; done || lia). by rewrite Hseg.
Qed.

(** ** Properties *)

Section Properties.
Context `{!ProbeRead} {K : Type} `{!Kernel K}.

(** C2. For every packet and every kernel, [xdp_broker] terminates without
    leaving the packet and does exactly what [xdp_spec] says: the verdict,
    the outgoing bytes and the counters, on every branch. *)
Theorem xdp_broker_refines_spec f (s : K) :
  bytes_ok f ->
  exists rc f', (krun (xdp_broker f) s).1 = Ok (rc, f') /\
    (rc, f', kview_of (krun (xdp_broker f) s).2) = xdp_spec f (kview_of s).
Proof. apply xdp_run. Qed.

(** C21. Every frame the fast path transmits goes to the recorded subscriber
    and carries the publisher's payload: MAC addresses exchanged, source
    address and port those the publisher wrote to, destination the packed
    subscriber, the datagram's length and payload untouched. *)
Theorem xdp_tx_frame_fields f (s : K) f' :
  bytes_ok f -> (krun (xdp_broker f) s).1 = Ok (XDP_TX, f') ->
  exists t packed, published_topic f = Some t /\ v_cnt (kview_of s) !! t = Some 1 /\
    v_first (kview_of s) !! t = Some packed /\
    take 14 f' = take 6 (drop 6 f) ++ take 6 f ++ take 2 (drop 12 f) /\
    take 8 (drop 26 f') = take 4 (drop 30 f) ++ le_bytes 4 (packed_ip packed) /\
    take 6 (drop 34 f') = take 2 (drop 36 f) ++ le_bytes 2 (packed_port packed) ++ take 2 (drop 38 f) /\
    drop 42 f' = drop 42 f.
Proof.
  intros Hf Htx. destruct (xdp_run f s Hf) as (rc & f1 & Hr & Hs).
  rewrite Hr in Htx. injection Htx as -> ->.
  apply xdp_spec_tx in Hs as (Hp & t & packed & Ht & Hc & Hfs & ->).
  exists t, packed. split_and!; [done..| | | |];
    apply turned_fields, udp_frame_length, is_publish_frame, Hp.
Qed.

(** C22. The IP header checksum of every transmitted frame verifies, and so
    does the UDP checksum when the datagram is complete, at most 256 bytes
    long and of even length or zero-padded. *)
Theorem xdp_tx_checksums_valid f (s : K) f' :
  bytes_ok f -> (krun (xdp_broker f) s).1 = Ok (XDP_TX, f') ->
  ip_valid f' /\ (checksummable 128 f -> udp_valid f').
Proof.
  intros Hf Htx. destruct (xdp_run f s Hf) as (rc & f1 & Hr & Hs).
  rewrite Hr in Htx. injection Htx as -> ->.
  apply xdp_spec_tx in Hs as (Hp & t & packed & _ & _ & _ & ->).
  split; [by apply turned_ip_valid, is_publish_frame|]. intros Hc.
  pose proof (udp_frame_length _ _ (is_publish_frame _ Hp)) as Hlen.
  apply turned_udp_valid; done.
Qed.

(** C32. A publish whose datagram has odd length, at most 256 bytes, and ends
    with the frame (no padding) is forwarded with a wrong UDP checksum
    whenever its last byte is not NUL: the code adds the
    last byte as the high half of a word the host loaded little-endian. *)
Theorem xdp_tx_odd_checksum_wrong f (s : K) f' b :
  bytes_ok f -> (krun (xdp_broker f) s).1 = Ok (XDP_TX, f') ->
  Z.odd (udp_length f) = true -> 34 + udp_length f = Z.of_nat (length f) ->
  udp_length f <= 256 -> last f = Some b -> b <> 0 -> ~ udp_valid f'.
Proof.
  intros Hf Htx. destruct (xdp_run f s Hf) as (rc & f1 & Hr & Hs).
  rewrite Hr in Htx. injection Htx as -> ->.
  apply xdp_spec_tx in Hs as (Hp & t & packed & _ & _ & _ & ->). intros.
  apply (turned_odd_invalid _ _ _ b); auto. by apply is_publish_length.
Qed.

(** C33. A complete datagram of even length above 256 bytes is forwarded with
    a checksum over its first 256 bytes only, which is wrong whenever the
    words of the rest do not sum to zero (modulo 65535). *)
Theorem xdp_tx_long_checksum_wrong f (s : K) f' :
  bytes_ok f -> (krun (xdp_broker f) s).1 = Ok (XDP_TX, f') ->
  Z.even (udp_length f) = true -> 34 + udp_length f <= Z.of_nat (length f) ->
  256 < udp_length f -> sum16 (drop 256 (udp_segment f)) mod 65535 <> 0 -> ~ udp_valid f'.
Proof.
  intros Hf Htx. destruct (xdp_run f s Hf) as (rc & f1 & Hr & Hs).
  rewrite Hr in Htx. injection Htx as -> ->.
  apply xdp_spec_tx in Hs as (Hp & t & packed & _ & _ & _ & ->). intros.
  apply turned_long_invalid; auto with lia.
Qed.
End Properties.

(** The fast path on the sample publishes and the sample kernel. *)
Definition sent (f : list Z) : list Z :=
  match (krun (xdp_broker f) one_sub).1 with Ok (_, f') => f' | _ => [] end.

Lemma xdp_broker_refines_spec_witness :
  exists rc f', (krun (xdp_broker publish_even) one_sub).1 = Ok (rc, f') /\
    (rc, f', kview_of (krun (xdp_broker publish_even) one_sub).2) = xdp_spec publish_even one_sub /\
    rc = XDP_TX.
Proof.
  destruct (xdp_broker_refines_spec publish_even one_sub) as (rc & f' & Hr & Hs); [decide_goal|].
  exists rc, f'. split; [exact Hr|]. split; [exact Hs|].
  apply (f_equal (λ x, x.1.1)) in Hs. cbn in Hs. rewrite Hs. vm_compute. reflexivity.
Defined.

Lemma xdp_tx_frame_fields_witness :
  take 8 (drop 26 (sent publish_even)) = [10; 0; 0; 2; 10; 0; 0; 3] /\
  drop 42 (sent publish_even) = drop 42 publish_even.
Proof.
  destruct (xdp_tx_frame_fields publish_even one_sub (sent publish_even))
    as (t & p & Ht & Hc & Hp & _ & Ha & _ & Hd); [decide_goal|vm_compute; reflexivity|].
  split; [|exact Hd]. rewrite Ha.
  assert (Some t = Some key_t) as [= ->] by (rewrite <- Ht; vm_compute; reflexivity).
  assert (Some p = Some sub_a) as [= ->] by (rewrite <- Hp; vm_compute; reflexivity).
  vm_compute. reflexivity.
Defined.

Lemma xdp_tx_checksums_valid_witness :
  ip_valid (sent publish_even) /\ udp_valid (sent publish_even).
Proof.
  destruct (xdp_tx_checksums_valid publish_even one_sub (sent publish_even)) as [Hi Hu];
    [decide_goal|vm_compute; reflexivity|]. split; [exact Hi|]. apply Hu. decide_goal.
Defined.

Lemma xdp_tx_odd_checksum_wrong_witness : ~ udp_valid (sent publish_odd).
Proof.
  apply (xdp_tx_odd_checksum_wrong publish_odd one_sub (sent publish_odd) 111);
    [decide_goal|vm_compute; reflexivity|vm_compute; reflexivity|vm_compute; reflexivity
    |vm_compute; discriminate|vm_compute; reflexivity|lia].
Defined.

Lemma xdp_tx_long_checksum_wrong_witness : ~ udp_valid (sent publish_long).
Proof.
  apply (xdp_tx_long_checksum_wrong publish_long one_sub (sent publish_long));
    [decide_goal|vm_compute; reflexivity|vm_compute; reflexivity|vm_compute; discriminate
    |vm_compute; reflexivity|vm_compute; discriminate].
Defined.
