(* ===== verification/TcBroker.v ===== *)
(** * The TC slow path: [tc_ingress_broker] of bpf_broker/bpf_broker_kern.c

    A publish for a registered topic is cloned once per subscriber: the
    handler turns the packet around, then [bpf_for_each_map_elem] runs
    [callback_fn] on every key of the topic's inner map, which readdresses
    the shared socket buffer, repairs the checksums incrementally and sends
    a clone.  The buffer is the private memory of the program, so what one
    callback leaves in it the next one finds. *)

From Stdlib Require Import String.
From S2P Require Import Prelude Prog Packet Checksum Kernel RefKernel XdpBroker.
From stdpp Require Import base tactics numbers list gmap fin_maps.
Local Open Scope Z_scope.
Local Open Scope broker_scope.

(** ** The code *)

Definition TC_ACT_OK : Z := 0.
Definition TC_ACT_SHOT : Z := 2.

(** Reads and writes through packet pointers. *)
Definition sget {A} (g : list Z -> option A) : pm ev skb A := prd (λ s, g (skb_data s)).
Definition sput (g : list Z -> option (list Z)) : pm ev skb unit :=
  pwr (λ s, d ← g (skb_data s); Some (skb_set_data d s)).
Definition on_data {A} (m : pm ev (list Z) A) : pm ev skb A :=
  λ s, ubind (m (skb_data s)) (λ '(a, d), uret (a, skb_set_data d s)).

(** Helpers that take the buffer. *)
Definition bpf_skb_pull_data (len : skb -> Z) : pm ev skb Z := λ s, ucall (SkbPullData s (len s)).
Definition csum_replace (l : layer) (off : nat) (from to flags : Z) : pm ev skb Z :=
  λ s, ucall (CsumReplace l s off from to flags).
Definition bpf_clone_redirect : pm ev skb Z :=
  λ s, ubind (ucall (CloneRedirect s (skb_ifindex s) 0)) (λ r, uret (r, s)).

(** [if (refresh_headers(...) < 0) return TC_ACT_OK;] *)
Definition with_headers (k : hdrs -> pm ev skb Z) : pm ev skb Z :=
  h <- sget refresh_headers ;; match h with None => pret TC_ACT_OK | Some h => k h end.

(** [if (r < 0) return TC_ACT_OK;] *)
Definition or_return (m : pm ev skb Z) (k : pm ev skb Z) : pm ev skb Z :=
  r <- m ;; if r <? 0 then pret TC_ACT_OK else k.

(** Offsets of the checksums, as the code spells them. *)
Definition l3_off : nat := sizeof_ethhdr + ip_check.
Definition l4_off : nat := sizeof_ethhdr + sizeof_iphdr + udp_check.

(** The TX queue statistics. *)
Definition count_queue : pm ev skb unit :=
  qid <- prd (λ s, Some (skb_queue_mapping s)) ;;
  cnt <- pcall (ElemLookup (stat queue_count_map) qid) ;;
  match cnt with
  | Some _ => pcall (AtomicAdd (stat queue_count_map) qid 1)
  | None => pcall (ElemUpdate (stat queue_count_map) qid 1) ;; pret tt
  end.

Definition callback_fn (packed : Z) : pm ev skb Z :=
  let dest_ip_net := packed_ip packed in
  let dest_port_net := packed_port packed in
  with_headers (λ h,
  old_daddr <- sget (λ f, ld32 f (ip h + ip_daddr)) ;;
  old_port <- sget (λ f, ld16 f (udp h + udp_dest)) ;;
  sput (λ f, st32 f (ip h + ip_daddr) dest_ip_net) ;;
  daddr <- sget (λ f, ld32 f (ip h + ip_daddr)) ;;
  or_return (csum_replace L3 l3_off old_daddr daddr 4) (
  with_headers (λ h,
  daddr <- sget (λ f, ld32 f (ip h + ip_daddr)) ;;
  or_return (csum_replace L4 l4_off old_daddr daddr (Z.lor 4 BPF_F_PSEUDO_HDR)) (
  with_headers (λ h,
  sput (λ f, st16 f (udp h + udp_dest) dest_port_net) ;;
  dest <- sget (λ f, ld16 f (udp h + udp_dest)) ;;
  or_return (csum_replace L4 l4_off old_port dest (Z.lor 2 BPF_F_PSEUDO_HDR)) (
  with_headers (λ h,
  count_queue ;;
  bpf_clone_redirect ;;
  count_event clone_counter_2 ;;
  pret 0))))))).

(** [bpf_for_each_map_elem] over the entries it visits: a nonzero result of
    the callback ends the walk. *)
Fixpoint for_each_elem (l : list (Z * Z)) : pm ev skb unit :=
  match l with
  | [] => pret tt
  | (key, _) :: l' =>
      ret <- callback_fn key ;;
      if ret =? 0 then for_each_elem l' else pret tt
  end.

(** Source address and port become those the publisher wrote to, then [k]. *)
Definition rewrite_source (h : hdrs) (k : pm ev skb Z) : pm ev skb Z :=
  temp_ip <- sget (λ f, ld32 f (ip h + ip_saddr)) ;;
  daddr <- sget (λ f, ld32 f (ip h + ip_daddr)) ;;
  sput (λ f, st32 f (ip h + ip_saddr) daddr) ;;
  saddr <- sget (λ f, ld32 f (ip h + ip_saddr)) ;;
  or_return (csum_replace L3 l3_off temp_ip saddr 4) (
  with_headers (λ h,
  saddr <- sget (λ f, ld32 f (ip h + ip_saddr)) ;;
  or_return (csum_replace L4 l4_off temp_ip saddr (Z.lor 4 BPF_F_PSEUDO_HDR)) (
  with_headers (λ h,
  temp_port <- sget (λ f, ld16 f (udp h + udp_source)) ;;
  dest <- sget (λ f, ld16 f (udp h + udp_dest)) ;;
  sput (λ f, st16 f (udp h + udp_source) dest) ;;
  source <- sget (λ f, ld16 f (udp h + udp_source)) ;;
  or_return (csum_replace L4 l4_off temp_port source (Z.lor 2 BPF_F_PSEUDO_HDR)) k)))).

Section Tc.
Context `{!ProbeRead}.

Definition tc_ingress_broker : pm ev skb Z :=
  or_return (bpf_skb_pull_data skb_len) (
  with_headers (λ h,
  dest <- sget (λ f, ld16 f (udp h + udp_dest)) ;;
  if negb (port_in_range (bswap16 dest)) then pret TC_ACT_OK else
  pub <- sget (λ f, starts_with f (payload h) PUBLISH (length f)) ;;
  if negb pub then pret TC_ACT_OK else
  count_event pub_counter_2 ;;
  r <- sget (λ f, Some (extract_topic_id f (payload h + 8) (length f) zero_key)) ;;
  let '(rc, topic_id) := r in
  if rc <? 0 then pret TC_ACT_OK else
  inner_map <- pcall (TopicLookup topic_outer topic_id) ;;
  match inner_map with
  | None => pret TC_ACT_OK
  | Some inner_map =>
      on_data (swap_macs (eth h)) ;;
      rewrite_source h (
      elems <- pcall (ElemForEach (by_id inner_map)) ;;
      for_each_elem elems ;;
      pret TC_ACT_SHOT)
  end)).
End Tc.

(** ** Frames by their mutable fields *)

(** The six header fields the handler rewrites, as the values the code
    loads. *)
Record fields := Fields {
  f_sa : Z; f_da : Z; f_sp : Z; f_dp : Z; f_ic : Z; f_uc : Z
}.

Definition frame (g : list Z) (x : fields) : list Z :=
  take 24 g ++ le_bytes 2 (f_ic x) ++ le_bytes 4 (f_sa x) ++ le_bytes 4 (f_da x) ++
  le_bytes 2 (f_sp x) ++ le_bytes 2 (f_dp x) ++ take 2 (drop 38 g) ++ le_bytes 2 (f_uc x) ++ drop 42 g.

Definition fields_of (g : list Z) : fields :=
  Fields (le_val (take 4 (drop 26 g))) (le_val (take 4 (drop 30 g))) (le_val (take 2 (drop 34 g)))
    (le_val (take 2 (drop 36 g))) (le_val (take 2 (drop 24 g))) (le_val (take 2 (drop 40 g))).

Definition fields_ok (x : fields) : Prop :=
  0 <= f_sa x < 2 ^ 32 /\ 0 <= f_da x < 2 ^ 32 /\ 0 <= f_sp x < 65536 /\ 0 <= f_dp x < 65536 /\
  0 <= f_ic x < 65536 /\ 0 <= f_uc x < 65536.

(** The contributions of the fields to the two checksums. *)
Definition ip_part (x : fields) : Z := f_ic x + field_sum 4 (f_sa x) + field_sum 4 (f_da x).
Definition udp_part (x : fields) : Z :=
  f_uc x + field_sum 4 (f_sa x) + field_sum 4 (f_da x) + f_sp x + f_dp x.

(** Equal in one's complement, up to the two zeros. *)
Definition oc_eq (a b : Z) : Prop := (a - b) mod 65535 = 0.

Lemma le_val_2_range bs : bytes_ok bs -> (length bs <= 2)%nat -> 0 <= le_val bs < 65536.
Proof.
  intros Hb Hl. pose proof (le_val_range bs Hb) as H.
  assert (256 ^ Z.of_nat (length bs) <= 256 ^ 2) by (apply Z.pow_le_mono_r; lia). lia.
Qed.

Lemma le_val_4_range bs : bytes_ok bs -> (length bs <= 4)%nat -> 0 <= le_val bs < 2 ^ 32.
Proof.
  intros Hb Hl. pose proof (le_val_range bs Hb) as H.
  assert (256 ^ Z.of_nat (length bs) <= 256 ^ 4) by (apply Z.pow_le_mono_r; lia). lia.
Qed.

Lemma fields_of_ok g : bytes_ok g -> fields_ok (fields_of g).
Proof.
  intros Hg. unfold fields_ok, fields_of. cbn [f_sa f_da f_sp f_dp f_ic f_uc].
  assert (forall n p, (length (take n (drop p g)) <= n)%nat) as Hl by (intros; rewrite length_take; lia).
  split_and!; (apply le_val_4_range || apply le_val_2_range); auto with broker.
Qed.

Lemma frame_fields_of g : bytes_ok g -> (42 <= length g)%nat -> frame g (fields_of g) = g.
Proof.
  intros Hg Hlen. unfold frame, fields_of. cbn [f_sa f_da f_sp f_dp f_ic f_uc].
  rewrite !le_bytes_le_val_n by ((rewrite length_take, length_drop; lia) || auto with broker).
  destruct (explode 42 g Hlen) as (h & t & -> & Hh). enumerate h Hh. reflexivity.
Qed.

Lemma frame_length g x : (42 <= length g)%nat -> length (frame g x) = length g.
Proof. intros. unfold frame. rewrite !length_app, !length_take, !length_drop, !le_bytes_length. lia. Qed.

Lemma frame_ok g x : bytes_ok g -> bytes_ok (frame g x).
Proof. intros. unfold frame. auto 12 with broker. Qed.

#[export] Hint Resolve frame_ok : broker.

(** Pointer accesses to the fields. *)
Ltac solve_frame_access :=
  intros Hg; let h := fresh "h" in let t := fresh "t" in let Hh := fresh "Hh" in
  match type of Hg with (42 <= length ?g)%nat => destruct (explode 42 g Hg) as (h & t & -> & Hh) end;
  enumerate h Hh; reflexivity.

Lemma load_ic g x : (42 <= length g)%nat -> load (frame g x) 24 2 = Some (le_bytes 2 (f_ic x)).
Proof. solve_frame_access. Qed.
Lemma load_uc g x : (42 <= length g)%nat -> load (frame g x) 40 2 = Some (le_bytes 2 (f_uc x)).
Proof. solve_frame_access. Qed.

Lemma ld32_load f p v : 0 <= v < 2 ^ 32 -> load f p 4 = Some (le_bytes 4 v) -> ld32 f p = Some v.
Proof. intros Hv Hl. unfold ld32. rewrite Hl. cbn [fmap option_fmap option_map]. by rewrite le_val_le_bytes. Qed.

Lemma ld16_load f p v : 0 <= v < 65536 -> load f p 2 = Some (le_bytes 2 v) -> ld16 f p = Some v.
Proof. intros Hv Hl. unfold ld16. rewrite Hl. cbn [fmap option_fmap option_map]. by rewrite le_val_le_bytes. Qed.

Lemma ld_sa g sa da sp dp ic uc : (42 <= length g)%nat -> 0 <= sa < 2 ^ 32 ->
  ld32 (frame g (Fields sa da sp dp ic uc)) (14 + ip_saddr) = Some sa.
Proof. intros Hg Hv. apply ld32_load; [done|]. revert Hg. solve_frame_access. Qed.
Lemma ld_da g sa da sp dp ic uc : (42 <= length g)%nat -> 0 <= da < 2 ^ 32 ->
  ld32 (frame g (Fields sa da sp dp ic uc)) (14 + ip_daddr) = Some da.
Proof. intros Hg Hv. apply ld32_load; [done|]. revert Hg. solve_frame_access. Qed.
Lemma ld_sp g sa da sp dp ic uc : (42 <= length g)%nat -> 0 <= sp < 65536 ->
  ld16 (frame g (Fields sa da sp dp ic uc)) (34 + udp_source) = Some sp.
Proof. intros Hg Hv. apply ld16_load; [done|]. revert Hg. solve_frame_access. Qed.
Lemma ld_dp g sa da sp dp ic uc : (42 <= length g)%nat -> 0 <= dp < 65536 ->
  ld16 (frame g (Fields sa da sp dp ic uc)) (34 + udp_dest) = Some dp.
Proof. intros Hg Hv. apply ld16_load; [done|]. revert Hg. solve_frame_access. Qed.

Lemma st_sa g sa da sp dp ic uc v : (42 <= length g)%nat ->
  st32 (frame g (Fields sa da sp dp ic uc)) (14 + ip_saddr) v = Some (frame g (Fields v da sp dp ic uc)).
Proof. solve_frame_access. Qed.
Lemma st_da g sa da sp dp ic uc v : (42 <= length g)%nat ->
  st32 (frame g (Fields sa da sp dp ic uc)) (14 + ip_daddr) v = Some (frame g (Fields sa v sp dp ic uc)).
Proof. solve_frame_access. Qed.
Lemma st_sp g sa da sp dp ic uc v : (42 <= length g)%nat ->
  st16 (frame g (Fields sa da sp dp ic uc)) (34 + udp_source) v = Some (frame g (Fields sa da v dp ic uc)).
Proof. solve_frame_access. Qed.
Lemma st_dp g sa da sp dp ic uc v : (42 <= length g)%nat ->
  st16 (frame g (Fields sa da sp dp ic uc)) (34 + udp_dest) v = Some (frame g (Fields sa da sp v ic uc)).
Proof. solve_frame_access. Qed.
Lemma st_ic g sa da sp dp ic uc v : (42 <= length g)%nat ->
  st16 (frame g (Fields sa da sp dp ic uc)) 24 v = Some (frame g (Fields sa da sp dp v uc)).
Proof. solve_frame_access. Qed.
Lemma st_uc g sa da sp dp ic uc v : (42 <= length g)%nat ->
  st16 (frame g (Fields sa da sp dp ic uc)) 40 v = Some (frame g (Fields sa da sp dp ic v)).
Proof. solve_frame_access. Qed.

(** The headers the walk tests are not among the fields. *)
Lemma frame_headers g x :
  bytes_ok g -> udp_frame 42 g = true -> refresh_headers (frame g x) = Some (Some std_hdrs).
Proof.
  intros Hg Hfr. pose proof (udp_frame_length _ _ Hfr) as Hlen. rewrite refresh_headers_eq by auto with broker.
  enough (udp_frame 42 (frame g x) = true) as -> by done.
  apply udp_frame_iff in Hfr. apply udp_frame_iff. rewrite frame_length by done.
  revert Hfr. destruct (explode 42 g Hlen) as (h & t & -> & Hh). enumerate h Hh. done.
Qed.

(** ** Stepping through the handler *)

(** Views that differ in statistics and output only. *)
Definition same_maps (v w : kview) : Prop :=
  v_outer w = v_outer v /\ v_cnt w = v_cnt v /\ v_first w = v_first v /\
  v_objs w = v_objs v /\ v_fds w = v_fds v.

(** A clone counter after one more packet. *)
Definition tick (n : gmap Z Z) : gmap Z Z := alter (λ c, u32 (c + 1)) 0 n.

(** The fields after one callback: the subscriber as destination, both sums
    as they were. *)
Definition addressed (packed : Z) (x x' : fields) : Prop :=
  f_da x' = packed_ip packed /\ f_dp x' = packed_port packed /\
  oc_eq (ip_part x') (ip_part x) /\ oc_eq (udp_part x') (udp_part x).

Lemma oc_eq_refl a : oc_eq a a.
Proof. unfold oc_eq. by rewrite Z.sub_diag. Qed.

Lemma oc_eq_trans a b d : oc_eq a b -> oc_eq b d -> oc_eq a d.
Proof. unfold oc_eq. intros. dlia. Qed.

Lemma packed_ip_range p : 0 <= packed_ip p < 2 ^ 32.
Proof. apply u32_range. Qed.
Lemma packed_port_range p : 0 <= packed_port p < 65536.
Proof. apply u16_range. Qed.

(** What an incremental update answers: the documented result, and a failure
    only when [rel] does not hold. *)
Definition csum_answer (rel : Prop) (l : layer) (s : skb) (off : nat) (from to flags : Z) (x : Z * skb) : Prop :=
  exists v : kview, ev_spec (CsumReplace l s off from to flags) v x v /\
    (rel -> ev_reliable (CsumReplace l s off from to flags) v x).

(** The rules of the handler's steps, for any logic that knows this much. *)
Section Steps.
Context {V : Type} (J : forall A, pm ev skb A -> (A -> skb -> V -> Prop) -> skb -> V -> Prop) `{!Triple J}.
Context (rel : Prop).
Context (Hcs : forall l off from to flags Q s v,
  (forall x, csum_answer rel l s off from to flags x -> Q x.1 x.2 v) -> J _ (csum_replace l off from to flags) Q s v).
Context (g paged : list Z) (ifx qm : Z).
Context (Hg : bytes_ok g) (Hfr : udp_frame 42 g = true).

Let sk (x : fields) : skb := Skb (frame g x) paged ifx qm.
Let Hlen : (42 <= length g)%nat := udp_frame_length _ _ Hfr.

Lemma sget_tr {A} (f : list Z -> option A) a Q x v :
  f (frame g x) = Some a -> Q a (sk x) v -> J _ (sget f) Q (sk x) v.
Proof. intros. by apply (tr_rd _ _ _ _ a). Qed.

Lemma sput_tr (f : list Z -> option (list Z)) x' Q x v :
  f (frame g x) = Some (frame g x') -> Q tt (sk x') v -> J _ (sput f) Q (sk x) v.
Proof. intros Hf HQ. apply (tr_wr _ _ _ (sk x')); [|done]. cbn. by rewrite Hf. Qed.

Lemma with_headers_tr k Q x v : J _ (k std_hdrs) Q (sk x) v -> J _ (with_headers k) Q (sk x) v.
Proof. intros Hk. apply tr_bind. eapply sget_tr; [by apply frame_headers|done]. Qed.

Lemma or_return_tr m k Q s v :
  J _ m (λ r s' v', (r < 0 -> Q TC_ACT_OK s' v') /\ (0 <= r -> J _ k Q s' v')) s v ->
  J _ (or_return m k) Q s v.
Proof.
  intros Hm. apply tr_bind. eapply tr_mono; [|exact Hm]. cbv beta. intros r s' v' [Hneg Hpos].
  destruct (r <? 0) eqn:E; split_hyps; [apply tr_ret|]; auto.
Qed.

(** The two incremental updates; a failure leaves the buffer alone. *)
Lemma l3_tr from to flags k Q sa da sp dp ic uc v :
  fields_ok (Fields sa da sp dp ic uc) ->
  (~ rel -> Q TC_ACT_OK (sk (Fields sa da sp dp ic uc)) v) ->
  (forall ic', 0 <= ic' < 65536 ->
     oc_eq ic' (ic + field_sum (Z.land flags 15) from - field_sum (Z.land flags 15) to) ->
     J _ k Q (sk (Fields sa da sp dp ic' uc)) v) ->
  J _ (or_return (csum_replace L3 l3_off from to flags) k) Q (sk (Fields sa da sp dp ic uc)) v.
Proof.
  intros (_ & _ & _ & _ & Hic & _) Hneg Hpos. apply or_return_tr, Hcs.
  intros [r s'] (u & Hs & Hr). unfold sk in *. cbn [ev_spec ev_reliable skb_data fst snd] in Hs, Hr |- *.
  destruct Hs as [_ Hs].
  change l3_off with 24%nat in *. rewrite (ld16_load _ _ _ Hic (load_ic g _ Hlen)) in Hs. cbn [f_ic] in Hs.
  destruct Hs as [[Hn ->]|(Hn & c0 & ic' & d & [= <-] & [Hi Hcu] & Hst & ->)].
  - split; [|lia]. intros _. apply Hneg. intros H. specialize (Hr H). rewrite frame_length in Hr by done. lia.
  - rewrite st_ic in Hst by done. injection Hst as <-. split; [lia|]. intros _. apply Hpos; [done|]. apply Hcu. by auto.
Qed.

Lemma l4_tr from to flags k Q sa da sp dp ic uc v :
  Z.testbit flags 4 = true ->
  fields_ok (Fields sa da sp dp ic uc) ->
  (~ rel -> Q TC_ACT_OK (sk (Fields sa da sp dp ic uc)) v) ->
  (forall uc', 0 <= uc' < 65536 ->
     oc_eq uc' (uc + field_sum (Z.land flags 15) from - field_sum (Z.land flags 15) to) ->
     J _ k Q (sk (Fields sa da sp dp ic uc')) v) ->
  J _ (or_return (csum_replace L4 l4_off from to flags) k) Q (sk (Fields sa da sp dp ic uc)) v.
Proof.
  intros Hflag (_ & _ & _ & _ & _ & Huc) Hneg Hpos. apply or_return_tr, Hcs.
  intros [r s'] (u & Hs & Hr). unfold sk in *. cbn [ev_spec ev_reliable skb_data fst snd] in Hs, Hr |- *.
  destruct Hs as [_ Hs].
  change l4_off with 40%nat in *. rewrite (ld16_load _ _ _ Huc (load_uc g _ Hlen)) in Hs. cbn [f_uc] in Hs.
  destruct Hs as [[Hn ->]|(Hn & c0 & uc' & d & [= <-] & [Hi Hcu] & Hst & ->)].
  - split; [|lia]. intros _. apply Hneg. intros H. specialize (Hr H). rewrite frame_length in Hr by done. lia.
  - rewrite st_uc in Hst by done. injection Hst as <-. split; [lia|]. intros _. apply Hpos; [done|]. apply Hcu. by auto.
Qed.

(** The callback up to the clone: a failure ends it with the subscriber
    possibly half written, but the source kept. *)
Lemma callback_tr packed x Q v :
  fields_ok x ->
  (~ rel -> forall x', fields_ok x' -> f_sa x' = f_sa x -> f_sp x' = f_sp x -> Q TC_ACT_OK (sk x') v) ->
  (forall x', fields_ok x' -> f_sa x' = f_sa x -> f_sp x' = f_sp x -> addressed packed x x' ->
     J _ (count_queue ;; bpf_clone_redirect ;; count_event clone_counter_2 ;; pret 0) Q (sk x') v) ->
  J _ (callback_fn packed) Q (sk x) v.
Proof.
  intros Hx Hneg Hk. pose proof Hx as (Hsa & Hda & Hsp & Hdp & Hic & Huc).
  pose proof (packed_ip_range packed) as Hpi. pose proof (packed_port_range packed) as Hpp.
  destruct x as [sa da sp dp ic uc]. cbn [f_sa f_da f_sp f_dp f_ic f_uc] in *.
  unfold callback_fn. cbv zeta. set (dip := packed_ip packed) in *. set (dport := packed_port packed) in *.
  apply with_headers_tr. cbn [std_hdrs eth ip udp].
  apply tr_bind, (sget_tr _ da); [by apply ld_da|].
  apply tr_bind, (sget_tr _ dp); [by apply ld_dp|].
  apply tr_bind, (sput_tr _ (Fields sa dip sp dp ic uc)); [by apply st_da|].
  apply tr_bind, (sget_tr _ dip); [by apply ld_da|].
  apply l3_tr; [done|intros; by apply Hneg|]. intros ic' Hic' Ei. change (Z.land 4 15) with 4 in Ei.
  apply with_headers_tr. cbn [std_hdrs eth ip udp].
  apply tr_bind, (sget_tr _ dip); [by apply ld_da|].
  apply l4_tr; [done|done|intros; by apply Hneg|]. intros uc1 Huc1 Eu1. change (Z.land _ 15) with 4 in Eu1.
  apply with_headers_tr. cbn [std_hdrs eth ip udp].
  apply tr_bind, (sput_tr _ (Fields sa dip sp dport ic' uc1)); [by apply st_dp|].
  apply tr_bind, (sget_tr _ dport); [by apply ld_dp|].
  apply l4_tr; [done|done|intros; by apply Hneg|]. intros uc2 Huc2 Eu2. change (Z.land _ 15) with 2 in Eu2.
  apply with_headers_tr. apply Hk; [done..|].
  unfold addressed, oc_eq, ip_part, udp_part in *. cbn [f_sa f_da f_sp f_dp f_ic f_uc] in *.
  change (field_sum 2 dp) with dp in Eu2. change (field_sum 2 dport) with dport in Eu2.
  split_and!; [done|done| |]; generalize dependent (field_sum 4 da); generalize dependent (field_sum 4 dip);
    generalize dependent (field_sum 4 sa); intros; clear - Ei Eu1 Eu2; dlia.
Qed.

Lemma rewrite_source_tr k Q sa da sp dp ic uc v :
  fields_ok (Fields sa da sp dp ic uc) ->
  (~ rel -> forall x, Q TC_ACT_OK (sk x) v) ->
  (forall ic' uc', fields_ok (Fields da da dp dp ic' uc') ->
     oc_eq (ip_part (Fields da da dp dp ic' uc')) (ip_part (Fields sa da sp dp ic uc)) ->
     oc_eq (udp_part (Fields da da dp dp ic' uc')) (udp_part (Fields sa da sp dp ic uc)) ->
     J _ k Q (sk (Fields da da dp dp ic' uc')) v) ->
  J _ (rewrite_source std_hdrs k) Q (sk (Fields sa da sp dp ic uc)) v.
Proof.
  intros Hx Hneg Hk. pose proof Hx as (Hsa & Hda & Hsp & Hdp & Hic & Huc).
  cbn [f_sa f_da f_sp f_dp f_ic f_uc] in *. unfold rewrite_source. cbn [std_hdrs ip udp].
  apply tr_bind, (sget_tr _ sa); [by apply ld_sa|].
  apply tr_bind, (sget_tr _ da); [by apply ld_da|].
  apply tr_bind, (sput_tr _ (Fields da da sp dp ic uc)); [by apply st_sa|].
  apply tr_bind, (sget_tr _ da); [by apply ld_sa|].
  apply l3_tr; [done|auto|]. intros ic' Hic' Ei. change (Z.land 4 15) with 4 in Ei.
  apply with_headers_tr. cbn [std_hdrs ip udp].
  apply tr_bind, (sget_tr _ da); [by apply ld_sa|].
  apply l4_tr; [done|done|auto|]. intros uc1 Huc1 Eu1. change (Z.land _ 15) with 4 in Eu1.
  apply with_headers_tr. cbn [std_hdrs ip udp].
  apply tr_bind, (sget_tr _ sp); [by apply ld_sp|].
  apply tr_bind, (sget_tr _ dp); [by apply ld_dp|].
  apply tr_bind, (sput_tr _ (Fields da da dp dp ic' uc1)); [by apply st_sp|].
  apply tr_bind, (sget_tr _ dp); [by apply ld_sp|].
  apply l4_tr; [done|done|auto|]. intros uc2 Huc2 Eu2. change (Z.land _ 15) with 2 in Eu2.
  unfold oc_eq, ip_part, udp_part in *. cbn [f_sa f_da f_sp f_dp f_ic f_uc] in *.
  change (field_sum 2 sp) with sp in Eu2. change (field_sum 2 dp) with dp in Eu2.
  apply Hk; [done| |]; generalize dependent (field_sum 4 da);
    generalize dependent (field_sum 4 sa); intros; clear - Ei Eu1 Eu2; dlia.
Qed.
(** Swapping the MAC addresses of the linear part. *)
Lemma on_data_swap_tr s Q v :
  (42 <= length (skb_data s))%nat -> Q tt (skb_set_data (swapped (skb_data s)) s) v ->
  J _ (on_data (swap_macs 0)) Q s v.
Proof. intros Hl. apply tr_pure. unfold on_data. by rewrite swap_macs_eq. Qed.
End Steps.

(** Against a contract of the kernel's calls. *)
Section Clones.
Context (c : contract (E := ev) kview) (rel : Prop).
Context (Hc : forall X (e : ev X) v x v', c X e v x v' -> ev_spec e v x v').
Context (Hrel : rel -> forall X (e : ev X) v x v', c X e v x v' -> ev_reliable e v x).

Lemma csum_rule l off from to flags Q s v :
  (forall x, csum_answer rel l s off from to flags x -> Q x.1 x.2 v) ->
  pwp c (csum_replace l off from to flags) Q s v.
Proof.
  intros HQ. apply uwp_call. intros x v' Hs. pose proof (Hc _ _ _ _ _ Hs) as Hs'.
  assert (v' = v) as -> by exact (proj1 Hs'). apply HQ. exists v. split; [done|]. intros H. by eapply Hrel.
Qed.

Context (g paged : list Z) (ifx qm : Z).
Context (Hg : bytes_ok g) (Hfr : udp_frame 42 g = true).

Let sk (x : fields) : skb := Skb (frame g x) paged ifx qm.

Lemma count_queue_wp Q s v :
  (forall v', same_maps v v' -> v_out v' = v_out v -> v_clone v' = v_clone v -> Q tt s v') ->
  pwp c count_queue Q s v.
Proof.
  intros HQ. unfold count_queue. eapply pwp_bind, pwp_rd; [done|].
  apply pwp_bind, pwp_call. intros n v' Hn%Hc. cbn [ev_spec] in Hn. destruct Hn as [-> _].
  destruct n as [n|].
  - apply pwp_call. intros [] v' Hv%Hc. cbn in Hv. subst v'. apply HQ; by destruct v.
  - apply pwp_bind, pwp_call. intros r v' Hv%Hc. cbn in Hv. apply pwp_ret.
    destruct Hv as [(_ & _ & ->)|[_ ->]]; apply HQ; by destruct v.
Qed.

(** What one callback leaves behind. *)
Definition called (packed : Z) (x : fields) (v : kview) (rc : Z) (s' : skb) (v' : kview) : Prop :=
  rc = 0 /\ exists x', s' = sk x' /\ fields_ok x' /\ f_sa x' = f_sa x /\ f_sp x' = f_sp x /\
  same_maps v v' /\
  ((~ rel /\ v_out v' = v_out v) \/
   (addressed packed x x' /\ v_out v' = v_out v ++ [Clone (frame g x' ++ paged) ifx] /\
    v_clone v' = tick (v_clone v))).

Lemma called_skip packed x x' v :
  ~ rel -> fields_ok x' -> f_sa x' = f_sa x -> f_sp x' = f_sp x -> called packed x v TC_ACT_OK (sk x') v.
Proof. intros. split; [done|]. exists x'. split_and!; try done. by left. Qed.

(** The last part: count, clone, count. *)
Lemma clone_one_wp packed x x' v :
  fields_ok x' -> f_sa x' = f_sa x -> f_sp x' = f_sp x -> addressed packed x x' ->
  pwp c (count_queue ;; bpf_clone_redirect ;; count_event clone_counter_2 ;; pret 0)
    (called packed x v) (sk x') v.
Proof.
  intros Hx Hsa Hsp Ha. apply pwp_bind, count_queue_wp. intros v1 Hm Ho Hcl.
  apply pwp_bind. unfold pwp, bpf_clone_redirect. apply uwp_bind, uwp_call. intros r v2 Hs.
  pose proof (Hc _ _ _ _ _ Hs) as Hs'. cbn in Hs'. apply uwp_ret. cbn [fst snd].
  apply pwp_bind, (count_event_wp _ _ _ _ _ Hc), pwp_ret. split; [done|]. exists x'.
  split_and!; try done.
  - destruct Hm as (? & ? & ? & ? & ?). destruct Hs' as [[_ ->]|[_ ->]]; destruct v1; done.
  - destruct Hs' as [[_ ->]|[Hr ->]].
    + right. split; [done|]. rewrite <- Ho, <- Hcl. destruct v1; done.
    + left. split.
      * intros H. specialize (Hrel H _ _ _ _ _ Hs). cbn in Hrel. lia.
      * rewrite <- Ho. by destruct v1.
Qed.

Lemma callback_wp packed x v :
  fields_ok x -> pwp c (callback_fn packed) (called packed x v) (sk x) v.
Proof.
  intros Hx. apply (callback_tr (λ A, pwp c) rel csum_rule g paged ifx qm Hg Hfr); [done| |].
  - intros. by apply called_skip.
  - intros. by apply clone_one_wp.
Qed.

(** A clone for subscriber [k] of the packet with fields [x]; its sums are
    kept when nothing failed before it. *)
Definition clone_of (x : fields) (k : Z) (o : output) : Prop :=
  exists y, o = Clone (frame g y ++ paged) ifx /\ fields_ok y /\ f_sa y = f_sa x /\ f_sp y = f_sp x /\
    f_da y = packed_ip k /\ f_dp y = packed_port k /\
    (rel -> oc_eq (ip_part y) (ip_part x) /\ oc_eq (udp_part y) (udp_part x)).

Lemma clone_of_trans x1 x k o :
  f_sa x1 = f_sa x -> f_sp x1 = f_sp x ->
  (rel -> oc_eq (ip_part x1) (ip_part x) /\ oc_eq (udp_part x1) (udp_part x)) ->
  clone_of x1 k o -> clone_of x k o.
Proof.
  intros Hsa Hsp Hsum (y & Ho & Hok & Hsa' & Hsp' & Hda & Hdp & Hy). exists y.
  split_and!; [done|done|congruence|congruence|done|done|]. intros H.
  destruct (Hsum H), (Hy H). split; by eapply oc_eq_trans.
Qed.

Lemma for_each_wp l x v :
  fields_ok x ->
  pwp c (for_each_elem l) (λ _ s' v', same_maps v v' /\ exists outs,
    v_out v' = v_out v ++ outs /\ Forall (λ o, exists k, k ∈ l.*1 /\ clone_of x k o) outs /\
    (rel -> Forall2 (λ kv, clone_of x kv.1) l outs /\ v_clone v' = Nat.iter (length l) tick (v_clone v))) (sk x) v.
Proof.
  revert x v. induction l as [|[k z] l IH]; intros x v Hx; cbn [for_each_elem].
  { apply pwp_ret. split; [done|]. exists []. rewrite app_nil_r. split_and!; [done|constructor|].
    split; [constructor|done]. }
  apply pwp_bind. eapply pwp_mono; [|by apply callback_wp]. cbv beta.
  intros rc s1 v1 (-> & x1 & -> & Hx1 & Hsa & Hsp & Hm & Hcase). cbn [Z.eqb].
  eapply pwp_mono; [|by apply (IH x1)]. cbv beta. intros _ s2 v2 (Hm2 & outs & Ho & Hall & Hr).
  split. { destruct Hm as (? & ? & ? & ? & ?), Hm2 as (? & ? & ? & ? & ?). split_and!; congruence. }
  destruct Hcase as [[Hn Ho1]|((Hda & Hdp & Hi & Hu) & Ho1 & Hcl)].
  - exists outs. split; [by rewrite Ho, Ho1|]. split; [|by intros].
    eapply Forall_impl; [exact Hall|]. intros o (k' & Hk & Ho'). exists k'. split; [by right|].
    by apply (clone_of_trans x1).
  - exists (Clone (frame g x1 ++ paged) ifx :: outs). split; [by rewrite Ho, Ho1, <- app_assoc|].
    assert (clone_of x k (Clone (frame g x1 ++ paged) ifx)) as Hhd by (exists x1; by split_and!).
    split.
    + constructor; [exists k; split; [by left|done]|].
      eapply Forall_impl; [exact Hall|]. intros o (k' & Hk & Ho'). exists k'. split; [by right|].
      by apply (clone_of_trans x1).
    + intros H. destruct (Hr H) as [Hf2 Hcl2]. split.
      * constructor; [done|]. eapply Forall2_impl; [exact Hf2|]. intros ? ?. by apply clone_of_trans.
      * cbn [length]. rewrite Nat.iter_succ_r, <- Hcl. done.
Qed.

End Clones.

(** ** The handler *)

(** The inner map of the topic a packet publishes to. *)
Definition tc_target (f : list Z) (v : kview) : option Z :=
  if is_publish f then t ← published_topic f; v_outer v !! t else None.

(** The fields of the packet the clones are made from: source address and
    port are the ones the publisher wrote to. *)
Definition sourced (f : list Z) (y : fields) : Prop :=
  let x := fields_of (swapped f) in
  f_sa y = f_da x /\ f_sp y = f_dp x /\ fields_ok y /\
  oc_eq (ip_part y) (ip_part x) /\ oc_eq (udp_part y) (udp_part x).

(** What the handler does to a buffer with bytes [f]. *)
Definition tc_post (rel : Prop) (s : skb) (v : kview) (rc : Z) (s' : skb) (v' : kview) : Prop :=
  let f := skb_bytes s in
  same_maps v v' /\
  match tc_target f v with
  | None => rc = TC_ACT_OK /\ skb_bytes s' = f /\ v_out v' = v_out v
  | Some id =>
      (rc = TC_ACT_OK /\ ~ rel /\ v_out v' = v_out v) \/
      (rc = TC_ACT_SHOT /\ exists y l outs, sourced f y /\
         l ≡ₚ map_to_list (elems_of (by_id id) v) /\ v_out v' = v_out v ++ outs /\
         Forall (λ o, exists k, k ∈ l.*1 /\ clone_of rel (swapped f) [] (skb_ifindex s) y k o) outs /\
         (rel -> Forall2 (λ kv, clone_of rel (swapped f) [] (skb_ifindex s) y kv.1) l outs /\
            v_clone v' = Nat.iter (length l) tick (v_clone v)))
  end.

Lemma is_publish_42 f :
  is_publish f = udp_frame 42 f && port_in_range (dport f) && bool_decide (PUBLISH = take 8 (drop 42 f)).
Proof.
  unfold is_publish. destruct (bool_decide (PUBLISH = _)) eqn:E; [|by rewrite !andb_false_r].
  apply bool_decide_eq_true in E. apply (f_equal length) in E. rewrite length_take, length_drop in E.
  change (length PUBLISH) with 8%nat in E. f_equal. f_equal. unfold udp_frame.
  by rewrite !(proj2 (Nat.leb_le _ _)) by lia.
Qed.

Lemma swapped_udp_frame f : udp_frame 42 f = true -> udp_frame 42 (swapped f) = true.
Proof.
  intros Hfr. pose proof (udp_frame_length _ _ Hfr) as Hlen. apply udp_frame_iff in Hfr. apply udp_frame_iff.
  rewrite swapped_length. revert Hfr. destruct (explode 42 f Hlen) as (h & t & -> & Hh). enumerate h Hh. done.
Qed.

Section Handler.
Context `{!ProbeRead} (c : contract (E := ev) kview) (rel : Prop).
Context (Hc : forall X (e : ev X) v x v', c X e v x v' -> ev_spec e v x v').
Context (Hrel : rel -> forall X (e : ev X) v x v', c X e v x v' -> ev_reliable e v x).

Lemma same_maps_bumped m v : same_maps v (bumped m v) /\ v_out (bumped m v) = v_out v.
Proof. destruct m, v; done. Qed.

(** The part after the topic was found, on a linear buffer. *)
Lemma turn_around_wp f ifx qm id v :
  bytes_ok f -> udp_frame 42 f = true ->
  pwp c (on_data (swap_macs 0) ;;
         rewrite_source std_hdrs (
           elems <- pcall (ElemForEach (by_id id)) ;; for_each_elem elems ;; pret TC_ACT_SHOT))
    (λ rc s' v', same_maps v v' /\
      ((rc = TC_ACT_OK /\ ~ rel /\ v_out v' = v_out v) \/
       (rc = TC_ACT_SHOT /\ exists y l outs, sourced f y /\
         l ≡ₚ map_to_list (elems_of (by_id id) v) /\ v_out v' = v_out v ++ outs /\
         Forall (λ o, exists k, k ∈ l.*1 /\ clone_of rel (swapped f) [] ifx y k o) outs /\
         (rel -> Forall2 (λ kv, clone_of rel (swapped f) [] ifx y kv.1) l outs /\
            v_clone v' = Nat.iter (length l) tick (v_clone v)))))
    (Skb f [] ifx qm) v.
Proof.
  intros Hf Hfr. pose proof (udp_frame_length _ _ Hfr) as Hlen.
  pose proof (swapped_ok _ Hf) as Hg. pose proof (swapped_udp_frame _ Hfr) as Hgf.
  apply pwp_bind, (on_data_swap_tr (λ A, pwp c)); [done|]. unfold skb_set_data. cbn [skb_data skb_paged skb_ifindex skb_queue_mapping].
  rewrite <- (frame_fields_of (swapped f)) at 1 by (done || by rewrite swapped_length).
  pose proof (fields_of_ok _ Hg) as Hx.
  destruct (fields_of (swapped f)) as [sa da sp dp ic uc] eqn:Ex.
  apply (rewrite_source_tr (λ A, pwp c) rel (csum_rule c rel Hc Hrel) (swapped f) [] ifx qm Hg Hgf); [done| |].
  - intros Hn x. split; [done|]. by left.
  - intros ic' uc' Hok Hi Hu. apply pwp_bind, pwp_call. intros l v1 Hl%Hc. cbn [ev_spec] in Hl.
    destruct Hl as [-> Hl]. apply pwp_bind. eapply pwp_mono;
      [|by apply (for_each_wp c rel Hc Hrel (swapped f) [] ifx qm Hg Hgf l)]. cbv beta.
    intros _ s' v1 (Hm & outs & Ho & Hall & Hr). apply pwp_ret. split; [done|]. right. split; [done|].
    exists (Fields da da dp dp ic' uc'), l, outs. split_and!; try done. unfold sourced. by rewrite Ex.
Qed.

Lemma pull_wp Q s v :
  (forall r s1 v', c _ (SkbPullData s (skb_len s)) v (r, s1) v' -> Q r s1 v') ->
  pwp c (bpf_skb_pull_data skb_len) Q s v.
Proof. intros HQ. apply uwp_call. intros [r s1] v'. apply HQ. Qed.

Lemma tc_wp s v :
  bytes_ok (skb_bytes s) -> pwp c tc_ingress_broker (tc_post rel s v) s v.
Proof.
  intros Hf. unfold tc_ingress_broker. apply (or_return_tr (λ A, pwp c)), pull_wp. intros r s1 v1 Hs. pose proof (Hc _ _ _ _ _ Hs) as Hs'. cbn [ev_spec fst snd] in Hs'.
  destruct Hs' as (-> & Hb & Hi & _ & Hl). split; cbn [fst snd]; intros Hr.
  { unfold tc_post. split; [done|]. destruct (tc_target _ _); [|by rewrite Hb].
    left. split_and!; [done| |done]. intros Hre. specialize (Hrel Hre _ _ _ _ _ Hs). cbn in Hrel. lia. }
  specialize (Hl Hr). destruct s1 as [f pg ifx qm]. cbn [skb_data skb_ifindex skb_paged] in *.
  assert (pg = []) as ->.
  { apply (f_equal length) in Hb. unfold skb_len in Hl. unfold skb_bytes in Hb. rewrite !length_app in Hb.
    cbn in Hb. destruct pg; cbn in Hb; [done|lia]. }
  assert (f = skb_bytes s) as Hfs by (rewrite <- Hb; unfold skb_bytes; cbn; by rewrite app_nil_r).
  rewrite <- Hfs in Hf. unfold tc_post. rewrite <- Hfs, <- Hi. clear Hl Hb Hs Hi.
  assert (skb_bytes (Skb f [] ifx qm) = f) as Hsf by (unfold skb_bytes; cbn; by rewrite app_nil_r).
  unfold tc_target. rewrite is_publish_42.
  unfold with_headers. eapply pwp_bind, pwp_rd; [by apply refresh_headers_eq|]. cbn [skb_data].
  destruct (udp_frame 42 f) eqn:Hfr; cbn [andb]; [|by apply pwp_ret].
  pose proof (udp_frame_length _ _ Hfr) as Hlen. cbn [std_hdrs eth ip udp payload].
  eapply pwp_bind, pwp_rd; [apply ld16_le; change (38 <= length f)%nat; lia|].
  change (34 + udp_dest)%nat with 36%nat. cbn [skb_data]. fold (dport f).
  destruct (port_in_range (dport f)); cbn [andb negb]; [|by apply pwp_ret].
  eapply pwp_bind, pwp_rd; [apply starts_with_eq|]. change (length PUBLISH) with 8%nat. cbn [skb_data].
  change (34 + sizeof_udphdr)%nat with 42%nat.
  destruct (bool_decide (PUBLISH = take 8 (drop 42 f))); cbn [negb]; [|by apply pwp_ret].
  destruct (same_maps_bumped pub_counter_2 v) as [Hm Ho].
  apply pwp_bind, (count_event_wp _ _ _ _ _ Hc).
  eapply pwp_bind, pwp_rd; [done|]. change (42 + 8)%nat with 50%nat. cbn [skb_data].
  pose proof (extract_topic f) as Ht. destruct (published_topic f) as [t|]; cbn [mbind option_bind].
  2: { destruct Ht as [out ->]. by apply pwp_ret. }
  rewrite Ht. cbn [Z.ltb Z.compare]. apply pwp_bind, pwp_call. intros x v1 Hx%Hc. cbn [ev_spec] in Hx.
  destruct Hx as [-> ->]. rewrite topic_of_bumped. cbn [topic_of].
  destruct (v_outer v !! t) as [id|]; [|by apply pwp_ret].
  eapply pwp_mono; [|by apply turn_around_wp]. cbv beta. intros rc s' v1 [Hm1 Hcase].
  assert (elems_of (by_id id) (bumped pub_counter_2 v) = elems_of (by_id id) v) as He by (by destruct v).
  assert (v_clone (bumped pub_counter_2 v) = v_clone v) as Hcl by (by destruct v).
  rewrite Ho, He, Hcl in Hcase. split; [|exact Hcase].
  destruct Hm as (? & ? & ? & ? & ?), Hm1 as (? & ? & ? & ? & ?). split_and!; congruence.
Qed.
End Handler.

(** ** From fields to bytes *)

(** A clone of [f] for subscriber [packed], byte by byte: the publisher's
    header and payload, MAC addresses exchanged, source those the publisher
    wrote to, destination the subscriber. *)
Definition tc_clone (f : list Z) (packed : Z) (f' : list Z) : Prop :=
  length f' = length f /\
  take 24 f' = take 6 (drop 6 f) ++ take 6 f ++ take 12 (drop 12 f) /\
  take 8 (drop 26 f') = take 4 (drop 30 f) ++ le_bytes 4 (packed_ip packed) /\
  take 6 (drop 34 f') = take 2 (drop 36 f) ++ le_bytes 2 (packed_port packed) ++ take 2 (drop 38 f) /\
  drop 42 f' = drop 42 f.

Lemma sum16_le2 v bs : 0 <= v < 65536 -> sum16 (le_bytes 2 v ++ bs) = v + sum16 bs.
Proof. intros Hv. unfold sum16. cbn [le_bytes app words foldr]. dlia. Qed.

Lemma sum16_le4 v bs : 0 <= v < 2 ^ 32 -> sum16 (le_bytes 4 v ++ bs) = field_sum 4 v + sum16 bs.
Proof.
  intros Hv. unfold sum16, field_sum. cbn [le_bytes app words foldr Z.eqb Pos.eqb].
  rewrite land_ffff, (shiftr_div v 16 65536) by done. dlia.
Qed.

Lemma frame_ip_sum g x :
  (42 <= length g)%nat -> fields_ok x ->
  sum16 (ip_header (frame g x)) = sum16 (take 10 (drop 14 g)) + ip_part x.
Proof.
  intros Hg (Hsa & Hda & Hsp & Hdp & Hic & Huc).
  assert (ip_header (frame g x) = take 10 (drop 14 g) ++ le_bytes 2 (f_ic x) ++ le_bytes 4 (f_sa x) ++
    le_bytes 4 (f_da x) ++ []) as ->.
  { revert Hg. solve_frame_access. }
  rewrite sum16_app by (rewrite length_take, length_drop; exists 5%nat; lia).
  rewrite sum16_le2, !sum16_le4 by done. unfold ip_part. change (sum16 []) with 0. lia.
Qed.

Lemma frame_udp_length g x : (42 <= length g)%nat -> udp_length (frame g x) = udp_length g.
Proof. solve_frame_access. Qed.

Lemma frame_udp_bytes g x :
  (42 <= length g)%nat -> 8 <= udp_length g ->
  pseudo_header (frame g x) ++ udp_segment (frame g x) =
    le_bytes 4 (f_sa x) ++ le_bytes 4 (f_da x) ++ ([0; IPPROTO_UDP] ++ take 2 (drop 38 g)) ++
    le_bytes 2 (f_sp x) ++ le_bytes 2 (f_dp x) ++ take 2 (drop 38 g) ++ le_bytes 2 (f_uc x) ++
    take (Z.to_nat (udp_length g) - 8) (drop 42 g).
Proof.
  intros Hg H8. unfold udp_segment. rewrite frame_udp_length by done.
  replace (Z.to_nat (udp_length g)) with (8 + (Z.to_nat (udp_length g) - 8))%nat at 1 by lia.
  generalize (Z.to_nat (udp_length g) - 8)%nat. intros n. revert Hg. solve_frame_access.
Qed.

Lemma frame_udp_sum g x :
  (42 <= length g)%nat -> 8 <= udp_length g -> fields_ok x ->
  sum16 (pseudo_header (frame g x) ++ udp_segment (frame g x)) =
    udp_part x + (17 * 256 + 2 * sum16 (take 2 (drop 38 g)) +
                  sum16 (take (Z.to_nat (udp_length g) - 8) (drop 42 g))).
Proof.
  intros Hg H8 (Hsa & Hda & Hsp & Hdp & Hic & Huc). rewrite frame_udp_bytes by done.
  assert (Nat.Even (length (take 2 (drop 38 g)))) as Hev
    by (rewrite length_take, length_drop; exists 1%nat; lia).
  rewrite !sum16_le4, <- app_assoc, sum16_app by (done || (exists 1%nat; done)).
  rewrite sum16_app, !sum16_le2, sum16_app, sum16_le2 by done.
  change (sum16 [0; IPPROTO_UDP]) with (17 * 256). unfold udp_part. lia.
Qed.

(** Sums that are equal in one's complement verify together. *)
Lemma valid_oc_eq a b :
  bytes_ok a -> bytes_ok b -> 0 < sum16 a -> 0 < sum16 b -> oc_eq (sum16 a) (sum16 b) ->
  rfc1071_valid a <-> rfc1071_valid b.
Proof. intros Ha Hb Pa Pb He. rewrite !rfc1071_valid_iff by done. unfold oc_eq in He. split; intros [_ ?]; split; dlia. Qed.

Lemma bytes_ok_ip_header f : bytes_ok f -> bytes_ok (ip_header f).
Proof. intros. unfold ip_header. auto with broker. Qed.
Lemma bytes_ok_udp_words f : bytes_ok f -> bytes_ok (pseudo_header f ++ udp_segment f).
Proof. intros. unfold pseudo_header, udp_segment. auto 10 with broker. Qed.

#[export] Hint Resolve bytes_ok_ip_header bytes_ok_udp_words : broker.

(** The UDP sum counts the protocol number, so it is not zero. *)
Lemma frame_udp_pos g x :
  bytes_ok g -> (42 <= length g)%nat -> 8 <= udp_length g -> fields_ok x ->
  0 < sum16 (pseudo_header (frame g x) ++ udp_segment (frame g x)).
Proof.
  intros Hb Hg H8 Hx. apply (sum16_pos _ 9 17); [auto with broker| |lia].
  rewrite frame_udp_bytes by done. rewrite app_assoc, lookup_app_r;
    rewrite length_app, !le_bytes_length; [|lia]. done.
Qed.

Lemma frame_ip_pos g x :
  bytes_ok g -> udp_frame 42 g = true -> fields_ok x -> 0 < sum16 (ip_header (frame g x)).
Proof.
  intros Hb Hfr Hx. pose proof (udp_frame_length _ _ Hfr) as Hg. apply udp_frame_iff in Hfr as (_ & _ & _ & H23).
  rewrite frame_ip_sum by done.
  assert (0 < sum16 (take 10 (drop 14 g))).
  { apply (sum16_pos _ 9 17); [auto with broker| |lia]. by rewrite lookup_take_lt, lookup_drop by lia. }
  destruct Hx as (Hsa & Hda & Hsp & Hdp & Hic & Huc).
  assert (forall v, 0 <= v < 2 ^ 32 -> 0 <= field_sum 4 v) as Hfs.
  { intros v Hv. unfold field_sum. cbn [Z.eqb Pos.eqb]. rewrite land_ffff, (shiftr_div v 16 65536) by done. dlia. }
  pose proof (Hfs _ Hsa). pose proof (Hfs _ Hda). unfold ip_part. lia.
Qed.

(** A clone whose sums were kept. *)
Definition same_validity (f f' : list Z) : Prop :=
  (ip_valid f <-> ip_valid f') /\ (8 <= udp_length f -> (udp_valid f <-> udp_valid f')).

Lemma udp_length_swapped f : (42 <= length f)%nat -> udp_length (swapped f) = udp_length f.
Proof. intros. unfold udp_length. by rewrite swapped_drop by lia. Qed.

Lemma swapped_udp_bytes f :
  (42 <= length f)%nat -> pseudo_header (swapped f) ++ udp_segment (swapped f) = pseudo_header f ++ udp_segment f.
Proof.
  intros. unfold pseudo_header, udp_segment. rewrite udp_length_swapped by done.
  by rewrite !swapped_drop by lia.
Qed.

Lemma frame_same_validity f y :
  bytes_ok f -> udp_frame 42 f = true -> fields_ok y ->
  oc_eq (ip_part y) (ip_part (fields_of (swapped f))) ->
  oc_eq (udp_part y) (udp_part (fields_of (swapped f))) -> same_validity f (frame (swapped f) y).
Proof.
  intros Hf Hfr Hy Hi Hu. pose proof (udp_frame_length _ _ Hfr) as Hlen.
  pose proof (swapped_ok _ Hf) as Hg. pose proof (swapped_udp_frame _ Hfr) as Hgf.
  pose proof (udp_frame_length _ _ Hgf) as Hgl. pose proof (fields_of_ok _ Hg) as Hx.
  assert (frame (swapped f) (fields_of (swapped f)) = swapped f) as Hsame by (by apply frame_fields_of).
  split.
  - unfold ip_valid. assert (ip_header f = ip_header (swapped f)) as ->
      by (unfold ip_header; by rewrite swapped_drop by lia).
    rewrite <- Hsame at 1. apply valid_oc_eq; auto using frame_ip_pos with broker.
    rewrite !frame_ip_sum by done. unfold oc_eq in *. clear - Hi. dlia.
  - intros H8. rewrite <- (udp_length_swapped f) in H8 by done. unfold udp_valid.
    rewrite <- (swapped_udp_bytes f) by done. rewrite <- Hsame at 1 2.
    apply valid_oc_eq; auto using frame_udp_pos with broker.
    rewrite !frame_udp_sum by done. unfold oc_eq in *. clear - Hu. dlia.
Qed.

Lemma frame_bytes f y k :
  bytes_ok f -> (42 <= length f)%nat -> f_sa y = f_da (fields_of (swapped f)) ->
  f_sp y = f_dp (fields_of (swapped f)) -> f_da y = packed_ip k -> f_dp y = packed_port k ->
  tc_clone f k (frame (swapped f) y).
Proof.
  intros Hf Hlen Hsa Hsp Hda Hdp. pose proof (swapped_ok _ Hf) as Hg. pose proof (swapped_length f) as Hsl.
  unfold fields_of in Hsa, Hsp. cbn [f_da f_dp] in Hsa, Hsp. unfold tc_clone.
  rewrite frame_length by lia.
  assert (le_bytes 4 (f_sa y) = take 4 (drop 30 f)) as Esa.
  { rewrite Hsa, swapped_drop by lia. apply le_bytes_le_val_n; [|auto with broker].
    rewrite length_take, length_drop. lia. }
  assert (le_bytes 2 (f_sp y) = take 2 (drop 36 f)) as Esp.
  { rewrite Hsp, swapped_drop by lia. apply le_bytes_le_val_n; [|auto with broker].
    rewrite length_take, length_drop. lia. }
  unfold frame. rewrite Esa, Esp, Hda, Hdp.
  split; [done|]. clear - Hlen. explode_frame f Hlen. split_and!; reflexivity.
Qed.

(** How far the UDP check field moves: by what the addresses and ports
    changed. *)
Definition check_moved (f : list Z) (packed : Z) (f' : list Z) : Prop :=
  oc_eq (le_val (take 2 (drop 40 f')))
    (le_val (take 2 (drop 40 f)) + field_sum 4 (le_val (take 4 (drop 26 f))) + le_val (take 2 (drop 34 f))
     - field_sum 4 (packed_ip packed) - packed_port packed).

Lemma frame_check f y k :
  bytes_ok f -> (42 <= length f)%nat -> fields_ok y ->
  f_sa y = f_da (fields_of (swapped f)) -> f_sp y = f_dp (fields_of (swapped f)) ->
  f_da y = packed_ip k -> f_dp y = packed_port k ->
  oc_eq (udp_part y) (udp_part (fields_of (swapped f))) -> check_moved f k (frame (swapped f) y).
Proof.
  intros Hf Hlen (_ & _ & _ & _ & _ & Huc) Hsa Hsp Hda Hdp Hu. unfold check_moved.
  assert (take 2 (drop 40 (frame (swapped f) y)) = le_bytes 2 (f_uc y)) as ->.
  { assert (42 <= length (swapped f))%nat as Hg by (by rewrite swapped_length). revert Hg. solve_frame_access. }
  rewrite le_val_le_bytes by done. unfold udp_part in Hu. rewrite Hsa, Hsp, Hda, Hdp in Hu.
  unfold fields_of in Hu. cbn [f_sa f_da f_sp f_dp f_uc] in Hu. rewrite !swapped_drop in Hu by lia.
  unfold oc_eq in *. generalize dependent (field_sum 4 (packed_ip k)). generalize dependent (field_sum 4 (le_val (take 4 (drop 26 f)))).
  generalize dependent (field_sum 4 (le_val (take 4 (drop 30 f)))). intros. clear - Hu. dlia.
Qed.

Lemma clone_of_bytes rel f ifx y k o :
  bytes_ok f -> udp_frame 42 f = true -> sourced f y -> clone_of rel (swapped f) [] ifx y k o ->
  exists f', o = Clone f' ifx /\ tc_clone f k f' /\ (rel -> same_validity f f' /\ check_moved f k f').
Proof.
  intros Hf Hfr (Hsa & Hsp & Hy & Hi & Hu) (z & -> & Hz & Hsa' & Hsp' & Hda & Hdp & Hsum).
  pose proof (udp_frame_length _ _ Hfr) as Hlen.
  exists (frame (swapped f) z). rewrite app_nil_r. split; [done|]. split; [apply frame_bytes; congruence|].
  intros Hrel. destruct (Hsum Hrel) as [Hzi Hzu].
  assert (oc_eq (udp_part z) (udp_part (fields_of (swapped f)))) by (by eapply oc_eq_trans).
  split; [apply frame_same_validity; try done; by eapply oc_eq_trans|apply frame_check; congruence].
Qed.

Lemma tc_target_frame f v id : tc_target f v = Some id -> udp_frame 42 f = true.
Proof. unfold tc_target. destruct (is_publish f) eqn:E; [|done]. intros _. by apply is_publish_frame. Qed.

(** ** Properties *)

Section Properties.
Context `{!ProbeRead} {K : Type} `{!Kernel K}.

(** C6. Nothing is sent to a stranger.  For every packet and every kernel,
    whatever helper calls fail, [tc_ingress_broker] terminates inside the
    buffer and leaves the topic maps alone; a packet that is not a publish
    for a registered topic passes unchanged; and every clone is the
    publisher's packet, payload intact, addressed to a current subscriber of
    the topic. *)
Theorem tc_clones_to_subscribers (s : skb) (k : K) :
  bytes_ok (skb_bytes s) ->
  exists rc s' k' outs, krun (tc_ingress_broker s) k = (Ok (rc, s'), k') /\
    same_maps (kview_of k) (kview_of k') /\
    v_out (kview_of k') = v_out (kview_of k) ++ outs /\
    (tc_target (skb_bytes s) (kview_of k) = None -> rc = TC_ACT_OK /\ skb_bytes s' = skb_bytes s /\ outs = []) /\
    (rc = TC_ACT_OK \/ rc = TC_ACT_SHOT) /\ (rc = TC_ACT_OK -> outs = []) /\
    Forall (λ o, exists id packed f', tc_target (skb_bytes s) (kview_of k) = Some id /\
      packed ∈ dom (elems_of (by_id id) (kview_of k)) /\
      o = Clone f' (skb_ifindex s) /\ tc_clone (skb_bytes s) packed f') outs.
Proof.
  intros Hf. pose proof (krun_wp (tc_ingress_broker s) _ k
    (tc_wp kernel_spec False (λ _ _ _ _ _ H, H) (False_ind _) s (kview_of k) Hf)) as Hrun.
  destruct (krun _ k) as [[[rc s']| |] k'] eqn:E; cbn [fst snd] in Hrun; [|done|done].
  destruct Hrun as [Hm Hrun]. exists rc, s', k'. destruct (tc_target _ _) as [id|] eqn:Et.
  - destruct Hrun as [(-> & _ & Ho)|(-> & y & l & outs & Hy & Hl & Ho & Hall & _)].
    + exists []. rewrite Ho, app_nil_r. split_and!; auto. done.
    + exists outs. split_and!; auto; [done|done|]. eapply Forall_impl; [exact Hall|].
      intros o (p & Hp & Hc). destruct (clone_of_bytes _ _ _ _ _ _ Hf (tc_target_frame _ _ _ Et) Hy Hc) as (f' & -> & Hf' & _).
      exists id, p, f'. split_and!; try done. rewrite Hl in Hp.
      apply list_elem_of_fmap in Hp as ([p' z] & -> & Hp). apply elem_of_map_to_list in Hp.
      apply elem_of_dom. by eexists.
  - destruct Hrun as (-> & Hs & Ho). exists []. rewrite Ho, app_nil_r. split_and!; auto.
Qed.

(** A run on a kernel that fails only for documented reasons. *)
Lemma tc_run_reliable `{!Reliable K} (s : skb) (k : K) id :
  bytes_ok (skb_bytes s) -> tc_target (skb_bytes s) (kview_of k) = Some id ->
  exists s' k' l outs, krun (tc_ingress_broker s) k = (Ok (TC_ACT_SHOT, s'), k') /\
    l ≡ₚ map_to_list (elems_of (by_id id) (kview_of k)) /\
    v_out (kview_of k') = v_out (kview_of k) ++ outs /\
    Forall2 (λ kv o, exists f', o = Clone f' (skb_ifindex s) /\ tc_clone (skb_bytes s) kv.1 f' /\
      same_validity (skb_bytes s) f' /\ check_moved (skb_bytes s) kv.1 f') l outs /\
    v_clone (kview_of k') = Nat.iter (length l) tick (v_clone (kview_of k)).
Proof.
  intros Hf Et. pose proof (krun_wp_reliable (tc_ingress_broker s) _ k
    (tc_wp reliable_spec True (λ _ _ _ _ _ H, proj1 H) (λ _ _ _ _ _ _ H, proj2 H) s (kview_of k) Hf)) as Hrun.
  destruct (krun _ k) as [[[rc s']| |] k'] eqn:E; cbn [fst snd] in Hrun; [|done|done].
  destruct Hrun as [_ Hrun]. rewrite Et in Hrun.
  destruct Hrun as [(_ & Hn & _)|(-> & y & l & outs & Hy & Hl & Ho & _ & Hr)]; [by destruct Hn|].
  destruct (Hr I) as [Hf2 Hcl]. exists s', k', l, outs. split_and!; try done.
  eapply Forall2_impl; [exact Hf2|]. intros [p z] o Hc. cbn [fst] in *.
  destruct (clone_of_bytes _ _ _ _ _ _ Hf (tc_target_frame _ _ _ Et) Hy Hc) as (f' & -> & Hf' & Hv).
  destruct (Hv I) as [Hv1 Hv2]. by exists f'.
Qed.

(** C3. Complete delivery.  On a kernel whose calls fail only for documented
    reasons, a publish for a registered topic is consumed ([TC_ACT_SHOT])
    and cloned exactly once for every subscriber of the topic, in the order
    the kernel visits them; each clone verifies at a receiver exactly when
    the original did, for the IP header and for UDP; and the clone counter
    counts them. *)
Theorem tc_delivers_to_all `{!Reliable K} (s : skb) (k : K) id :
  bytes_ok (skb_bytes s) -> tc_target (skb_bytes s) (kview_of k) = Some id ->
  exists s' k' l outs, krun (tc_ingress_broker s) k = (Ok (TC_ACT_SHOT, s'), k') /\
    l ≡ₚ map_to_list (elems_of (by_id id) (kview_of k)) /\
    v_out (kview_of k') = v_out (kview_of k) ++ outs /\
    Forall2 (λ kv o, exists f', o = Clone f' (skb_ifindex s) /\
      tc_clone (skb_bytes s) kv.1 f' /\ same_validity (skb_bytes s) f') l outs /\
    v_clone (kview_of k') = Nat.iter (length l) tick (v_clone (kview_of k)).
Proof.
  intros Hf Et. destruct (tc_run_reliable s k id Hf Et) as (s' & k' & l & outs & Hr & Hl & Ho & Hf2 & Hcl).
  exists s', k', l, outs. split_and!; try done. eapply Forall2_impl; [exact Hf2|].
  intros [p z] o (f' & ? & ? & ? & _). by exists f'.
Qed.

(** C34. A publish without a UDP checksum is cloned with a wrong one.  The
    zero that means "not computed" is updated like a checksum, so a clone
    whose subscriber differs from the publisher in one's complement carries
    a nonzero check field that does not verify. *)
Theorem tc_zero_checksum_wrong `{!Reliable K} (s : skb) (k : K) id :
  let f := skb_bytes s in
  bytes_ok f -> tc_target f (kview_of k) = Some id ->
  take 2 (drop 40 f) = [0; 0] -> 8 <= udp_length f -> ~ udp_valid f ->
  exists s' k' l outs, krun (tc_ingress_broker s) k = (Ok (TC_ACT_SHOT, s'), k') /\
    l ≡ₚ map_to_list (elems_of (by_id id) (kview_of k)) /\
    v_out (kview_of k') = v_out (kview_of k) ++ outs /\
    Forall2 (λ kv o, exists f', o = Clone f' (skb_ifindex s) /\ ~ udp_valid f' /\
      (~ oc_eq (field_sum 4 (le_val (take 4 (drop 26 f))) + le_val (take 2 (drop 34 f)))
               (field_sum 4 (packed_ip kv.1) + packed_port kv.1) -> take 2 (drop 40 f') <> [0; 0])) l outs.
Proof.
  intros f Hf Et Hz H8 Hinv.
  destruct (tc_run_reliable s k id Hf Et) as (s' & k' & l & outs & Hr & Hl & Ho & Hf2 & _).
  exists s', k', l, outs. split_and!; try done. eapply Forall2_impl; [exact Hf2|].
  intros [p z] o (f' & -> & _ & [_ Hv] & Hm). exists f'. split_and!; [done|by rewrite <- Hv|].
  intros Hne Hz'. apply Hne. unfold check_moved in Hm. fold f in Hm. rewrite Hz, Hz' in Hm. cbn [fst] in *.
  unfold oc_eq in *. change (le_val [0; 0]) with 0 in Hm. clear - Hm. dlia.
Qed.
End Properties.

(** Topic "t" with two subscribers, and a publish for it in a buffer whose
    payload is not yet linear. *)
Definition two_subs : kview :=
  KView {[key_t := 1]} {[key_t := 2]} {[key_t := sub_a]}
    {[1 := MObj (BpfAttr BPF_MAP_TYPE_HASH 8 4 256) (<[sub_b := 1]> {[sub_a := 1]})]} ∅
    {[0 := 0]} {[0 := 0]} ∅ [].
Definition publish_skb : skb := Skb (take 42 publish_even) (drop 42 publish_even) 3 0.

Lemma tc_clones_to_subscribers_witness :
  exists rc s' k' outs, krun (tc_ingress_broker publish_skb) two_subs = (Ok (rc, s'), k') /\
    v_out k' = outs /\
    Forall (λ o, exists packed f', packed ∈ ({[sub_a; sub_b]} : gset Z) /\
      o = Clone f' 3 /\ tc_clone publish_even packed f') outs.
Proof.
  destruct (tc_clones_to_subscribers publish_skb two_subs)
    as (rc & s' & k' & outs & Hr & _ & Ho & _ & _ & _ & Hall); [decide_goal|].
  exists rc, s', k', outs. split_and!; [exact Hr|exact Ho|].
  eapply Forall_impl; [exact Hall|]. intros o (id & p & f' & Ht & Hp & -> & Hc).
  assert (Some id = Some 1) as [= ->] by (rewrite <- Ht; vm_compute; reflexivity).
  exists p, f'. split_and!; [|done|done].
  assert (dom (elems_of (by_id 1) two_subs) = {[sub_a; sub_b]}) as <- by (vm_compute; reflexivity). exact Hp.
Defined.

Lemma tc_delivers_to_all_witness :
  exists s' k' l (outs : list output), krun (tc_ingress_broker publish_skb) two_subs = (Ok (TC_ACT_SHOT, s'), k') /\
    l ≡ₚ [(sub_a, 1); (sub_b, 1)] /\ length outs = 2%nat.
Proof.
  destruct (tc_delivers_to_all publish_skb two_subs 1) as (s' & k' & l & outs & Hr & Hl & _ & Hf2 & _);
    [decide_goal|vm_compute; reflexivity|].
  exists s', k', l, outs. split; [exact Hr|].
  assert (l ≡ₚ [(sub_a, 1); (sub_b, 1)]) as Hp by (rewrite Hl; vm_compute; reflexivity || decide_goal).
  split; [exact Hp|]. rewrite <- (Forall2_length _ _ _ Hf2), (Permutation_length Hp). reflexivity.
Defined.

(** The sample publish has no UDP checksum. *)
Lemma tc_zero_checksum_wrong_witness :
  exists s' k' l (outs : list output), krun (tc_ingress_broker publish_skb) one_sub = (Ok (TC_ACT_SHOT, s'), k') /\
    l = [(sub_a, 1)] /\ v_out k' = outs /\
    Forall2 (λ _ o, exists f', o = Clone f' 3 /\ ~ udp_valid f' /\ take 2 (drop 40 f') <> [0; 0]) l outs.
Proof.
  destruct (tc_zero_checksum_wrong publish_skb one_sub 1) as (s' & k' & l & outs & Hr & Hl & Ho & Hf2);
    [decide_goal|vm_compute; reflexivity|vm_compute; reflexivity|vm_compute; discriminate|decide_goal|].
  assert (l = [(sub_a, 1)]) as ->.
  { apply Permutation_singleton_r. rewrite Hl. vm_compute. reflexivity. }
  exists s', k', [(sub_a, 1)], outs. split_and!; [exact Hr|reflexivity|exact Ho|].
  inversion Hf2 as [|? o ? ? (f' & Ho' & Hv & Hz) Hnil]; subst. inversion Hnil; subst.
  constructor; [|constructor]. exists f'. split_and!; [done|exact Hv|]. apply Hz. vm_compute. discriminate.
Defined.
