(* ===== verification/CString.v ===== *)
(** * C strings

    The string functions of the C library the control programs call, on the
    object a pointer points into.  A function that runs past the end of the
    object has no value. *)

From S2P Require Import Prelude.
From stdpp Require Import base tactics numbers list.
Local Open Scope Z_scope.

(** ** The functions *)

(** The bytes of a string, up to its NUL: what [%s] prints. *)
Fixpoint cstr (s : list Z) : option (list Z) :=
  match s with
  | [] => None
  | c :: r => if c =? 0 then Some [] else cons c <$> cstr r
  end.

Definition strlen (s : list Z) : option nat := length <$> cstr s.

(** [strnlen(s, n)] looks at no more than [n] bytes. *)
Fixpoint strnlen (s : list Z) (n : nat) : option nat :=
  match n with
  | O => Some O
  | S n' =>
      match s with
      | [] => None
      | c :: r => if c =? 0 then Some O else S <$> strnlen r n'
      end
  end.

(** The [n] bytes [strncpy(dst, src, n)] writes: the string, then NULs. *)
Fixpoint strncpy_bytes (src : list Z) (n : nat) : option (list Z) :=
  match n with
  | O => Some []
  | S n' =>
      match src with
      | [] => None
      | c :: r => if c =? 0 then Some (replicate n 0) else cons c <$> strncpy_bytes r n'
      end
  end.

Definition strncpy (dst src : list Z) (n : nat) : option (list Z) :=
  bs ← strncpy_bytes src n; store dst 0 bs.

Definition memcpy (dst src : list Z) (n : nat) : option (list Z) :=
  bs ← load src 0 n; store dst 0 bs.

(** [strncmp(a, b, n)]: the difference of the first bytes that differ. *)
Fixpoint strncmp (a b : list Z) (n : nat) : option Z :=
  match n with
  | O => Some 0
  | S n' =>
      match a, b with
      | x :: a', y :: b' =>
          if negb (x =? y) then Some (x - y)
          else if x =? 0 then Some 0 else strncmp a' b' n'
      | _, _ => None
      end
  end.

(** [snprintf(buf, size, "<prefix>%s", s)]: the bytes of the result up to its
    NUL. *)
Definition snprintf_s (size : nat) (prefix s : list Z) : option (list Z) :=
  str ← cstr s; Some (take (size - 1) (prefix ++ str)).

(** [strtol(text, &endptr, 10)] on a string without its NUL: the value, a
    64-bit [long], and the text at [endptr]. *)
Definition is_space (c : Z) : bool := (c =? 32) || ((9 <=? c) && (c <=? 13)).
Definition is_digit (c : Z) : bool := (48 <=? c) && (c <=? 57).

Fixpoint skip_spaces (s : list Z) : list Z :=
  match s with c :: r => if is_space c then skip_spaces r else s | [] => [] end.

Definition sign (s : list Z) : Z * list Z :=
  match s with
  | c :: r => if c =? 45 then (-1, r) else if c =? 43 then (1, r) else (1, s)
  | [] => (1, [])
  end.

Fixpoint digits (acc : Z) (s : list Z) : Z * list Z :=
  match s with
  | c :: r => if is_digit c then digits (10 * acc + (c - 48)) r else (acc, s)
  | [] => (acc, [])
  end.

Definition clamp64 (z : Z) : Z := Z.max (- 2 ^ 63) (Z.min z (2 ^ 63 - 1)).

Definition strtol (text : list Z) : Z * list Z :=
  let '(sg, body) := sign (skip_spaces text) in
  match body with
  | c :: _ => if is_digit c then let '(n, rest) := digits 0 body in (clamp64 (sg * n), rest) else (0, text)
  | [] => (0, text)
  end.

(** ** Lemmas *)

(** A buffer that holds the string [s]: no NUL before the terminator. *)
Definition no_nul (s : list Z) : Prop := Forall (λ c, c <> 0) s.

Lemma cstr_app s r : no_nul s -> cstr (s ++ 0 :: r) = Some s.
Proof.
  induction 1 as [|c s Hc Hs IH]; [done|]. cbn [app cstr].
  rewrite (proj2 (Z.eqb_neq c 0) Hc), IH. done.
Qed.

Lemma cstr_Some b s : cstr b = Some s -> no_nul s /\ exists r, b = s ++ 0 :: r.
Proof.
  revert s. induction b as [|c b IH]; intros s; cbn [cstr]; [done|].
  destruct (c =? 0) eqn:E; split_hyps.
  - intros [= <-]. subst. split; [constructor|]. by exists b.
  - destruct (cstr b) as [t|] eqn:Et; [|done]. intros [= <-].
    destruct (IH t eq_refl) as (Ht & r & ->). split; [by constructor|]. by exists r.
Qed.

Lemma cstr_no_nul_None s : no_nul s -> cstr s = None.
Proof.
  induction 1 as [|c s Hc Hs IH]; [done|]. cbn [cstr].
  by rewrite (proj2 (Z.eqb_neq c 0) Hc), IH.
Qed.

Lemma strnlen_app s r n : no_nul s -> strnlen (s ++ 0 :: r) n = Some (n `min` length s)%nat.
Proof.
  intros Hs. revert n. induction Hs as [|c s Hc Hs IH]; intros [|n]; cbn [app strnlen length Nat.min]; try done.
  by rewrite (proj2 (Z.eqb_neq c 0) Hc), IH.
Qed.

Lemma strncpy_bytes_prefix s r n :
  no_nul s -> (n <= length s)%nat -> strncpy_bytes (s ++ r) n = Some (take n s).
Proof.
  intros Hs. revert n. induction Hs as [|c s Hc Hs IH]; intros [|n] Hn; cbn [app strncpy_bytes take length] in *;
    try (by destruct r); try (done || lia).
  by rewrite (proj2 (Z.eqb_neq c 0) Hc), IH by lia.
Qed.

Lemma strncmp_prefix p a :
  no_nul p -> (length p <= length a)%nat ->
  exists z, strncmp a (p ++ [0]) (length p) = Some z /\ (z =? 0) = bool_decide (p = take (length p) a).
Proof.
  intros Hp. revert a. induction Hp as [|c p Hc Hp IH]; intros [|x a] Ha; cbn [length strncmp app take] in *;
    try (by eexists); try lia.
  destruct (x =? c) eqn:E; split_hyps; cbn [negb].
  - subst x. rewrite (proj2 (Z.eqb_neq c 0) Hc). destruct (IH a ltac:(lia)) as (z & Hz & Hd).
    exists z. split; [done|]. rewrite Hd. apply bool_decide_ext. split; congruence.
  - exists (x - c). split; [done|]. rewrite bool_decide_eq_false_2 by congruence.
    apply Z.eqb_neq. lia.
Qed.
