(* ===== verification/Server.v ===== *)
(** * The server loop of the control programs

    The [main] functions of bpf_broker/bpf_broker_proto.c and
    bpf_broker_xdp/bpf_broker_proto.c run the same loop over three
    operations, the record [commands]: it reads a datagram, recognises
    REGISTER, SUBSCRIBE and FLUSH, copies the topic name into a 20-byte key
    and sends the reply.  The second half of the file is the interface the
    loop is verified against: the abstract broker an implementation of the
    operations promises ([Refines]) and what it keeps when calls fail
    ([Robust]). *)

From Stdlib Require Import String.
From S2P Require Import Prelude Prog Packet Kernel CString.
From stdpp Require Import base tactics numbers list gmap fin_maps.
Local Open Scope Z_scope.
Local Open Scope broker_scope.

(** The operations of a control program: on a topic key, and for
    [cmd_subscribe] the address and port in host order. *)
Record commands := Commands {
  cmd_register : list Z -> um ev Z;
  cmd_subscribe : list Z -> Z -> Z -> um ev Z;
  cmd_flush : list Z -> um ev Z
}.

(** ** The code *)

(** [char topic_key\[20\] = {0}; len = strlen(topic_name); memcpy(...)]: the
    inner option is the "Topic name too long" return. *)
Definition make_topic_key (topic_name : list Z) : option (option (list Z)) :=
  len ← strlen topic_name;
  if (MAX_TOPIC_ID_CHARS <=? len)%nat then Some None else
  topic_key ← memcpy zero_key topic_name len;
  Some (Some topic_key).

(** The subscriber key: address and port in network order. *)
Definition pack (ip port : Z) : Z :=
  u64 (Z.lor (Z.shiftl (bswap32 ip) 32) (Z.shiftl (bswap16 (u16 port)) 16)).

(** "Trim trailing newline if present". *)
Fixpoint trim_key (topic_key : list Z) : list Z :=
  match topic_key with
  | [] => []
  | c :: r => if (c =? 10) || (c =? 13) then 0 :: r else c :: trim_key r
  end.

(** [topic_key] of a command whose argument starts at [buf + off]. *)
Definition read_topic_key (buf : list Z) (off : nat) : option (list Z) :=
  let topic_raw := drop off buf in
  topic_len ← strnlen topic_raw MAX_TOPIC_ID_CHARS;
  topic_key ← strncpy zero_key topic_raw topic_len;
  Some (trim_key topic_key).

Definition REGISTER : list Z := bytes_of_string "REGISTER ".
Definition SUBSCRIBE : list Z := bytes_of_string "SUBSCRIBE ".
Definition FLUSH : list Z := bytes_of_string "FLUSH ".
Definition REGACK : list Z := bytes_of_string "REGACK ".
Definition SUBACK : list Z := bytes_of_string "SUBACK ".
Definition FLUSHED : list Z := bytes_of_string "FLUSHED".

(** [strncmp(buf, "<cmd>", n) == 0] for a literal of [n] bytes. *)
Definition is_command (buf cmd : list Z) : option bool :=
  z ← strncmp buf (cmd ++ [0]) (length cmd); Some (z =? 0).

(** One datagram in [buf] from the client at [s_addr]:[sin_port] (network
    order).  Each [printf] of a string reads it up to its NUL. *)
Definition handle_datagram (ops : commands) (buf : list Z) (s_addr sin_port : Z) : um ev unit :=
  reg <~ ulift (is_command buf REGISTER) ;;
  if reg : bool then
    topic_key <~ ulift (read_topic_key buf 9) ;;
    ulift (cstr topic_key) ;~
    r <~ cmd_register ops topic_key ;;
    if r =? 0 then
      response <~ ulift (snprintf_s 256 REGACK topic_key) ;;
      ucall (SendTo response s_addr sin_port) ;~ uret tt
    else uret tt
  else
  sub <~ ulift (is_command buf SUBSCRIBE) ;;
  if sub : bool then
    topic_key <~ ulift (read_topic_key buf 10) ;;
    let ip := bswap32 s_addr in
    let port := bswap16 sin_port in
    ulift (cstr topic_key) ;~
    cmd_subscribe ops topic_key ip port ;~
    response <~ ulift (snprintf_s 256 SUBACK topic_key) ;;
    ucall (SendTo response s_addr sin_port) ;~ uret tt
  else
  flush <~ ulift (is_command buf FLUSH) ;;
  if flush : bool then
    topic_key <~ ulift (read_topic_key buf 6) ;;
    cmd_flush ops topic_key ;~
    ucall (SendTo FLUSHED s_addr sin_port) ;~ uret tt
  else
    ulift (cstr buf) ;~ uret tt.

(** What [recvfrom] delivers: an error, or a datagram and its sender. *)
Inductive received :=
| RecvError
| Received (msg : list Z) (s_addr sin_port : Z).

(** [recvfrom(sock, buf, sizeof(buf) - 1, ...); buf\[len\] = '\0';] *)
Definition recv_into (buf msg : list Z) : list Z :=
  let bytes := take 1023 msg in
  bytes ++ [0] ++ drop (S (length bytes)) buf.

(** The [while (1)] loop over the datagrams that arrive. *)
Fixpoint serve (ops : commands) (buf : list Z) (input : list received) : um ev unit :=
  match input with
  | [] => uret tt
  | RecvError :: rest => serve ops buf rest
  | Received msg s_addr sin_port :: rest =>
      let buf := recv_into buf msg in
      handle_datagram ops buf s_addr sin_port ;~
      serve ops buf rest
  end.

(** ** Command parsing *)

(** The text of a C string held in a longer buffer. *)
Fixpoint until_nul (bs : list Z) : list Z :=
  match bs with [] => [] | c :: r => if c =? 0 then [] else c :: until_nul r end.

(** The topic name of a command argument: up to the end of its line. *)
Fixpoint line (bs : list Z) : list Z :=
  match bs with
  | [] => []
  | c :: r => if (c =? 0) || (c =? 10) || (c =? 13) then [] else c :: line r
  end.

Inductive command :=
| CRegister (name : list Z)
| CSubscribe (name : list Z)
| CFlush (name : list Z)
| CUnknown.

Definition has_prefix (p t : list Z) : bool := bool_decide (p = take (length p) t).

(** The command in a text; [None] when the topic name does not fit. *)
Definition parse_command (t : list Z) : option command :=
  let fit (mk : list Z -> command) (name : list Z) :=
    if (length name <? MAX_TOPIC_ID_CHARS)%nat then Some (mk name) else None in
  if has_prefix REGISTER t then fit CRegister (line (drop 9 t)) else
  if has_prefix SUBSCRIBE t then fit CSubscribe (line (drop 10 t)) else
  if has_prefix FLUSH t then fit CFlush (line (drop 6 t)) else Some CUnknown.

Lemma line_take n bs : line (take n bs) = take n (line bs).
Proof.
  revert n. induction bs as [|c r IH]; intros [|n]; cbn [take line]; try done.
  destruct ((c =? 0) || (c =? 10) || (c =? 13)); [done|]. cbn [take]. by rewrite IH.
Qed.

Lemma line_no_nul bs : no_nul (line bs).
Proof.
  induction bs as [|c r IH]; cbn [line]; [constructor|].
  destruct ((c =? 0) || (c =? 10) || (c =? 13)) eqn:E; [constructor|].
  apply orb_false_elim in E as [E _]. apply orb_false_elim in E as [E _]. split_hyps.
  by constructor.
Qed.

Lemma trim_key_length k : length (trim_key k) = length k.
Proof. induction k as [|c r IH]; cbn [trim_key]; [done|]. case_goal; cbn [length]; auto. Qed.

Lemma cstr_trim b n :
  no_nul b ->
  cstr (trim_key (b ++ replicate n 0)) =
    if (length (line b) <? length b + n)%nat then Some (line b) else None.
Proof.
  induction 1 as [|c b Hc Hb IH].
  - destruct n; done.
  - cbn [app trim_key line length]. rewrite (proj2 (Z.eqb_neq c 0) Hc). cbn [orb].
    destruct ((c =? 10) || (c =? 13)); [done|]. cbn [cstr length].
    rewrite (proj2 (Z.eqb_neq c 0) Hc), IH. cbn [Nat.add].
    destruct (length (line b) <? length b + n)%nat eqn:E; split_hyps.
    + by rewrite (proj2 (Nat.ltb_lt _ _)) by lia.
    + by rewrite (proj2 (Nat.ltb_ge _ _)) by lia.
Qed.

Lemma line_length b : (length (line b) <= length b)%nat.
Proof. induction b as [|c r IH]; cbn [line]; [done|]. case_goal; cbn [length]; lia. Qed.

(** Reading the key of a command: the line, if it fits with its NUL. *)
Lemma read_topic_key_eq buf off body rest :
  drop off buf = body ++ 0 :: rest -> no_nul body ->
  exists key, read_topic_key buf off = Some key /\ length key = MAX_TOPIC_ID_CHARS /\
    cstr key = if (length (line body) <? MAX_TOPIC_ID_CHARS)%nat then Some (line body) else None.
Proof.
  unfold MAX_TOPIC_ID_CHARS. intros Hd Hb. unfold read_topic_key, MAX_TOPIC_ID_CHARS. rewrite Hd.
  rewrite strnlen_app by done. cbn [mbind option_bind]. unfold strncpy.
  rewrite strncpy_bytes_prefix by (done || lia). cbn [mbind option_bind].
  set (n := (20 `min` length body)%nat).
  assert (length (take n body) = n) as Hn by (rewrite length_take; lia).
  unfold store, zero_key, MAX_TOPIC_ID_CHARS. rewrite length_replicate, Hn.
  rewrite (proj2 (Nat.leb_le _ _)) by lia. cbn [Nat.add mbind option_bind].
  rewrite take_0, app_nil_l, drop_replicate. eexists. split; [reflexivity|]. split.
  { rewrite trim_key_length, length_app, length_replicate. lia. }
  rewrite cstr_trim by (by apply Forall_take). rewrite line_take, Hn, length_take.
  pose proof (line_length body).
  destruct (length (line body) <? 20)%nat eqn:E; split_hyps.
  - rewrite (proj2 (Nat.ltb_lt _ _)) by lia. f_equal. apply take_ge. lia.
  - by rewrite (proj2 (Nat.ltb_ge _ _)) by lia.
Qed.

Lemma make_topic_key_eq key name :
  length key = MAX_TOPIC_ID_CHARS -> cstr key = Some name ->
  make_topic_key key = Some (Some (pad_key name)).
Proof.
  unfold MAX_TOPIC_ID_CHARS. intros Hlen Hc. unfold make_topic_key, strlen. rewrite Hc.
  destruct (cstr_Some _ _ Hc) as (_ & r & ->). rewrite length_app in Hlen. cbn [length] in Hlen.
  cbn [fmap option_fmap option_map mbind option_bind]. unfold MAX_TOPIC_ID_CHARS.
  rewrite (proj2 (Nat.leb_gt _ _)) by lia. unfold memcpy, load.
  rewrite (proj2 (Nat.leb_le _ _)) by (rewrite length_app; cbn [length]; lia).
  cbn [mbind option_bind]. rewrite drop_0, take_app_length.
  unfold store, zero_key, MAX_TOPIC_ID_CHARS. rewrite length_replicate, (proj2 (Nat.leb_le _ _)) by lia.
  cbn [Nat.add mbind option_bind]. rewrite take_0, app_nil_l, drop_replicate. unfold pad_key.
  by rewrite take_ge by lia.
Qed.

(** ** A datagram is its command *)

Lemma take_nul_prefix p t junk :
  no_nul p -> (p = take (length p) (t ++ 0 :: junk)) <-> p = take (length p) t.
Proof.
  intros Hp. destruct (Nat.le_gt_cases (length p) (length t)) as [Hle|Hgt].
  { by rewrite take_app_le. }
  split; intros Heq; exfalso.
  - rewrite take_app_ge in Heq by lia.
    destruct (length p - length t)%nat as [|m] eqn:Em; [lia|]. cbn [take] in Heq.
    unfold no_nul in Hp. rewrite Heq in Hp. apply Forall_app in Hp as [_ Hp].
    by inversion Hp.
  - apply (f_equal length) in Heq. rewrite length_take in Heq. lia.
Qed.

Lemma is_command_eq cmd t junk :
  no_nul cmd -> (length cmd <= length (t ++ 0%Z :: junk))%nat ->
  is_command (t ++ 0 :: junk) cmd = Some (has_prefix cmd t).
Proof.
  intros Hc Hlen. unfold is_command, has_prefix.
  destruct (strncmp_prefix cmd (t ++ 0 :: junk) Hc Hlen) as (z & -> & Hz). cbn [mbind option_bind].
  rewrite Hz. f_equal. apply bool_decide_ext. by apply take_nul_prefix.
Qed.

Lemma drop_text p t junk :
  no_nul t -> has_prefix p t = true ->
  drop (length p) (t ++ 0 :: junk) = drop (length p) t ++ 0 :: junk /\ no_nul (drop (length p) t).
Proof.
  intros Ht Hp. apply bool_decide_eq_true in Hp. split; [|by apply Forall_drop].
  apply drop_app_le. apply (f_equal length) in Hp. rewrite length_take in Hp. lia.
Qed.

Lemma reply_eq prefix key name :
  (length prefix <= 200)%nat -> (length name < MAX_TOPIC_ID_CHARS)%nat -> cstr key = Some name ->
  snprintf_s 256 prefix key = Some (prefix ++ name).
Proof.
  unfold MAX_TOPIC_ID_CHARS. intros Hp Hn Hc. unfold snprintf_s. rewrite Hc. cbn [mbind option_bind].
  f_equal. apply take_ge. rewrite length_app. lia.
Qed.

(** Every operation starts by reading its argument as a C string. *)
Class Strict (ops : commands) : Prop :=
  strict_flush : forall key, make_topic_key key = None -> cmd_flush ops key = Ret UB.

Section Datagram.
Context (ops : commands) `{!Strict ops}.

Lemma handle_datagram_command t junk s_addr sin_port :
  no_nul t -> (10 <= length (t ++ 0%Z :: junk))%nat ->
  let run := handle_datagram ops (t ++ 0 :: junk) s_addr sin_port in
  match parse_command t with
  | None => run = Ret UB
  | Some (CRegister name) => exists key, make_topic_key key = Some (Some (pad_key name)) /\
      run = (r <~ cmd_register ops key ;;
             if r =? 0 then ucall (SendTo (REGACK ++ name) s_addr sin_port) ;~ uret tt else uret tt)
  | Some (CSubscribe name) => exists key, make_topic_key key = Some (Some (pad_key name)) /\
      run = (cmd_subscribe ops key (bswap32 s_addr) (bswap16 sin_port) ;~
             ucall (SendTo (SUBACK ++ name) s_addr sin_port) ;~ uret tt)
  | Some (CFlush name) => exists key, make_topic_key key = Some (Some (pad_key name)) /\
      run = (cmd_flush ops key ;~ ucall (SendTo FLUSHED s_addr sin_port) ;~ uret tt)
  | Some CUnknown => run = uret tt
  end.
Proof.
  intros Ht Hlen run. subst run. unfold handle_datagram, parse_command.
  assert (no_nul REGISTER /\ no_nul SUBSCRIBE /\ no_nul FLUSH) as (Hr & Hs & Hf).
  { unfold no_nul. split_and!; decide_goal. }
  rewrite !is_command_eq by (done || (cbn; lia)). cbn [ulift].
  destruct (has_prefix REGISTER t) eqn:E1; [|destruct (has_prefix SUBSCRIBE t) eqn:E2;
    [|destruct (has_prefix FLUSH t) eqn:E3]]; rewrite ?ubind_uret.
  - destruct (drop_text _ _ junk Ht E1) as [Hd Hn].
    destruct (read_topic_key_eq _ 9 _ _ Hd Hn) as (key & Hk & Hl & Hc).
    rewrite Hk. cbn [ulift]. rewrite ubind_uret, Hc. change (length REGISTER) with 9%nat.
    destruct (_ <? _)%nat eqn:E; [|done]. split_hyps.
    exists key. split; [by apply make_topic_key_eq|].
    cbn [ulift]. rewrite ubind_uret. by rewrite (reply_eq REGACK _ _ ltac:(vm_compute; lia) E Hc).
  - destruct (drop_text _ _ junk Ht E2) as [Hd Hn].
    destruct (read_topic_key_eq _ 10 _ _ Hd Hn) as (key & Hk & Hl & Hc).
    rewrite Hk. cbn [ulift]. rewrite ubind_uret, Hc. change (length SUBSCRIBE) with 10%nat.
    destruct (_ <? _)%nat eqn:E; [|done]. split_hyps.
    exists key. split; [by apply make_topic_key_eq|].
    cbn [ulift]. rewrite ubind_uret. by rewrite (reply_eq SUBACK _ _ ltac:(vm_compute; lia) E Hc).
  - destruct (drop_text _ _ junk Ht E3) as [Hd Hn].
    destruct (read_topic_key_eq _ 6 _ _ Hd Hn) as (key & Hk & Hl & Hc).
    rewrite Hk. cbn [ulift]. rewrite ubind_uret. change (length FLUSH) with 6%nat.
    destruct (_ <? _)%nat eqn:E; split_hyps.
    + exists key. split; [by apply make_topic_key_eq|]. done.
    + rewrite strict_flush; [done|]. unfold make_topic_key, strlen. by rewrite Hc.
  - by rewrite cstr_app.
Qed.
End Datagram.


(** ** The abstract server *)

(** The subscriber a datagram's sender stands for. *)
Definition sender_key (s_addr sin_port : Z) : Z := pack (bswap32 s_addr) (bswap16 sin_port).

(** What an abstract broker of type [B] does on the three commands: the
    return code and the new state. *)
Record broker_spec (B : Type) := BrokerSpec {
  sp_register : list Z -> B -> Z * B;
  sp_subscribe : list Z -> Z -> B -> Z * B;
  sp_flush : list Z -> B -> Z * B
}.
Arguments sp_register {B} _ _ _.
Arguments sp_subscribe {B} _ _ _ _.
Arguments sp_flush {B} _ _ _.

Section AbstractServer.
Context {B : Type} (sp : broker_spec B).

(** What the text [t] of a datagram does to the broker and what is sent
    back; [None] when its topic name does not fit. *)
Definition spec_text (t : list Z) (s_addr sin_port : Z) (b : B) : option (B * list output) :=
  cmd ← parse_command t;
  Some match cmd with
  | CRegister name =>
      let '(r, b') := sp_register sp (pad_key name) b in
      (b', if r =? 0 then [Datagram (REGACK ++ name) s_addr sin_port] else [])
  | CSubscribe name =>
      ((sp_subscribe sp (pad_key name) (sender_key s_addr sin_port) b).2,
       [Datagram (SUBACK ++ name) s_addr sin_port])
  | CFlush name => ((sp_flush sp (pad_key name) b).2, [Datagram FLUSHED s_addr sin_port])
  | CUnknown => (b, [])
  end.

(** The text of a received datagram: at most 1023 bytes, up to a NUL. *)
Definition text_of (msg : list Z) : list Z := until_nul (take 1023 msg).

Fixpoint spec_serve (input : list received) (b : B) : option (B * list output) :=
  match input with
  | [] => Some (b, [])
  | RecvError :: rest => spec_serve rest b
  | Received msg s_addr sin_port :: rest =>
      '(b1, out1) ← spec_text (text_of msg) s_addr sin_port b;
      '(b2, out2) ← spec_serve rest b1;
      Some (b2, out1 ++ out2)
  end.
End AbstractServer.

(** ** The interface the loop is verified against

    The operations refine an abstract broker: on a kernel that fails only for
    documented reasons each returns what the specification returns and
    leaves maps that stand for its state.  [N] bounds the subscriptions
    counted so far, which must stay below the 32-bit counters. *)
Class Refines (ops : commands) {B : Type} (sp : broker_spec B)
    (abs : kview -> B) (inv : Z -> kview -> Prop) : Prop := {
  refines_mono : forall N M v, N <= M -> inv N v -> inv M v;
  refines_out : forall N x v, inv N v -> inv N (add_out x v) /\ abs (add_out x v) = abs v;
  refines_register : forall key k N v,
    make_topic_key key = Some (Some k) -> inv N v -> 0 <= N ->
    uwp reliable_spec (cmd_register ops key)
      (λ r w, inv N w /\ v_out w = v_out v /\ (r, abs w) = sp_register sp k (abs v)) v;
  refines_subscribe : forall key k ip port N v,
    make_topic_key key = Some (Some k) -> inv N v -> 0 <= N -> N + 1 < 2 ^ 32 ->
    uwp reliable_spec (cmd_subscribe ops key ip port)
      (λ r w, inv (N + 1) w /\ v_out w = v_out v /\ (r, abs w) = sp_subscribe sp k (pack ip port) (abs v)) v;
  refines_flush : forall key k N v,
    make_topic_key key = Some (Some k) -> inv N v -> 0 <= N ->
    uwp reliable_spec (cmd_flush ops key)
      (λ r w, inv N w /\ v_out w = v_out v /\ (r, abs w) = sp_flush sp k (abs v)) v
}.

(** On a kernel of which only [c] is known, whatever calls fail, the
    operations keep [I] and close what they opened when they return; a loop
    may only fail to end in a state that satisfies [N].  A registration
    always returns, and when it returns 0 the topic is registered. *)
Class Robust (c : contract (E := ev) kview) (N : kview -> Prop) (ops : commands) (S : gset Z) (I : kview -> Prop) : Prop := {
  robust_documented :: Documented c;
  robust_out : forall x v, I v -> I (add_out x v);
  robust_register : forall key k v,
    make_topic_key key = Some (Some k) -> I v ->
    uwp c (cmd_register ops key)
      (λ r w, (I w /\ v_fds w = v_fds v) /\ v_out w = v_out v /\ (r = 0 -> is_Some (v_outer w !! k))) v;
  robust_subscribe : forall key k ip port v,
    make_topic_key key = Some (Some k) -> pack ip port ∈ S -> I v ->
    owp c N (cmd_subscribe ops key ip port) (λ _ w, I w /\ v_fds w = v_fds v) v;
  robust_flush : forall key k v,
    make_topic_key key = Some (Some k) -> I v ->
    owp c N (cmd_flush ops key) (λ _ w, I w /\ v_fds w = v_fds v) v
}.

(** ** The receive buffer *)

Lemma until_nul_split bs :
  no_nul (until_nul bs) /\ exists rest, bs ++ [0] = until_nul bs ++ 0 :: rest.
Proof.
  induction bs as [|c r [IH1 (rest & IH2)]]; cbn [until_nul app].
  - split; [constructor|by exists []].
  - destruct (c =? 0) eqn:E; split_hyps.
    + subst c. split; [constructor|]. by exists (r ++ [0]).
    + split; [by constructor|]. exists rest. cbn. by rewrite IH2.
Qed.

Lemma recv_into_text buf msg :
  length buf = 1024%nat ->
  no_nul (text_of msg) /\ length (recv_into buf msg) = 1024%nat /\
  exists junk, recv_into buf msg = text_of msg ++ 0 :: junk.
Proof.
  intros Hlen. unfold recv_into, text_of. destruct (until_nul_split (take 1023 msg)) as [Hn (rest & Hr)].
  pose proof (length_take msg 1023). split_and!; [done| |].
  - rewrite !length_app, length_drop. cbn [length]. lia.
  - rewrite app_assoc, Hr, <- app_assoc. cbn. by eexists.
Qed.

(** ** One datagram, and the loop *)

Lemma out_add_out x v : v_out (add_out x v) = v_out v ++ [x].
Proof. by destruct v. Qed.

Section Serve.
Context (ops : commands) `{!Strict ops} {B : Type} (sp : broker_spec B)
  (abs : kview -> B) (inv : Z -> kview -> Prop) `{!Refines ops sp abs inv}.

(** A reply, on a kernel that sends. *)
Lemma reply_wp N v msg s_addr sin_port :
  inv N v ->
  uwp reliable_spec (ucall (SendTo msg s_addr sin_port) ;~ uret tt)
    (λ _ w, inv N w /\ abs w = abs v /\ v_out w = v_out v ++ [Datagram msg s_addr sin_port]) v.
Proof.
  intros Hinv. apply uwp_bind, uwp_call. intros r w [Hs Hr]. cbn in Hs, Hr.
  destruct Hs as [[_ ->]|[? _]]; [|lia]. apply uwp_ret.
  destruct (refines_out N (Datagram msg s_addr sin_port) v Hinv). split_and!; [done|done|apply out_add_out].
Qed.

Lemma handle_datagram_wp N v t junk s_addr sin_port b outs :
  no_nul t -> (10 <= length (t ++ 0%Z :: junk))%nat -> inv N v -> 0 <= N -> N + 1 < 2 ^ 32 ->
  spec_text sp t s_addr sin_port (abs v) = Some (b, outs) ->
  uwp reliable_spec (handle_datagram ops (t ++ 0 :: junk) s_addr sin_port)
    (λ _ w, inv (N + 1) w /\ abs w = b /\ v_out w = v_out v ++ outs) v.
Proof.
  intros Ht Hlen Hinv HN HN1 Hspec.
  pose proof (handle_datagram_command ops t junk s_addr sin_port Ht Hlen) as Hrun.
  assert (forall w, inv N w -> inv (N + 1) w) as Hmono by (intros; eapply refines_mono; [|done]; lia).
  unfold spec_text in Hspec. destruct (parse_command t) as [[name|name|name|]|]; [| | | |done];
    cbn in Hspec.
  - destruct Hrun as (key & Hk & ->). apply uwp_bind.
    eapply uwp_mono; [|by eapply (refines_register key _ N)]. intros r w (Hi & Hout & Habs).
    rewrite <- Habs in Hspec. injection Hspec as <- <-. apply Hmono in Hi. destruct (r =? 0).
    + eapply uwp_mono; [|by apply reply_wp]. intros _ w' (? & ? & Ho). by rewrite Ho, Hout.
    + apply uwp_ret. by rewrite app_nil_r.
  - destruct Hrun as (key & Hk & ->). apply uwp_bind.
    eapply uwp_mono; [|by eapply (refines_subscribe key _ _ _ N)]. intros r w (Hi & Hout & Habs).
    unfold sender_key in Hspec. rewrite <- Habs in Hspec. injection Hspec as <- <-.
    eapply uwp_mono; [|by apply reply_wp]. intros _ w' (? & ? & Ho). by rewrite Ho, Hout.
  - destruct Hrun as (key & Hk & ->). apply uwp_bind.
    eapply uwp_mono; [|by eapply (refines_flush key _ N)].
    intros r w (Hi & Hout & Habs). rewrite <- Habs in Hspec. injection Hspec as <- <-. apply Hmono in Hi.
    eapply uwp_mono; [|by apply reply_wp]. intros _ w' (? & ? & Ho). by rewrite Ho, Hout.
  - injection Hspec as <- <-. rewrite Hrun. apply uwp_ret. rewrite app_nil_r. auto.
Qed.

Lemma serve_wp N v buf input b outs :
  length buf = 1024%nat -> inv N v -> 0 <= N -> N + Z.of_nat (length input) < 2 ^ 32 ->
  spec_serve sp input (abs v) = Some (b, outs) ->
  uwp reliable_spec (serve ops buf input)
    (λ _ w, inv (N + Z.of_nat (length input)) w /\ abs w = b /\ v_out w = v_out v ++ outs) v.
Proof.
  revert N v buf b outs. induction input as [|[|msg s_addr sin_port] rest IH];
    intros N v buf b outs Hbuf Hinv HN HN1 Hspec; cbn [serve spec_serve length] in *.
  - injection Hspec as <- <-. apply uwp_ret. rewrite app_nil_r, Z.add_0_r. done.
  - eapply uwp_mono; [|eapply (IH N); try done; lia]. intros _ w (Hi & ? & ?). split; [|done].
    eapply refines_mono; [|done]; lia.
  - destruct (spec_text sp (text_of msg) s_addr sin_port (abs v)) as [[B1 out1]|] eqn:E1; [|done].
    cbn in Hspec. destruct (spec_serve sp rest B1) as [[B2 out2]|] eqn:E2; [|done]. cbn in Hspec.
    injection Hspec as <- <-. destruct (recv_into_text buf msg Hbuf) as (Hn & Hl & junk & Hj).
    rewrite Hj in Hl |- *. apply uwp_bind. eapply uwp_mono; [|eapply (handle_datagram_wp N); try done; lia].
    intros _ w (Hi & <- & Hout). eapply uwp_mono; [|apply (IH (N + 1)); try done; lia].
    intros _ w' (Hi' & ? & Ho). split_and!; [|done|by rewrite Ho, Hout, app_assoc].
    eapply refines_mono; [|done]; lia.
Qed.
End Serve.

Section ServeRobust.
Context (c : contract (E := ev) kview) (N : kview -> Prop) (ops : commands) `{!Strict ops} (S : gset Z) (I : kview -> Prop)
  `{!Robust c N ops S I}.

(** A reply changes neither maps nor descriptors. *)
Lemma send_kept M msg s_addr sin_port v :
  I v ->
  owp c M (ucall (SendTo msg s_addr sin_port) ;~ uret tt)
    (λ _ w, (I w /\ v_fds w = v_fds v) /\ v_outer w = v_outer v) v.
Proof.
  intros Hv. apply owp_bind, owp_call. intros r w Hs. apply owp_ret. apply documented in Hs. cbn in Hs.
  destruct Hs as [[_ ->]|[_ ->]]; [|done]. split_and!; [by apply robust_out| |]; by destruct v.
Qed.

(** REGISTER returns on any kernel. *)
Lemma handle_register_kept t junk s_addr sin_port name v :
  no_nul t -> (10 <= length (t ++ 0%Z :: junk))%nat -> parse_command t = Some (CRegister name) -> I v ->
  uwp c (handle_datagram ops (t ++ 0 :: junk) s_addr sin_port)
    (λ _ w, (I w /\ v_fds w = v_fds v) /\ (v_out w = v_out v \/ is_Some (v_outer w !! pad_key name))) v.
Proof.
  intros Ht Hlen Hp Hv.
  pose proof (handle_datagram_command ops t junk s_addr sin_port Ht Hlen) as Hrun. rewrite Hp in Hrun.
  destruct Hrun as (key & Hk & ->). apply uwp_bind.
  eapply uwp_mono; [|by eapply robust_register]. intros r w ([Hw <-] & Hout & Hr).
  case_goal; split_hyps; [|apply uwp_ret; split; [done|by left]].
  eapply owp_mono; [|by apply send_kept]. intros _ w' [? ->]. auto.
Qed.

Lemma handle_datagram_kept t junk s_addr sin_port v :
  no_nul t -> (10 <= length (t ++ 0%Z :: junk))%nat -> parse_command t <> None ->
  sender_key s_addr sin_port ∈ S -> I v ->
  owp c N (handle_datagram ops (t ++ 0 :: junk) s_addr sin_port) (λ _ w, I w /\ v_fds w = v_fds v) v.
Proof.
  intros Ht Hlen Hp HS Hv.
  pose proof (handle_datagram_command ops t junk s_addr sin_port Ht Hlen) as Hrun.
  destruct (parse_command t) as [[name|name|name|]|] eqn:E; [| | | |done].
  - eapply (owp_weaken c (λ _, False)); [done|done|]. eapply owp_mono; [|by eapply handle_register_kept].
    by intros _ w [? _].
  - destruct Hrun as (key & Hk & ->). apply owp_bind.
    eapply owp_mono; [|by eapply robust_subscribe]. intros r w [Hw <-].
    eapply owp_mono; [|by apply send_kept]. by intros _ w' [? _].
  - destruct Hrun as (key & Hk & ->). apply owp_bind.
    eapply owp_mono; [|by eapply robust_flush]. intros r w [Hw <-].
    eapply owp_mono; [|by apply send_kept]. by intros _ w' [? _].
  - rewrite Hrun. by apply owp_ret.
Qed.

(** Datagrams with names that fit, from senders in [S]. *)
Definition well_formed (input : list received) : Prop :=
  Forall (λ d, match d with
               | RecvError => True
               | Received msg s_addr sin_port =>
                   parse_command (text_of msg) <> None /\ sender_key s_addr sin_port ∈ S
               end) input.

Lemma serve_kept buf input v :
  length buf = 1024%nat -> well_formed input -> I v ->
  owp c N (serve ops buf input) (λ _ w, I w /\ v_fds w = v_fds v) v.
Proof.
  revert v buf. induction input as [|[|msg s_addr sin_port] rest IH]; intros v buf Hbuf Hin Hv;
    cbn [serve]; [by apply owp_ret|by apply IH; inversion Hin|].
  apply Forall_cons in Hin as [[Hp HS] Hrest]. destruct (recv_into_text buf msg Hbuf) as (Hn & Hl & junk & Hj).
  rewrite Hj in Hl |- *. apply owp_bind. eapply owp_mono; [|apply handle_datagram_kept; try done; lia].
  intros _ w [Hw <-]. by apply IH.
Qed.
End ServeRobust.
