(* ===== verification/Faults.v ===== *)
(** * What survives failing calls

    Reasoning about the control programs on kernels whose calls fail at any
    point.  [sound] is an invariant of the kernel's state call by call: every
    inner map satisfies [P] and every recorded first subscriber [F].
    [within] lists what a call must respect to keep it, [fds_after] how a
    call changes the open descriptors, and the tactic [kcall] steps through
    a program collecting both. *)

From S2P Require Import Prelude Prog Kernel.
From stdpp Require Import base tactics numbers list gmap fin_maps.
Local Open Scope Z_scope.
Local Open Scope broker_scope.

Record sound (P : mobj -> Prop) (F : Z -> Prop) (v : kview) : Prop := Sound {
  snd_obj : forall id o, v_objs v !! id = Some o -> P o;
  snd_first : forall t k, v_first v !! t = Some k -> F k
}.

(** The key fits in an inner map. *)
Definition obj_room (o : mobj) (k : Z) : Prop :=
  match ba_map_type (mo_attr o) with
  | BPF_MAP_TYPE_HASH => room (ba_max_entries (mo_attr o)) (mo_elems o) k
  | BPF_MAP_TYPE_ARRAY => 0 <= k < ba_max_entries (mo_attr o)
  end.

(** An inner map with other entries. *)
Definition with_elems (g : gmap Z Z) (o : mobj) : mobj := MObj (mo_attr o) g.

(** The calls that keep [sound]. *)
Definition within {X} (P : mobj -> Prop) (F : Z -> Prop) (e : ev X) : Prop :=
  match e with
  | TopicUpdate topic_first_sub _ k => F k
  | ElemUpdate (by_id _) k x | ElemUpdate (by_fd _) k x =>
      forall o, P o -> obj_room o k -> P (with_elems (<[k := x]> (mo_elems o)) o)
  | ElemDelete (by_id _) k | ElemDelete (by_fd _) k =>
      forall o, P o -> ba_map_type (mo_attr o) = BPF_MAP_TYPE_HASH -> P (with_elems (delete k (mo_elems o)) o)
  | AtomicAdd (by_id _) _ _ | AtomicAdd (by_fd _) _ _ => False
  | MapCreate a => P (new_obj a)
  | _ => True
  end.

(** Which descriptors are open after a call. *)
Definition fds_after {X} (e : ev X) (F : gmap Z Z) (x : X) (F' : gmap Z Z) : Prop :=
  match e in ev X return X -> Prop with
  | MapCreate _ | MapGetFdById _ => λ fd,
      (0 <= fd /\ F !! fd = None /\ exists id, F' = <[fd := id]> F) \/ (fd < 0 /\ F' = F)
  | CloseFd fd => λ _, F' = delete fd F
  | _ => λ _, F' = F
  end x.

(** Only the two sending calls add to the output. *)
Definition silent {X} (e : ev X) : Prop :=
  match e with SendTo _ _ _ | CloneRedirect _ _ _ => False | _ => True end.

Section Sound.
Context (P : mobj -> Prop) (F : Z -> Prop).

Lemma sound_set_obj v id g :
  sound P F v -> (forall o, v_objs v !! id = Some o -> P (with_elems g o)) ->
  sound P F (set_objs (alter (λ o, MObj (mo_attr o) g) id (v_objs v)) v).
Proof.
  intros [Ho Hf] Hg. split; destruct v; cbn in *; [|done]. intros i o. destruct (decide (i = id)) as [->|Hne].
  - rewrite lookup_alter_eq. destruct (_ !! id) eqn:E; [|done]. intros [= <-]. by apply Hg.
  - rewrite lookup_alter_ne by done. apply Ho.
Qed.

(** New entries for the map a handle denotes. *)
Lemma sound_set_elems m g v :
  sound P F v ->
  (forall o, obj_of m v = Some o -> P o -> P (with_elems g o)) ->
  sound P F (set_elems m g v).
Proof.
  intros Hv Hg. destruct m as [id|fd|s].
  - apply sound_set_obj; [done|]. intros o Ho. apply Hg; [done|]. by eapply snd_obj.
  - cbn. destruct (v_fds v !! fd) as [id|] eqn:E; [|done]. apply sound_set_obj; [done|].
    intros o Ho. apply Hg; [unfold obj_of; cbn; by rewrite E|]. by eapply snd_obj.
  - destruct Hv as [Ho Hf]. destruct s, v; split; cbn in *; done.
Qed.

Lemma elems_of_obj m v o : obj_of m v = Some o -> elems_of m v = mo_elems o /\ attr_of m v = Some (mo_attr o).
Proof. destruct m as [id|fd|s]; [| |done]; intros H; cbn; unfold obj_of in *; cbn in *; by rewrite H. Qed.

Lemma sound_set_topic m g v :
  sound P F v -> (m = topic_first_sub -> forall t k, g !! t = Some k -> F k) -> sound P F (set_topic m g v).
Proof. intros [Ho Hf] Hg. destruct m, v; split; cbn in *; try done. by apply Hg. Qed.

Lemma sound_out x v : sound P F v -> sound P F (add_out x v).
Proof. intros [Ho Hf]. destruct v; split; cbn in *; done. Qed.

Lemma sound_ev {X} (e : ev X) v x v' :
  sound P F v -> within P F e -> ev_spec e v x v' -> sound P F v'.
Proof.
  intros Hv Hw Hs. destruct e; cbn in Hs; destruct_and?; subst; try done.
  - destruct Hs as [(_ & _ & w & Hst & ->)|[_ ->]]; [|done]. apply sound_set_topic; [done|]. intros ->.
    cbn in Hst, Hw. injection Hst as ->. intros t' k'. cbn. rewrite lookup_insert.
    case_decide; [congruence|]. apply (snd_first _ _ _ Hv).
  - destruct Hs as [(_ & _ & ->)|[_ ->]]; [|done]. apply sound_set_topic; [done|]. intros ->.
    intros t' k' H'. apply lookup_delete_Some in H' as [_ H']. by apply (snd_first _ _ _ Hv t').
  - destruct Hs as [(_ & Hr & ->)|[_ ->]]; [|done]. apply sound_set_elems; [done|].
    intros o Ho HP. destruct (elems_of_obj _ _ _ Ho) as [He Ha]. unfold elem_room in Hr. rewrite Ha, He in Hr.
    rewrite He. destruct m as [id|fd|s]; [by apply Hw..|done].
  - destruct Hs as [(_ & [Et _] & ->)|[_ ->]]; [|done].
    apply sound_set_elems; [done|]. intros o Ho HP. destruct (elems_of_obj _ _ _ Ho) as [He Ha].
    rewrite Ha in Et. injection Et as Et. rewrite He. destruct m as [id|fd|s]; [by apply Hw..|done].
  - destruct k; destruct_and?; by subst.
  - apply sound_set_elems; [done|]. destruct m; done.
  - destruct Hs as [(_ & _ & id & Hid & ->)|[_ ->]]; [|done].
    destruct Hv as [Ho Hf]. split; destruct v; cbn in *; [|done]. intros i o. rewrite lookup_insert.
    case_decide; [by intros [= <-]|apply Ho].
  - destruct Hv as [Ho Hf], v. destruct Hs as [(_ & _ & _ & ->)|[_ ->]]; split; cbn in *; done.
  - destruct Hv as [Ho Hf], v. split; cbn in *; done.
  - destruct Hs as [[_ ->]|[_ ->]]; auto using sound_out.
  - destruct Hs as [[_ ->]|[_ ->]]; auto using sound_out.
Qed.
End Sound.

Lemma fds_ev {X} (e : ev X) v x v' :
  ev_spec e v x v' -> fds_after e (v_fds v) x (v_fds v').
Proof.
  intros Hs. assert (forall m g, v_fds (set_elems m g v) = v_fds v) as Hse.
  { intros [id|fd|[]] g; destruct v; cbn; try done. by destruct (_ !! fd). }
  destruct e; cbn in Hs |- *; destruct_and?; subst; try done.
  - destruct Hs as [(_ & _ & w & _ & ->)|[_ ->]]; [|done]. by destruct m, v.
  - destruct Hs as [(_ & _ & ->)|[_ ->]]; [|done]. by destruct m, v.
  - destruct Hs as [(_ & _ & ->)|[_ ->]]; [|done]. apply Hse.
  - destruct Hs as [(_ & _ & ->)|[_ ->]]; [|done]. apply Hse.
  - destruct k; destruct_and?; by subst.
  - destruct Hs as [(? & ? & id & _ & ->)|[? ->]]; [left|by right]. destruct v; cbn.
    split_and!; [lia|done|by eexists].
  - destruct Hs as [(? & ? & _ & ->)|[? ->]]; [left|by right]. destruct v; cbn.
    split_and!; [lia|done|by eexists].
  - by destruct v.
  - destruct Hs as [[_ ->]|[_ ->]]; by destruct v.
  - destruct Hs as [[_ ->]|[_ ->]]; by destruct v.
Qed.

Lemma out_ev {X} (e : ev X) v x v' : ev_spec e v x v' -> silent e -> v_out v' = v_out v.
Proof.
  intros Hs Hq. assert (forall m g, v_out (set_elems m g v) = v_out v) as Hse.
  { intros [id|fd|[]] g; destruct v; cbn; try done. by destruct (_ !! fd). }
  destruct e; cbn in Hs, Hq |- *; destruct_and?; subst; try done.
  - destruct Hs as [(_ & _ & w & _ & ->)|[_ ->]]; [|done]. by destruct m, v.
  - destruct Hs as [(_ & _ & ->)|[_ ->]]; [|done]. by destruct m, v.
  - destruct Hs as [(_ & _ & ->)|[_ ->]]; [|done]. apply Hse.
  - destruct Hs as [(_ & _ & ->)|[_ ->]]; [|done]. apply Hse.
  - destruct k; destruct_and?; by subst.
  - destruct Hs as [(? & ? & id & _ & ->)|[? ->]]; by destruct v.
  - destruct Hs as [(? & ? & _ & ->)|[? ->]]; by destruct v.
  - by destruct v.
Qed.

(** Next call of a program: [sound] moves to the view after it, the
    descriptors come as [Hf] and the call's contract as [Hs]; [within] of the
    call is left to the tactic [solve]. *)
Ltac kcall_with x v' Hs Hf solve :=
  first [apply owp_bind, owp_call | apply owp_call]; intros x v' Hs; apply documented in Hs;
  match goal with
  | H : sound ?P ?F ?v |- _ =>
      let H' := fresh in
      assert (sound P F v') as H'
        by (eapply (sound_ev P F _ v); [exact H | | exact Hs]; cbn [within]; solve);
      pose proof (fds_ev _ _ _ _ Hs) as Hf; clear H; rename H' into H
  end; cbn [fds_after] in Hf.

(** A descriptor that a call opened and the program closes. *)
Lemma close_kept `{!Documented c} N P F fd id G (r : Z) v :
  sound P F v -> G !! fd = None -> v_fds v = <[fd := id]> G ->
  owp c N (ucall (CloseFd fd) ;~ uret r) (λ _ w, sound P F w /\ v_fds w = G) v.
Proof.
  intros Hv HG Hfd. kcall_with x w Hs Hf ltac:(done). apply owp_ret. split; [done|].
  rewrite Hf, Hfd. by rewrite delete_insert_id.
Qed.
