(* ===== verification/Control.v ===== *)
(** * The control program: bpf_broker/bpf_broker_proto.c

    The operations of the first program: they register topics, add
    subscribers and flush them by updating the maps the kernel programs read.
    The three map descriptors opened at start are the topic maps of the
    interface; the clean-up [close(inner_fd)] of every path is a call. *)

From Stdlib Require Import String.
From S2P Require Import Prelude Prog Packet Kernel CString Server.
From stdpp Require Import base tactics numbers list gmap fin_maps.
Local Open Scope Z_scope.
Local Open Scope broker_scope.

(** Attributes of the inner maps [add_topic] creates. *)
Definition inner_attr : bpf_attr := BpfAttr BPF_MAP_TYPE_HASH 8 4 256.

Section Control.
(** [dummy] is one byte but the map copies a four-byte value from its
    address: the other three bytes are whatever follows it on the stack. *)
Context (stack_bytes : Z).

Definition dummy_value : Z := 1 + 256 * (stack_bytes mod 2 ^ 24).

Definition add_subscriber (topic_name : list Z) (ip port : Z) : um ev Z :=
  key_opt <~ ulift (make_topic_key topic_name) ;;
  match key_opt with
  | None => uret (-1)
  | Some topic_key =>
      outer <~ ucall (TopicGet topic_outer topic_key) ;;
      match outer with
      | None => uret (-1)
      | Some inner_id =>
          inner_fd <~ ucall (MapGetFdById inner_id) ;;
          if inner_fd <? 0 then uret (-1) else
          let key := pack ip port in
          r <~ ucall (ElemUpdate (by_fd inner_fd) key dummy_value) ;;
          if r <? 0 then ucall (CloseFd inner_fd) ;~ uret (-1) else
          c <~ ucall (TopicGet topic_sub_cnt topic_key) ;;
          let current := match c with Some c => u32 (c + 1) | None => 1 end in
          r <~ ucall (TopicUpdate topic_sub_cnt topic_key current) ;;
          if r <? 0 then ucall (CloseFd inner_fd) ;~ uret (-1) else
          first <~ (if current =? 1
                    then ucall (TopicUpdate topic_first_sub topic_key key)
                    else uret 0) ;;
          if first <? 0 then ucall (CloseFd inner_fd) ;~ uret (-1) else
          ucall (CloseFd inner_fd) ;~ uret 0
      end
  end.

(** [while (bpf_map_get_next_key(inner_fd, NULL, &key) == 0) { delete; }],
    [fuel] rounds at most. *)
Fixpoint flush_loop (fuel : nat) (inner_fd deleted : Z) : um ev Z :=
  match fuel with
  | O => Ret NoFuel
  | S fuel' =>
      k <~ ucall (ElemNextKey (by_fd inner_fd) None) ;;
      match k with
      | None => uret deleted
      | Some key =>
          ucall (ElemDelete (by_fd inner_fd) key) ;~
          flush_loop fuel' inner_fd (deleted + 1)
      end
  end.

Definition flush_topic (fuel : nat) (topic_name : list Z) : um ev Z :=
  key_opt <~ ulift (make_topic_key topic_name) ;;
  match key_opt with
  | None => uret (-1)
  | Some topic_key =>
      outer <~ ucall (TopicGet topic_outer topic_key) ;;
      match outer with
      | None => uret 0
      | Some inner_id =>
          inner_fd <~ ucall (MapGetFdById inner_id) ;;
          if inner_fd <? 0 then uret (-1) else
          flush_loop fuel inner_fd 0 ;~
          ucall (CloseFd inner_fd) ;~
          ucall (TopicUpdate topic_sub_cnt topic_key 0) ;~
          ucall (TopicDelete topic_first_sub topic_key) ;~
          uret 0
      end
  end.

Definition add_topic (topic_name : list Z) : um ev Z :=
  key_opt <~ ulift (make_topic_key topic_name) ;;
  match key_opt with
  | None => uret (-1)
  | Some topic_key =>
      outer <~ ucall (TopicGet topic_outer topic_key) ;;
      match outer with
      | Some _ => uret 0
      | None =>
          inner_fd <~ ucall (MapCreate inner_attr) ;;
          if inner_fd <? 0 then uret (-1) else
          update_ret <~ ucall (TopicUpdate topic_outer topic_key (u32 inner_fd)) ;;
          if update_ret <? 0 then ucall (CloseFd inner_fd) ;~ uret (-1) else
          ucall (CloseFd inner_fd) ;~ uret 0
      end
  end.

(** The operations the server loop calls. *)
Definition broker_commands (fuel : nat) : commands := Commands add_topic add_subscriber (flush_topic fuel).
End Control.

(** Rounds granted to [flush_loop]: an inner map holds 256 keys at most, and
    the last round finds it empty. *)
Definition flush_fuel : nat := 257.
