(* ===== verification/ControlSpec.v ===== *)
(** * What the control program promises

    The abstract broker is a finite map from topic keys to sets of
    subscribers, with two capacities: 10 topics and 256 subscribers per
    topic.  The invariant [inv] ties the three maps together; every command
    preserves it and acts on the abstract broker as its specification says,
    on a kernel whose calls fail only for the documented limits. *)

From Stdlib Require Import String.
From S2P Require Import Prelude Prog Packet Kernel Views CString Server Control.
From stdpp Require Import base tactics numbers list gmap fin_maps.
Local Open Scope Z_scope.
Local Open Scope broker_scope.

(** ** The abstract broker *)

Abbreviation broker := (gmap (list Z) (gset Z)).

Definition spec_register (t : list Z) (B : broker) : Z * broker :=
  match B !! t with
  | Some _ => (0, B)
  | None => if Z.of_nat (size B) <? MAX_TOPIC_ID then (0, <[t := ∅]> B) else (-1, B)
  end.

Definition spec_subscribe (t : list Z) (k : Z) (B : broker) : Z * broker :=
  match B !! t with
  | None => (-1, B)
  | Some X =>
      if decide (k ∈ X \/ Z.of_nat (size X) < ba_max_entries inner_attr)
      then (0, <[t := {[k]} ∪ X]> B) else (-1, B)
  end.

Definition spec_flush (t : list Z) (B : broker) : Z * broker :=
  match B !! t with None => (0, B) | Some _ => (0, <[t := ∅]> B) end.

(** The subscribers an inner map holds, and the broker a view stands for. *)
Definition subs (v : kview) (id : Z) : gset Z := dom (elems_of (by_id id) v).
Definition abs (v : kview) : broker := subs v <$> v_outer v.

(** ** The invariant *)

(** What the count and the first subscriber of a topic say of its set of
    subscribers: a count of one means exactly the recorded subscriber. *)
Definition fast_ok (N : Z) (X : gset Z) (n : Z) (first : option Z) : Prop :=
  0 <= n <= N /\ Z.of_nat (size X) <= n /\
  (n = 0 -> first = None) /\ (n = 1 -> exists k, X = {[k]} /\ first = Some k) /\
  (1 <= n -> X <> ∅).

Definition topic_ok (N : Z) (v : kview) (t : list Z) (id : Z) : Prop :=
  exists g, v_objs v !! id = Some (MObj inner_attr g) /\
    Z.of_nat (size g) <= ba_max_entries inner_attr /\
    fast_ok N (dom g) (default 0 (v_cnt v !! t)) (v_first v !! t).

(** [N] bounds the subscriptions counted so far. *)
Record inv (N : Z) (v : kview) : Prop := Inv {
  inv_fds : v_fds v = ∅;
  inv_topic : forall t id, v_outer v !! t = Some id -> topic_ok N v t id;
  inv_inj : forall t t' id, v_outer v !! t = Some id -> v_outer v !! t' = Some id -> t = t';
  inv_cnt : dom (v_cnt v) ⊆ dom (v_outer v);
  inv_first : dom (v_first v) ⊆ dom (v_outer v);
  inv_size : Z.of_nat (size (v_outer v)) <= MAX_TOPIC_ID
}.

Lemma inv_mono N M v : N <= M -> inv N v -> inv M v.
Proof.
  intros HNM []. split; try done. intros t id Ho.
  destruct (inv_topic0 t id Ho) as (g & Hg & Hs & (Hn & Hf)). exists g. split_and!; [done|done|].
  split; [lia|done].
Qed.

Lemma inv_boot v : v_outer v = ∅ -> v_cnt v = ∅ -> v_first v = ∅ -> v_fds v = ∅ -> inv 0 v.
Proof.
  intros Ho Hc Hf Hd. split; rewrite ?Ho, ?Hc, ?Hf; try done.
Qed.

(** ** Views through a descriptor *)

Lemma elems_by_fd fd id v : v_fds v !! fd = Some id -> elems_of (by_fd fd) v = elems_of (by_id id) v.
Proof. intros H. cbn. unfold obj_of. cbn. by rewrite H. Qed.

Lemma set_elems_by_fd fd id g v :
  v_fds v !! fd = Some id -> set_elems (by_fd fd) g v = set_elems (by_id id) g v.
Proof. intros H. cbn. by rewrite H. Qed.

Lemma attr_by_fd fd id v : v_fds v !! fd = Some id -> attr_of (by_fd fd) v = attr_of (by_id id) v.
Proof. intros H. cbn. unfold obj_of. cbn. by rewrite H. Qed.

Lemma fd_room v fd id g k :
  v_fds v !! fd = Some id -> v_objs v !! id = Some (MObj inner_attr g) ->
  elem_room (by_fd fd) v k <-> k ∈ dom g \/ Z.of_nat (size (dom g)) < ba_max_entries inner_attr.
Proof.
  intros Hf Ho. destruct (fd_object _ _ _ _ _ Hf Ho) as (He & Ha & _).
  unfold elem_room. rewrite Ha, He. cbv [inner_attr ba_map_type room ba_max_entries].
  by rewrite elem_of_dom, size_dom.
Qed.

Lemma abs_lookup v t id : v_outer v !! t = Some id -> abs v !! t = Some (subs v id).
Proof. intros H. unfold abs. by rewrite lookup_fmap, H. Qed.

Lemma abs_lookup_None v t : v_outer v !! t = None -> abs v !! t = None.
Proof. intros H. unfold abs. by rewrite lookup_fmap, H. Qed.

Lemma abs_size v : size (abs v) = size (v_outer v).
Proof. apply map_size_fmap. Qed.

(** Views that agree on the topics and their inner maps. *)
Lemma abs_ext v w :
  v_outer v = v_outer w -> (forall t id, v_outer v !! t = Some id -> v_objs v !! id = v_objs w !! id) ->
  abs v = abs w.
Proof.
  intros Ho Hobj. unfold abs. rewrite <- Ho. apply map_fmap_ext. intros t id Ht.
  unfold subs, elems_of, obj_of. cbn. by rewrite (Hobj t id Ht).
Qed.

(** Replacing the entries of one topic's inner map. *)
Lemma abs_set_inner v w t id a g g' :
  v_outer w = v_outer v -> v_objs w = alter (λ o, MObj (mo_attr o) g') id (v_objs v) ->
  v_outer v !! t = Some id -> v_objs v !! id = Some (MObj a g) ->
  (forall t', v_outer v !! t' = Some id -> t' = t) ->
  abs w = <[t := dom g']> (abs v).
Proof.
  intros Ho Hobj Ht Hid Hinj. apply map_eq. intros t'. destruct (decide (t' = t)) as [->|Hne].
  - rewrite lookup_insert_eq, (abs_lookup w t id) by congruence. f_equal. unfold subs.
    rewrite (elems_by_id _ _ g' a); [done|]. by rewrite Hobj, lookup_alter_eq, Hid.
  - rewrite lookup_insert_ne by done. unfold abs. rewrite !lookup_fmap, Ho.
    destruct (v_outer v !! t') as [id'|] eqn:Ht'; [|done]. cbn. f_equal. unfold subs, elems_of, obj_of. cbn.
    rewrite Hobj, lookup_alter_ne; [done|]. intros ->. by apply Hne, Hinj.
Qed.

(** ** The operations *)

Lemma fast_ok_add N X n first k :
  fast_ok N X n first -> N + 1 < 2 ^ 32 ->
  fast_ok (N + 1) ({[k]} ∪ X) (n + 1) (if n + 1 =? 1 then Some k else first).
Proof.
  intros (Hn & Hsz & H0 & H1 & Hne) HN. unfold fast_ok. split_and!; try lia.
  - pose proof (size_union_alt {[k]} X) as Hu. rewrite size_singleton in Hu.
    pose proof (subseteq_size (X ∖ {[k]}) X ltac:(set_solver)). lia.
  - intros Hn1. exists k. assert (n = 0) as -> by lia. split; [|done].
    assert (X = ∅) as -> by (apply leibniz_equiv, size_empty_iff; lia). set_solver.
  - set_solver.
Qed.

Lemma fast_ok_empty N first : 0 <= N -> (first = None) -> fast_ok N ∅ 0 first.
Proof.
  intros HN Hf. unfold fast_ok. rewrite size_empty. split_and!; try lia; try done.
Qed.

(** A command that changes one topic: its inner map, count and first
    subscriber. *)
Lemma inv_update N M v w t id g g' :
  inv N v -> N <= M -> v_outer v !! t = Some id -> v_objs v !! id = Some (MObj inner_attr g) ->
  v_fds w = ∅ -> v_outer w = v_outer v ->
  v_objs w = alter (λ o, MObj (mo_attr o) g') id (v_objs v) ->
  (forall t', t' <> t -> v_cnt w !! t' = v_cnt v !! t' /\ v_first w !! t' = v_first v !! t') ->
  Z.of_nat (size g') <= ba_max_entries inner_attr ->
  fast_ok M (dom g') (default 0 (v_cnt w !! t)) (v_first w !! t) ->
  inv M w /\ abs w = <[t := dom g']> (abs v).
Proof.
  intros Hinv HNM Ht Hg Hfd Ho Hobj Hother Hsz Hfast.
  assert (forall t', v_outer v !! t' = Some id -> t' = t) as Hinj.
  { intros t' Ht'. by apply (inv_inj _ _ Hinv t' t id). }
  split; [|by eapply abs_set_inner].
  destruct (inv_mono N M v HNM Hinv) as [_ Htopic Hi Hc Hf Hs]. split; rewrite ?Ho; try done.
  - intros t' id' Ht'. unfold topic_ok. rewrite Hobj. destruct (decide (t' = t)) as [->|Hne].
    + assert (id' = id) as -> by congruence. exists g'. by rewrite lookup_alter_eq, Hg.
    + rewrite lookup_alter_ne by (intros ->; by apply Hne, Hinj).
      destruct (Hother t' Hne) as [-> ->]. by apply Htopic.
  - intros t' H'. apply elem_of_dom in H'. apply elem_of_dom. destruct (decide (t' = t)) as [->|Hne]; [by eexists|].
    apply elem_of_dom, Hc, elem_of_dom. by rewrite <- (proj1 (Hother t' Hne)).
  - intros t' H'. apply elem_of_dom in H'. apply elem_of_dom. destruct (decide (t' = t)) as [->|Hne]; [by eexists|].
    apply elem_of_dom, Hf, elem_of_dom. by rewrite <- (proj2 (Hother t' Hne)).
Qed.

(** After the inner map took the key: the count goes up, and the first
    subscriber is recorded. *)
Lemma count_subscriber_wp N k sk id g g' ob fd o c f p cl q out :
  let v := KView o c f ob ∅ p cl q out in
  inv N v -> N + 1 < 2 ^ 32 -> o !! k = Some id -> ob !! id = Some (MObj inner_attr g) ->
  dom g' = {[sk]} ∪ dom g -> Z.of_nat (size g') <= ba_max_entries inner_attr ->
  uwp reliable_spec
    (c <~ ucall (TopicGet topic_sub_cnt k) ;;
     let current := match c with Some c => u32 (c + 1) | None => 1 end in
     r <~ ucall (TopicUpdate topic_sub_cnt k current) ;;
     if r <? 0 then ucall (CloseFd fd) ;~ uret (-1) else
     first <~ (if current =? 1 then ucall (TopicUpdate topic_first_sub k sk) else uret 0) ;;
     if first <? 0 then ucall (CloseFd fd) ;~ uret (-1) else
     ucall (CloseFd fd) ;~ uret 0)
    (λ r w, r = 0 /\ inv (N + 1) w /\ v_out w = out /\ abs w = <[k := {[sk]} ∪ dom g]> (abs v))
    (KView o c f (alter (λ x, MObj (mo_attr x) g') id ob) {[fd := id]} p cl q out).
Proof.
  intros v Hinv HN Ho Hobj Hdom Hsz.
  destruct (inv_topic _ _ Hinv k id Ho) as (g0 & Hobj0 & _ & Hfast). cbn in Hobj0, Hfast.
  assert (g0 = g) as -> by congruence.
  set (ob' := alter _ id ob). set (n := default 0 (c !! k)) in *.
  lookup v2. cbn [v_cnt].
  assert (match c !! k with Some c => u32 (c + 1) | None => 1 end = n + 1) as ->.
  { subst n. destruct Hfast. destruct (c !! k); cbn in *; [|lia]. apply Z.mod_small. lia. }
  cbv zeta. call r v2 Hs Hr.
  assert (room MAX_TOPIC_ID c k /\ room MAX_TOPIC_ID f k) as [Hc Hf].
  { split; apply (room_dom _ _ o); [apply (inv_cnt _ _ Hinv)|apply (inv_size _ _ Hinv)|done|
                                    apply (inv_first _ _ Hinv)|apply (inv_size _ _ Hinv)|done]. }
  destruct Hs as [(-> & _ & w & [= <-] & ->)|(Hlt & ->)].
  2: { specialize (Hr Hc (mk_is_Some _ _ eq_refl)). lia. }
  clear Hr. cbn [Z.ltb Z.compare]. view_cbn. set (f' := if n + 1 =? 1 then <[k := sk]> f else f).
  apply uwp_bind.
  eapply (uwp_mono _ _ (λ r v', r = 0 /\ v' = KView o (<[k := n + 1]> c) f' ob' {[fd := id]} p cl q out)).
  2: { subst f'. destruct (_ =? 1); [|by apply uwp_ret].
    apply uwp_call. intros r v' [Hs Hr]. cbn [ev_spec ev_reliable topic_of] in Hs, Hr.
    destruct Hs as [(-> & _ & w & [= <-] & ->)|(Hlt & ->)]; [done|].
    specialize (Hr Hf (mk_is_Some _ _ eq_refl)). lia. }
  intros r v' [-> ->]. cbn [Z.ltb Z.compare]. call x v2 Hs Hr. subst v2. apply uwp_ret. cbn [set_fds v_fds].
  rewrite delete_singleton_eq. rewrite <- Hdom.
  match goal with |- _ = _ /\ inv _ ?w /\ _ =>
    assert (inv (N + 1) w /\ abs w = <[k := dom g']> (abs v)) as [? ?]; [|done] end.
  apply (inv_update N _ _ _ _ id g); try done; try lia; cbn.
  - intros t' Hne. rewrite lookup_insert_ne by done. split; [done|]. subst f'.
    case_goal; [|done]. by rewrite lookup_insert_ne.
  - rewrite lookup_insert_eq, Hdom. cbn. pose proof (fast_ok_add N (dom g) n (f !! k) sk Hfast HN) as Ha.
    subst f'. destruct (n + 1 =? 1); [by rewrite lookup_insert_eq|done].
Qed.

Lemma add_subscriber_wp sb key k ip port N v :
  make_topic_key key = Some (Some k) -> inv N v -> N + 1 < 2 ^ 32 ->
  uwp reliable_spec (add_subscriber sb key ip port)
    (λ r v', inv (N + 1) v' /\ v_out v' = v_out v /\
             (r, abs v') = spec_subscribe k (pack ip port) (abs v)) v.
Proof.
  intros Hk Hinv HN. assert (inv (N + 1) v) as Hinv1 by (apply (inv_mono N); [lia|done]).
  unfold add_subscriber. rewrite Hk. cbn [ulift]. rewrite ubind_uret. unfold spec_subscribe.
  lookup v1.
  destruct (v_outer v !! k) as [id|] eqn:Ho.
  2: { apply uwp_ret. by rewrite abs_lookup_None. }
  rewrite (abs_lookup _ _ _ Ho).
  destruct (inv_topic _ _ Hinv k id Ho) as (g & Hobj & Hsz & _).
  call fd v1 Hs Hr. destruct Hs as [(Hfd & Hfree & _ & ->)|(Hfd & ->)].
  2: { specialize (Hr (inv_fds _ _ Hinv) (mk_is_Some _ _ Hobj)). lia. }
  rewrite (proj2 (Z.ltb_ge fd 0)) by lia. clear Hr. cbv zeta. set (sk := pack ip port).
  assert (subs v id = dom g) as -> by (unfold subs; by rewrite (elems_by_id _ _ g inner_attr)).
  set (v1 := set_fds _ v).
  assert (v_fds v1 !! fd = Some id) as Hv1 by (destruct v; apply lookup_insert_eq).
  assert (v_objs v1 !! id = Some (MObj inner_attr g)) as Ho1 by (by destruct v).
  pose proof (fd_room _ _ _ _ sk Hv1 Ho1) as Hroom.
  destruct (fd_object _ _ _ _ _ Hv1 Ho1) as (Hel & _ & Hset).
  call r v2 Hs Hr. rewrite Hel, Hset in Hs. destruct Hs as [(-> & Hrm & ->)|(Hlt & ->)].
  2: { rewrite (proj2 (Z.ltb_lt r 0)) by done. call x v2 Hs Hr'. subst v2. apply uwp_ret.
       unfold v1. rewrite open_close by done. split_and!; [done|done|].
       rewrite decide_False; [done|]. rewrite <- Hroom. intros H. specialize (Hr H). lia. }
  rewrite decide_True by (by apply Hroom). cbn [Z.ltb Z.compare].
  pose proof (inv_fds _ _ Hinv) as Hfds. destruct v as [o c f ob fds p cl q out].
  cbn [v_outer v_objs v_fds v_out] in *. subst fds v1. view_cbn.
  eapply uwp_mono; [|apply (count_subscriber_wp N k sk id g (<[sk := dummy_value sb]> g)); try done].
  - cbv beta. by intros r w (-> & Hi & Hout & ->).
  - by rewrite dom_insert_L.
  - rewrite <- size_dom, dom_insert_L. apply Hroom in Hrm as [Hin|Hlt].
    + assert ({[sk]} ∪ dom g = dom g) as -> by set_solver. by rewrite size_dom.
    + pose proof (size_union_alt {[sk]} (dom g)) as Hu. rewrite size_singleton in Hu.
      pose proof (subseteq_size (dom g ∖ {[sk]}) (dom g) ltac:(set_solver)). lia.
Qed.

(** *** Flushing *)

(** The loop deletes every key of the map, one a round, and ends: fuel above
    the number of keys is enough. *)
Lemma flush_loop_wp fuel fd d id a g v :
  ba_map_type a = BPF_MAP_TYPE_HASH ->
  v_fds v !! fd = Some id -> v_objs v !! id = Some (MObj a g) -> (size g < fuel)%nat ->
  uwp reliable_spec (flush_loop fuel fd d)
    (λ r v', r = d + Z.of_nat (size g) /\ v' = set_objs (<[id := MObj a ∅]> (v_objs v)) v) v.
Proof.
  intros Ha. revert d g v. induction fuel as [|fuel IH]; intros d g v Hfd Hobj Hsz; [lia|].
  cbn [flush_loop]. destruct (fd_object _ _ _ _ _ Hfd Hobj) as (Hel & Hat & Hset).
  call k v1 Hs Hr. rewrite Hel in Hs, Hr. destruct Hs as [-> Hk].
  destruct k as [k|].
  2: { apply uwp_ret. rewrite (Hr eq_refl) in *. split; [rewrite map_size_empty; lia|].
       rewrite insert_id by done. by destruct v. }
  clear Hr. destruct Hk as [x Hx].
  assert (deletable (by_fd fd) v k) as Hdel.
  { unfold deletable. rewrite Hat, Hel, Hx, <- Ha. by split. }
  call r v1 Hs Hr. destruct Hs as [(-> & _ & ->)|[Hlt ->]]; [clear Hr|specialize (Hr Hdel); lia]. rewrite Hel.
  rewrite Hset, (alter_Some _ _ _ _ Hobj). cbn [mo_attr].
  assert (size g = S (size (delete k g))) as Hg by (rewrite map_size_delete_Some; [|by eexists];
    assert (size g <> 0)%nat by (intros Hz%map_size_empty_iff; by rewrite Hz in Hx); lia).
  eapply uwp_mono; [|apply (IH _ (delete k g))].
  - intros r w [-> ->]. split; [lia|]. rewrite set_objs_objs. destruct v; cbn. by rewrite insert_insert_eq.
  - by destruct v.
  - destruct v; cbn. by rewrite lookup_insert_eq.
  - lia.
Qed.

Lemma flush_topic_wp fuel key k N v :
  make_topic_key key = Some (Some k) -> inv N v -> (256 < fuel)%nat ->
  uwp reliable_spec (flush_topic fuel key)
    (λ r v', inv N v' /\ v_out v' = v_out v /\ (r, abs v') = spec_flush k (abs v)) v.
Proof.
  intros Hk Hinv Hfuel. unfold flush_topic. rewrite Hk. cbn [ulift]. rewrite ubind_uret. unfold spec_flush.
  lookup v1.
  destruct (v_outer v !! k) as [id|] eqn:Ho.
  2: { apply uwp_ret. by rewrite abs_lookup_None. }
  rewrite (abs_lookup _ _ _ Ho).
  destruct (inv_topic _ _ Hinv k id Ho) as (g & Hobj & Hsz & Hfast). cbn in Hsz.
  call fd v1 Hs Hr. destruct Hs as [(Hfd & Hfree & _ & ->)|(Hfd & ->)].
  2: { specialize (Hr (inv_fds _ _ Hinv) (mk_is_Some _ _ Hobj)). lia. }
  rewrite (proj2 (Z.ltb_ge fd 0)) by lia. clear Hr.
  pose proof (inv_fds _ _ Hinv) as Hfds. destruct v as [o c f ob fds p cl q out].
  cbn [v_outer v_objs v_fds v_out] in *. subst fds. view_cbn.
  apply uwp_bind. eapply uwp_mono;
    [|apply (flush_loop_wp _ _ _ id inner_attr g); [done|apply lookup_insert_eq|done|lia]].
  intros n v1 [_ ->]. view_cbn.
  call x v1 Hs Hr. subst v1. clear Hr. view_cbn. rewrite delete_insert_id by done.
  call r v1 Hs Hr. cbn [v_cnt stored] in Hs, Hr.
  destruct Hs as [(-> & _ & w & [= <-] & ->)|(Hlt & ->)].
  2: { specialize (Hr (room_dom _ c o k (inv_cnt _ _ Hinv) (inv_size _ _ Hinv) (mk_is_Some _ _ Ho)) (mk_is_Some _ _ eq_refl)). lia. }
  view_cbn. clear Hr. apply uwp_bind.
  eapply (uwp_mono _ _ (λ _ w, w = KView o (<[k := 0]> c) (delete k f) (<[id := MObj inner_attr ∅]> ob) ∅ p cl q out)).
  - intros r v1 ->. apply uwp_ret. cbn [v_out].
    match goal with |- inv _ ?w /\ _ => assert (inv N w /\ abs w = <[k := dom (∅ : gmap Z Z)]> (abs (KView o c f ob ∅ p cl q out)))
      as [? ->]; [|by rewrite dom_empty_L] end.
    apply (inv_update N _ _ _ _ id g); try done; cbn.
    + by rewrite (alter_Some _ _ _ _ Hobj).
    + intros t' Hne. by rewrite lookup_insert_ne, lookup_delete_ne.
    + rewrite lookup_insert_eq, lookup_delete_eq, dom_empty_L. cbn.
      apply fast_ok_empty; [destruct Hfast; lia|done].
  - apply uwp_call. intros r v1 [Hs Hr]. cbn in Hs, Hr. destruct Hs as [(_ & _ & ->)|[Hlt ->]]; [done|].
    rewrite (delete_id f); [done|]. destruct (f !! k) eqn:Hf; [|done]. specialize (Hr (mk_is_Some _ _ eq_refl)). lia.
Qed.

(** *** Registering *)

(** A new inner map no topic refers to leaves the broker as it was. *)
Lemma inv_fresh N id x o c f ob p cl q out :
  let v := KView o c f ob ∅ p cl q out in
  inv N v -> ob !! id = None ->
  let w := KView o c f (<[id := x]> ob) ∅ p cl q out in inv N w /\ abs w = abs v.
Proof.
  intros v [Hd Ht Hi Hc Hf Hs] Hid w.
  assert (forall t i, o !! t = Some i -> i <> id) as Hne.
  { intros t i Hti ->. destruct (Ht t id Hti) as (g & Hg & _). cbn in Hg. congruence. }
  split.
  - split; try done. intros t i Hti. unfold topic_ok. cbn. rewrite lookup_insert_ne by (symmetry; eauto).
    by apply Ht.
  - apply abs_ext; [done|]. cbn. intros t i Hti. by rewrite lookup_insert_ne by (symmetry; eauto).
Qed.

Lemma inv_new_topic N k id o c f ob p cl q out :
  let v := KView o c f ob ∅ p cl q out in
  inv N v -> 0 <= N -> ob !! id = None -> o !! k = None -> room MAX_TOPIC_ID o k ->
  let w := KView (<[k := id]> o) c f (<[id := new_obj inner_attr]> ob) ∅ p cl q out in
  inv N w /\ abs w = <[k := ∅]> (abs v).
Proof.
  intros v [Hd Ht Hi Hc Hf Hs] HN Hid Hk Hroom w.
  assert (forall t i, o !! t = Some i -> i <> id) as Hne.
  { intros t i Hti ->. destruct (Ht t id Hti) as (g & Hg & _). cbn in Hg. congruence. }
  assert (c !! k = None /\ f !! k = None) as [Hck Hfk].
  { split; apply not_elem_of_dom; intros Hin; [apply Hc in Hin|apply Hf in Hin];
      apply elem_of_dom in Hin as [? Hin]; cbn in Hin; congruence. }
  split.
  - split; try done; cbn [v_outer v_cnt v_first v_fds w].
    + intros t i. destruct (decide (t = k)) as [->|Htk].
      * rewrite lookup_insert_eq. intros [= <-]. exists ∅. cbn. rewrite lookup_insert_eq, Hck, Hfk, dom_empty_L.
        split_and!; [done|done|]. by apply fast_ok_empty.
      * rewrite lookup_insert_ne by done. intros Hti. unfold topic_ok. cbn.
        rewrite lookup_insert_ne by (symmetry; eauto). by apply Ht.
    + intros t t' i. rewrite !lookup_insert. repeat case_decide; try (intros; congruence).
      * intros [= ->] Hi'. by destruct (Hne t' i Hi').
      * intros Hi' [= ->]. by destruct (Hne t i Hi').
      * apply Hi.
    + rewrite dom_insert_L. cbn in Hc. set_solver.
    + rewrite dom_insert_L. cbn in Hf. set_solver.
    + rewrite map_size_insert_None by done. destruct Hroom as [[? ?]|Hlt]; [congruence|lia].
  - apply map_eq. intros t. unfold abs. cbn. rewrite lookup_fmap. destruct (decide (t = k)) as [->|Htk].
    + rewrite !lookup_insert_eq. cbn. f_equal. unfold subs. rewrite (elems_by_id _ _ ∅ inner_attr); [by rewrite dom_empty_L|].
      apply lookup_insert_eq.
    + rewrite !lookup_insert_ne, lookup_fmap by done. destruct (o !! t) as [i|] eqn:Hti; [|done]. cbn. f_equal.
      unfold subs, elems_of, obj_of. cbn. by rewrite lookup_insert_ne by (symmetry; eauto).
Qed.

Lemma add_topic_wp key k N v :
  make_topic_key key = Some (Some k) -> inv N v -> 0 <= N ->
  uwp reliable_spec (add_topic key)
    (λ r v', inv N v' /\ v_out v' = v_out v /\ (r, abs v') = spec_register k (abs v)) v.
Proof.
  intros Hk Hinv HN. unfold add_topic. rewrite Hk. cbn [ulift]. rewrite ubind_uret. unfold spec_register.
  lookup v1. rewrite abs_size.
  destruct (v_outer v !! k) as [id|] eqn:Ho.
  { apply uwp_ret. by rewrite (abs_lookup _ _ _ Ho). }
  rewrite (abs_lookup_None _ _ Ho).
  call fd v1 Hs Hr. destruct Hs as [(Hfd & Hfree & id & Hid & ->)|(Hfd & ->)].
  2: { specialize (Hr (inv_fds _ _ Hinv)). lia. }
  rewrite (proj2 (Z.ltb_ge fd 0)) by lia. clear Hr.
  pose proof (inv_fds _ _ Hinv) as Hfds. destruct v as [o c f ob fds p cl q out].
  cbn [v_outer v_objs v_fds v_out] in *. subst fds. view_cbn.
  replace (u32 fd) with fd by (unfold u32; rewrite Z.mod_small; lia).
  call r v1 Hs Hr. cbn [v_outer v_fds stored] in Hs, Hr. rewrite lookup_insert_eq in Hs, Hr.
  destruct Hs as [(-> & Hroom & w & [= <-] & ->)|(Hlt & ->)].
  - cbn [Z.ltb Z.compare]. view_cbn. call x v1 Hs Hr'. subst v1. view_cbn. rewrite delete_insert_id by done.
    apply uwp_ret. destruct (inv_new_topic N k id o c f ob p cl q out Hinv HN Hid Ho Hroom) as [Hi ->].
    split_and!; [done|done|]. rewrite (proj2 (Z.ltb_lt _ _)); [done|].
    destruct Hroom as [[? ?]|Hroom]; [congruence|done].
  - rewrite (proj2 (Z.ltb_lt r 0)) by done. call x v1 Hs Hr'. subst v1. view_cbn. rewrite delete_insert_id by done.
    apply uwp_ret. destruct (inv_fresh N id (new_obj inner_attr) o c f ob p cl q out Hinv Hid) as [Hi ->].
    split_and!; [done|done|]. rewrite (proj2 (Z.ltb_ge _ _)); [done|].
    destruct (Z.le_gt_cases MAX_TOPIC_ID (Z.of_nat (size o))) as [|Hr2]; [done|].
    specialize (Hr (or_intror Hr2) (mk_is_Some _ _ eq_refl)). lia.
Qed.

(** ** The interface *)

Definition broker_model : broker_spec broker := BrokerSpec broker spec_register spec_subscribe spec_flush.

Lemma inv_add_out N x v : inv N v -> inv N (add_out x v).
Proof. by destruct v; intros []; split. Qed.

Lemma abs_add_out x v : abs (add_out x v) = abs v.
Proof. by destruct v. Qed.

#[export] Instance broker_strict sb fuel : Strict (broker_commands sb fuel).
Proof. intros key Hk. cbn. unfold flush_topic. by rewrite Hk. Qed.

#[export] Instance broker_refines sb : Refines (broker_commands sb flush_fuel) broker_model abs inv.
Proof.
  split.
  - apply inv_mono.
  - intros N x v Hinv. split; [by apply inv_add_out|apply abs_add_out].
  - intros. by apply add_topic_wp.
  - intros. by apply add_subscriber_wp.
  - intros. apply flush_topic_wp; [done|done|unfold flush_fuel; lia].
Qed.
