(* ===== verification/ControlProps.v ===== *)
(** * Theorems about the control program of the first program

    The server refines the abstract broker over any sequence of datagrams
    ([serve_refines_broker]); on a kernel whose calls may fail at any point it
    stores only addresses that subscribed and, unless a flush is stuck on a
    key that cannot be deleted ([flush_stuck]), ends with every descriptor
    closed ([serve_robust]). *)

From Stdlib Require Import String.
From S2P Require Import Prelude Prog Packet Kernel Views RefKernel CString Server Faults Control ControlSpec.
From stdpp Require Import base tactics numbers list gmap fin_maps.
Local Open Scope Z_scope.
Local Open Scope broker_scope.

Abbreviation broker_serve sb := (serve (broker_commands sb flush_fuel)).
Abbreviation broker_handle sb := (handle_datagram (broker_commands sb flush_fuel)).

(** C4. The control server refines the abstract broker.  From a state that
    satisfies the invariant, for every sequence of received datagrams whose
    topic names fit the key, on every kernel whose calls fail only at the
    documented limits, the server neither reaches undefined behaviour nor
    exhausts its loop, leaves maps that stand for the broker the
    specification computes, again satisfying the invariant, and sends exactly
    the replies of the specification. *)
Theorem serve_refines_broker {K} `{!Kernel K, !Reliable K} (sb N : Z) (s : K) buf input B outs :
  length buf = 1024%nat -> 0 <= N -> N + Z.of_nat (length input) < 2 ^ 32 ->
  inv N (kview_of s) -> spec_serve broker_model input (abs (kview_of s)) = Some (B, outs) ->
  exists s', krun (broker_serve sb buf input) s = (Ok tt, s') /\
    inv (N + Z.of_nat (length input)) (kview_of s') /\
    abs (kview_of s') = B /\ v_out (kview_of s') = v_out (kview_of s) ++ outs.
Proof.
  intros Hbuf HN HN1 Hinv Hspec.
  pose proof (krun_wp_reliable _ _ s (serve_wp (broker_commands sb flush_fuel) broker_model abs inv N _ buf input B outs Hbuf Hinv HN HN1 Hspec)) as H.
  destruct (krun _ s) as [[[]| |] s'] eqn:E; cbn in H; [|done|done]. by exists s'.
Qed.

(** A session: 10.0.0.3:5000 registers and subscribes, then an unknown
    command and a receive error. *)
Definition addr_a : Z := le_val [10; 0; 0; 3].
Definition addr_b : Z := le_val [10; 0; 0; 4].
Definition empty_buf : list Z := replicate 1024 0.
Definition session : list received :=
  [Received (bytes_of_string "REGISTER t" ++ [10]) addr_a (bswap16 5000);
   Received (bytes_of_string "SUBSCRIBE t" ++ [13; 10]) addr_a (bswap16 5000);
   RecvError;
   Received (bytes_of_string "HELLO") addr_b (bswap16 5001)].

Lemma serve_refines_broker_witness :
  exists s', krun (broker_serve 0 empty_buf session) boot_view = (Ok tt, s') /\
    inv 4 s' /\ abs s' = {[key_t := {[sub_a]}]} /\
    v_out s' = [Datagram (bytes_of_string "REGACK t") addr_a (bswap16 5000);
                Datagram (bytes_of_string "SUBACK t") addr_a (bswap16 5000)].
Proof.
  refine (serve_refines_broker 0 0 boot_view empty_buf session {[key_t := {[sub_a]}]} _ _ _ _ _ _);
    [done|done|done|by apply inv_boot|vm_compute; reflexivity].
Defined.

(** ** Kernels that fail *)

(** What the control program keeps whatever call fails: inner maps as
    [add_topic] makes them, and no subscriber outside [S]. *)
Definition inner_ok (S : gset Z) (o : mobj) : Prop :=
  mo_attr o = inner_attr /\ Z.of_nat (size (mo_elems o)) <= 256 /\ dom (mo_elems o) ⊆ S.
Abbreviation kept S := (sound (inner_ok S) (λ k, k ∈ S)).

Lemma inner_ok_insert S o k x :
  k ∈ S -> inner_ok S o -> obj_room o k -> inner_ok S (with_elems (<[k := x]> (mo_elems o)) o).
Proof.
  intros Hk (Ha & Hs & Hd) Hr. unfold obj_room in Hr. rewrite Ha in Hr. cbn in Hr.
  split_and!; cbn; [done| |rewrite dom_insert_L; set_solver].
  destruct Hr as [[y Hy]|Hlt]; [by rewrite map_size_insert_Some by (by eexists)|].
  rewrite map_size_insert. destruct (mo_elems o !! k); unfold id; lia.
Qed.

Lemma inner_ok_delete S o k : inner_ok S o -> inner_ok S (with_elems (delete k (mo_elems o)) o).
Proof.
  intros (Ha & Hs & Hd). split_and!; cbn; [done| |rewrite dom_delete_L; set_solver].
  rewrite map_size_delete. destruct (_ !! k); unfold id; lia.
Qed.

Lemma inner_ok_clear S o : inner_ok S o -> inner_ok S (with_elems ∅ o).
Proof. intros (Ha & _ & _). split_and!; cbn; [done|rewrite map_size_empty; lia|rewrite dom_empty_L; set_solver]. Qed.

Lemma inner_ok_empty S : inner_ok S (MObj inner_attr ∅).
Proof. split_and!; cbn; [done|rewrite map_size_empty; lia|rewrite dom_empty_L; set_solver]. Qed.

Tactic Notation "kcall" simple_intropattern(x) ident(v') ident(Hs) ident(Hf) :=
  kcall_with x v' Hs Hf ltac:(first [done | by intros; apply inner_ok_insert | by intros; apply inner_ok_delete
    | apply inner_ok_empty]).

(** New entries for a map that exists are its entries. *)
Lemma elems_set_elems m g v a : attr_of m v = Some a -> elems_of m (set_elems m g v) = g.
Proof.
  assert (forall id, is_Some (v_objs v !! id) ->
    elems_of (by_id id) (set_objs (alter (λ o, MObj (mo_attr o) g) id (v_objs v)) v) = g) as Hid.
  { intros id [o Ho]. apply (elems_by_id _ _ _ (mo_attr o)). destruct v; cbn in *. by rewrite lookup_alter_eq, Ho. }
  destruct m as [id|fd|s]; cbn; [| |intros _; by destruct s, v]; unfold obj_of; cbn.
  - intros Ha. apply Hid. destruct (v_objs v !! id); [by eexists|done].
  - destruct (v_fds v !! fd) as [id|] eqn:Hfd; cbn; [|done]. intros Ha.
    assert (forall h, v_fds (set_objs h v) !! fd = Some id) as -> by (intros; by destruct v). cbn.
    apply (Hid id). destruct (v_objs v !! id); [by eexists|done].
Qed.

Section Robust.
Context (D : Prop) (sb : Z) (S : gset Z).

(** Where a flush may be stuck: only when deletes can fail. *)
Definition stuck (w : kview) : Prop := ~ D /\ kept S w.

Lemma add_subscriber_kept topic_name ip port k v :
  make_topic_key topic_name = Some (Some k) -> pack ip port ∈ S -> kept S v ->
  owp (deleting_spec D) stuck (add_subscriber sb topic_name ip port) (λ _ w, kept S w /\ v_fds w = v_fds v) v.
Proof.
  intros Hk HS Hv. unfold add_subscriber. rewrite Hk. cbn [ulift]. rewrite ubind_uret.
  kcall outer v1 Hs1 Hf1. destruct outer as [id|]; [|by apply owp_ret].
  kcall fd v2 Hs2 Hf2. destruct Hf2 as [(H0 & Hfree & i & Hf2)|(Hneg & Hf2)].
  2: { rewrite (proj2 (Z.ltb_lt _ _)) by done. apply owp_ret. split; [done|congruence]. }
  rewrite (proj2 (Z.ltb_ge _ _)) by done. rewrite Hf1 in Hfree, Hf2. cbv zeta.
  assert (forall (r : Z) w, kept S w -> v_fds w = v_fds v2 ->
    owp (deleting_spec D) stuck (ucall (CloseFd fd) ;~ uret r) (λ _ w', kept S w' /\ v_fds w' = v_fds v) w) as Hclose.
  { intros r w Hw Hwf. by apply (close_kept _ _ _ fd i); [|..|congruence]. }
  kcall r v3 Hs3 Hf3. case_goal; [by apply Hclose|].
  kcall c v4 Hs4 Hf4. kcall r' v5 Hs5 Hf5. case_goal; [apply Hclose; [done|congruence]|].
  apply owp_bind. eapply (owp_mono _ _ _ (λ _ w, kept S w /\ v_fds w = v_fds v2)).
  { intros r'' w [Hw Hwf]. case_goal; by apply Hclose. }
  case_goal; [kcall r'' v6 Hs6 Hf6|apply owp_ret]; split; done || congruence.
Qed.

(** Every key the loop is given is deleted or, without [D], stays. *)
Lemma flush_loop_kept fuel fd d v :
  kept S v -> (D -> (size (elems_of (by_fd fd) v) < fuel)%nat) ->
  owp (deleting_spec D) stuck (flush_loop fuel fd d) (λ _ w, kept S w /\ v_fds w = v_fds v) v.
Proof.
  revert d v. induction fuel as [|fuel IH]; intros d v Hv Hsz; cbn [flush_loop].
  { split; [|done]. intros HD. specialize (Hsz HD). lia. }
  kcall k v1 Hs1 Hf1. cbn [ev_spec] in Hs1. destruct Hs1 as [-> Hk]. destruct k as [k|]; [|by apply owp_ret].
  apply owp_bind, owp_call. intros r v2 [Hs Hd].
  pose proof (fds_ev _ _ _ _ Hs) as Hf2. cbn [fds_after] in Hf2. rewrite <- Hf2. apply IH.
  { eapply sound_ev; [exact Hv| |exact Hs]. cbn [within]. intros. by apply inner_ok_delete. }
  intros HD. specialize (Hsz HD). specialize (Hd HD). cbn [ev_spec ev_deleting] in Hs, Hd.
  assert (deletable (by_fd fd) v k) as Hdel.
  { split; [|done]. unfold elems_of in Hk. cbn [attr_of]. destruct (obj_of (by_fd fd) v) as [o|] eqn:Eo.
    - destruct (obj_id (by_fd fd) v) as [id|] eqn:Ei; unfold obj_of in Eo; rewrite Ei in Eo; [|done]. cbn in Eo |- *.
      destruct (snd_obj _ _ _ Hv _ _ Eo) as (-> & _). done.
    - destruct Hk as [? Hk]. by rewrite lookup_empty in Hk. }
  destruct Hs as [(_ & _ & ->)|[Hlt _]]; [|specialize (Hd Hdel); lia].
  destruct Hdel as [Ha Hin]. destruct (attr_of (by_fd fd) v) as [at'|] eqn:Eat; [|done].
  rewrite (elems_set_elems _ _ _ at') by done. rewrite map_size_delete_Some by done.
  assert (size (elems_of (by_fd fd) v) <> 0)%nat; [|lia].
  intros Hz%map_size_empty_iff. rewrite Hz in Hin. destruct Hin as [? Hin]. by rewrite lookup_empty in Hin.
Qed.

Lemma flush_topic_kept topic_name k v :
  make_topic_key topic_name = Some (Some k) -> kept S v ->
  owp (deleting_spec D) stuck (flush_topic flush_fuel topic_name) (λ _ w, kept S w /\ v_fds w = v_fds v) v.
Proof.
  intros Hk Hv. unfold flush_topic. rewrite Hk. cbn [ulift]. rewrite ubind_uret.
  kcall outer v1 Hs1 Hf1. destruct outer as [id|]; [|by apply owp_ret].
  kcall fd v2 Hs2 Hf2. cbn [ev_spec] in Hs2.
  destruct Hs2 as [(H0 & Hfree & [o Hobj] & ->)|(Hneg & ->)].
  2: { rewrite (proj2 (Z.ltb_lt _ _)) by done. by apply owp_ret. }
  rewrite (proj2 (Z.ltb_ge _ _)) by lia. rewrite Hf1 in Hfree. clear Hf2.
  set (v2 := set_fds _ v1) in *.
  assert (v_fds v2 = <[fd := id]> (v_fds v)) as Hfd by (rewrite <- Hf1; by destruct v1).
  assert (v_objs v2 !! id = Some o) as Hobj' by (by destruct v1).
  apply owp_bind. eapply owp_mono; [|apply flush_loop_kept; [done|]].
  2: { intros _. destruct (snd_obj _ _ _ Hv _ _ Hobj') as (_ & Hsz & _).
       unfold elems_of, obj_of. cbn [obj_id]. rewrite Hfd, lookup_insert_eq. cbn. rewrite Hobj'. unfold flush_fuel. lia. }
  intros n v3 [Hw Hwf]. rewrite Hfd in Hwf. clear Hv.
  kcall x v4 Hs4 Hf4. kcall y v5 Hs5 Hf5. kcall z v6 Hs6 Hf6.
  apply owp_ret. split; [done|]. rewrite Hf6, Hf5, Hf4, Hwf. by rewrite delete_insert_id.
Qed.

Lemma add_topic_kept topic_name k v :
  make_topic_key topic_name = Some (Some k) -> kept S v ->
  uwp (deleting_spec D) (add_topic topic_name)
    (λ r w, (kept S w /\ v_fds w = v_fds v) /\ v_out w = v_out v /\ (r = 0 -> is_Some (v_outer w !! k))) v.
Proof.
  intros Hk Hv. unfold add_topic. rewrite Hk. cbn [ulift]. rewrite ubind_uret.
  kcall outer v1 Hs1 Hf1. cbn [ev_spec topic_of] in Hs1. destruct Hs1 as [-> Hout].
  destruct outer as [id|]; [apply uwp_ret; destruct Hout as [Hout|Hout]; [by eauto|done]|].
  kcall fd v2 Hs2 Hf2. pose proof (out_ev _ _ _ _ Hs2 I) as Ho2.
  destruct Hf2 as [(H0 & Hfree & i & Hf2)|(Hneg & Hf2)].
  2: { rewrite (proj2 (Z.ltb_lt _ _)) by done. apply uwp_ret. split_and!; done || lia. }
  rewrite (proj2 (Z.ltb_ge _ _)) by done.
  kcall r v3 Hs3 Hf3. pose proof (out_ev _ _ _ _ Hs3 I) as Ho3.
  case_goal; kcall x v4 Hs4 Hf4; pose proof (out_ev _ _ _ _ Hs4 I) as Ho4; apply uwp_ret;
    (split; [split; [done|]; rewrite Hf4, Hf3, Hf2; by rewrite delete_insert_id
            |split; [congruence|intros Hr0; try done]]).
  split_hyps. cbn in Hs3, Hs4.
  destruct Hs3 as [(_ & _ & w & Hw & ->)|[? _]]; [|lia]. subst v4. destruct v2; cbn.
  rewrite lookup_insert_eq. by eexists.
Qed.

#[export] Instance broker_robust : Robust (deleting_spec D) stuck (broker_commands sb flush_fuel) S (kept S).
Proof.
  split.
  - apply _.
  - apply sound_out.
  - intros. by apply add_topic_kept.
  - intros. by eapply add_subscriber_kept.
  - intros. by eapply flush_topic_kept.
Qed.
End Robust.

(** C11. The control server is robust.  Let it process datagrams whose topic
    names fit the key (others are undefined behaviour) on any kernel, every
    system call free to fail, lookups and deletes of present keys included:
    there is no undefined behaviour, every inner map keeps the attributes and
    the size limit it was made with, and the addresses recorded are those of
    senders.  If the server returns, every map descriptor opened on the way
    is closed again; and it returns unless the kernel refuses to delete a
    key that an inner map holds. *)
Theorem serve_robust {K} `{!Kernel K} (sb : Z) (S : gset Z) (s : K) buf input :
  length buf = 1024%nat -> well_formed S input -> kept S (kview_of s) ->
  exists r s', krun (broker_serve sb buf input) s = (r, s') /\ kept S (kview_of s') /\
    match r with
    | Ok _ => v_fds (kview_of s') = v_fds (kview_of s)
    | UB => False
    | NoFuel => ~ Deleting K
    end.
Proof.
  intros Hbuf Hin Hv.
  pose proof (krun_wp_deleting (Deleting K) _ _ s id
    (serve_kept _ _ (broker_commands sb flush_fuel) S (kept S) buf input _ Hbuf Hin Hv)) as H.
  destruct (krun _ s) as [r s'] eqn:E. exists r, s'. split; [done|].
  destruct r as [[]| |]; cbn in H; [done|done|]. destruct H. done.
Qed.

Lemma serve_robust_witness :
  exists s', krun (broker_serve 0 empty_buf session) boot_view = (Ok tt, s') /\
    kept ({[sub_a; sub_b]} : gset Z) s' /\ v_fds s' = ∅.
Proof.
  destruct (serve_robust 0 {[sub_a; sub_b]} boot_view empty_buf session) as (r & s' & Hr & Hk & Hres).
  - reflexivity.
  - repeat constructor; try done; decide_goal.
  - split; done.
  - exists s'. destruct r as [[]| |]; [split; [exact Hr|]; split; [exact Hk|exact Hres]|destruct Hres|].
    exfalso. apply Hres, reliable_deleting, ref_kernel_reliable.
Defined.

(** *** A flush that does not end

    The result of [bpf_map_delete_elem] is not looked at: while the first
    key cannot be deleted, the loop is given it again and again. *)

Lemma flush_stuck {K} `{!Kernel K} fuel fd d (s : K) :
  (forall m k s, (kdo _ (ElemDelete m k) s).1 < 0) ->
  (forall m s, (kdo _ (ElemNextKey m None) s).1 = None -> elems_of m (kview_of s) = ∅) ->
  elems_of (by_fd fd) (kview_of s) <> ∅ -> (krun (flush_loop fuel fd d) s).1 = NoFuel.
Proof.
  intros Hdel Hnext. unfold krun. revert d s. induction fuel as [|fuel IH]; intros d s Hne; [done|]. cbn [flush_loop].
  pose proof (kdo_ok _ (ElemNextKey (by_fd fd) None) s) as H1. specialize (Hnext (by_fd fd) s). cbn in H1 |- *.
  destruct (kdo _ _ s) as [[k|] s1]; cbn in H1, Hnext |- *; [|by destruct Hne, Hnext]. destruct H1 as [H1 _].
  pose proof (kdo_ok _ (ElemDelete (by_fd fd) k) s1) as H2. specialize (Hdel (by_fd fd) k s1). cbn in H2.
  destruct (kdo _ _ s1) as [r s2]; cbn in H2, Hdel |- *. apply IH.
  destruct H2 as [[-> _]|[_ ->]]; [lia|]. by rewrite H1.
Qed.

(** The reference kernel, refusing every delete. *)
Definition stubborn_do {X} (e : ev X) (v : kview) : X * kview :=
  match e in ev X return X * kview with
  | ElemDelete _ _ => (-1, v)
  | e => ref_do e v
  end.

Definition stubborn_kernel : Kernel kview.
Proof.
  refine {| kdo X e v := stubborn_do e v; kview_of v := v |}.
  intros X e v. pose proof (ref_do_ok e v) as H. destruct e; try exact H. right. done.
Defined.

(** A FLUSH of the topic of [one_sub] does not end there. *)
Lemma flush_stuck_example fuel :
  (@krun kview stubborn_kernel _ (flush_loop fuel 1 0) (set_fds {[1 := 1]} one_sub)).1 = NoFuel.
Proof. apply (@flush_stuck kview stubborn_kernel); [done| |by intros [=]]. intros m s. apply (ref_do_reliable (ElemNextKey m None) s). Qed.

(** C26. A registration is acknowledged only when the topic exists.  On any
    kernel, handling a REGISTER datagram either sends nothing or leaves the
    topic in the outer map. *)
Theorem regack_only_when_registered {K} `{!Kernel K} (sb : Z) (S : gset Z) (s : K) t junk name s_addr sin_port :
  no_nul t -> (10 <= length (t ++ 0%Z :: junk))%nat -> parse_command t = Some (CRegister name) ->
  sender_key s_addr sin_port ∈ S -> kept S (kview_of s) ->
  exists s', krun (broker_handle sb (t ++ 0 :: junk) s_addr sin_port) s = (Ok tt, s') /\
    (v_out (kview_of s') = v_out (kview_of s) \/ is_Some (v_outer (kview_of s') !! pad_key name)).
Proof.
  intros Ht Hlen Hp HS Hv.
  pose proof (krun_wp_deleting False _ _ s (False_ind _)
    (handle_register_kept _ _ (broker_commands sb flush_fuel) S (kept S) t junk s_addr sin_port name _ Ht Hlen Hp Hv)) as H.
  destruct (krun _ s) as [[[]| |] s'] eqn:E; cbn in H; [|done|done]. exists s'. split; [done|apply H].
Qed.

Lemma regack_only_when_registered_witness :
  exists s', krun (broker_handle 0 (bytes_of_string "REGISTER t" ++ 0 :: []) addr_a (bswap16 5000)) boot_view
      = (Ok tt, s') /\
    (v_out s' = [] \/ is_Some (v_outer s' !! key_t)).
Proof.
  refine (regack_only_when_registered 0 {[sub_a]} boot_view (bytes_of_string "REGISTER t") [] (bytes_of_string "t") _ _ _ _ _ _ _);
    [unfold no_nul; decide_goal|cbn; lia|reflexivity|decide_goal|split; done].
Defined.

(** C25. The boundary of undefined behaviour.  A datagram makes the server
    read outside [topic_key] exactly when it is a command whose topic name
    does not leave room for the terminator in the 20-byte key; the "Topic
    name too long" returns of the operations are never reached. *)
Theorem handle_datagram_ub_iff {K} `{!Kernel K} (sb : Z) (S : gset Z) (s : K) t junk s_addr sin_port :
  no_nul t -> (10 <= length (t ++ 0%Z :: junk))%nat ->
  sender_key s_addr sin_port ∈ S -> kept S (kview_of s) ->
  (krun (broker_handle sb (t ++ 0 :: junk) s_addr sin_port) s).1 = UB <->
  parse_command t = None.
Proof.
  intros Ht Hlen HS Hv. split; intros H.
  - destruct (parse_command t) eqn:Hp; [|done].
    pose proof (krun_wp_deleting False _ _ s (False_ind _)
      (handle_datagram_kept _ _ (broker_commands sb flush_fuel) S (kept S) t junk s_addr sin_port _ Ht Hlen ltac:(congruence) HS Hv)) as Hk.
    cbn in H. rewrite H in Hk. done.
  - pose proof (handle_datagram_command (broker_commands sb flush_fuel) t junk s_addr sin_port Ht Hlen) as Hrun.
    rewrite H in Hrun. cbv zeta in Hrun. by rewrite Hrun.
Qed.

(** A REGISTER line with a name of 20 characters. *)
Definition overlong : list Z := bytes_of_string "REGISTER temperature/kitchen".

Lemma handle_datagram_ub_iff_witness :
  (krun (broker_handle 0 (overlong ++ 0 :: replicate 10 0) addr_a (bswap16 5000)) boot_view).1 = UB <->
  parse_command overlong = None.
Proof.
  refine (handle_datagram_ub_iff 0 {[sub_a]} boot_view overlong (replicate 10 0) addr_a (bswap16 5000) _ _ _ _);
    [unfold no_nul; decide_goal|vm_compute; lia|decide_goal|split; done].
Defined.

(** C35. A subscription that fails is acknowledged all the same.  When the
    topic is not registered, or its inner map is full, SUBSCRIBE changes no
    subscriber set and the reply is SUBACK. *)
Theorem suback_without_subscription {K} `{!Kernel K, !Reliable K} (sb N : Z) (s : K) t junk name s_addr sin_port :
  no_nul t -> (10 <= length (t ++ 0%Z :: junk))%nat -> parse_command t = Some (CSubscribe name) ->
  0 <= N -> N + 1 < 2 ^ 32 -> inv N (kview_of s) ->
  (spec_subscribe (pad_key name) (sender_key s_addr sin_port) (abs (kview_of s))).1 = -1 ->
  exists s', krun (broker_handle sb (t ++ 0 :: junk) s_addr sin_port) s = (Ok tt, s') /\
    abs (kview_of s') = abs (kview_of s) /\
    v_out (kview_of s') = v_out (kview_of s) ++ [Datagram (SUBACK ++ name) s_addr sin_port].
Proof.
  intros Ht Hlen Hp HN HN1 Hinv Hfail.
  assert ((spec_subscribe (pad_key name) (sender_key s_addr sin_port) (abs (kview_of s))).2 = abs (kview_of s)) as Hsame.
  { unfold spec_subscribe in *. destruct (abs _ !! _); [|done]. case_decide; done. }
  pose proof (krun_wp_reliable _ _ s (handle_datagram_wp (broker_commands sb flush_fuel) broker_model abs inv N _ t junk s_addr sin_port (abs (kview_of s))
    [Datagram (SUBACK ++ name) s_addr sin_port] Ht Hlen Hinv HN HN1
    ltac:(unfold spec_text; rewrite Hp; cbn; by rewrite Hsame))) as H.
  destruct (krun _ s) as [[[]| |] s'] eqn:E; cbn in H; [|done|done]. exists s'. split; [done|apply H].
Qed.

Lemma suback_without_subscription_witness :
  exists s', krun (broker_handle 0 (bytes_of_string "SUBSCRIBE t" ++ 0 :: []) addr_a (bswap16 5000)) boot_view
      = (Ok tt, s') /\
    abs s' = ∅ /\ v_out s' = [Datagram (bytes_of_string "SUBACK t") addr_a (bswap16 5000)].
Proof.
  refine (suback_without_subscription 0 0 boot_view (bytes_of_string "SUBSCRIBE t") [] (bytes_of_string "t") addr_a
    (bswap16 5000) _ _ _ _ _ _ _);
    [unfold no_nul; decide_goal|cbn; lia|reflexivity|lia|lia|by apply inv_boot|reflexivity].
Defined.
