(* ===== verification/EndToEnd.v ===== *)
(** * The first program as a whole

    The control program writes the maps the two packet handlers read.  These
    theorems put them together: a topic means the same key on both sides, an
    address survives the packing, and in every state the control program
    maintains a publish is delivered to exactly the subscribers of its topic,
    by the fast path or by the slow one. *)

From Stdlib Require Import String.
From S2P Require Import Prelude Prog Packet Checksum Kernel Views RefKernel XdpBroker TcBroker CString Server.
From S2P Require Import Control ControlSpec.
From stdpp Require Import base tactics numbers list gmap fin_maps.
Local Open Scope Z_scope.
Local Open Scope broker_scope.

(** ** Topic names *)

(** A name a command line can carry, and one both sides read as one word. *)
Definition line_name (name : list Z) : Prop :=
  Forall (λ c, c <> 0 /\ c <> 10 /\ c <> 13) name /\ (length name < MAX_TOPIC_ID_CHARS)%nat.
Definition plain_name (name : list Z) : Prop := line_name name /\ 32 ∉ name.

#[export] Instance line_name_dec name : Decision (line_name name).
Proof. unfold line_name. apply _. Defined.
#[export] Instance plain_name_dec name : Decision (plain_name name).
Proof. unfold plain_name. apply _. Defined.

(** What may follow the name in a datagram. *)
Definition line_ends : list (list Z) := [[]; [10]; [13; 10]].

Lemma scan_plain n name d rest :
  Forall (λ c, is_delim c = false) name -> (length name < n)%nat -> is_delim d = true ->
  scan n (name ++ d :: rest) = Some name.
Proof.
  intros Hn. revert n. induction Hn as [|c name Hc Hn IH]; intros [|n] Hlt Hd; cbn in Hlt; try lia;
    cbn [app scan].
  - by rewrite Hd.
  - rewrite Hc, IH by (done || lia). done.
Qed.

Lemma plain_no_delim name : plain_name name -> Forall (λ c, is_delim c = false) name.
Proof.
  intros [[Hn _] Hb]. apply Forall_forall. intros c Hc. rewrite Forall_forall in Hn. destruct (Hn c Hc) as (H0 & H1 & _).
  unfold is_delim. rewrite !(proj2 (Z.eqb_neq _ _)) by (done || by intros ->). done.
Qed.

Lemma line_plain name rest :
  Forall (λ c, c <> 0 /\ c <> 10 /\ c <> 13) name -> rest ∈ line_ends -> line (name ++ rest) = name.
Proof.
  intros Hn Hr. induction Hn as [|c name (H2 & H3 & H4) Hn IH]; cbn [app line].
  - unfold line_ends in Hr. rewrite !elem_of_cons, elem_of_nil in Hr. by destruct Hr as [-> | [-> | [-> | []]]].
  - rewrite !(proj2 (Z.eqb_neq c _)) by done. cbn. by rewrite IH.
Qed.

Lemma scan_no_delim n bs name : scan n bs = Some name -> Forall (λ c, is_delim c = false) name.
Proof.
  revert bs name. induction n as [|n IH]; intros [|c r] name; cbn [scan]; try (by intros [= <-]).
  destruct (is_delim c) eqn:E; [by intros [= <-]|].
  destruct (scan n r) as [m|] eqn:Em; [|done]. cbn. intros [= <-]. constructor; [done|]. by apply (IH r).
Qed.

(** The words of the commands, and the operation each calls on its key. *)
Definition operations : list (list Z * (commands -> list Z -> Z -> Z -> um ev Z)) :=
  [(REGISTER, λ ops key _ _, cmd_register ops key);
   (SUBSCRIBE, λ ops key s_addr sin_port, cmd_subscribe ops key (bswap32 s_addr) (bswap16 sin_port));
   (FLUSH, λ ops key _ _, cmd_flush ops key)].

(** With the text [cmd] in [buf] the server recognises the command, reads
    [key] after it, which the operations turn into the map key of [name], and
    calls the operation on it. *)
Definition commands_topic (cmd : list Z) (op : commands -> list Z -> Z -> Z -> um ev Z) (buf name : list Z) : Prop :=
  exists key, is_command buf cmd = Some true /\ read_topic_key buf (length cmd) = Some key /\
    make_topic_key key = Some (Some (pad_key name)) /\
    forall ops s_addr sin_port, exists k, handle_datagram ops buf s_addr sin_port = ubind (op ops key s_addr sin_port) k.

Lemma has_prefix_app p rest : has_prefix p (p ++ rest) = true.
Proof. unfold has_prefix. rewrite take_app_length. by apply bool_decide_eq_true. Qed.

Lemma command_line cmd op name tail junk :
  (cmd, op) ∈ operations -> line_name name -> tail ∈ line_ends ->
  (10 <= length ((cmd ++ name ++ tail) ++ 0%Z :: junk))%nat ->
  commands_topic cmd op ((cmd ++ name ++ tail) ++ 0 :: junk) name.
Proof.
  intros Hop [Hn Hlt] Ht Hlen. set (t := cmd ++ name ++ tail) in *.
  assert (no_nul REGISTER /\ no_nul SUBSCRIBE /\ no_nul FLUSH) as (Hr & Hs & Hf).
  { unfold no_nul. split_and!; decide_goal. }
  assert (no_nul (name ++ tail)) as Hnt.
  { apply Forall_app. split; [eapply Forall_impl; [exact Hn|]; cbv beta; tauto|].
    unfold line_ends in Ht. rewrite !elem_of_cons, elem_of_nil in Ht.
    destruct Ht as [-> | [-> | [-> | []]]]; decide_goal. }
  assert (drop (length cmd) (t ++ 0 :: junk) = (name ++ tail) ++ 0 :: junk) as Hd.
  { unfold t. rewrite <- app_assoc. apply drop_app_length. }
  destruct (read_topic_key_eq _ _ _ _ Hd Hnt) as (key & Hk & Hl & Hc).
  rewrite (line_plain _ _ Hn Ht), (proj2 (Nat.ltb_lt _ _) Hlt) in Hc.
  exists key. unfold operations in Hop. rewrite !elem_of_cons, elem_of_nil in Hop.
  split; [rewrite is_command_eq; [f_equal; apply has_prefix_app| |]|split; [done|split; [by apply make_topic_key_eq|]]].
  { destruct Hop as [[= -> _]|[[= -> _]|[[= -> _]|[]]]]; done. }
  { unfold t. rewrite !length_app. lia. }
  intros ops s_addr sin_port. unfold handle_datagram. rewrite !is_command_eq by (done || (cbn; lia)).
  destruct Hop as [[= -> ->]|[[= -> ->]|[[= -> ->]|[]]]]; unfold t in *.
  - rewrite has_prefix_app. change (length REGISTER) with 9%nat in Hk. cbn [ulift]. rewrite ubind_uret, Hk.
    cbn [ulift]. rewrite ubind_uret, Hc. cbn [ulift]. rewrite ubind_uret. by eexists.
  - change (has_prefix REGISTER _) with false. rewrite has_prefix_app. change (length SUBSCRIBE) with 10%nat in Hk.
    cbn [ulift]. rewrite !ubind_uret, Hk. cbn [ulift]. rewrite ubind_uret, Hc. cbn [ulift]. rewrite ubind_uret. by eexists.
  - change (has_prefix REGISTER _) with false. change (has_prefix SUBSCRIBE _) with false. rewrite has_prefix_app.
    change (length FLUSH) with 6%nat in Hk. cbn [ulift]. rewrite !ubind_uret, Hk. cbn [ulift]. rewrite ubind_uret. by eexists.
Qed.

(** The topic that both packet programs of a publish [f] look up is [t]: with
    a count of one and a first subscriber for [t] the fast path transmits,
    with an inner map for [t] the slow path consumes the packet. *)
Definition looks_up `{!ProbeRead} (f t : list Z) : Prop :=
  (forall K (HK : Kernel K) (s : K) packed,
     v_cnt (kview_of s) !! t = Some 1 -> v_first (kview_of s) !! t = Some packed ->
     exists s', krun (xdp_broker f) s = (Ok (XDP_TX, turned 128 f packed), s')) /\
  (forall K (HK : Kernel K) (HR : Reliable K) (s : K) (b : skb) id,
     skb_bytes b = f -> v_outer (kview_of s) !! t = Some id ->
     exists b' s', krun (tc_ingress_broker b) s = (Ok (TC_ACT_SHOT, b'), s')).

Lemma published_looks_up `{!ProbeRead} f t :
  bytes_ok f -> is_publish f = true -> published_topic f = Some t -> looks_up f t.
Proof.
  intros Hf Hp Ht. split.
  - intros K HK s packed Hc Hfi. destruct (xdp_run f s Hf) as (rc & f' & Hr & Hs). destruct (krun _ s) as [r s'].
    cbn [fst snd] in Hr, Hs. unfold xdp_spec in Hs. rewrite Hp, Ht, Hc, Hfi in Hs. injection Hs as -> -> _.
    exists s'. by rewrite Hr.
  - intros K HK HR s b id <- Ho. destruct (tc_run_reliable b s id Hf) as (b' & s' & _ & _ & Hr & _); [|by exists b', s'].
    unfold tc_target. by rewrite Hp, Ht.
Qed.

(** C23. Both sides agree on a topic.  For a name of at most 19 bytes without
    blanks, NULs or line ends: a datagram with a command, the name and a line
    end makes the server call the command's operation on a key of the name,
    and in a packet whose command is followed by the name and a delimiter the
    kernel programs extract, and look up, the same key. *)
Theorem topic_keys_agree `{!ProbeRead} cmd op (name tail junk rest f : list Z) d :
  plain_name name -> (cmd, op) ∈ operations -> tail ∈ line_ends ->
  (10 <= length ((cmd ++ name ++ tail) ++ 0%Z :: junk))%nat ->
  bytes_ok f -> is_publish f = true -> is_delim d = true -> drop 50 f = name ++ d :: rest ->
  commands_topic cmd op ((cmd ++ name ++ tail) ++ 0 :: junk) name /\
  extract_topic_id f 50 (length f) zero_key = (0, pad_key name) /\
  looks_up f (pad_key name).
Proof.
  intros Hn Hop Ht Hlen Hf Hp Hd Hr. pose proof Hn as [Hline _].
  assert (published_topic f = Some (pad_key name)) as Htop.
  { unfold published_topic. rewrite Hr, scan_plain; [done|by apply plain_no_delim|apply Hline|done]. }
  split_and!; [by apply command_line| |by apply published_looks_up].
  pose proof (extract_topic f) as He. by rewrite Htop in He.
Qed.

Lemma scan_key_blank n bs m name :
  scan n bs = Some m -> (length name < MAX_TOPIC_ID_CHARS)%nat -> 32 ∈ name -> pad_key m <> pad_key name.
Proof.
  intros E Hlen Hin Heq. apply scan_no_delim in E. unfold pad_key, MAX_TOPIC_ID_CHARS in *.
  rewrite (take_ge name) in Heq by lia.
  assert (32 ∈ take 19 m ++ replicate (20 - length (take 19 m)) 0) as Hin'.
  { rewrite Heq. apply elem_of_app. by left. }
  apply elem_of_app in Hin' as [Hin'|Hin'].
  - apply Forall_take with (n := 19%nat) in E. rewrite Forall_forall in E. by specialize (E _ Hin').
  - apply elem_of_replicate in Hin' as [? _]. done.
Qed.

(** States that differ at most in what the maps hold for the topic [t]. *)
Definition same_but (t : list Z) (v w : kview) : Prop :=
  forall t', t' <> t -> v_cnt w !! t' = v_cnt v !! t' /\ v_first w !! t' = v_first v !! t'.

(** C40. A topic whose name contains a blank can be registered, subscribed to
    and flushed, the server calling its operations on the name's key, but no
    packet reaches it: wherever the scan of a packet starts, it never
    extracts that key, and the fast path treats every packet as if the maps
    held nothing for it. *)
Theorem blank_topic_unreachable `{!ProbeRead} cmd op (name tail junk : list Z) :
  line_name name -> 32 ∈ name -> (cmd, op) ∈ operations -> tail ∈ line_ends ->
  (10 <= length ((cmd ++ name ++ tail) ++ 0%Z :: junk))%nat ->
  commands_topic cmd op ((cmd ++ name ++ tail) ++ 0 :: junk) name /\
  (forall f p rc t, extract_topic_id f p (length f) zero_key = (rc, t) -> 0 <= rc -> t <> pad_key name) /\
  (forall K (HK : Kernel K) (s s' : K) f, bytes_ok f -> same_but (pad_key name) (kview_of s) (kview_of s') ->
     (krun (xdp_broker f) s').1 = (krun (xdp_broker f) s).1).
Proof.
  intros Hn Hin Hop Ht Hlen. pose proof Hn as [_ Hlt]. split_and!; [by apply command_line| |].
  - intros f p rc t He Hrc. pose proof (extract_loop_eq f p 20 [] eq_refl ltac:(simpl; lia)) as Hl.
    cbn [length app] in Hl. rewrite Nat.add_0_r in Hl. change (replicate 20 0) with zero_key in Hl.
    fold MAX_TOPIC_ID_CHARS in Hl. fold (extract_topic_id f p (length f) zero_key) in Hl. rewrite He in Hl.
    destruct (scan _ (drop p f)) as [m|] eqn:E; [injection Hl as -> ->; by eapply scan_key_blank|].
    destruct Hl as [out [= -> _]]. lia.
  - intros K HK s s' f Hf Hsame.
    destruct (xdp_run f s Hf) as (rc & f1 & -> & Hs). destruct (xdp_run f s' Hf) as (rc' & f1' & -> & Hs').
    unfold xdp_spec in Hs, Hs'. destruct (negb (is_publish f)); [congruence|].
    unfold published_topic in Hs, Hs'. destruct (scan 20 (drop 50 f)) as [m|] eqn:E; cbn [fmap option_fmap option_map] in Hs, Hs'; [|congruence].
    destruct (Hsame (pad_key m)) as [Hc Hfi]; [by eapply scan_key_blank|]. rewrite Hc, Hfi in Hs'.
    destruct (negb _); [congruence|]. destruct (v_first _ !! _); congruence.
Qed.

(** ** Addresses *)

Lemma sender_key_value a p :
  0 <= a < 2 ^ 32 -> 0 <= p < 65536 -> sender_key a p = a * 2 ^ 32 + p * 2 ^ 16.
Proof.
  intros Ha Hp. unfold sender_key, pack. rewrite bswap32_involutive by done.
  rewrite (u16_small (bswap16 p)) by (by apply bswap16_range). rewrite bswap16_involutive by done.
  rewrite (Z.shiftl_mul_pow2 p 16), lor_shiftl_add by lia. unfold u64. rewrite Z.mod_small by lia. done.
Qed.

Lemma sender_key_unpacked a p :
  0 <= a < 2 ^ 32 -> 0 <= p < 65536 ->
  packed_ip (sender_key a p) = a /\ packed_port (sender_key a p) = p.
Proof.
  intros Ha Hp. rewrite sender_key_value by done. unfold packed_ip, packed_port, u32, u16.
  rewrite land_ffff, (shiftr_div _ 32 (2 ^ 32)), (shiftr_div _ 16 (2 ^ 16)) by done. split; dlia.
Qed.

(** C24. A subscriber's address survives: what SUBSCRIBE packs into a map key
    is what both handlers unpack, different senders get different keys, and
    a frame sent by the fast path carries the sender's address and port in
    network order. *)
Theorem subscriber_address_roundtrip a p f bound :
  0 <= a < 2 ^ 32 -> 0 <= p < 65536 -> (42 <= length f)%nat ->
  packed_ip (sender_key a p) = a /\ packed_port (sender_key a p) = p /\
  (forall a' p', 0 <= a' < 2 ^ 32 -> 0 <= p' < 65536 -> sender_key a' p' = sender_key a p -> a' = a /\ p' = p) /\
  take 8 (drop 26 (turned bound f (sender_key a p))) = take 4 (drop 30 f) ++ le_bytes 4 a /\
  take 6 (drop 34 (turned bound f (sender_key a p))) = take 2 (drop 36 f) ++ le_bytes 2 p ++ take 2 (drop 38 f).
Proof.
  intros Ha Hp Hf. destruct (sender_key_unpacked a p Ha Hp) as [Hi Ho].
  destruct (turned_fields bound f (sender_key a p) Hf) as (_ & Hia & Hpa & _). rewrite Hi in Hia. rewrite Ho in Hpa.
  split_and!; try done. all: intros a' p' Ha' Hp'; destruct (sender_key_unpacked a' p' Ha' Hp') as [Hi' Ho'].
  intros Heq. rewrite Heq in Hi', Ho'. split; congruence.
Qed.

(** ** Delivery *)

(** A state the control program maintains, for one topic. *)
Lemma inv_topic_set N v t X :
  inv N v -> abs v !! t = Some X ->
  exists id, v_outer v !! t = Some id /\ dom (elems_of (by_id id) v) = X /\
    fast_ok N X (default 0 (v_cnt v !! t)) (v_first v !! t).
Proof.
  intros Hinv HX. unfold abs in HX. rewrite lookup_fmap in HX. destruct (v_outer v !! t) as [id|] eqn:Ho; [|done].
  cbn in HX. injection HX as HX. exists id. destruct (inv_topic _ _ Hinv t id Ho) as (g & Hobj & _ & Hfast).
  split_and!; [done|done|]. unfold subs in HX. rewrite (elems_by_id _ _ g inner_attr Hobj) in HX. by rewrite <- HX.
Qed.

(** The fast path in such a state. *)
Lemma xdp_spec_inv N f v t X :
  is_publish f = true -> published_topic f = Some t -> inv N v -> abs v !! t = Some X ->
  (exists k, X = {[k]} /\ xdp_spec f v = (XDP_TX, turned 128 f k, bumped clone_counter_2 (bumped pub_counter_2 v))) \/
  xdp_spec f v = (XDP_PASS, f, bumped pub_counter_2 v).
Proof.
  intros Hp Ht Hinv HX. destruct (inv_topic_set _ _ _ _ Hinv HX) as (id & _ & _ & Hfast).
  unfold xdp_spec. rewrite Hp, Ht. cbn [negb]. destruct (bool_decide (v_cnt v !! t = Some 1)) eqn:E; [left|by right].
  apply bool_decide_eq_true in E. rewrite E in Hfast. cbn [default] in Hfast.
  destruct Hfast as (_ & _ & _ & H1 & _). destruct (H1 eq_refl) as (k & -> & ->). by exists k.
Qed.

Lemma abs_bumped m v : abs (bumped m v) = abs v.
Proof. by destruct m, v. Qed.

Lemma outer_bumped m v : v_outer (bumped m v) = v_outer v.
Proof. by destruct m, v. Qed.

Lemma subs_bumped m v id : elems_of (by_id id) (bumped m v) = elems_of (by_id id) v.
Proof. by destruct m, v. Qed.

Lemma keys_elements (g : gmap Z Z) : (map_to_list g).*1 ≡ₚ elements (dom g).
Proof.
  apply NoDup_Permutation; [apply NoDup_fst_map_to_list|apply NoDup_elements|]. intros k.
  rewrite elem_of_elements, elem_of_dom, list_elem_of_fmap. split.
  - intros ([j x] & -> & Hj). apply elem_of_map_to_list in Hj. by eexists.
  - intros [x Hx]. exists (k, x). split; [done|]. by apply elem_of_map_to_list.
Qed.

(** Delivery of a publish with bytes [f], carried by the buffer [b] on the
    slow path, to the set [X], from the state [s]. *)
Definition delivered_to `{!ProbeRead} {K} `{!Kernel K} (f : list Z) (b : skb) (X : gset Z) (s : K) : Prop :=
  exists s1,
    (exists k, X = {[k]} /\ krun (xdp_broker f) s = (Ok (XDP_TX, turned 128 f k), s1)) \/
    (krun (xdp_broker f) s = (Ok (XDP_PASS, f), s1) /\
     exists b' s2 l outs, krun (tc_ingress_broker b) s1 = (Ok (TC_ACT_SHOT, b'), s2) /\
       l ≡ₚ elements X /\ v_out (kview_of s2) = v_out (kview_of s) ++ outs /\
       Forall2 (λ k o, exists f', o = Clone f' (skb_ifindex b) /\ tc_clone f k f' /\ same_validity f f') l outs).

Lemma delivery `{!ProbeRead} {K} `{!Kernel K, !Reliable K} N f (s : K) (b : skb) t X :
  bytes_ok f -> is_publish f = true -> published_topic f = Some t ->
  inv N (kview_of s) -> abs (kview_of s) !! t = Some X -> skb_bytes b = f -> delivered_to f b X s.
Proof.
  intros Hf Hp Ht Hinv HX Hb.
  destruct (inv_topic_set _ _ _ _ Hinv HX) as (id & Ho & Hdom & _).
  destruct (xdp_run f s Hf) as (rc & f1 & Hr & Hs). destruct (krun (xdp_broker f) s) as [r s1] eqn:E.
  cbn [fst snd] in Hr, Hs. subst r. exists s1.
  destruct (xdp_spec_inv N f _ t X Hp Ht Hinv HX) as [(k & -> & Hx)|Hx]; rewrite Hx in Hs; injection Hs as -> -> Hv.
  - left. by exists k.
  - right. split; [done|].
    destruct (tc_run_reliable b s1 id) as (b' & s2 & l & outs & Hrun & Hl & Hout & Hf2 & _).
    { by rewrite Hb. }
    { unfold tc_target. rewrite Hb, Hp, Ht, Hv. cbn. by rewrite outer_bumped. }
    exists b', s2, l.*1, outs. split_and!; [done| | |].
    + rewrite Hl, Hv, subs_bumped, <- Hdom. apply keys_elements.
    + rewrite Hout, Hv. by destruct (kview_of s).
    + apply Forall2_fmap_l. eapply Forall2_impl; [exact Hf2|]. intros [k z] o (f' & ? & ? & ? & _). cbn in *.
      exists f'. by rewrite Hb in *.
Qed.

(** C10. Delivery.  In every state the control program maintains, on a kernel
    that fails only for documented reasons, a publish for a topic with the
    set [X] of subscribers is delivered to exactly [X]: either the topic has
    one subscriber and the fast path transmits the packet to it, or the fast
    path passes the packet unchanged and the slow path, given the same
    bytes, consumes it and sends one clone to every member of [X] and to
    nobody else, each as valid as the original. *)
Theorem publish_delivered `{!ProbeRead} {K} `{!Kernel K, !Reliable K} N f (s : K) (b : skb) t X :
  bytes_ok f -> is_publish f = true -> published_topic f = Some t ->
  inv N (kview_of s) -> abs (kview_of s) !! t = Some X -> skb_bytes b = f -> delivered_to f b X s.
Proof. apply delivery. Qed.

(** C1. The broker end to end.  Start the control program on empty maps, let
    it process any sequence of fewer than 2^32 datagrams whose topic names
    fit, then let a publish arrive: if the commands registered its topic, it
    is delivered to exactly the clients whose subscriptions the abstract
    broker holds at that point. *)
Theorem broker_end_to_end `{!ProbeRead} {K} `{!Kernel K, !Reliable K} sb (s : K) buf input B outs f (b : skb) t X :
  v_outer (kview_of s) = ∅ -> v_cnt (kview_of s) = ∅ -> v_first (kview_of s) = ∅ -> v_fds (kview_of s) = ∅ ->
  length buf = 1024%nat -> Z.of_nat (length input) < 2 ^ 32 ->
  spec_serve broker_model input ∅ = Some (B, outs) ->
  bytes_ok f -> is_publish f = true -> published_topic f = Some t -> skb_bytes b = f -> B !! t = Some X ->
  exists s1, krun (serve (broker_commands sb flush_fuel) buf input) s = (Ok tt, s1) /\
    v_out (kview_of s1) = v_out (kview_of s) ++ outs /\ delivered_to f b X s1.
Proof.
  intros Ho Hc Hfs Hfd Hbuf Hlen Hspec Hf Hp Ht Hb HX.
  assert (abs (kview_of s) = ∅) as Habs by (unfold abs; rewrite Ho; apply fmap_empty).
  pose proof (krun_wp_reliable _ _ s (serve_wp (broker_commands sb flush_fuel) broker_model abs inv 0 _ buf input B outs
    Hbuf (inv_boot _ Ho Hc Hfs Hfd) ltac:(done) Hlen ltac:(by rewrite Habs))) as Hrun.
  destruct (krun _ s) as [[[]| |] s1] eqn:E; cbn [fst snd] in Hrun; [|done|done].
  destruct Hrun as (Hinv & HB & Hout). exists s1. split_and!; [done|done|]. subst B. by eapply delivery.
Qed.

(** ** Witnesses *)

Definition session_ab : list received :=
  [Received (bytes_of_string "REGISTER t" ++ [10]) (le_val [10; 0; 0; 3]) (bswap16 5000);
   Received (bytes_of_string "SUBSCRIBE t") (le_val [10; 0; 0; 3]) (bswap16 5000);
   Received (bytes_of_string "SUBSCRIBE t") (le_val [10; 0; 0; 4]) (bswap16 5001)].

Definition t_line : list Z := (SUBSCRIBE ++ bytes_of_string "t" ++ [13; 10]) ++ 0 :: [].

Lemma topic_keys_agree_witness :
  (exists key, read_topic_key t_line 10 = Some key /\ make_topic_key key = Some (Some key_t)) /\
  extract_topic_id publish_even 50 (length publish_even) zero_key = (0, key_t) /\
  exists s', krun (xdp_broker publish_even) one_sub = (Ok (XDP_TX, turned 128 publish_even sub_a), s').
Proof.
  destruct (topic_keys_agree SUBSCRIBE (λ ops key s_addr sin_port, cmd_subscribe ops key (bswap32 s_addr) (bswap16 sin_port))
    (bytes_of_string "t") [13; 10] [] (bytes_of_string "hell") publish_even 32)
    as ((key & _ & Hk & Hm & _) & He & [Hx _]);
    [decide_goal|right; left|right; right; left|cbn; lia|decide_goal|reflexivity|reflexivity|vm_compute; reflexivity|].
  split; [exists key; split; [exact Hk|exact Hm]|]. split; [exact He|].
  apply (Hx kview ref_kernel one_sub sub_a); vm_compute; reflexivity.
Defined.

Definition publish_blank : list Z := sample_frame 49152 (bytes_of_string "PUBLISH living room 21") [].

(** The topic "living room" with the subscriber [sub_a], and without. *)
Definition living_room : list Z := bytes_of_string "living room".
Definition room_sub : kview :=
  KView {[pad_key living_room := 1]} {[pad_key living_room := 1]} {[pad_key living_room := sub_a]} ∅ ∅ ∅ ∅ ∅ [].

Lemma blank_topic_unreachable_witness :
  (exists key, read_topic_key ((SUBSCRIBE ++ living_room ++ [10]) ++ 0 :: []) 10 = Some key /\
     make_topic_key key = Some (Some (pad_key living_room))) /\
  (extract_topic_id publish_blank 50 (length publish_blank) zero_key).2 <> pad_key living_room /\
  (krun (xdp_broker publish_blank) room_sub).1 = (krun (xdp_broker publish_blank) boot_view).1.
Proof.
  destruct (blank_topic_unreachable SUBSCRIBE (λ ops key s_addr sin_port, cmd_subscribe ops key (bswap32 s_addr) (bswap16 sin_port))
    living_room [10] []) as ((key & _ & Hk & Hm & _) & He & Hx);
    [decide_goal|decide_goal|right; left|right; left|cbn; lia|].
  split; [exists key; split; [exact Hk|exact Hm]|]. split.
  - eapply (He publish_blank 50%nat 0); [vm_compute; reflexivity|lia].
  - apply (Hx kview ref_kernel boot_view room_sub); [decide_goal|].
    intros t' Ht. change (kview_of room_sub) with room_sub. change (kview_of boot_view) with boot_view.
    cbn [room_sub boot_view v_cnt v_first]. by rewrite !lookup_singleton_ne, !lookup_empty by done.
Defined.

Lemma subscriber_address_roundtrip_witness :
  packed_ip (sender_key (le_val [10; 0; 0; 3]) (bswap16 5000)) = le_val [10; 0; 0; 3] /\
  take 8 (drop 26 (turned 128 publish_even (sender_key (le_val [10; 0; 0; 3]) (bswap16 5000)))) =
    [10; 0; 0; 2; 10; 0; 0; 3].
Proof.
  destruct (subscriber_address_roundtrip (le_val [10; 0; 0; 3]) (bswap16 5000) publish_even 128)
    as (Hi & _ & _ & Ha & _); [vm_compute; intuition congruence|vm_compute; intuition congruence|vm_compute; lia|].
  split; [exact Hi|]. rewrite Ha. reflexivity.
Defined.

Lemma publish_delivered_witness : delivered_to publish_even publish_skb {[sub_a]} one_sub.
Proof.
  apply (publish_delivered 1 publish_even one_sub publish_skb key_t {[sub_a]});
    [decide_goal|reflexivity|vm_compute; reflexivity| |vm_compute; reflexivity|vm_compute; reflexivity].
  change (kview_of one_sub) with one_sub.
  split; [reflexivity| | | | |vm_compute; discriminate].
  - intros t id Ht. cbn [one_sub v_outer] in Ht. apply lookup_singleton_Some in Ht as [<- <-].
    exists {[sub_a := 1]}. split_and!; [reflexivity|vm_compute; discriminate|].
    unfold fast_ok. cbn [one_sub v_cnt v_first]. rewrite !lookup_singleton_eq, dom_singleton_L, size_singleton. cbn [default].
    split_and!; try lia; try done. by exists sub_a.
  - intros t t' id Ht Ht'. cbn [one_sub v_outer] in Ht, Ht'. apply lookup_singleton_Some in Ht as [<- _].
    by apply lookup_singleton_Some in Ht' as [<- _].
  - cbn [one_sub v_cnt v_outer]. by rewrite !dom_singleton_L.
  - cbn [one_sub v_first v_outer]. by rewrite !dom_singleton_L.
Defined.

Lemma broker_end_to_end_witness :
  exists s1, krun (serve (broker_commands 0 flush_fuel) (replicate 1024 0) session_ab) boot_view = (Ok tt, s1) /\
    delivered_to publish_even publish_skb {[sub_a; sub_b]} s1.
Proof.
  destruct (broker_end_to_end 0 boot_view (replicate 1024 0) session_ab {[key_t := {[sub_a; sub_b]}]}
    [Datagram (bytes_of_string "REGACK t") (le_val [10; 0; 0; 3]) (bswap16 5000);
     Datagram (bytes_of_string "SUBACK t") (le_val [10; 0; 0; 3]) (bswap16 5000);
     Datagram (bytes_of_string "SUBACK t") (le_val [10; 0; 0; 4]) (bswap16 5001)]
    publish_even publish_skb key_t {[sub_a; sub_b]}) as (s1 & Hr & _ & Hd);
    [reflexivity|reflexivity|reflexivity|reflexivity|reflexivity|reflexivity|vm_compute; reflexivity
    |decide_goal|reflexivity|vm_compute; reflexivity|vm_compute; reflexivity|vm_compute; reflexivity|].
  exists s1. split; [exact Hr|exact Hd].
Defined.
