(* ===== verification/Interleaving.v ===== *)
(** * Interleavings of programs

    The kernel runs the packet programs on several CPUs while the control
    program updates the maps.  A call is atomic, everything else interleaves:
    [cstep] advances any program of a pool by its next call, with any result
    the contract of the calls allows.

    Three tools: [interleaving_safe], a program that keeps a global invariant
    with every call and ends well whatever its calls return does so in every
    pool; [cstep_wf] and [cstep_complete], no schedule runs forever and every
    one can be completed; [interference_free], a program is not disturbed by
    others whose calls leave alone what it reads. *)

From S2P Require Import Prelude Prog Kernel RefKernel XdpBroker Server Faults.
From stdpp Require Import base tactics numbers list gmap fin_maps relations.
Local Open Scope Z_scope.
Local Open Scope broker_scope.

(** ** Pools *)

(** What the members of a pool return: the server, a program on a frame, a
    program on a socket buffer. *)
Inductive outcome :=
| OServer (r : res unit)
| OPacket (r : res (Z * list Z))
| OSkb (r : res (Z * skb)).

Abbreviation pool := (list (prog ev outcome)).

Definition thread {A} (out : A -> outcome) (p : prog ev A) : prog ev outcome := pbind p (λ r, Ret (out r)).

Inductive cstep (c : contract (E := ev) kview) : pool * kview -> pool * kview -> Prop :=
| CStep (ps : pool) i X (e : ev X) k x v v' :
    ps !! i = Some (Vis e k) -> c X e v x v' -> cstep c (ps, v) (<[i := k x]> ps, v').

Lemma cstep_length c ps v ps' v' : rtc (cstep c) (ps, v) (ps', v') -> length ps' = length ps.
Proof.
  intros H. change (length (ps', v').1 = length (ps, v).1). induction H as [|? ? ? Hs _ IH]; [done|].
  rewrite IH. destruct Hs as [ps1 i X e k x w w' Hi _]. cbn. apply length_insert.
Qed.

(** A contract that allows more has more schedules. *)
Lemma cstep_mono (c d : contract kview) s s' :
  (forall X (e : ev X) v x v', c X e v x v' -> d X e v x v') -> rtc (cstep c) s s' -> rtc (cstep d) s s'.
Proof.
  intros Hcd. apply rtc_subrel. intros s1 s2 [ps i X e k x v v' Hi Hs]. econstructor; [done|by apply Hcd].
Qed.

(** ** Every schedule ends *)

Definition finished (p : prog ev outcome) : Prop := match p with Ret _ => True | Vis _ _ => False end.

#[export] Instance finished_dec p : Decision (finished p).
Proof. destruct p; apply _. Defined.

(** One step of one member, whatever the call returns. *)
Definition child (q p : prog ev outcome) : Prop :=
  match p with Ret _ => False | Vis e k => exists x, q = k x end.
Definition pstep (qs ps : pool) : Prop := exists i p q, ps !! i = Some p /\ child q p /\ qs = <[i := q]> ps.

Lemma pstep_cons p ps : Acc pstep ps -> Acc pstep (p :: ps).
Proof.
  revert ps. induction p as [a|X e k IH]; intros ps Hps; induction Hps as [ps Hps IHps];
    constructor; intros qs ([|i] & p & q & Hi & Hc & ->); cbn in Hi |- *.
  - by injection Hi as <-.
  - apply IHps. by exists i, p, q.
  - injection Hi as <-. destruct Hc as [x ->]. by apply IH.
  - apply IHps. by exists i, p, q.
Qed.

Lemma pstep_wf : well_founded pstep.
Proof.
  intros ps. induction ps as [|p ps IH]; [|by apply pstep_cons].
  constructor. by intros qs (i & p & q & Hi & _).
Qed.

(** No schedule runs forever. *)
Lemma cstep_wf c : well_founded (flip (cstep c)).
Proof.
  intros [ps v]. revert v. induction (pstep_wf ps) as [ps _ IH]. intros v. constructor.
  intros [ps' v'] Hs. inversion Hs as [? i X e k x ? ? Hi Hc]; subst. apply IH.
  exists i, (Vis e k), (k x). split_and!; [done|by eexists|done].
Qed.

(** Every call has an answer. *)
Definition answers (c : contract (E := ev) kview) : Prop := forall X (e : ev X) v, exists x v', c X e v x v'.

Lemma kernel_answers : answers kernel_spec.
Proof. intros X e v. exists (ref_do e v).1, (ref_do e v).2. apply ref_do_ok. Qed.

Lemma reliable_answers : answers reliable_spec.
Proof. intros X e v. exists (ref_do e v).1, (ref_do e v).2. split; [apply ref_do_ok|apply ref_do_reliable]. Qed.

(** A schedule that stops has finished all programs... *)
Lemma cstep_progress c ps v : answers c -> Forall finished ps \/ exists s, cstep c (ps, v) s.
Proof.
  intros Hc. destruct (decide (Forall finished ps)) as [Hf|Hf]; [by left|right].
  apply not_Forall_Exists in Hf; [|apply _]. apply Exists_exists in Hf as (p & Hp & Hn).
  apply list_elem_of_lookup in Hp as [i Hi]. destruct p as [r|X e k]; [by destruct Hn|].
  destruct (Hc X e v) as (x & v' & Hs). eexists. by econstructor.
Qed.

(** ... and every one can be completed. *)
Lemma cstep_complete c s : answers c -> exists ps v, rtc (cstep c) s (ps, v) /\ Forall finished ps.
Proof.
  intros Hc. induction (cstep_wf c s) as [[ps v] _ IH].
  destruct (cstep_progress c ps v Hc) as [Hf|[s' Hs]]; [by exists ps, v|].
  destruct (IH s' Hs) as (ps' & v' & Hr & Hf). exists ps', v'. split; [|done]. by eapply rtc_l.
Qed.

(** ** Safety under a global invariant *)

Section Safe.
Context (I : kview -> Prop).

(** What a call may return in some state that satisfies the invariant. *)
Definition rely : contract (E := ev) unit := λ X e _ x _, exists v v', I v /\ @ev_spec X e v x v'.

(** The call keeps the invariant. *)
Definition guarantee (X : Type) (e : ev X) : Prop := forall v x v', I v -> ev_spec e v x v' -> I v'.

Definition safe (p : prog ev outcome) (Q : outcome -> Prop) : Prop := gwp guarantee rely p (λ r _, Q r) tt.

Lemma safe_thread {A} (out : A -> outcome) (p : prog ev A) Q :
  gwp guarantee rely p (λ r _, Q (out r)) tt -> safe (thread out p) Q.
Proof. intros H. apply gwp_bind. exact H. Qed.

Lemma cstep_safe ps Qs v ps' v' :
  Forall2 safe ps Qs -> I v -> cstep kernel_spec (ps, v) (ps', v') -> Forall2 safe ps' Qs /\ I v'.
Proof.
  intros Hps Hv Hstep. inversion Hstep as [? i X e k x ? ? Hi Hs]; subst.
  destruct (Forall2_lookup_l _ _ _ _ _ Hps Hi) as (Q & HQ & [He Hk]). split; [|by eapply He].
  rewrite <- (list_insert_id Qs i Q HQ). apply Forall2_insert; [done|]. apply Hk. by exists v, v'.
Qed.

Lemma interleaving_safe ps Qs v ps' v' :
  Forall2 safe ps Qs -> I v -> rtc (cstep kernel_spec) (ps, v) (ps', v') -> Forall2 safe ps' Qs /\ I v'.
Proof.
  intros Hps Hv Hsteps.
  change (Forall2 safe (ps', v').1 Qs /\ I (ps', v').2).
  change ps with (ps, v).1 in Hps. change v with (ps, v).2 in Hv.
  induction Hsteps as [|[ps1 v1] [ps2 v2] c Hstep _ IH]; [done|]. cbn [fst snd] in *.
  destruct (cstep_safe _ _ _ _ _ Hps Hv Hstep). by apply IH.
Qed.

(** What a finished member returned. *)
Lemma safe_finished ps Qs i r Q :
  Forall2 safe ps Qs -> ps !! i = Some (Ret r) -> Qs !! i = Some Q -> Q r.
Proof. intros Hps Hi HQ. exact (Forall2_lookup_lr _ _ _ _ _ _ Hps Hi HQ). Qed.
End Safe.

(** ** Freedom from interference

    The calls of the control program read and write the topic maps, the inner
    maps, the descriptors and the datagrams sent; those of the packet
    programs read them but write statistics and clones only. *)

Definition is_datagram (o : output) : bool := match o with Datagram _ _ _ => true | Clone _ _ => false end.
Definition datagrams (outs : list output) : list output := filter is_datagram outs.

Definition same_core (v w : kview) : Prop :=
  v_outer w = v_outer v /\ v_cnt w = v_cnt v /\ v_first w = v_first v /\ v_objs w = v_objs v /\
  v_fds w = v_fds v /\ datagrams (v_out w) = datagrams (v_out v).

Definition is_stat (m : emap) : Prop := match m with stat _ => True | _ => False end.

Definition control_call (X : Type) (e : ev X) : Prop :=
  match e with
  | ElemLookup m _ | ElemUpdate m _ _ | ElemDelete m _ | ElemNextKey m _ | ElemForEach m | AtomicAdd m _ _ => ~ is_stat m
  | TopicLookup _ _ | SkbPullData _ _ | CsumReplace _ _ _ _ _ _ | CloneRedirect _ _ _ => False
  | _ => True
  end.

Definition packet_call (X : Type) (e : ev X) : Prop :=
  match e with
  | TopicGet _ _ | TopicUpdate _ _ _ | TopicDelete _ _ | MapCreate _ | MapGetFdById _ | CloseFd _ | SendTo _ _ _ => False
  | ElemUpdate m _ _ | ElemDelete m _ | AtomicAdd m _ _ => is_stat m
  | _ => True
  end.

#[export] Instance same_core_equivalence : Equivalence same_core.
Proof.
  split.
  - done.
  - intros v w. unfold same_core. intros. destruct_and!. split_and!; congruence.
  - intros u v w. unfold same_core. intros. destruct_and!. split_and!; congruence.
Qed.

Lemma datagrams_app l k : datagrams (l ++ k) = datagrams l ++ datagrams k.
Proof. apply filter_app. Qed.

Lemma same_core_stat m g v : is_stat m -> same_core v (set_elems m g v).
Proof. destruct m as [| |[]]; try done; intros _; by destruct v. Qed.

Lemma packet_call_core {X} (e : ev X) v x v' : packet_call X e -> ev_spec e v x v' -> same_core v v'.
Proof.
  intros He Hs. destruct e; cbn in He, Hs; try done; destruct_and?; subst; try done.
  - destruct Hs as [(_ & _ & ->)|[_ ->]]; [by apply same_core_stat|done].
  - destruct Hs as [(_ & _ & ->)|[_ ->]]; [by apply same_core_stat|done].
  - destruct k; destruct_and?; by subst.
  - by apply same_core_stat.
  - destruct Hs as [[_ ->]|[_ ->]]; [|done]. unfold same_core. destruct v; cbn. rewrite datagrams_app.
    split_and!; try done. cbn. by rewrite app_nil_r.
Qed.


(** What the control program can see, and its updates. *)
#[export] Instance topic_of_proper : Proper ((=) ==> same_core ==> (=)) topic_of.
Proof. intros m _ <- v w (? & ? & ? & _). by destruct m. Qed.
#[export] Instance stored_proper : Proper ((=) ==> same_core ==> (=) ==> (=)) stored.
Proof. intros m _ <- v w (_ & _ & _ & _ & Hf & _) x _ <-. destruct m; cbn; by rewrite ?Hf. Qed.
#[export] Instance v_objs_proper : Proper (same_core ==> (=)) v_objs.
Proof. by intros v w (_ & _ & _ & ? & _). Qed.
#[export] Instance v_fds_proper : Proper (same_core ==> (=)) v_fds.
Proof. by intros v w (_ & _ & _ & _ & ? & _). Qed.
#[export] Instance set_topic_proper : Proper ((=) ==> (=) ==> same_core ==> same_core) set_topic.
Proof. intros m _ <- g _ <- [] [] (? & ? & ? & ? & ? & ?). by destruct m. Qed.
#[export] Instance set_objs_proper : Proper ((=) ==> same_core ==> same_core) set_objs.
Proof. by intros g _ <- [] [] (? & ? & ? & ? & ? & ?). Qed.
#[export] Instance set_fds_proper : Proper ((=) ==> same_core ==> same_core) set_fds.
Proof. by intros g _ <- [] [] (? & ? & ? & ? & ? & ?). Qed.
#[export] Instance add_out_proper : Proper ((=) ==> same_core ==> same_core) add_out.
Proof.
  intros x _ <- [] [] (? & ? & ? & ? & ? & H). split_and!; try done. cbn in H |- *. unfold datagrams in *.
  by rewrite !filter_app, H.
Qed.

Lemma elems_core m v w : ~ is_stat m -> same_core v w -> elems_of m w = elems_of m v /\ attr_of m w = attr_of m v.
Proof. intros Hm (_ & _ & _ & Ho & Hf & _). destruct m; [..|by destruct Hm]; cbn; unfold obj_of; cbn; by rewrite ?Ho, ?Hf. Qed.

Lemma elem_room_core m v w k : ~ is_stat m -> same_core v w -> elem_room m w k = elem_room m v k.
Proof. intros Hm Hc. unfold elem_room. by destruct (elems_core m v w Hm Hc) as [-> ->]. Qed.

Lemma deletable_core m v w k : ~ is_stat m -> same_core v w -> deletable m w k = deletable m v k.
Proof. intros Hm Hc. unfold deletable. by destruct (elems_core m v w Hm Hc) as [-> ->]. Qed.

Lemma set_elems_core m g v w : ~ is_stat m -> same_core v w -> same_core (set_elems m g v) (set_elems m g w).
Proof.
  intros Hm Hc. destruct m as [id|fd|s]; cbn; [|rewrite Hc; destruct (v_fds w !! fd); [|done]|by destruct Hm];
  apply set_objs_proper; try done; by rewrite Hc.
Qed.

(** A call of the control program does the same to states that agree on what
    it can see. *)
Lemma control_call_core {X} (e : ev X) v w x w' :
  same_core v w -> control_call X e -> reliable_spec X e w x w' ->
  exists v', reliable_spec X e v x v' /\ same_core v' w'.
Proof.
  intros Hvw He [Hs Hr]. unfold reliable_spec.
  assert (forall m, topic_of m w = topic_of m v) as Ht by (intros m; by rewrite Hvw).
  assert (forall m y, stored m w y = stored m v y) as Hst by (intros m y; by rewrite Hvw).
  assert (v_objs w = v_objs v) as Hob by (by rewrite Hvw).
  assert (v_fds w = v_fds v) as Hfd by (by rewrite Hvw).
  destruct e; cbn [control_call ev_spec ev_reliable] in *; try done; rewrite ?Ht, ?Hst, ?Hob, ?Hfd in *;
    try (destruct (elems_core m v w He Hvw) as [Hel Hat]; rewrite ?Hel, ?Hat, ?(elem_room_core m v w), ?(deletable_core m v w) in * by done).
  all: try match goal with k : option Z |- _ => destruct k end.
  all: repeat match goal with
    | H : context [match ?y with _ => _ end] |- _ => destruct y eqn:?
    | H : _ /\ _ |- _ => destruct H
    | H : exists _, _ |- _ => destruct H
    | H : _ \/ _ |- _ => destruct H
    end; subst; try discriminate.
  all: eexists; (split; [split; [eauto 10|done]|];
    repeat first [exact Hvw | reflexivity | apply set_elems_core; [done|] | apply set_topic_proper | apply set_fds_proper
      | apply set_objs_proper | apply add_out_proper]).
Qed.

(** Calls of a packet program that sends nothing. *)
Definition quiet_call (X : Type) (e : ev X) : Prop := packet_call X e /\ silent e.

Ltac quiet_step := calls_step ltac:(done).

Lemma calls_count {T} m (s : T) : calls quiet_call (count_event m s).
Proof. unfold count_event. repeat quiet_step. Qed.

Lemma calls_thread {A} G (out : A -> outcome) (p : prog ev A) : calls G p -> calls G (thread out p).
Proof. intros Hp. by apply calls_bind. Qed.

(** ** The invariant of a broker under interleaving

    The maps satisfy [P] and [F], and all that was sent since [base] is
    allowed by [sent]. *)
Section Good.
Context (P : mobj -> Prop) (F : Z -> Prop) (sent : output -> Prop) (base : list output).

Definition good (v : kview) : Prop := sound P F v /\ exists outs, v_out v = base ++ outs /\ Forall sent outs.

Lemma good_start v : base = v_out v -> sound P F v -> good v.
Proof. intros -> Hv. split; [done|]. exists []. by rewrite app_nil_r. Qed.

(** A call of the server that keeps it. *)
Definition server_call (X : Type) (e : ev X) : Prop :=
  control_call X e /\ within P F e /\
  match e with SendTo msg addr port => sent (Datagram msg addr port) | _ => True end.

Lemma good_silent {X} (e : ev X) : within P F e -> silent e -> guarantee good X e.
Proof.
  intros Hw Hq v x v' [Hk (outs & Ho & Hall)] Hs. split; [by eapply sound_ev|]. exists outs.
  by rewrite (out_ev _ _ _ _ Hs Hq).
Qed.

Lemma good_out o v : sent o -> good v -> good (add_out o v).
Proof.
  intros Ho [Hk (outs & Hout & Hall)]. split; [by apply sound_out|]. exists (outs ++ [o]).
  rewrite out_add_out, Hout, app_assoc. split; [done|]. by apply Forall_app_2, Forall_singleton.
Qed.

Lemma quiet_guarantee X (e : ev X) : quiet_call X e -> guarantee good X e.
Proof. intros [Hp Hq]. apply good_silent; [|done]. destruct e; try done; by destruct m. Qed.

Lemma server_guarantee X (e : ev X) : server_call X e -> guarantee good X e.
Proof.
  intros (Hc & Hw & Hs). destruct e; try by apply good_silent.
  intros v x v' Hv Hsp. cbn in Hsp. destruct Hsp as [[_ ->]|[_ ->]]; [|done]. by apply good_out.
Qed.

(** Programs that send nothing. *)
Lemma quietly {M A} (m : pm ev M A) Q s :
  pwp (rely good) m Q s tt -> calls quiet_call (m s) -> pgwp (guarantee good) (rely good) m Q s tt.
Proof. intros Hw Hc. apply gwp_calls; [exact Hw|]. eapply calls_mono, Hc. apply quiet_guarantee. Qed.

Lemma count_event_rely {T} m (s : T) (Q : unit -> T -> unit -> Prop) :
  Q tt s tt -> pwp (rely good) (count_event m) Q s tt.
Proof.
  intros HQ. unfold count_event. apply pwp_bind, pwp_call. intros x [] _.
  destruct x; [apply pwp_call; by intros [] [] _|by apply pwp_ret].
Qed.

(** A program whose calls keep the invariant and which ends well. *)
Lemma safe_program {A} (out : A -> outcome) (p : prog ev A) (G : forall X, ev X -> Prop) (Q : outcome -> Prop) :
  (forall X (e : ev X), G X e -> guarantee good X e) -> calls G p ->
  wp (rely good) p (λ r _, Q (out r)) tt -> safe good (thread out p) Q.
Proof. intros HG Hc Hw. apply safe_thread, gwp_calls; [done|]. by eapply calls_mono, Hc. Qed.
End Good.

(** ** One program among others *)

(** The first member of the pool runs as if it were alone: it is where it
    would be on some state [v0] that agrees with the present one. *)
Definition undisturbed (Q : outcome -> kview -> Prop) (s : pool * kview) : Prop :=
  exists p rest v0, s.1 = p :: rest /\ wp reliable_spec p Q v0 /\ calls control_call p /\
    Forall (calls packet_call) rest /\ same_core v0 s.2.

Lemma cstep_undisturbed Q s s' : undisturbed Q s -> cstep reliable_spec s s' -> undisturbed Q s'.
Proof.
  intros (p & rest & v0 & Hps & Hw & Hc & Hrest & Hv) Hs. destruct Hs as [ps i X e k x v v' Hi Hs].
  cbn [fst snd] in Hps, Hv. subst ps. destruct i as [|i]; cbn in Hi.
  - injection Hi as ->. destruct Hc as [He Hk]. destruct (control_call_core e v0 v x v' Hv He Hs) as (v0' & Hs0 & Hv').
    exists (k x), rest, v0'. split_and!; [done|by apply Hw|done..].
  - rewrite Forall_lookup in Hrest. destruct (Hrest i _ Hi) as [He Hk].
    exists p, (<[i := k x]> rest), v0. split_and!; [done|done|done| |].
    + apply Forall_lookup. intros j q Hj. apply list_lookup_insert_Some in Hj as [(_ & <- & _)|[_ Hj]]; [apply Hk|by apply (Hrest j)].
    + etrans; [exact Hv|]. by apply (packet_call_core e _ x), Hs.
Qed.

Lemma interference_free Q p rest v ps' v' r :
  wp reliable_spec p Q v -> calls control_call p -> Forall (calls packet_call) rest ->
  rtc (cstep reliable_spec) (p :: rest, v) (ps', v') -> ps' !! 0%nat = Some (Ret r) ->
  exists v0, Q r v0 /\ same_core v0 v'.
Proof.
  intros Hw Hc Hrest Hsteps Hr.
  assert (undisturbed Q (p :: rest, v)) as Hu by (exists p, rest, v; done).
  assert (undisturbed Q (ps', v')) as (q & rest' & v0 & Hps & Hq & _ & _ & Hv).
  { clear Hr. induction Hsteps; [done|]. eauto using cstep_undisturbed. }
  cbn in Hps. subst ps'. injection Hr as ->. by exists v0.
Qed.

(** ** Programs without undefined behaviour *)

(** No command reaches undefined behaviour, whatever its calls return. *)
Fixpoint defined {A} (p : um ev A) : Prop :=
  match p with
  | Ret UB => False
  | Ret _ => True
  | Vis e k => forall x, defined (k x)
  end.

Lemma defined_ubind {A B} (m : um ev A) (f : A -> um ev B) :
  defined m -> (forall a, defined (f a)) -> defined (ubind m f).
Proof.
  intros Hm Hf. induction m as [r|X e k IH]; cbn in *; [by destruct r; cbn; auto|]. intros x. by apply IH.
Qed.

Lemma defined_wp {V A} (c : contract V) (m : um ev A) v : defined m -> wp c m (λ r _, r <> UB) v.
Proof.
  revert v. induction m as [r|X e k IH]; cbn; intros v Hd; [by destruct r|]. intros x v' _. by apply IH.
Qed.

Ltac defined_step :=
  lazymatch goal with
  | |- defined (ubind _ _) => apply defined_ubind; [|intros ?]
  | |- defined (uret _) => exact Logic.I
  | |- defined (Ret NoFuel) => exact Logic.I
  | |- defined (ucall _) => intros ?; exact Logic.I
  | |- defined (match ?x with _ => _ end) => destruct x
  | |- defined (let _ := _ in _) => cbv zeta
  end.

(** A server whose operations are, on datagrams whose topic names fit. *)
Lemma defined_server (ops : commands) `{!Strict ops} S buf input :
  (forall key k ip port, make_topic_key key = Some (Some k) ->
     defined (cmd_register ops key) /\ defined (cmd_subscribe ops key ip port) /\ defined (cmd_flush ops key)) ->
  length buf = 1024%nat -> well_formed S input -> defined (serve ops buf input).
Proof.
  intros Hops. revert buf. induction input as [|[|msg s_addr sin_port] rest IH]; intros buf Hbuf Hin; cbn [serve];
    [done|apply IH; [done|by inversion Hin]|]. apply Forall_cons in Hin as [[Hp HS] Hrest].
  destruct (recv_into_text buf msg Hbuf) as (Hn & Hl & junk & Hj). rewrite Hj in Hl |- *.
  apply defined_ubind; [|intros _; by apply IH].
  pose proof (handle_datagram_command ops _ junk s_addr sin_port Hn ltac:(lia)) as Hrun.
  destruct (parse_command (text_of msg)) as [[name|name|name|]|]; [| | | |done].
  1-3: destruct Hrun as (key & Hk & ->);
    destruct (Hops key _ (bswap32 s_addr) (bswap16 sin_port) Hk) as (H1 & H2 & H3);
    apply defined_ubind; [done|intros ?]; repeat defined_step.
  rewrite Hrun. exact Logic.I.
Qed.

(** ** Schedules on the reference kernel *)

(** Run [n] calls of a program against the reference kernel. *)
Fixpoint run_calls {A} (n : nat) (p : prog ev A) (v : kview) : prog ev A * kview :=
  match n, p with
  | S n', Vis e k => let '(x, v') := ref_do e v in run_calls n' (k x) v'
  | _, _ => (p, v)
  end.

Lemma run_calls_steps ps i n p v :
  ps !! i = Some p -> rtc (cstep reliable_spec) (ps, v) (<[i := (run_calls n p v).1]> ps, (run_calls n p v).2).
Proof.
  revert ps p v. induction n as [|n IH]; intros ps p v Hi; cbn [run_calls].
  - cbn. rewrite list_insert_id by done. constructor.
  - destruct p as [r|X e k]; cbn [fst snd].
    + rewrite list_insert_id by done. constructor.
    + assert (reliable_spec _ e v (ref_do e v).1 (ref_do e v).2) as Hok by (split; [apply ref_do_ok|apply ref_do_reliable]).
      destruct (ref_do e v) as [x v1]. cbn [fst snd] in Hok.
      eapply rtc_l; [by apply (CStep reliable_spec ps i X e k x v v1)|].
      specialize (IH (<[i := k x]> ps) (k x) v1). rewrite list_insert_insert_eq in IH. apply IH.
      apply list_lookup_insert_eq. by eapply lookup_lt_Some.
Qed.

Lemma run_calls_kernel ps i n p v :
  ps !! i = Some p -> rtc (cstep kernel_spec) (ps, v) (<[i := (run_calls n p v).1]> ps, (run_calls n p v).2).
Proof. intros Hi. eapply cstep_mono; [|by apply run_calls_steps]. intros X e w x w' [H _]. exact H. Qed.
