(* ===== verification/Concurrency.v ===== *)
(** * Packets and commands at the same time

    The pool of the first broker: the server on its datagrams, the XDP
    program on any number of frames, the TC program on any number of socket
    buffers.  [good] is the invariant all of them keep with every call, and
    [concurrent_safety] what follows for every interleaving. *)

From Stdlib Require Import String.
From S2P Require Import Prelude Prog Packet Checksum Kernel RefKernel XdpBroker TcBroker CString Server Faults.
From S2P Require Import Control ControlSpec ControlProps Interleaving.
From stdpp Require Import base tactics numbers list gmap fin_maps relations.
Local Open Scope Z_scope.
Local Open Scope broker_scope.

(** ** The programs as members of a pool *)

Definition server_thread (ops : commands) (buf : list Z) (input : list received) : prog ev outcome :=
  thread OServer (serve ops buf input).
Definition packet_thread `{!ProbeRead} (f : list Z) : prog ev outcome := thread OPacket (xdp_broker f).
Definition skb_thread `{!ProbeRead} (s : skb) : prog ev outcome := thread OSkb (tc_ingress_broker s).

(** ** The calls they make *)

(** What may be sent: replies to senders, and clones of the packets at hand
    to subscribers. *)
Definition sent_ok (S : gset Z) (skbs : list skb) (o : output) : Prop :=
  match o with
  | Datagram _ addr port => sender_key addr port ∈ S
  | Clone f' ifx => exists s packed, s ∈ skbs /\ ifx = skb_ifindex s /\ packed ∈ S /\ tc_clone (skb_bytes s) packed f'
  end.

Abbreviation broker_call S skbs := (server_call (inner_ok S) (λ k, k ∈ S) (sent_ok S skbs)).

Section Server.
Context (S : gset Z) (skbs : list skb).

Ltac server_side :=
  split_and!; first [exact Logic.I | done | by intros [] | apply inner_ok_empty
    | intros ? ? ?; apply inner_ok_insert; assumption | intros ? ? ?; apply inner_ok_delete; assumption].
Ltac server_step := calls_step ltac:(server_side).

Lemma calls_add_subscriber sb key ip port :
  pack ip port ∈ S -> calls (broker_call S skbs) (add_subscriber sb key ip port).
Proof. intros HS. unfold add_subscriber. repeat server_step. Qed.

Lemma calls_flush_loop fuel fd d : calls (broker_call S skbs) (flush_loop fuel fd d).
Proof. revert d. induction fuel as [|fuel IH]; intros d; cbn [flush_loop]; repeat server_step. apply IH. Qed.

Lemma calls_flush_topic fuel key : calls (broker_call S skbs) (flush_topic fuel key).
Proof. unfold flush_topic. repeat first [apply calls_flush_loop | server_step]. Qed.

Lemma calls_add_topic key : calls (broker_call S skbs) (add_topic key).
Proof. unfold add_topic. repeat server_step. Qed.

Lemma calls_handle sb fuel buf s_addr sin_port :
  sender_key s_addr sin_port ∈ S ->
  calls (broker_call S skbs) (handle_datagram (broker_commands sb fuel) buf s_addr sin_port).
Proof.
  intros HS. unfold handle_datagram. cbn [broker_commands cmd_register cmd_subscribe cmd_flush].
  repeat first [apply calls_add_topic | by apply calls_add_subscriber | apply calls_flush_topic | server_step].
Qed.

Lemma calls_serve sb fuel buf input :
  well_formed S input -> calls (broker_call S skbs) (serve (broker_commands sb fuel) buf input).
Proof.
  revert buf. induction input as [|[|msg s_addr sin_port] rest IH]; intros buf Hin; cbn [serve];
    [done|apply IH; by inversion Hin|]. apply Forall_cons in Hin as [[_ HS] Hrest].
  apply calls_ubind; [by apply calls_handle|]. intros _. by apply IH.
Qed.
End Server.

Lemma calls_xdp `{!ProbeRead} f : calls quiet_call (xdp_broker f).
Proof. unfold xdp_broker, swap_macs, readdress. repeat first [apply calls_count | quiet_step]. Qed.

(** ** Commands while anything else happens *)

Lemma defined_flush_loop fuel fd d : defined (flush_loop fuel fd d).
Proof. revert d. induction fuel as [|fuel IH]; intros d; cbn [flush_loop]; repeat defined_step. apply IH. Qed.

Lemma defined_ops sb fuel key k ip port :
  make_topic_key key = Some (Some k) ->
  defined (add_topic key) /\ defined (add_subscriber sb key ip port) /\ defined (flush_topic fuel key).
Proof.
  intros Hk. unfold add_topic, add_subscriber, flush_topic. rewrite Hk. cbn [ulift]. rewrite !ubind_uret.
  split_and!; repeat first [apply defined_flush_loop | defined_step].
Qed.

Lemma defined_serve S sb fuel buf input :
  length buf = 1024%nat -> well_formed S input -> defined (serve (broker_commands sb fuel) buf input).
Proof. apply (defined_server (broker_commands sb fuel) S). intros. by eapply defined_ops. Qed.

(** ** Packets while anything else happens *)

Section Good.
Context `{!ProbeRead} (S : gset Z) (skbs : list skb) (base : list output).

Abbreviation sent := (sent_ok S skbs).
Abbreviation good := (good (inner_ok S) (λ k, k ∈ S) sent base).
Abbreviation safely := (pgwp (guarantee good) (rely good)).

(** The fast path. *)
Definition packet_post (f : list Z) (r : res (Z * list Z)) : Prop :=
  exists rc f', r = Ok (rc, f') /\
    ((rc = XDP_TX /\ exists packed, packed ∈ S /\ f' = turned 128 f packed) \/
     (f' = f /\ (rc = XDP_PASS \/ rc = XDP_DROP))).

Lemma xdp_broker_rely f :
  bytes_ok f -> wp (rely good) (xdp_broker f) (λ r _, packet_post f r) tt.
Proof.
  intros Hf.
  enough (pwp (rely good) xdp_broker (λ rc f' _, packet_post f (Ok (rc, f'))) f tt) as Hwp.
  { eapply wp_mono; [|exact Hwp]. by intros [[rc f']| |] []. }
  assert (forall rc, rc = XDP_PASS \/ rc = XDP_DROP -> packet_post f (Ok (rc, f))) as Hsame.
  { intros rc Hrc. exists rc, f. auto. }
  unfold xdp_broker. eapply pwp_bind, pwp_rd; [by apply parse_udp_packet_eq|].
  destruct (udp_frame 43 f) eqn:Hfr; cbn [std_hdrs]; [|apply pwp_ret; auto].
  apply udp_frame_length in Hfr.
  eapply pwp_bind, pwp_rd; [apply ld16_le; change (38 <= length f)%nat; lia|].
  case_goal; [apply pwp_ret; auto|].
  eapply pwp_bind, pwp_rd; [apply starts_with_eq|]. case_goal; [apply pwp_ret; auto|].
  apply pwp_bind, count_event_rely. eapply pwp_bind, pwp_rd; [done|].
  destruct (extract_topic_id _ _ _ _) as [rc t]. case_goal; [apply pwp_ret; auto|].
  apply pwp_bind, pwp_call. intros n [] _. case_goal; [apply pwp_ret; auto|].
  apply pwp_bind, pwp_call. intros p [] (v & v' & [Hv _] & Hs). cbn in Hs. destruct Hs as [_ Hp].
  destruct p as [packed|]; [|apply pwp_ret; auto].
  apply pwp_bind, swap_macs_wp; [lia|].
  apply pwp_bind, (readdress_udp_wp _ 128 compute_udp_checksum); [done|auto with broker| |lia|].
  { rewrite swapped_length. lia. }
  intros da dp ic -> -> ->. apply pwp_bind, count_event_rely, pwp_ret. exists XDP_TX, (turned 128 f packed).
  split; [done|]. left. split; [done|]. exists packed. split; [|done]. by apply (snd_first _ _ _ Hv t).
Qed.

(** The slow path. *)
Definition skb_post (s : skb) (r : res (Z * skb)) : Prop :=
  exists rc s', r = Ok (rc, s') /\ (rc = TC_ACT_OK \/ rc = TC_ACT_SHOT) /\
    (is_publish (skb_bytes s) = false -> rc = TC_ACT_OK /\ skb_bytes s' = skb_bytes s).

Lemma csum_good l off from to flags Q s v :
  (forall x, csum_answer False l s off from to flags x -> Q x.1 x.2 v) ->
  safely (csum_replace l off from to flags) Q s v.
Proof.
  intros HQ. split; [by apply quiet_guarantee|]. intros x [] (u & u' & _ & Hs). destruct v. apply HQ.
  assert (u' = u) as -> by exact (proj1 Hs). by exists u.
Qed.

Definition safely_bind {A B} := @tr_bind _ skb unit (λ A, safely) _ A B.
Definition safely_mono {A} := @tr_mono _ skb unit (λ A, safely) _ A.

Lemma clone_good s :
  sent (Clone (skb_bytes s) (skb_ifindex s)) ->
  safely (count_queue ;; bpf_clone_redirect ;; count_event clone_counter_2 ;; pret 0) (λ rc s' _, rc = 0 /\ s' = s) s tt.
Proof.
  intros Ho. apply safely_bind, quietly.
  2: { unfold count_queue. repeat quiet_step. }
  unfold count_queue. eapply pwp_bind, pwp_rd; [done|]. apply pwp_bind, pwp_call. intros n [] _.
  enough (safely (bpf_clone_redirect ;; count_event clone_counter_2 ;; pret 0) (λ rc s' _, rc = 0 /\ s' = s) s tt) as Hrest.
  { destruct n; [apply pwp_call; by intros [] []|]. apply pwp_bind, pwp_call. intros r [] _. by apply pwp_ret. }
  apply safely_bind. split.
  - intros v x v' Hv Hs. cbn in Hs. destruct Hs as [[_ ->]|[_ ->]]; [by apply good_out|done].
  - intros r [] _. apply safely_bind, quietly; [|apply calls_count].
    by apply count_event_rely.
Qed.

Lemma entries_kept id u : kept S u -> Forall (λ kv, kv.1 ∈ S) (map_to_list (elems_of (by_id id) u)).
Proof.
  intros Hu. apply Forall_forall. intros [k z] Hk. apply elem_of_map_to_list in Hk. unfold elems_of, obj_of in Hk.
  cbn in Hk. destruct (v_objs u !! id) as [o|] eqn:Eo; [|by rewrite lookup_empty in Hk].
  destruct (snd_obj _ _ _ Hu _ _ Eo) as (_ & _ & Hd). apply Hd, elem_of_dom. by eexists.
Qed.

(** A linear buffer with the packet of [s0], turned around. *)
Section Clones.
Context (s0 : skb) (qm : Z).
Context (Hin : s0 ∈ skbs) (Hb : bytes_ok (skb_bytes s0)) (Hfr : udp_frame 42 (skb_bytes s0) = true).

Let g : list Z := swapped (skb_bytes s0).
Let sk (x : fields) : skb := Skb (frame g x) [] (skb_ifindex s0) qm.
Let Hg : bytes_ok g := swapped_ok _ Hb.
Let Hgf : udp_frame 42 g = true := swapped_udp_frame _ Hfr.

(** The source is the address the publisher wrote to. *)
Definition turned_around (s : skb) : Prop :=
  exists x, s = sk x /\ fields_ok x /\ f_sa x = f_da (fields_of g) /\ f_sp x = f_dp (fields_of g).

Lemma callback_good packed s :
  packed ∈ S -> turned_around s -> safely (callback_fn packed) (λ rc s' _, rc = 0 /\ turned_around s') s tt.
Proof.
  intros HS (x & -> & Hx & Hsa & Hsp).
  apply (callback_tr (λ A, safely) False csum_good g [] (skb_ifindex s0) qm Hg Hgf); [done| |].
  - intros _ x' Hx' Hsa' Hsp'. split; [done|]. exists x'. split; [done|]. split; [done|]. split; congruence.
  - intros x' Hx' Hsa' Hsp' (Hda & Hdp & _). eapply safely_mono; [|apply clone_good].
    + intros rc s' [] [-> ->]. split; [done|]. exists x'. split; [done|]. split; [done|]. split; congruence.
    + exists s0, packed. split_and!; [done|done|done|]. unfold skb_bytes. cbn [skb_data skb_paged sk].
      rewrite app_nil_r. apply frame_bytes; [done|by apply udp_frame_length|by rewrite Hsa'|by rewrite Hsp'|done..].
Qed.

Lemma for_each_good l s :
  Forall (λ kv, kv.1 ∈ S) l -> turned_around s -> safely (for_each_elem l) (λ _ s' _, turned_around s') s tt.
Proof.
  intros Hl. revert s. induction Hl as [|[k z] l Hk Hl IH]; intros s Hs; cbn [for_each_elem].
  { by apply (tr_ret (J := λ A, safely)). }
  apply safely_bind. eapply safely_mono; [|by apply callback_good].
  intros rc s' [] [-> Hs']. by apply IH.
Qed.

Lemma turn_around_good id :
  safely (on_data (swap_macs 0) ;;
          rewrite_source std_hdrs (
            elems <- pcall (ElemForEach (by_id id)) ;; for_each_elem elems ;; pret TC_ACT_SHOT))
    (λ rc _ _, rc = TC_ACT_OK \/ rc = TC_ACT_SHOT) (Skb (skb_bytes s0) [] (skb_ifindex s0) qm) tt.
Proof.
  apply safely_bind, (on_data_swap_tr (λ A, safely)); [by apply udp_frame_length|].
  unfold skb_set_data. cbn [skb_data skb_paged skb_ifindex skb_queue_mapping]. fold g.
  pose proof (udp_frame_length _ _ Hgf) as Hlen.
  rewrite <- (frame_fields_of g) by done. pose proof (fields_of_ok _ Hg) as Hx.
  destruct (fields_of g) as [sa da sp dp ic uc] eqn:Ex.
  apply (rewrite_source_tr (λ A, safely) False csum_good g [] (skb_ifindex s0) qm Hg Hgf); [done|auto|].
  intros ic' uc' Hok _ _. apply safely_bind, pgwp_call; [by apply quiet_guarantee|].
  intros l [] (u & u' & [Hu _] & Hs). cbn [ev_spec] in Hs. destruct Hs as [_ Hl].
  apply safely_bind. eapply safely_mono; [|apply for_each_good].
  - intros _ s' [] _. apply (tr_ret (J := λ A, safely)). by right.
  - rewrite Hl. by apply entries_kept.
  - exists (Fields da da dp dp ic' uc'). by rewrite Ex.
Qed.
End Clones.

(** A read of the buffer, and the end of a path that lets the packet pass. *)
Ltac read := eapply safely_bind, (tr_rd (J := λ A, safely)).
Ltac pass :=
  apply (tr_ret (J := λ A, safely)); split; [by left|]; intros _; split; [done|]; unfold skb_bytes; cbn; by rewrite app_nil_r.

Lemma tc_good s :
  s ∈ skbs -> bytes_ok (skb_bytes s) -> gwp (guarantee good) (rely good) (tc_ingress_broker s) (λ r _, skb_post s r) tt.
Proof.
  intros Hin Hb.
  enough (safely tc_ingress_broker (λ rc s' _, (rc = TC_ACT_OK \/ rc = TC_ACT_SHOT) /\
    (is_publish (skb_bytes s) = false -> rc = TC_ACT_OK /\ skb_bytes s' = skb_bytes s)) s tt) as Hwp.
  { eapply gwp_mono; [|exact Hwp]. intros [[rc s']| |] [] Hr; [|done|done]. by exists rc, s'. }
  unfold tc_ingress_broker. apply (or_return_tr (λ A, safely)). split; [by apply quiet_guarantee|].
  intros [r s1] [] (u & u' & _ & Hs). cbn [ev_spec fst snd] in Hs. destruct Hs as (_ & Hsb & Hi & _ & Hl).
  cbn [fst snd]. split; intros Hr; [split; [by left|done]|]. specialize (Hl Hr). destruct s1 as [f pg ifx qm].
  cbn [skb_data skb_ifindex skb_paged] in *.
  assert (pg = []) as ->.
  { apply (f_equal length) in Hsb. unfold skb_len in Hl. unfold skb_bytes in Hsb. rewrite !length_app in Hsb.
    cbn in Hsb. destruct pg; cbn in Hsb; [done|lia]. }
  assert (f = skb_bytes s) as -> by (rewrite <- Hsb; unfold skb_bytes; cbn; by rewrite app_nil_r).
  subst ifx. clear Hl Hsb Hr u u'.
  rewrite is_publish_42. cbn [snd].
  unfold with_headers. read; [by apply refresh_headers_eq|]. cbn [skb_data].
  destruct (udp_frame 42 (skb_bytes s)) eqn:Hfr; cbn [andb]; [|pass].
  pose proof (udp_frame_length _ _ Hfr) as Hlen. cbn [std_hdrs eth ip udp payload].
  read; [apply ld16_le; change (38 <= length (skb_bytes s))%nat; lia|].
  change (34 + udp_dest)%nat with 36%nat. cbn [skb_data]. fold (dport (skb_bytes s)).
  destruct (port_in_range (dport (skb_bytes s))); cbn [andb negb]; [|pass].
  read; [apply starts_with_eq|]. change (length PUBLISH) with 8%nat. cbn [skb_data].
  change (34 + sizeof_udphdr)%nat with 42%nat.
  destruct (bool_decide (PUBLISH = take 8 (drop 42 (skb_bytes s)))); cbn [negb]; [|pass].
  apply safely_bind, quietly; [|apply calls_count]. apply count_event_rely.
  read; [done|].
  destruct (extract_topic_id _ _ _ _) as [rc t]. case_goal; [pass|].
  apply safely_bind, pgwp_call; [by apply quiet_guarantee|]. intros [id|] [] _; [|pass].
  eapply safely_mono; [|by apply turn_around_good].
  by intros rc' s' [] Hrc.
Qed.
End Good.

(** ** Properties *)

Definition broker_pool `{!ProbeRead} (sb : Z) (buf : list Z) (input : list received) (frames : list (list Z)) (skbs : list skb) : pool :=
  server_thread (broker_commands sb flush_fuel) buf input :: (packet_thread <$> frames) ++ (skb_thread <$> skbs).

(** C7. Nothing leaves for a stranger, under any interleaving.  Let the
    control program process any datagrams whose topic names fit the key (less
    than 20 bytes; others are undefined behaviour, C25) while any number of
    frames are in the XDP program and any number of socket buffers in the TC program, the
    calls of all of them interleaved in any order and answered in any way
    their specification allows.  At every point the maps record only
    addresses that subscribed; all that was sent are replies to senders and
    clones of the packets at hand, payload intact, addressed to subscribers;
    no program has reached undefined behaviour; a fast path that has finished
    has passed or dropped its packet unchanged or transmitted it readdressed
    to a subscriber; and a slow path that has finished has passed what is not
    a publish unchanged. *)
Theorem concurrent_safety `{!ProbeRead} (S : gset Z) sb buf input frames skbs v ps' v' :
  length buf = 1024%nat -> well_formed S input ->
  Forall bytes_ok frames -> Forall (λ s, bytes_ok (skb_bytes s)) skbs -> kept S v ->
  rtc (cstep kernel_spec) (broker_pool sb buf input frames skbs, v) (ps', v') ->
  kept S v' /\ (exists outs, v_out v' = v_out v ++ outs /\ Forall (sent_ok S skbs) outs) /\
  (forall r, ps' !! 0%nat = Some (Ret r) -> exists r', r = OServer r' /\ r' <> UB) /\
  (forall i f r, frames !! i = Some f -> ps' !! (1 + i)%nat = Some (Ret r) ->
     exists r', r = OPacket r' /\ packet_post S f r') /\
  (forall i s r, skbs !! i = Some s -> ps' !! (1 + length frames + i)%nat = Some (Ret r) ->
     exists r', r = OSkb r' /\ skb_post s r').
Proof.
  intros Hbuf Hin Hf Hs Hv Hsteps. set (I := good (inner_ok S) (λ k, k ∈ S) (sent_ok S skbs) (v_out v)).
  set (Fs := (λ f r, exists r', r = OPacket r' /\ packet_post S f r') <$> frames).
  set (Ss := (λ s r, exists r', r = OSkb r' /\ skb_post s r') <$> skbs).
  set (Qs := (λ r, exists r', r = OServer r' /\ r' <> UB) :: Fs ++ Ss).
  assert (length Fs = length frames) as HFs by apply length_fmap.
  assert (Forall2 (safe I) (broker_pool sb buf input frames skbs) Qs) as Hps.
  { constructor; [|apply Forall2_app].
    - eapply safe_program; [apply server_guarantee|by apply calls_serve|]. eapply wp_mono; [|by apply defined_wp, (defined_serve S)]. intros r [] Hr. by exists r.
    - apply Forall2_fmap, Forall_Forall2_diag, (Forall_impl _ _ _ Hf). intros f Hff.
      eapply safe_program; [apply quiet_guarantee|apply calls_xdp|]. eapply wp_mono; [|by apply xdp_broker_rely]. intros r [] Hr. by exists r.
    - apply Forall2_fmap, Forall_Forall2_diag, Forall_forall. intros s Hss. apply safe_thread.
      rewrite Forall_forall in Hs. eapply gwp_mono; [|by apply tc_good, Hs]. intros r [] Hr. by exists r. }
  assert (I v) as HI by by apply good_start.
  destruct (interleaving_safe I _ Qs v ps' v' Hps HI Hsteps) as [Hps' [Hk Ho]].
  split_and!; [done|done| | |].
  - intros r Hr. exact (safe_finished I _ Qs 0 r _ Hps' Hr eq_refl).
  - intros i f r Hi Hr. apply (safe_finished I _ Qs _ r (λ r, exists r', r = OPacket r' /\ packet_post S f r') Hps' Hr).
    change ((Fs ++ Ss) !! i = Some (λ r, exists r', r = OPacket r' /\ packet_post S f r')). rewrite lookup_app_l.
    + unfold Fs. by rewrite list_lookup_fmap, Hi.
    + rewrite HFs. by eapply lookup_lt_Some.
  - intros i s r Hi Hr. apply (safe_finished I _ Qs _ r (λ r, exists r', r = OSkb r' /\ skb_post s r') Hps' Hr).
    change ((Fs ++ Ss) !! (length frames + i)%nat = Some (λ r, exists r', r = OSkb r' /\ skb_post s r')). rewrite lookup_app_r by lia.
    rewrite HFs. replace (_ - _)%nat with i by lia. unfold Ss. by rewrite list_lookup_fmap, Hi.
Qed.

(** ** The window of a first subscription

    [add_subscriber] writes the count before the address: for a packet that
    is handled in between, the count is one but no subscriber is recorded. *)

(** The pool that is one SUBSCRIBE and one publish, and its schedule: the
    first [n] calls of the server, then the packet, then the server. *)
Definition first_subscribe : list received :=
  [Received (bytes_of_string "SUBSCRIBE t") (le_val [10; 0; 0; 3]) (bswap16 5000)].

(** A registered topic without subscribers. *)
Definition no_sub : kview :=
  KView {[key_t := 1]} ∅ ∅ {[1 := MObj inner_attr ∅]} ∅ {[0 := 0]} {[0 := 0]} ∅ [].

(** C38. A publish can be lost while the first client of its topic
    subscribes.  There is an interleaving of one SUBSCRIBE and one publish,
    all calls succeeding, in which the subscription is acknowledged and the
    publish, which would have been passed up the stack before it and
    delivered after it, is dropped. *)
Theorem first_subscription_window :
  exists v', rtc (cstep reliable_spec)
      ([server_thread (broker_commands 0 flush_fuel) (replicate 1024 0) first_subscribe; packet_thread publish_even], no_sub)
      ([Ret (OServer (Ok tt)); Ret (OPacket (Ok (XDP_DROP, publish_even)))], v') /\
    v_out v' = [Datagram (bytes_of_string "SUBACK t") (le_val [10; 0; 0; 3]) (bswap16 5000)].
Proof.
  set (sv := server_thread _ _ _). set (pk := packet_thread _).
  set (s1 := run_calls 5 sv no_sub). set (s2 := run_calls 10 pk s1.2). set (s3 := run_calls 10 s1.1 s2.2).
  exists s3.2. split; [|vm_compute; reflexivity].
  etrans; [apply (run_calls_steps _ 0 5 sv); done|]. fold s1. cbn [list_insert insert].
  etrans; [apply (run_calls_steps _ 1 10 pk); done|]. fold s2.
  etrans; [apply (run_calls_steps _ 0 10 s1.1); done|]. fold s3.
  assert (s3.1 = Ret (OServer (Ok tt))) as -> by (vm_compute; reflexivity).
  assert (s2.1 = Ret (OPacket (Ok (XDP_DROP, publish_even)))) as -> by (vm_compute; reflexivity).
  constructor.
Qed.

(** A frame and a socket buffer in flight while two clients subscribe. *)
Definition subscribe_ab : list received :=
  [Received (bytes_of_string "SUBSCRIBE t") (le_val [10; 0; 0; 3]) (bswap16 5000);
   Received (bytes_of_string "SUBSCRIBE t") (le_val [10; 0; 0; 4]) (bswap16 5001)].

Definition mixed_pool : pool := broker_pool 0 (replicate 1024 0) subscribe_ab [publish_odd] [publish_skb].

(** The first subscription, the frame, the buffer, in this order. *)
Definition mixed1 : prog ev outcome * kview := run_calls 8 (server_thread (broker_commands 0 flush_fuel) (replicate 1024 0) subscribe_ab) no_sub.
Definition mixed2 : prog ev outcome * kview := run_calls 10 (packet_thread publish_odd) mixed1.2.
Definition mixed3 : prog ev outcome * kview := run_calls 30 (skb_thread publish_skb) mixed2.2.

Lemma mixed_steps : rtc (cstep kernel_spec) (mixed_pool, no_sub) ([mixed1.1; mixed2.1; mixed3.1], mixed3.2).
Proof.
  pose proof (run_calls_kernel mixed_pool 0 8 (server_thread (broker_commands 0 flush_fuel) (replicate 1024 0) subscribe_ab) no_sub eq_refl) as H1.
  fold mixed1 in H1. etrans; [exact H1|]. clear H1.
  pose proof (run_calls_kernel (<[0%nat := mixed1.1]> mixed_pool) 1 10 (packet_thread publish_odd) mixed1.2 eq_refl) as H2.
  fold mixed2 in H2. etrans; [exact H2|]. clear H2.
  pose proof (run_calls_kernel (<[1%nat := mixed2.1]> (<[0%nat := mixed1.1]> mixed_pool)) 2 30 (skb_thread publish_skb) mixed2.2 eq_refl) as H3.
  fold mixed3 in H3. exact H3.
Qed.

Lemma no_sub_kept S : kept S no_sub.
Proof.
  split; [|done]. intros id o Ho. cbn [no_sub v_objs] in Ho. apply lookup_singleton_Some in Ho as [_ <-].
  apply inner_ok_empty.
Qed.

Lemma concurrent_safety_witness :
  kept ({[sub_a; sub_b]} : gset Z) mixed3.2 /\
  (exists outs, v_out mixed3.2 = outs /\ Forall (sent_ok {[sub_a; sub_b]} [publish_skb]) outs) /\
  (exists r, mixed2.1 = Ret (OPacket r) /\ packet_post {[sub_a; sub_b]} publish_odd r) /\
  exists r, mixed3.1 = Ret (OSkb r) /\ skb_post publish_skb r.
Proof.
  destruct (concurrent_safety {[sub_a; sub_b]} 0 (replicate 1024 0) subscribe_ab [publish_odd] [publish_skb] no_sub
    [mixed1.1; mixed2.1; mixed3.1] mixed3.2) as (Hk & Ho & _ & Hp & Hs).
  - reflexivity.
  - repeat constructor; try done; decide_goal.
  - repeat constructor; decide_goal.
  - repeat constructor; decide_goal.
  - apply no_sub_kept.
  - exact mixed_steps.
  - split; [exact Hk|]. split; [exact Ho|]. split.
    + assert (exists r, mixed2.1 = Ret r) as [r Hr].
      { exists (match mixed2.1 with Ret r => r | _ => OPacket UB end). vm_compute. reflexivity. }
      assert ([mixed1.1; mixed2.1; mixed3.1] !! 1%nat = Some (Ret r)) as Hl by (rewrite <- Hr; reflexivity).
      destruct (Hp 0%nat publish_odd r eq_refl Hl) as (r' & -> & Hpost). exists r'. split; [exact Hr|exact Hpost].
    + assert (exists r, mixed3.1 = Ret r) as [r Hr].
      { exists (match mixed3.1 with Ret r => r | _ => OSkb UB end). vm_compute. reflexivity. }
      assert ([mixed1.1; mixed2.1; mixed3.1] !! 2%nat = Some (Ret r)) as Hl by (rewrite <- Hr; reflexivity).
      destruct (Hs 0%nat publish_skb r eq_refl Hl) as (r' & -> & Hpost). exists r'. split; [exact Hr|exact Hpost].
Defined.
