(* ===== verification/UnderLoad.v ===== *)
(** * The control program under load

    Packets being handled at the same time neither disturb the server nor
    keep it from finishing: the calls of the packet programs write statistics
    and clones only ([Interleaving.interference_free]), so whatever the
    schedule the server does to the maps what it would do alone. *)

From Stdlib Require Import String.
From S2P Require Import Prelude Prog Packet Kernel RefKernel XdpBroker TcBroker CString Server Faults.
From S2P Require Import Control ControlSpec ControlProps Interleaving Concurrency.
From stdpp Require Import base tactics numbers list gmap fin_maps relations.
Local Open Scope Z_scope.
Local Open Scope broker_scope.

(** ** Who sends, and what is sent back *)

Fixpoint senders (input : list received) : gset Z :=
  match input with
  | [] => ∅
  | RecvError :: rest => senders rest
  | Received _ s_addr sin_port :: rest => {[sender_key s_addr sin_port]} ∪ senders rest
  end.

Lemma well_formed_mono (S T : gset Z) input : S ⊆ T -> well_formed S input -> well_formed T input.
Proof.
  intros HST Hin. eapply Forall_impl; [exact Hin|]. intros [|msg a p]; [done|]. intros [? ?]. split; [done|by apply HST].
Qed.

Section Spec.
Context {B : Type} (sp : broker_spec B).

Lemma spec_serve_parses input b r : spec_serve sp input b = Some r -> well_formed (senders input) input.
Proof.
  revert b r. induction input as [|[|msg a p] rest IH]; intros b r; cbn [spec_serve senders].
  - constructor.
  - intros H. constructor; [done|by eapply IH].
  - unfold spec_text. destruct (parse_command (text_of msg)) as [cmd|] eqn:E; [|done]. cbn [mbind option_bind].
    case_match. destruct (spec_serve sp rest _) as [r'|] eqn:Er; [|done]. intros _. constructor.
    + split; [by rewrite E|set_solver].
    + eapply well_formed_mono, IH, Er. set_solver.
Qed.

Lemma spec_text_datagrams t a p b b' outs : spec_text sp t a p b = Some (b', outs) -> datagrams outs = outs.
Proof.
  unfold spec_text. destruct (parse_command t) as [[name|name|name|]|]; [..|done]; cbn [mbind option_bind].
  - destruct (sp_register sp _ _) as [r b2]. intros [= _ <-]. by destruct (r =? 0).
  - by intros [= _ <-].
  - by intros [= _ <-].
  - by intros [= _ <-].
Qed.

Lemma spec_serve_datagrams input b b' outs : spec_serve sp input b = Some (b', outs) -> datagrams outs = outs.
Proof.
  revert b b' outs. induction input as [|[|msg a p] rest IH]; intros b b' outs; cbn [spec_serve].
  - by intros [= _ <-].
  - apply IH.
  - destruct (spec_text sp _ a p b) as [[b1 out1]|] eqn:E1; [|done]. cbn [mbind option_bind].
    destruct (spec_serve sp rest b1) as [[b2 out2]|] eqn:E2; [|done]. cbn [mbind option_bind]. intros [= _ <-].
    by rewrite datagrams_app, (spec_text_datagrams _ _ _ _ _ _ E1), (IH _ _ _ E2).
Qed.
End Spec.

(** ** A server among packets *)

Section Served.
Context (ops : commands) `{!Strict ops} {B : Type} (sp : broker_spec B) (abs : kview -> B) (inv : Z -> kview -> Prop)
  `{!Refines ops sp abs inv}.
Context (Habs : Proper (same_core ==> eq) abs) (Hinv : forall N v w, same_core v w -> inv N v -> inv N w).

(** The pool ends, and the server does what it does alone. *)
Definition served (N : Z) (input : list received) (ps : pool) (v : kview) (b : B) (outs : list output) : Prop :=
  Acc (flip (cstep reliable_spec)) (ps, v) /\
  forall ps' v', rtc (cstep reliable_spec) (ps, v) (ps', v') ->
    (Forall finished ps' \/ exists s, cstep reliable_spec (ps', v') s) /\
    forall r, ps' !! 0%nat = Some (Ret r) ->
      r = OServer (Ok tt) /\ inv (N + Z.of_nat (length input)) v' /\ abs v' = b /\
      datagrams (v_out v') = datagrams (v_out v) ++ outs.

Lemma serve_among N buf input rest v b outs :
  length buf = 1024%nat -> 0 <= N -> N + Z.of_nat (length input) < 2 ^ 32 ->
  inv N v -> spec_serve sp input (abs v) = Some (b, outs) ->
  calls control_call (serve ops buf input) -> Forall (calls packet_call) rest ->
  served N input (thread OServer (serve ops buf input) :: rest) v b outs.
Proof.
  intros Hbuf HN HN1 Hv Hspec Hcs Hrest. split; [apply cstep_wf|]. intros ps' v' Hsteps.
  split; [apply cstep_progress, reliable_answers|]. intros r Hr.
  set (Q := λ r w, r = OServer (Ok tt) /\ inv (N + Z.of_nat (length input)) w /\ abs w = b /\ v_out w = v_out v ++ outs).
  destruct (interference_free Q (thread OServer (serve ops buf input)) rest v ps' v' r) as (v0 & (Hok & Hi & Ha & Ho) & Hcore);
    [|by apply calls_thread|done|exact Hsteps|exact Hr|].
  - apply wp_bind. eapply wp_mono; [|by eapply (serve_wp ops sp abs inv N v)].
    intros [[]| |] w Hw; [|done|done]. split; [done|]. exact Hw.
  - split; [done|]. split; [by eapply Hinv|]. split; [by rewrite <- (Habs _ _ Hcore)|].
    destruct Hcore as (_ & _ & _ & _ & _ & ->). by rewrite Ho, datagrams_app, (spec_serve_datagrams _ _ _ _ _ Hspec).
Qed.
End Served.

(** ** What the invariant and the broker depend on *)

#[export] Instance abs_proper : Proper (same_core ==> eq) abs.
Proof.
  intros v w (Ho & _ & _ & Hob & _). symmetry. apply abs_ext; [done|]. intros t id _. by rewrite Hob.
Qed.

Lemma inv_core N v w : same_core v w -> inv N v -> inv N w.
Proof.
  intros (Ho & Hc & Hf & Hob & Hfd & _) [Hi1 Hi2 Hi3 Hi4 Hi5 Hi6]. split; rewrite ?Ho, ?Hc, ?Hf, ?Hfd; try done.
  intros t id Ht. unfold topic_ok. rewrite Hob, Hc, Hf. by apply Hi2.
Qed.

(** ** The calls of the slow path *)

Section Calls.
Context `{!ProbeRead}.

Ltac packet_step := calls_step ltac:(done).

Lemma calls_count_packet {T} m (s : T) : calls packet_call (count_event m s).
Proof. eapply calls_mono, calls_count. by intros X e [? _]. Qed.

Lemma calls_callback packed s : calls packet_call (callback_fn packed s).
Proof.
  unfold callback_fn, with_headers, or_return, csum_replace, count_queue, bpf_clone_redirect, sget, sput.
  repeat first [apply calls_count_packet | packet_step].
Qed.

Lemma calls_for_each l s : calls packet_call (for_each_elem l s).
Proof.
  revert s. induction l as [|[k z] l IH]; intros s; cbn [for_each_elem]; repeat first [apply calls_callback | apply IH | packet_step].
Qed.

Lemma calls_tc s : calls packet_call (tc_ingress_broker s).
Proof.
  unfold tc_ingress_broker, rewrite_source, with_headers, or_return, csum_replace, bpf_skb_pull_data, on_data, swap_macs, sget, sput.
  repeat first [apply calls_count_packet | apply calls_for_each | packet_step].
Qed.

End Calls.

(** ** Theorem *)

(** C8. The control program is served under load.  Let it process any
    datagrams whose topic names fit, from a state that satisfies the
    invariant, while any number of frames and socket buffers are handled at
    the same time, on a kernel whose calls fail only for documented reasons.
    No schedule runs forever and none gets stuck before all programs have
    finished; and whenever the server has finished, under any schedule, it
    has ended normally, the maps stand for the broker the specification
    computes, the invariant holds, and the replies sent are exactly those of
    the specification, in order. *)
Theorem served_under_load `{!ProbeRead} (N sb : Z) buf input frames skbs v B outs :
  length buf = 1024%nat -> 0 <= N -> N + Z.of_nat (length input) < 2 ^ 32 ->
  inv N v -> spec_serve broker_model input (abs v) = Some (B, outs) ->
  served abs inv N input (broker_pool sb buf input frames skbs) v B outs.
Proof.
  intros Hbuf HN HN1 Hinv Hspec. apply (serve_among (broker_commands sb flush_fuel) broker_model abs inv abs_proper inv_core); try done.
  - eapply calls_mono, (calls_serve (senders input) []), spec_serve_parses, Hspec. by intros X e [? _].
  - apply Forall_app. split; apply Forall_fmap, Forall_forall; intros x _; apply calls_thread; [|apply calls_tc].
    eapply calls_mono, calls_xdp. by intros X e [? _].
Qed.

(** The pool of [mixed_pool], run to its end. *)
Definition load1 : prog ev outcome * kview := run_calls 4 (skb_thread publish_skb) no_sub.
Definition load2 : prog ev outcome * kview := run_calls 30 (server_thread (broker_commands 0 flush_fuel) (replicate 1024 0) subscribe_ab) load1.2.

Lemma load_steps : rtc (cstep reliable_spec) (mixed_pool, no_sub) ([load2.1; packet_thread publish_odd; load1.1], load2.2).
Proof.
  pose proof (run_calls_steps mixed_pool 2 4 (skb_thread publish_skb) no_sub eq_refl) as H1.
  fold load1 in H1. etrans; [exact H1|]. clear H1.
  pose proof (run_calls_steps (<[2%nat := load1.1]> mixed_pool) 0 30 (server_thread (broker_commands 0 flush_fuel) (replicate 1024 0) subscribe_ab) load1.2 eq_refl) as H2.
  fold load2 in H2. exact H2.
Qed.

Lemma no_sub_inv : inv 0 no_sub.
Proof.
  assert (forall t id, v_outer no_sub !! t = Some id -> t = key_t /\ id = 1) as Ho.
  { intros t id Ht. cbn [no_sub v_outer] in Ht. apply lookup_singleton_Some in Ht as [<- <-]. done. }
  split; [done| | | | |vm_compute; discriminate].
  - intros t id [-> ->]%Ho. exists ∅. split; [done|]. split; [done|]. unfold fast_ok. rewrite dom_empty_L.
    cbn [no_sub v_cnt v_first]. rewrite !lookup_empty. cbn. rewrite size_empty. split_and!; done || lia.
  - intros t t' id [-> _]%Ho [-> _]%Ho. done.
  - cbn [no_sub v_cnt]. rewrite dom_empty. set_solver.
  - cbn [no_sub v_first]. rewrite dom_empty. set_solver.
Qed.

Lemma served_under_load_witness :
  load2.1 = Ret (OServer (Ok tt)) /\ abs load2.2 = {[key_t := {[sub_a; sub_b]}]} /\
  datagrams (v_out load2.2) = [Datagram (bytes_of_string "SUBACK t") (le_val [10; 0; 0; 3]) (bswap16 5000);
                               Datagram (bytes_of_string "SUBACK t") (le_val [10; 0; 0; 4]) (bswap16 5001)].
Proof.
  destruct (served_under_load 0 0 (replicate 1024 0) subscribe_ab [publish_odd] [publish_skb] no_sub {[key_t := {[sub_a; sub_b]}]}
    [Datagram (bytes_of_string "SUBACK t") (le_val [10; 0; 0; 3]) (bswap16 5000);
     Datagram (bytes_of_string "SUBACK t") (le_val [10; 0; 0; 4]) (bswap16 5001)]) as [_ Hall].
  - reflexivity.
  - lia.
  - reflexivity.
  - exact no_sub_inv.
  - vm_compute. reflexivity.
  - destruct (Hall _ _ load_steps) as [_ Hr].
    assert (exists r, load2.1 = Ret r) as [r Hr2].
    { exists (match load2.1 with Ret r => r | _ => OPacket UB end). vm_compute. reflexivity. }
    assert ([load2.1; packet_thread publish_odd; load1.1] !! 0%nat = Some (Ret r)) as Hl by (rewrite <- Hr2; reflexivity).
    destruct (Hr r Hl) as (-> & _ & Ha & Ho). split; [exact Hr2|]. split; [exact Ha|exact Ho].
Defined.
