(* ===== verification/CloneKern.v ===== *)
(** * The XDP-only program: bpf_broker_xdp/bpf_broker_kern.c

    On a kernel whose driver implements [XDP_CLONE_TX], one XDP program does
    the whole fan-out.  It is run on the publish itself, where it asks for
    one copy per subscriber, and then on every copy [k = 1, 2, ...], which
    carries [k] in the 32-bit metadata in front of the packet and is sent to
    entry [k - 1] of the topic's subscriber array. *)

From Stdlib Require Import String.
From S2P Require Import Prelude Prog Packet Checksum Kernel RefKernel XdpBroker.
From stdpp Require Import base tactics numbers list gmap fin_maps.
Local Open Scope Z_scope.
Local Open Scope broker_scope.

(** ** The code *)

Definition XDP_CLONE_TX (num_copy : Z) : Z := i32 (Z.lor (Z.shiftl (i32 num_copy) 5) 6).

(** The helpers are the functions of the first program; the UDP checksum
    loop is unrolled 1024 times instead of 128. *)
Definition compute_ip_checksum : list Z -> nat -> option Z := Checksum.compute_ip_checksum.
Definition parse_udp_packet : list Z -> option (option hdrs) := Packet.parse_udp_packet.
Definition starts_with : list Z -> nat -> list Z -> nat -> option bool := Packet.starts_with.

Section Clone.
Context `{!ProbeRead}.

Definition compute_udp_checksum (f : list Z) (ip udp data_end : nat) : option Z :=
  udp_checksum_upto 1024 f ip udp data_end.

Definition extract_topic_id : list Z -> nat -> nat -> list Z -> Z * list Z := Packet.extract_topic_id.

(** A copy: the number in its metadata selects the subscriber. *)
Definition clone_copy (num_copy : Z) : pm ev (list Z) Z :=
  if num_copy =? 0 then pret XDP_DROP else
  h <- prd parse_udp_packet ;;
  match h with
  | None => pret XDP_DROP
  | Some (Hdrs eth ip udp payload) =>
      dest <- prd (λ f, ld16 f (udp + udp_dest)) ;;
      if negb (port_in_range (bswap16 dest)) then pret XDP_DROP else
      pub <- prd (λ f, starts_with f payload PUBLISH (length f)) ;;
      if negb pub then pret XDP_DROP else
      r <- prd (λ f, Some (extract_topic_id f (payload + 8) (length f) zero_key)) ;;
      let '(rc, topic_id) := r in
      if rc <? 0 then pret XDP_DROP else
      inner_map <- pcall (TopicLookup topic_outer topic_id) ;;
      match inner_map with
      | None => pret XDP_DROP
      | Some inner_map =>
          let idx := u32 (num_copy - 1) in
          packed_ptr <- pcall (ElemLookup (by_id inner_map) idx) ;;
          match packed_ptr with
          | None => pret XDP_DROP
          | Some packed =>
              swap_macs eth ;;
              readdress (λ f ip udp _ data_end, compute_udp_checksum f ip udp data_end)
                ip udp (packed_ip packed) (packed_port packed) ;;
              pret XDP_TX
          end
      end
  end.

(** The publish itself. *)
Definition clone_original : pm ev (list Z) Z :=
  h <- prd parse_udp_packet ;;
  match h with
  | None => pret XDP_PASS
  | Some (Hdrs eth ip udp payload) =>
      dest <- prd (λ f, ld16 f (udp + udp_dest)) ;;
      if negb (port_in_range (bswap16 dest)) then pret XDP_PASS else
      pub <- prd (λ f, starts_with f payload PUBLISH (length f)) ;;
      if negb pub then pret XDP_PASS else
      count_event pub_counter_2 ;;
      r <- prd (λ f, Some (extract_topic_id f (payload + 8) (length f) zero_key)) ;;
      let '(rc, topic_id) := r in
      if rc <? 0 then pret XDP_PASS else
      sub_count <- pcall (TopicLookup topic_sub_cnt topic_id) ;;
      match sub_count with
      | None => pret XDP_PASS
      | Some sub_count => if sub_count =? 0 then pret XDP_PASS else pret (XDP_CLONE_TX sub_count)
      end
  end.

(** [data_meta] holds the bytes between [ctx->data_meta] and [ctx->data]. *)
Definition xdp_broker (data_meta : list Z) : pm ev (list Z) Z :=
  if (4 <=? length data_meta)%nat then clone_copy (le_val (take 4 data_meta)) else clone_original.
End Clone.

(** The metadata the driver writes for copy [k]. *)
Definition copy_meta (k : Z) : list Z := le_bytes 4 k.

(** ** Specification *)

Definition copy_spec (k : Z) (f : list Z) (v : kview) : Z * list Z :=
  if (k =? 0) || negb (is_publish f) then (XDP_DROP, f) else
  match t ← published_topic f; id ← v_outer v !! t; elems_of (by_id id) v !! u32 (k - 1) with
  | None => (XDP_DROP, f)
  | Some packed => (XDP_TX, turned 1024 f packed)
  end.

Definition original_spec (f : list Z) (v : kview) : Z * kview :=
  if negb (is_publish f) then (XDP_PASS, v) else
  let v1 := bumped pub_counter_2 v in
  match t ← published_topic f; v_cnt v !! t with
  | None => (XDP_PASS, v1)
  | Some n => if n =? 0 then (XDP_PASS, v1) else (XDP_CLONE_TX n, v1)
  end.

Definition clone_spec (meta f : list Z) (v : kview) : Z * list Z * kview :=
  if (4 <=? length meta)%nat then (copy_spec (le_val (take 4 meta)) f v, v)
  else let '(rc, v') := original_spec f v in (rc, f, v').

(** ** The program meets it *)

Section CloneSpec.
Context `{!ProbeRead} (c : contract (E := ev) kview).
Context (Hc : forall X (e : ev X) v x v', c X e v x v' -> ev_spec e v x v').

Lemma clone_copy_wp k f v :
  bytes_ok f -> pwp c (clone_copy k) (λ rc f' v', (rc, f') = copy_spec k f v /\ v' = v) f v.
Proof.
  intros Hf. unfold clone_copy, copy_spec, is_publish, parse_udp_packet, starts_with, extract_topic_id.
  destruct (k =? 0); cbn [orb]; [by apply pwp_ret|].
  eapply pwp_bind, pwp_rd; [by apply parse_udp_packet_eq|].
  destruct (udp_frame 43 f) eqn:Hfr; cbn [andb negb std_hdrs]; [|by apply pwp_ret].
  apply udp_frame_length in Hfr.
  eapply pwp_bind, pwp_rd; [apply ld16_le; change (38 <= length f)%nat; lia|].
  change (34 + udp_dest)%nat with 36%nat. fold (dport f).
  destruct (port_in_range (dport f)); cbn [andb negb]; [|by apply pwp_ret].
  eapply pwp_bind, pwp_rd; [apply starts_with_eq|]. change (length PUBLISH) with 8%nat.
  destruct (bool_decide (PUBLISH = take 8 (drop 42 f))); cbn [negb]; [|by apply pwp_ret].
  eapply pwp_bind, pwp_rd; [done|]. change (42 + 8)%nat with 50%nat.
  pose proof (extract_topic f) as Ht. destruct (published_topic f) as [t|]; cbn [mbind option_bind].
  2: { destruct Ht as [out ->]. by apply pwp_ret. }
  rewrite Ht. cbn [Z.ltb Z.compare]. apply pwp_bind, pwp_call. intros x v' [-> ->]%Hc. cbn [topic_of].
  destruct (v_outer v !! t) as [id|]; cbn [mbind option_bind]; [|by apply pwp_ret].
  apply pwp_bind, pwp_call. intros x v' [-> ->]%Hc.
  destruct (elems_of (by_id id) v !! u32 (k - 1)) as [packed|]; [|by apply pwp_ret].
  apply pwp_bind, swap_macs_wp; [lia|].
  apply pwp_bind, (readdress_udp_wp _ 1024); [done|auto with broker| |lia|].
  { rewrite swapped_length. lia. }
  intros da dp ic -> -> ->. by apply pwp_ret.
Qed.

Lemma clone_original_wp f v :
  bytes_ok f -> pwp c clone_original (λ rc f' v', f' = f /\ (rc, v') = original_spec f v) f v.
Proof.
  intros Hf. unfold clone_original, original_spec, is_publish, parse_udp_packet, starts_with, extract_topic_id.
  eapply pwp_bind, pwp_rd; [by apply parse_udp_packet_eq|].
  destruct (udp_frame 43 f) eqn:Hfr; cbn [andb negb std_hdrs]; [|by apply pwp_ret].
  apply udp_frame_length in Hfr.
  eapply pwp_bind, pwp_rd; [apply ld16_le; change (38 <= length f)%nat; lia|].
  change (34 + udp_dest)%nat with 36%nat. fold (dport f).
  destruct (port_in_range (dport f)); cbn [andb negb]; [|by apply pwp_ret].
  eapply pwp_bind, pwp_rd; [apply starts_with_eq|]. change (length PUBLISH) with 8%nat.
  destruct (bool_decide (PUBLISH = take 8 (drop 42 f))); cbn [negb]; [|by apply pwp_ret].
  apply pwp_bind, (count_event_wp _ _ _ _ _ Hc).
  eapply pwp_bind, pwp_rd; [done|]. change (42 + 8)%nat with 50%nat.
  pose proof (extract_topic f) as Ht. destruct (published_topic f) as [t|]; cbn [mbind option_bind].
  2: { destruct Ht as [out ->]. by apply pwp_ret. }
  rewrite Ht. cbn [Z.ltb Z.compare]. apply pwp_bind, pwp_call. intros x v' [-> ->]%Hc.
  rewrite topic_of_bumped. cbn [topic_of].
  destruct (v_cnt v !! t) as [n|]; [|by apply pwp_ret]. case_goal; by apply pwp_ret.
Qed.

Lemma clone_wp meta f v :
  bytes_ok f -> pwp c (xdp_broker meta) (λ rc f' v', (rc, f', v') = clone_spec meta f v) f v.
Proof.
  intros Hf. unfold xdp_broker, clone_spec. case_goal.
  - eapply pwp_mono; [|by apply clone_copy_wp]. by intros rc f' v' [<- ->].
  - eapply pwp_mono; [|by apply clone_original_wp]. by intros rc f' v' [-> <-].
Qed.
End CloneSpec.

Lemma clone_run `{!ProbeRead} {K} `{!Kernel K} meta f (s : K) :
  bytes_ok f ->
  exists rc f' s', krun (xdp_broker meta f) s = (Ok (rc, f'), s') /\
    (rc, f', kview_of s') = clone_spec meta f (kview_of s).
Proof.
  intros Hf. pose proof (krun_wp (xdp_broker meta f) _ s
    (clone_wp kernel_spec (λ _ _ _ _ _ H, H) meta f (kview_of s) Hf)) as Hrun. cbn in Hrun.
  destruct (krun (xdp_broker meta f) s) as [[[rc f']| |] s']; [|done|done]. by exists rc, f', s'.
Qed.
