(* ===== verification/CloneControl.v ===== *)
(** * The control program of the XDP-only broker: bpf_broker_xdp/bpf_broker_proto.c

    The same server over other maps: the inner map of a topic is an array of
    packed subscribers, filled from index 0, and the count is the next free
    index. *)

From Stdlib Require Import String.
From S2P Require Import Prelude Prog Packet Kernel CString Server.
From stdpp Require Import base tactics numbers list gmap fin_maps.
Local Open Scope Z_scope.
Local Open Scope broker_scope.

(** Attributes of the inner arrays [add_topic] creates. *)
Definition array_attr : bpf_attr := BpfAttr BPF_MAP_TYPE_ARRAY 4 8 MAX_SUBSCRIBERS.

Definition add_subscriber (topic_name : list Z) (ip port : Z) : um ev Z :=
  key_opt <~ ulift (make_topic_key topic_name) ;;
  match key_opt with
  | None => uret (-1)
  | Some topic_key =>
      outer <~ ucall (TopicGet topic_outer topic_key) ;;
      match outer with
      | None => uret (-1)
      | Some inner_id =>
          inner_fd <~ ucall (MapGetFdById inner_id) ;;
          if inner_fd <? 0 then uret (-1) else
          c <~ ucall (TopicGet topic_sub_cnt topic_key) ;;
          let idx := default 0 c in
          let packed := pack ip port in
          r <~ ucall (ElemUpdate (by_fd inner_fd) idx packed) ;;
          if r <? 0 then ucall (CloseFd inner_fd) ;~ uret (-1) else
          let new_count := u32 (idx + 1) in
          r <~ ucall (TopicUpdate topic_sub_cnt topic_key new_count) ;;
          if r <? 0 then ucall (CloseFd inner_fd) ;~ uret (-1) else
          ucall (CloseFd inner_fd) ;~ uret 0
      end
  end.

(** [for (i = 0; i < count; i++) update(inner_fd, &i, &zero);], with [n]
    rounds left. *)
Fixpoint zero_loop (n : nat) (i : Z) (inner_fd : Z) : um ev unit :=
  match n with
  | O => uret tt
  | S n' =>
      ucall (ElemUpdate (by_fd inner_fd) i 0) ;~
      zero_loop n' (u32 (i + 1)) inner_fd
  end.

Definition flush_topic (topic_name : list Z) : um ev Z :=
  key_opt <~ ulift (make_topic_key topic_name) ;;
  match key_opt with
  | None => uret (-1)
  | Some topic_key =>
      c <~ ucall (TopicGet topic_sub_cnt topic_key) ;;
      let count := default 0 c in
      if count =? 0 then uret 0 else
      outer <~ ucall (TopicGet topic_outer topic_key) ;;
      match outer with
      | None => uret 0
      | Some inner_id =>
          inner_fd <~ ucall (MapGetFdById inner_id) ;;
          if inner_fd <? 0 then uret (-1) else
          zero_loop (Z.to_nat count) 0 inner_fd ;~
          ucall (CloseFd inner_fd) ;~
          ucall (TopicUpdate topic_sub_cnt topic_key 0) ;~
          uret 0
      end
  end.

Definition add_topic (topic_name : list Z) : um ev Z :=
  key_opt <~ ulift (make_topic_key topic_name) ;;
  match key_opt with
  | None => uret (-1)
  | Some topic_key =>
      outer <~ ucall (TopicGet topic_outer topic_key) ;;
      match outer with
      | Some _ => uret 0
      | None =>
          inner_fd <~ ucall (MapCreate array_attr) ;;
          if inner_fd <? 0 then uret (-1) else
          r <~ ucall (TopicUpdate topic_outer topic_key (u32 inner_fd)) ;;
          if r <? 0 then ucall (CloseFd inner_fd) ;~ uret (-1) else
          ucall (CloseFd inner_fd) ;~ uret 0
      end
  end.

(** The operations the server loop calls. *)
Definition clone_commands : commands := Commands add_topic add_subscriber flush_topic.

(** ** The abstract broker: the subscriptions of every topic, in order *)

Abbreviation roster := (gmap (list Z) (list Z)).

Definition spec_register (t : list Z) (B : roster) : Z * roster :=
  match B !! t with
  | Some _ => (0, B)
  | None => if Z.of_nat (size B) <? MAX_TOPIC_ID then (0, <[t := []]> B) else (-1, B)
  end.

Definition spec_subscribe (t : list Z) (k : Z) (B : roster) : Z * roster :=
  match B !! t with
  | None => (-1, B)
  | Some l => if Z.of_nat (length l) <? MAX_SUBSCRIBERS then (0, <[t := l ++ [k]]> B) else (-1, B)
  end.

Definition spec_flush (t : list Z) (B : roster) : Z * roster :=
  match B !! t with None => (0, B) | Some _ => (0, <[t := []]> B) end.

Definition roster_model : broker_spec roster := BrokerSpec roster spec_register spec_subscribe spec_flush.

(** The subscribers a topic's count and array stand for. *)
Definition entries (g : gmap Z Z) (n : nat) : list Z :=
  (λ i, default 0 (g !! Z.of_nat i)) <$> seq 0 n.
Definition subscribers (v : kview) (t : list Z) (id : Z) : list Z :=
  entries (elems_of (by_id id) v) (Z.to_nat (default 0 (v_cnt v !! t))).
Definition abs (v : kview) : roster := map_imap (λ t id, Some (subscribers v t id)) (v_outer v).

(** The invariant: every registered topic has an array of its own whose
    indices are all present, and a count within its size. *)
Definition array_ok (g : gmap Z Z) : Prop := forall i, is_Some (g !! i) <-> 0 <= i < MAX_SUBSCRIBERS.

Record inv (v : kview) : Prop := Inv {
  inv_fds : v_fds v = ∅;
  inv_topic : forall t id, v_outer v !! t = Some id ->
    exists g, v_objs v !! id = Some (MObj array_attr g) /\ array_ok g;
  inv_inj : forall t t' id, v_outer v !! t = Some id -> v_outer v !! t' = Some id -> t = t';
  inv_cnt : forall t n, v_cnt v !! t = Some n -> 0 <= n <= MAX_SUBSCRIBERS /\ is_Some (v_outer v !! t);
  inv_size : Z.of_nat (size (v_outer v)) <= MAX_TOPIC_ID
}.
