(* ===== verification/CloneSpec.v ===== *)
(** * The XDP-only control program refines its abstract broker *)

From Stdlib Require Import String.
From S2P Require Import Prelude Prog Packet Kernel Views RefKernel CString Server Faults CloneControl.
From stdpp Require Import base tactics numbers list gmap fin_maps.
Local Open Scope Z_scope.
Local Open Scope broker_scope.

Lemma entries_length g n : length (entries g n) = n.
Proof. unfold entries. by rewrite length_fmap, length_seq. Qed.

Lemma entries_lookup g n i : (i < n)%nat -> entries g n !! i = Some (default 0 (g !! Z.of_nat i)).
Proof. intros Hi. unfold entries. rewrite list_lookup_fmap, lookup_seq_lt by done. done. Qed.

Lemma entries_ext g h n :
  (forall i, (i < n)%nat -> g !! Z.of_nat i = h !! Z.of_nat i) -> entries g n = entries h n.
Proof.
  intros H. apply list_fmap_ext. intros i x Hx. apply lookup_seq in Hx as [-> Hi]. by rewrite H by lia.
Qed.

Lemma entries_snoc g n k : entries (<[Z.of_nat n := k]> g) (S n) = entries g n ++ [k].
Proof.
  unfold entries. rewrite seq_S, fmap_app. f_equal.
  - apply (entries_ext (<[Z.of_nat n := k]> g) g n). intros i Hi. by rewrite lookup_insert_ne by lia.
  - cbn. by rewrite lookup_insert_eq.
Qed.

Lemma roster_lookup v t id : v_outer v !! t = Some id -> abs v !! t = Some (subscribers v t id).
Proof. intros H. unfold abs. by rewrite map_lookup_imap, H. Qed.

Lemma roster_lookup_None v t : v_outer v !! t = None -> abs v !! t = None.
Proof. intros H. unfold abs. by rewrite map_lookup_imap, H. Qed.

Lemma abs_dom v : dom (abs v) = dom (v_outer v).
Proof.
  apply set_eq. intros t. rewrite !elem_of_dom. unfold abs. rewrite map_lookup_imap.
  destruct (v_outer v !! t); cbn; split; intros [? H]; try done; by eexists.
Qed.

Lemma roster_size v : size (abs v) = size (v_outer v).
Proof. by rewrite <- !size_dom, abs_dom. Qed.

Lemma subscribers_eq v t id a g :
  v_objs v !! id = Some (MObj a g) ->
  subscribers v t id = entries g (Z.to_nat (default 0 (v_cnt v !! t))).
Proof. intros H. unfold subscribers. by rewrite (elems_by_id _ _ _ _ H). Qed.

Lemma abs_insert v w t id l :
  v_outer w = v_outer v -> v_outer v !! t = Some id -> subscribers w t id = l ->
  (forall t' id', t' <> t -> v_outer v !! t' = Some id' -> subscribers w t' id' = subscribers v t' id') ->
  abs w = <[t := l]> (abs v).
Proof.
  intros Ho Ht Hl Hother. apply map_eq. intros t'. destruct (decide (t' = t)) as [->|Hne].
  - rewrite lookup_insert_eq. rewrite (roster_lookup _ _ id) by congruence. by rewrite Hl.
  - rewrite lookup_insert_ne by done. unfold abs. rewrite !map_lookup_imap, Ho.
    destruct (v_outer v !! t') as [id'|] eqn:E; [|done]. cbn. by rewrite (Hother t' id').
Qed.

Lemma array_ok_insert g i x : array_ok g -> 0 <= i < MAX_SUBSCRIBERS -> array_ok (<[i := x]> g).
Proof.
  intros Hg Hi j. destruct (decide (i = j)) as [->|Hne].
  - rewrite lookup_insert_eq. split; [done|by eexists].
  - rewrite lookup_insert_ne by done. apply Hg.
Qed.

Lemma new_array_ok : array_ok (mo_elems (new_obj array_attr)).
Proof.
  intros i. unfold new_obj, array_attr. cbn [ba_map_type mo_elems ba_max_entries].
  set (n := Z.to_nat MAX_SUBSCRIBERS). assert (Z.of_nat n = MAX_SUBSCRIBERS) as Hn by done. clearbody n.
  rewrite <- elem_of_dom, dom_list_to_map_L, elem_of_list_to_set, list_elem_of_fmap. split.
  - intros ([j x] & -> & Hj). apply list_elem_of_fmap in Hj as (m & [= -> ->] & Hm).
    apply elem_of_seq in Hm. cbn. lia.
  - intros Hi. exists (i, 0). split; [done|]. apply list_elem_of_fmap. exists (Z.to_nat i).
    split; [f_equal; lia|]. apply elem_of_seq. lia.
Qed.

(** A command that changes one topic's array and count. *)
Lemma array_inv_update v w t id g g' n :
  inv v -> v_outer v !! t = Some id -> v_objs v !! id = Some (MObj array_attr g) ->
  v_fds w = ∅ -> v_outer w = v_outer v -> v_objs w = <[id := MObj array_attr g']> (v_objs v) ->
  v_cnt w = <[t := Z.of_nat n]> (v_cnt v) -> array_ok g' -> Z.of_nat n <= MAX_SUBSCRIBERS ->
  inv w /\ abs w = <[t := entries g' n]> (abs v).
Proof.
  intros [Hd Ht Hi Hc Hs] Hto Hg Hfd Ho Hobj Hcnt Hok Hn.
  assert (forall t' id', t' <> t -> v_outer v !! t' = Some id' -> id' <> id) as Hne.
  { intros t' id' Hne H' ->. apply Hne. by apply (Hi t' t id). }
  split.
  - split; rewrite ?Ho; try done.
    + intros t' id' H'. rewrite Hobj. destruct (decide (t' = t)) as [->|Hne'].
      * exists g'. assert (id' = id) as -> by congruence. by rewrite lookup_insert_eq.
      * rewrite lookup_insert_ne by (symmetry; eauto). by apply (Ht t').
    + intros t' m. rewrite Hcnt, lookup_insert. case_decide; subst.
      * intros [= <-]. split; [lia|by eexists].
      * apply Hc.
  - apply (abs_insert _ _ _ id); try done.
    + rewrite (subscribers_eq _ _ _ array_attr g') by (by rewrite Hobj, lookup_insert_eq).
      rewrite Hcnt, lookup_insert_eq. cbn. by rewrite Nat2Z.id.
    + intros t' id' Hne' H'. unfold subscribers. rewrite Hcnt, lookup_insert_ne by done.
      f_equal. unfold elems_of, obj_of. cbn. rewrite Hobj, lookup_insert_ne by (symmetry; eauto). done.
Qed.

(** ** The operations *)

Lemma cnt_room v t id : inv v -> v_outer v !! t = Some id -> room MAX_TOPIC_ID (v_cnt v) t.
Proof.
  intros Hinv Ht. apply (room_dom _ _ (v_outer v)); [|apply (inv_size _ Hinv)|by eexists].
  intros t' [n Hn]%elem_of_dom. apply elem_of_dom. by apply (inv_cnt _ Hinv t' n).
Qed.

(** An entry of an array below its size can be written. *)
Lemma array_update_wp fd id g i x v Q :
  v_fds v !! fd = Some id -> v_objs v !! id = Some (MObj array_attr g) ->
  (0 <= i < MAX_SUBSCRIBERS -> Q 0 (set_objs (<[id := MObj array_attr (<[i := x]> g)]> (v_objs v)) v)) ->
  (~ 0 <= i < MAX_SUBSCRIBERS -> forall r, r < 0 -> Q r v) ->
  uwp reliable_spec (ucall (ElemUpdate (by_fd fd) i x)) Q v.
Proof.
  intros Hfd Hobj Hin Hout. destruct (fd_object _ _ _ _ _ Hfd Hobj) as (He & Ha & Hset).
  call r w Hs Hr. unfold elem_room in Hs, Hr. rewrite Ha, He, Hset, (alter_Some _ _ _ _ Hobj) in Hs. rewrite Ha in Hr.
  cbv [array_attr ba_map_type ba_max_entries mo_attr] in Hs, Hr.
  destruct Hs as [(-> & Hi & ->)|(Hlt & ->)]; [by apply Hin|].
  apply Hout; [|done]. intros Hi. specialize (Hr Hi). lia.
Qed.

Lemma clone_subscribe_wp key k ip port v :
  make_topic_key key = Some (Some k) -> inv v ->
  uwp reliable_spec (add_subscriber key ip port)
    (λ r w, inv w /\ v_out w = v_out v /\ (r, abs w) = spec_subscribe k (pack ip port) (abs v)) v.
Proof.
  intros Hk Hinv. unfold add_subscriber. rewrite Hk. cbn [ulift]. rewrite ubind_uret. unfold spec_subscribe.
  lookup v1.
  destruct (v_outer v !! k) as [id|] eqn:Ho.
  2: { apply uwp_ret. by rewrite roster_lookup_None. }
  rewrite (roster_lookup _ _ _ Ho). destruct (inv_topic _ Hinv k id Ho) as (g & Hobj & Hok).
  rewrite (subscribers_eq _ _ _ _ _ Hobj), entries_length.
  call fd v1 Hs Hr. destruct Hs as [(Hfd & Hfree & _ & ->)|(Hfd & ->)].
  2: { specialize (Hr (inv_fds _ Hinv) (mk_is_Some _ _ Hobj)). lia. }
  rewrite (proj2 (Z.ltb_ge fd 0)) by lia. clear Hr.
  lookup v1. cbv zeta. set (sk := pack ip port).
  pose proof (cnt_room _ _ _ Hinv Ho) as Hroom.
  assert (0 <= default 0 (v_cnt v !! k) <= MAX_SUBSCRIBERS) as Hn.
  { destruct (v_cnt v !! k) eqn:E; [by apply (inv_cnt _ Hinv k)|cbn; done]. }
  pose proof (inv_fds _ Hinv) as Hfds. destruct v as [o c f ob fds p cl q out].
  cbn [v_outer v_objs v_fds v_out v_cnt] in *. subst fds. view_cbn. cbn [v_cnt set_fds].
  set (n := default 0 (c !! k)) in *. rewrite Z2Nat.id by lia.
  apply uwp_bind, (array_update_wp _ id g); [apply lookup_insert_eq|done| |].
  - intros Hi. rewrite (proj2 (Z.ltb_lt n _)) by lia. cbn [Z.ltb Z.compare]. view_cbn.
    replace (u32 (n + 1)) with (n + 1) by (unfold u32, MAX_SUBSCRIBERS in *; rewrite Z.mod_small; lia).
    call r v1 Hs Hr. cbn [v_cnt stored] in Hs, Hr.
    destruct Hs as [(-> & _ & w & [= <-] & ->)|(Hlt & ->)].
    2: { specialize (Hr Hroom (mk_is_Some _ _ eq_refl)). lia. }
    clear Hr. cbn [Z.ltb Z.compare]. view_cbn. call x v1 Hs Hr. subst v1. view_cbn.
    rewrite delete_insert_id by done. apply uwp_ret. cbn [v_out].
    replace (entries g (Z.to_nat n) ++ [sk]) with (entries (<[n := sk]> g) (S (Z.to_nat n))).
    2: { rewrite <- entries_snoc. by rewrite Z2Nat.id by lia. }
    match goal with |- inv ?w /\ _ /\ (0, abs ?w) = (0, <[k := ?l]> (abs ?v)) =>
      assert (inv w /\ abs w = <[k := l]> (abs v)) as [? ->]; [|done] end.
    apply (array_inv_update _ _ _ id g); try done; [|by apply array_ok_insert|].
    + cbn. f_equal. lia.
    + unfold MAX_SUBSCRIBERS in *. lia.
  - intros Hi r Hlt. rewrite (proj2 (Z.ltb_ge n _)) by lia. rewrite (proj2 (Z.ltb_lt r 0)) by done.
    call x v1 Hs Hr. subst v1. view_cbn. rewrite delete_insert_id by done. by apply uwp_ret.
Qed.

(** The zeroing loop writes exactly the first [count] entries. *)
Lemma zero_loop_wp m i fd id g v :
  v_fds v !! fd = Some id -> v_objs v !! id = Some (MObj array_attr g) -> array_ok g ->
  0 <= i -> i + Z.of_nat m <= MAX_SUBSCRIBERS ->
  uwp reliable_spec (zero_loop m i fd)
    (λ _ w, exists g', w = set_objs (<[id := MObj array_attr g']> (v_objs v)) v /\ array_ok g' /\
       forall j, g' !! j = if decide (i <= j < i + Z.of_nat m) then Some 0 else g !! j) v.
Proof.
  revert i g v. induction m as [|m IH]; intros i g v Hfd Hobj Hok Hi Hm; cbn [zero_loop].
  - apply uwp_ret. exists g. split_and!; [rewrite insert_id by done; by destruct v|done|].
    intros j. rewrite decide_False by lia. done.
  - apply uwp_bind, (array_update_wp _ id g); [done|done| |lia]. intros Hi'.
    replace (u32 (i + 1)) with (i + 1) by (unfold u32, MAX_SUBSCRIBERS in *; rewrite Z.mod_small; lia).
    eapply uwp_mono; [|apply (IH (i + 1) (<[i := 0]> g))].
    + intros _ w (g' & -> & Hok' & Hg'). exists g'. split_and!; [|done|].
      * rewrite set_objs_objs. destruct v; cbn. by rewrite insert_insert_eq.
      * intros j. rewrite Hg'. destruct (decide (i = j)) as [->|Hne].
        -- rewrite (decide_False (P := j + 1 <= j < _)) by lia. rewrite decide_True by lia.
           by rewrite lookup_insert_eq.
        -- rewrite lookup_insert_ne by done. case_decide; case_decide; done || lia.
    + by destruct v.
    + destruct v; cbn. by rewrite lookup_insert_eq.
    + by apply array_ok_insert.
    + lia.
    + lia.
Qed.

(** What a flush leaves in the array of a topic. *)
Definition zeroed (k : list Z) (v w : kview) : Prop :=
  forall id, v_outer v !! k = Some id -> v_outer w !! k = Some id /\
    forall j, 0 <= j < default 0 (v_cnt v !! k) -> elems_of (by_id id) w !! j = Some 0.

Lemma clone_flush_wp key k v :
  make_topic_key key = Some (Some k) -> inv v ->
  uwp reliable_spec (flush_topic key)
    (λ r w, (inv w /\ v_out w = v_out v /\ (r, abs w) = spec_flush k (abs v)) /\ zeroed k v w) v.
Proof.
  intros Hk Hinv. unfold flush_topic. rewrite Hk. cbn [ulift]. rewrite ubind_uret. unfold spec_flush.
  lookup v1. cbv zeta. set (n := default 0 (v_cnt v !! k)).
  destruct (n =? 0) eqn:En; split_hyps.
  { apply uwp_ret. split; [|intros id Hid; split; [done|]; fold n; lia]. split_and!; [done|done|]. destruct (v_outer v !! k) as [id|] eqn:Ho.
    - rewrite (roster_lookup _ _ _ Ho), insert_id; [done|]. rewrite (roster_lookup _ _ _ Ho). unfold subscribers.
      fold n. by rewrite En.
    - by rewrite (roster_lookup_None _ _ Ho). }
  lookup v1.
  destruct (v_outer v !! k) as [id|] eqn:Ho.
  2: { apply uwp_ret. split; [by rewrite roster_lookup_None|]. intros id. by rewrite Ho. }
  rewrite (roster_lookup _ _ _ Ho). destruct (inv_topic _ Hinv k id Ho) as (g & Hobj & Hok).
  call fd v1 Hs Hr. destruct Hs as [(Hfd & Hfree & _ & ->)|(Hfd & ->)].
  2: { specialize (Hr (inv_fds _ Hinv) (mk_is_Some _ _ Hobj)). lia. }
  rewrite (proj2 (Z.ltb_ge fd 0)) by lia. clear Hr.
  assert (0 <= n <= MAX_SUBSCRIBERS) as Hn.
  { subst n. destruct (v_cnt v !! k) eqn:E; [by apply (inv_cnt _ Hinv k)|cbn; done]. }
  pose proof (cnt_room _ _ _ Hinv Ho) as Hroom. unfold zeroed. fold n. clearbody n.
  pose proof (inv_fds _ Hinv) as Hfds. destruct v as [o c f ob fds p cl q out].
  cbn [v_outer v_objs v_fds v_out v_cnt] in *. subst fds. view_cbn.
  apply uwp_bind. eapply uwp_mono; [|apply (zero_loop_wp _ _ _ id g); [apply lookup_insert_eq|done|done|lia|lia]].
  intros [] v1 (g' & -> & Hok' & Hz). view_cbn.
  call x v1 Hs Hr. subst v1. clear Hr. view_cbn. rewrite delete_insert_id by done.
  call r v1 Hs Hr. cbn [v_cnt stored] in Hs, Hr.
  destruct Hs as [(-> & _ & w & [= <-] & ->)|(Hlt & ->)].
  2: { specialize (Hr Hroom (mk_is_Some _ _ eq_refl)). lia. }
  view_cbn. apply uwp_ret. cbn [v_out].
  split.
  2: { intros id' Hid'. split; [done|]. assert (id' = id) as -> by congruence. intros j Hj.
       rewrite (elems_by_id _ _ g' array_attr) by apply lookup_insert_eq. rewrite Hz. by rewrite decide_True by lia. }
  match goal with |- inv ?w /\ _ /\ (0, abs ?w) = (0, <[k := []]> (abs ?v)) =>
    assert (inv w /\ abs w = <[k := entries g' 0]> (abs v)) as [? ->]; [|done] end.
  by apply (array_inv_update _ _ _ id g).
Qed.

(** A new array no topic refers to, and one a new topic refers to. *)
Lemma array_inv_fresh id x o c f ob p cl q out :
  let v := KView o c f ob ∅ p cl q out in
  inv v -> ob !! id = None ->
  let w := KView o c f (<[id := x]> ob) ∅ p cl q out in inv w /\ abs w = abs v.
Proof.
  intros v Hinv Hid w.
  assert (forall t i, o !! t = Some i -> ob !! i = <[id := x]> ob !! i) as Hne.
  { intros t i Hti. destruct (inv_topic _ Hinv t i Hti) as (g & Hg & _). cbn in Hg.
    rewrite lookup_insert_ne; [done|]. intros ->. congruence. }
  split.
  - destruct Hinv as [Hd Ht Hi Hc Hs]. split; try done. intros t i Hti. cbn. rewrite <- (Hne t i Hti). by apply (Ht t).
  - apply map_eq. intros t. unfold abs. rewrite !map_lookup_imap. cbn. destruct (o !! t) as [i|] eqn:E; [|done].
    cbn. f_equal. unfold subscribers, elems_of, obj_of. cbn. by rewrite <- (Hne t i E).
Qed.

Lemma array_inv_new_topic k id o c f ob p cl q out :
  let v := KView o c f ob ∅ p cl q out in
  inv v -> ob !! id = None -> o !! k = None -> room MAX_TOPIC_ID o k ->
  let w := KView (<[k := id]> o) c f (<[id := new_obj array_attr]> ob) ∅ p cl q out in
  inv w /\ abs w = <[k := []]> (abs v).
Proof.
  intros v Hinv Hid Hk Hroom w.
  assert (forall t i, o !! t = Some i -> i <> id) as Hne.
  { intros t i Hti ->. destruct (inv_topic _ Hinv t id Hti) as (g & Hg & _). cbn in Hg. congruence. }
  assert (c !! k = None) as Hck.
  { destruct (c !! k) as [n|] eqn:E; [|done]. destruct (inv_cnt _ Hinv k n E) as [_ [? H]]. cbn in H. congruence. }
  destruct Hinv as [Hd Ht Hi Hc Hs]. split.
  - split; try done; cbn [v_outer v_cnt v_objs w].
    + intros t i. rewrite lookup_insert. case_decide; subst.
      * intros [= <-]. exists (mo_elems (new_obj array_attr)). rewrite lookup_insert_eq. split; [done|apply new_array_ok].
      * intros Hti. rewrite lookup_insert_ne by (symmetry; eauto). by apply (Ht t).
    + intros t t' i. rewrite !lookup_insert. repeat case_decide; try (intros; congruence).
      * intros [= ->] Hi'. by destruct (Hne t' i Hi').
      * intros Hi' [= ->]. by destruct (Hne t i Hi').
      * apply Hi.
    + intros t n Hn. destruct (Hc t n Hn) as [? Hs']. split; [done|]. cbn in Hs'.
      rewrite lookup_insert. case_decide; [by eexists|done].
    + rewrite map_size_insert_None by done. destruct Hroom as [[? ?]|Hlt]; [congruence|lia].
  - apply map_eq. intros t. rewrite lookup_insert. unfold abs. rewrite map_lookup_imap. cbn. rewrite lookup_insert.
    case_decide; subst; cbn.
    + f_equal. unfold subscribers. cbn. by rewrite Hck.
    + rewrite map_lookup_imap. cbn. destruct (o !! t) as [i|] eqn:E; [|done]. cbn. f_equal.
      unfold subscribers, elems_of, obj_of. cbn. by rewrite lookup_insert_ne by (symmetry; eauto).
Qed.

Lemma clone_register_wp key k v :
  make_topic_key key = Some (Some k) -> inv v ->
  uwp reliable_spec (add_topic key)
    (λ r w, inv w /\ v_out w = v_out v /\ (r, abs w) = spec_register k (abs v)) v.
Proof.
  intros Hk Hinv. unfold add_topic. rewrite Hk. cbn [ulift]. rewrite ubind_uret. unfold spec_register.
  lookup v1. rewrite roster_size.
  destruct (v_outer v !! k) as [id|] eqn:Ho.
  { apply uwp_ret. by rewrite (roster_lookup _ _ _ Ho). }
  rewrite (roster_lookup_None _ _ Ho).
  call fd v1 Hs Hr. destruct Hs as [(Hfd & Hfree & id & Hid & ->)|(Hfd & ->)].
  2: { specialize (Hr (inv_fds _ Hinv)). lia. }
  rewrite (proj2 (Z.ltb_ge fd 0)) by lia. clear Hr.
  pose proof (inv_fds _ Hinv) as Hfds. destruct v as [o c f ob fds p cl q out].
  cbn [v_outer v_objs v_fds v_out set_fds set_objs] in *. subst fds.
  replace (u32 fd) with fd by (unfold u32; rewrite Z.mod_small; lia).
  call r v1 Hs Hr. cbn [v_outer v_fds stored] in Hs, Hr. rewrite lookup_insert_eq in Hs, Hr.
  destruct Hs as [(-> & Hroom & w & [= <-] & ->)|(Hlt & ->)].
  - cbn [Z.ltb Z.compare set_topic]. call x v1 Hs Hr'. subst v1. cbn [set_fds v_fds].
    rewrite delete_insert_id by done. apply uwp_ret.
    destruct (array_inv_new_topic k id o c f ob p cl q out Hinv Hid Ho Hroom) as [Hi ->].
    split_and!; [done|done|]. rewrite (proj2 (Z.ltb_lt _ _)); [done|].
    destruct Hroom as [[? ?]|Hroom]; [congruence|done].
  - rewrite (proj2 (Z.ltb_lt r 0)) by done. call x v1 Hs Hr'. subst v1. cbn [set_fds v_fds].
    rewrite delete_insert_id by done.
    apply uwp_ret. destruct (array_inv_fresh id (new_obj array_attr) o c f ob p cl q out Hinv Hid) as [Hi ->].
    split_and!; [done|done|]. rewrite (proj2 (Z.ltb_ge _ _)); [done|].
    destruct (Z.le_gt_cases MAX_TOPIC_ID (Z.of_nat (size o))) as [|Hr2]; [done|].
    specialize (Hr (or_intror Hr2) (mk_is_Some _ _ eq_refl)). lia.
Qed.

(** ** The interface *)

#[export] Instance clone_strict : Strict clone_commands.
Proof. intros key Hk. cbn. unfold flush_topic. by rewrite Hk. Qed.

#[export] Instance clone_refines : Refines clone_commands roster_model abs (λ _, inv).
Proof.
  split.
  - done.
  - intros N x v []. split; [by destruct v; split|by destruct v].
  - intros. by apply clone_register_wp.
  - intros. by apply clone_subscribe_wp.
  - intros. eapply uwp_mono; [|by apply clone_flush_wp]. by intros r w [? _].
Qed.

(** What the program keeps whatever call fails: arrays as [add_topic] makes
    them, and no subscriber outside [S] but the zero of a free entry. *)
Definition array_kept (S : gset Z) (o : mobj) : Prop :=
  mo_attr o = array_attr /\ array_ok (mo_elems o) /\ map_Forall (λ _ x, x = 0 \/ x ∈ S) (mo_elems o).
Abbreviation kept S := (sound (array_kept S) (λ _, True)).

Lemma array_kept_insert S o i x :
  x = 0 \/ x ∈ S -> array_kept S o -> obj_room o i -> array_kept S (with_elems (<[i := x]> (mo_elems o)) o).
Proof.
  intros Hx (Ha & Hok & Hall) Hr. unfold obj_room in Hr. rewrite Ha in Hr. cbn in Hr.
  split_and!; cbn; [done|by apply array_ok_insert|by apply map_Forall_insert_2].
Qed.

Lemma array_kept_new S : array_kept S (new_obj array_attr).
Proof.
  split_and!; [done|apply new_array_ok|]. intros i x Hx. left. unfold new_obj, array_attr in Hx.
  cbn [ba_map_type mo_elems] in Hx. apply elem_of_list_to_map_2, list_elem_of_fmap in Hx as (j & [= _ ->] & _). done.
Qed.

Tactic Notation "kcall" simple_intropattern(x) ident(v') ident(Hs) ident(Hf) :=
  kcall_with x v' Hs Hf ltac:(first [apply array_kept_new | exact I | by intros; apply array_kept_insert; auto]).

Section Robust.
Context (S : gset Z).

Lemma clone_subscribe_kept topic_name ip port k v :
  make_topic_key topic_name = Some (Some k) -> pack ip port ∈ S -> kept S v ->
  uwp kernel_spec (add_subscriber topic_name ip port) (λ _ w, kept S w /\ v_fds w = v_fds v) v.
Proof.
  intros Hk HS Hv. unfold add_subscriber. rewrite Hk. cbn [ulift]. rewrite ubind_uret.
  kcall outer v1 Hs1 Hf1. destruct outer as [id|]; [|by apply uwp_ret].
  kcall fd v2 Hs2 Hf2. destruct Hf2 as [(H0 & Hfree & i & Hf2)|(Hneg & Hf2)].
  2: { rewrite (proj2 (Z.ltb_lt _ _)) by done. apply uwp_ret. split; [done|congruence]. }
  rewrite (proj2 (Z.ltb_ge _ _)) by done. rewrite Hf1 in Hfree, Hf2.
  kcall c v3 Hs3 Hf3. cbv zeta.
  assert (forall (r : Z) w, kept S w -> v_fds w = v_fds v2 ->
    uwp kernel_spec (ucall (CloseFd fd) ;~ uret r) (λ _ w', kept S w' /\ v_fds w' = v_fds v) w) as Hclose.
  { intros r w Hw Hwf. by apply (close_kept _ _ _ fd i); [|..|congruence]. }
  kcall r v4 Hs4 Hf4. case_goal; [apply Hclose; [done|congruence]|].
  kcall r' v5 Hs5 Hf5. case_goal; apply Hclose; done || congruence.
Qed.

Lemma zero_loop_kept m i fd v :
  kept S v -> uwp kernel_spec (zero_loop m i fd) (λ _ w, kept S w /\ v_fds w = v_fds v) v.
Proof.
  revert i v. induction m as [|m IH]; intros i v Hv; cbn [zero_loop]; [by apply uwp_ret|].
  kcall r w Hs Hf. rewrite <- Hf. by apply IH.
Qed.

Lemma clone_flush_kept topic_name k v :
  make_topic_key topic_name = Some (Some k) -> kept S v ->
  uwp kernel_spec (flush_topic topic_name) (λ _ w, kept S w /\ v_fds w = v_fds v) v.
Proof.
  intros Hk Hv. unfold flush_topic. rewrite Hk. cbn [ulift]. rewrite ubind_uret.
  kcall c v0 Hs0 Hf0. cbv zeta. case_goal; [by apply uwp_ret|].
  kcall outer v1 Hs1 Hf1. destruct outer as [id|]; [|apply uwp_ret; split; [done|congruence]].
  kcall fd v2 Hs2 Hf2. destruct Hf2 as [(H0 & Hfree & i & Hf2)|(Hneg & Hf2)].
  2: { rewrite (proj2 (Z.ltb_lt _ _)) by done. apply uwp_ret. split; [done|congruence]. }
  rewrite (proj2 (Z.ltb_ge _ _)) by done.
  apply uwp_bind. eapply uwp_mono; [|by apply zero_loop_kept]. intros [] v3 [Hv3 Hf3]. clear Hv.
  kcall x v4 Hs4 Hf4. kcall y v5 Hs5 Hf5.
  apply uwp_ret. split; [done|]. rewrite Hf5, Hf4, Hf3, Hf2, delete_insert_id by done. congruence.
Qed.

Lemma clone_register_kept topic_name k v :
  make_topic_key topic_name = Some (Some k) -> kept S v ->
  uwp kernel_spec (add_topic topic_name)
    (λ r w, (kept S w /\ v_fds w = v_fds v) /\ v_out w = v_out v /\ (r = 0 -> is_Some (v_outer w !! k))) v.
Proof.
  intros Hk Hv. unfold add_topic. rewrite Hk. cbn [ulift]. rewrite ubind_uret.
  kcall outer v1 Hs1 Hf1. cbn [ev_spec topic_of] in Hs1. destruct Hs1 as [-> Hout].
  destruct outer as [id|]; [apply uwp_ret; destruct Hout as [Hout|Hout]; [by eauto|done]|].
  kcall fd v2 Hs2 Hf2. pose proof (out_ev _ _ _ _ Hs2 I) as Ho2.
  destruct Hf2 as [(H0 & Hfree & i & Hf2)|(Hneg & Hf2)].
  2: { rewrite (proj2 (Z.ltb_lt _ _)) by done. apply uwp_ret. split_and!; done || lia. }
  rewrite (proj2 (Z.ltb_ge _ _)) by done.
  kcall r v3 Hs3 Hf3. pose proof (out_ev _ _ _ _ Hs3 I) as Ho3.
  case_goal; kcall x v4 Hs4 Hf4; pose proof (out_ev _ _ _ _ Hs4 I) as Ho4; apply uwp_ret;
    (split; [split; [done|]; rewrite Hf4, Hf3, Hf2; by rewrite delete_insert_id
            |split; [congruence|intros Hr0; try done]]).
  split_hyps. cbn in Hs3, Hs4.
  destruct Hs3 as [(_ & _ & w & Hw & ->)|[? _]]; [|lia]. subst v4. destruct v2; cbn.
  rewrite lookup_insert_eq. by eexists.
Qed.

#[export] Instance clone_robust : Robust kernel_spec (λ _, False) clone_commands S (kept S).
Proof.
  split.
  - apply _.
  - apply sound_out.
  - intros. by apply clone_register_kept.
  - intros. by eapply clone_subscribe_kept.
  - intros. by eapply clone_flush_kept.
Qed.
End Robust.
