(* ===== verification/CloneProps.v ===== *)
(** * Theorems about the XDP-only broker

    The XDP program meets its specification on every branch; together with
    the control program's invariant, a publish is copied once per
    subscription and copy [k] goes to the [k]-th subscriber.  The server
    refines the abstract broker and survives failing calls like the first
    one. *)

From Stdlib Require Import String.
From S2P Require Import Prelude Prog Packet Checksum Kernel Views RefKernel XdpBroker CString Server Faults.
From S2P Require Import CloneKern CloneControl CloneSpec.
From stdpp Require Import base tactics numbers list gmap fin_maps.
Local Open Scope Z_scope.
Local Open Scope broker_scope.

Abbreviation clone_serve := (serve clone_commands).

(** ** Actions and copies *)

Lemma clone_tx_fields n :
  0 <= n < 2 ^ 26 -> Z.land (XDP_CLONE_TX n) 31 = 6 /\ Z.shiftr (XDP_CLONE_TX n) 5 = n.
Proof.
  intros Hn. unfold XDP_CLONE_TX. assert (i32 n = n) as -> by (unfold i32; dlia).
  assert (Z.lor (Z.shiftl n 5) 6 = 6 + n * 32) as ->.
  { rewrite lor_shiftl_add by lia. lia. }
  assert (i32 (6 + n * 32) = 6 + n * 32) as -> by (unfold i32; dlia).
  change 31 with (Z.ones 5). rewrite Z.land_ones, Z.shiftr_div_pow2 by lia. split; dlia.
Qed.

Lemma copy_meta_number k : 0 <= k < 2 ^ 32 -> le_val (take 4 (copy_meta k)) = k.
Proof. intros Hk. unfold copy_meta. rewrite take_ge by (by rewrite le_bytes_length). by apply le_val_le_bytes. Qed.

Lemma abs_subscribers v t l :
  inv v -> abs v !! t = Some l ->
  exists id, v_outer v !! t = Some id /\ default 0 (v_cnt v !! t) = Z.of_nat (length l) /\
    Z.of_nat (length l) <= MAX_SUBSCRIBERS /\
    forall i packed, l !! i = Some packed -> elems_of (by_id id) v !! Z.of_nat i = Some packed.
Proof.
  intros Hinv Hl. unfold abs in Hl. rewrite map_lookup_imap in Hl.
  destruct (v_outer v !! t) as [id|] eqn:Ho; [|done]. cbn in Hl. injection Hl as <-. exists id. split; [done|].
  destruct (inv_topic _ Hinv t id Ho) as (g & Hobj & Hok).
  assert (0 <= default 0 (v_cnt v !! t) <= MAX_SUBSCRIBERS) as Hn.
  { destruct (v_cnt v !! t) eqn:E; [by apply (inv_cnt _ Hinv t)|cbn; done]. }
  rewrite (subscribers_eq _ _ _ _ _ Hobj), entries_length, (elems_by_id _ _ _ _ Hobj), Z2Nat.id by lia.
  split_and!; [done|lia|]. intros i packed Hi.
  pose proof (lookup_lt_Some _ _ _ Hi) as Hlt. rewrite entries_length in Hlt.
  rewrite entries_lookup in Hi by done. injection Hi as <-.
  destruct (proj2 (Hok (Z.of_nat i))) as [x Hx]; [lia|]. by rewrite Hx.
Qed.

(** ** Properties *)

Section Properties.
Context `{!ProbeRead} {K : Type} `{!Kernel K}.

(** C15. For every metadata area, packet and kernel, the program terminates
    without leaving the packet and does exactly what [clone_spec] says, on
    the publish and on its copies: action, outgoing bytes and counters. *)
Theorem clone_broker_refines_spec meta f (s : K) :
  bytes_ok f ->
  exists rc f' s', krun (xdp_broker meta f) s = (Ok (rc, f'), s') /\
    (rc, f', kview_of s') = clone_spec meta f (kview_of s).
Proof. intros. by apply clone_run. Qed.

(** C5. One copy per subscription.  In a state the control program maintains,
    a publish for a topic with the subscriptions [l] is left unchanged and
    answered with the action for exactly [length l] copies (or passed up when
    there are none), and run on copy [k] the program transmits the packet
    readdressed to the [k]-th subscriber, with valid checksums when the
    datagram is complete, at most 2048 bytes and even or padded. *)
Theorem clone_fanout f (s : K) t l :
  bytes_ok f -> is_publish f = true -> published_topic f = Some t ->
  inv (kview_of s) -> abs (kview_of s) !! t = Some l ->
  (exists s', krun (xdp_broker [] f) s = (Ok ((if (length l =? 0)%nat then XDP_PASS else
        XDP_CLONE_TX (Z.of_nat (length l))), f), s') /\
     Z.land (XDP_CLONE_TX (Z.of_nat (length l))) 31 = 6 /\
     Z.shiftr (XDP_CLONE_TX (Z.of_nat (length l))) 5 = Z.of_nat (length l)) /\
  forall k packed, l !! k = Some packed ->
    exists s', krun (xdp_broker (copy_meta (Z.of_nat k + 1)) f) s = (Ok (XDP_TX, turned 1024 f packed), s') /\
      kview_of s' = kview_of s /\
      ip_valid (turned 1024 f packed) /\ (checksummable 1024 f -> udp_valid (turned 1024 f packed)).
Proof.
  intros Hf Hp Ht Hinv Hl. destruct (abs_subscribers _ _ _ Hinv Hl) as (id & Ho & Hcnt & Hmax & Hel).
  unfold MAX_SUBSCRIBERS in Hmax. split.
  - destruct (clone_run [] f s Hf) as (rc & f' & s' & Hr & Hs). exists s'. rewrite Hr.
    split; [|apply clone_tx_fields; lia]. unfold clone_spec, original_spec in Hs. rewrite Hp, Ht in Hs.
    cbn [length Nat.leb negb mbind option_bind] in Hs.
    destruct (v_cnt (kview_of s) !! t) as [n|]; cbn in Hcnt.
    + destruct (n =? 0) eqn:En; split_hyps; injection Hs as -> -> _.
      * by rewrite (proj2 (Nat.eqb_eq (length l) 0)) by lia.
      * rewrite (proj2 (Nat.eqb_neq (length l) 0)) by lia. by rewrite Hcnt.
    + injection Hs as -> -> _. by rewrite (proj2 (Nat.eqb_eq (length l) 0)) by lia.
  - intros k packed Hk. pose proof (lookup_lt_Some _ _ _ Hk) as Hlt. apply Hel in Hk.
    destruct (clone_run (copy_meta (Z.of_nat k + 1)) f s Hf) as (rc & f' & s' & Hr & Hs). exists s'. rewrite Hr.
    unfold clone_spec in Hs. change (4 <=? length (copy_meta _))%nat with true in Hs. cbv match in Hs.
    rewrite copy_meta_number in Hs by lia. unfold copy_spec in Hs.
    rewrite (proj2 (Z.eqb_neq (Z.of_nat k + 1) 0)), Hp, Ht in Hs by lia. cbn [orb negb mbind option_bind] in Hs.
    rewrite Ho in Hs. cbn [mbind option_bind] in Hs.
    replace (u32 (Z.of_nat k + 1 - 1)) with (Z.of_nat k) in Hs by (unfold u32; rewrite Z.mod_small; lia).
    rewrite Hk in Hs. injection Hs as -> -> ->.
    split_and!; [done|done|by apply turned_ip_valid, is_publish_frame|].
    intros Hc. apply turned_udp_valid; auto using udp_frame_length, is_publish_frame.
Qed.
End Properties.

(** C14. The server of the XDP-only program refines its abstract broker, the
    ordered list of subscriptions of every topic: for every sequence of
    datagrams whose names fit, on every kernel that fails only for documented
    reasons, it ends in maps that stand for the broker of the specification
    and sends exactly its replies. *)
Theorem clone_serve_refines_roster {K} `{!Kernel K, !Reliable K} (s : K) buf input B outs :
  length buf = 1024%nat -> Z.of_nat (length input) < 2 ^ 32 ->
  inv (kview_of s) -> spec_serve roster_model input (abs (kview_of s)) = Some (B, outs) ->
  exists s', krun (clone_serve buf input) s = (Ok tt, s') /\ inv (kview_of s') /\
    abs (kview_of s') = B /\ v_out (kview_of s') = v_out (kview_of s) ++ outs.
Proof.
  intros Hbuf HN Hinv Hspec.
  pose proof (krun_wp_reliable _ _ s (serve_wp clone_commands roster_model abs (λ _, inv) 0 _ buf input B outs
    Hbuf Hinv ltac:(done) HN Hspec)) as H.
  destruct (krun _ s) as [[[]| |] s'] eqn:E; cbn in H; [|done|done]. by exists s'.
Qed.

(** C16. The server of the XDP-only program is robust.  Let it process
    datagrams whose topic names fit the key (less than 20 bytes; others are
    undefined behaviour as in the first program) on any kernel, every system
    call free to fail: it returns without undefined behaviour, every map
    descriptor opened on the way is closed again, every array keeps its
    attributes and its indices, and an entry is either free (zero) or a
    sender's address. *)
Theorem clone_serve_robust {K} `{!Kernel K} (S : gset Z) (s : K) buf input :
  length buf = 1024%nat -> well_formed S input -> kept S (kview_of s) ->
  exists s', krun (clone_serve buf input) s = (Ok tt, s') /\
    kept S (kview_of s') /\ v_fds (kview_of s') = v_fds (kview_of s).
Proof.
  intros Hbuf Hin Hv.
  pose proof (krun_wp _ _ s (serve_kept kernel_spec (λ _, False) clone_commands S _ buf input _ Hbuf Hin Hv)) as H.
  destruct (krun _ s) as [[[]| |] s'] eqn:E; cbn in H; [|done|done]. by exists s'.
Qed.

(** C39. A copy that is processed after a flush is not dropped: the zeroed
    array entry is still found, so a copy asked for before the flush is
    transmitted to address 0.0.0.0, port 0. *)
Theorem stale_copy_to_zero `{!ProbeRead} {K} `{!Kernel K, !Reliable K} f (s : K) key t l k :
  bytes_ok f -> is_publish f = true -> published_topic f = Some t ->
  make_topic_key key = Some (Some t) -> inv (kview_of s) -> abs (kview_of s) !! t = Some l ->
  (k < length l)%nat ->
  exists r s1 s2 f', krun (flush_topic key) s = (Ok r, s1) /\
    krun (xdp_broker (copy_meta (Z.of_nat k + 1)) f) s1 = (Ok (XDP_TX, f'), s2) /\
    take 4 (drop 30 f') = [0; 0; 0; 0] /\ take 2 (drop 36 f') = [0; 0].
Proof.
  intros Hf Hp Ht Hkey Hinv Hl Hk. destruct (abs_subscribers _ _ _ Hinv Hl) as (id & Ho & Hcnt & Hmax & _).
  unfold MAX_SUBSCRIBERS in Hmax.
  pose proof (krun_wp_reliable _ _ s (clone_flush_wp key t _ Hkey Hinv)) as Hrun.
  destruct (krun (flush_topic key) s) as [[r| |] s1] eqn:E; cbn [fst snd] in Hrun; [|done|done].
  destruct Hrun as [_ Hz]. destruct (Hz id Ho) as [Ho1 Hzero].
  specialize (Hzero (Z.of_nat k)). rewrite Hcnt in Hzero.
  destruct (clone_run (copy_meta (Z.of_nat k + 1)) f s1 Hf) as (rc & f' & s2 & Hr & Hs).
  unfold clone_spec in Hs. change (4 <=? length (copy_meta _))%nat with true in Hs. cbv match in Hs.
  rewrite copy_meta_number in Hs by lia. unfold copy_spec in Hs.
  rewrite (proj2 (Z.eqb_neq (Z.of_nat k + 1) 0)), Hp, Ht in Hs by lia. cbn [orb negb mbind option_bind] in Hs.
  rewrite Ho1 in Hs. cbn [mbind option_bind] in Hs.
  replace (u32 (Z.of_nat k + 1 - 1)) with (Z.of_nat k) in Hs by (unfold u32; rewrite Z.mod_small; lia).
  rewrite Hzero in Hs by lia. injection Hs as -> -> _.
  exists r, s1, s2, (turned 1024 f 0). split_and!; [done|done| |];
    pose proof (turned_fields 1024 f 0 ltac:(auto using udp_frame_length, is_publish_frame)) as (_ & Ha & Hpo & _).
  - apply (f_equal (drop 4)) in Ha. rewrite skipn_firstn_comm, drop_drop in Ha. cbn [Nat.sub Nat.add] in Ha.
    rewrite Ha, drop_app_length'; [reflexivity|].
    rewrite length_take, length_drop. apply is_publish_length in Hp. lia.
  - apply (f_equal (drop 2)) in Hpo. rewrite skipn_firstn_comm, drop_drop in Hpo. cbn [Nat.sub Nat.add] in Hpo.
    apply (f_equal (take 2)) in Hpo. rewrite take_take in Hpo. cbn [Nat.min] in Hpo.
    rewrite Hpo, drop_app_length'; [reflexivity|].
    rewrite length_take, length_drop. apply is_publish_length in Hp. lia.
Qed.

(** ** Witnesses *)

(** Topic "t" with the subscriptions [sub_a; sub_b]. *)
Definition two_entries : kview :=
  KView {[key_t := 1]} {[key_t := 2]} ∅
    {[1 := MObj array_attr (<[0 := sub_a]> (<[1 := sub_b]> (mo_elems (new_obj array_attr))))]} ∅
    {[0 := 0]} ∅ ∅ [].

Lemma two_entries_inv : inv two_entries.
Proof.
  split.
  - reflexivity.
  - intros t id Ht. cbn [two_entries v_outer] in Ht. apply lookup_singleton_Some in Ht as [<- <-].
    eexists. split; [apply lookup_singleton_eq|]. apply array_ok_insert; [|unfold MAX_SUBSCRIBERS; lia].
    apply array_ok_insert; [apply new_array_ok|unfold MAX_SUBSCRIBERS; lia].
  - intros t t' id Ht Ht'. cbn [two_entries v_outer] in Ht, Ht'. apply lookup_singleton_Some in Ht as [<- _].
    by apply lookup_singleton_Some in Ht' as [<- _].
  - intros t n Hn. cbn [two_entries v_cnt] in Hn. apply lookup_singleton_Some in Hn as [<- <-]. unfold MAX_SUBSCRIBERS. split; [lia|].
    cbn [two_entries v_outer]. rewrite lookup_singleton_eq. by eexists.
  - vm_compute. discriminate.
Qed.

Lemma two_entries_abs : abs two_entries !! key_t = Some [sub_a; sub_b].
Proof. vm_compute. reflexivity. Qed.

Lemma clone_broker_refines_spec_witness :
  exists rc f' s', krun (xdp_broker (copy_meta 0) publish_even) boot_view = (Ok (rc, f'), s') /\
    (rc, f', s') = (XDP_DROP, publish_even, boot_view).
Proof.
  destruct (clone_broker_refines_spec (copy_meta 0) publish_even boot_view) as (rc & f' & s' & Hr & Hs); [decide_goal|].
  exists rc, f', s'. split; [exact Hr|]. etransitivity; [exact Hs|]. vm_compute. reflexivity.
Defined.

Lemma clone_fanout_witness :
  (exists s', krun (xdp_broker [] publish_even) two_entries = (Ok (70, publish_even), s')) /\
  (exists s' f', krun (xdp_broker (copy_meta 2) publish_even) two_entries = (Ok (XDP_TX, f'), s') /\
    f' = turned 1024 publish_even sub_b /\ udp_valid f').
Proof.
  destruct (clone_fanout publish_even two_entries key_t [sub_a; sub_b]) as [(s' & Hr & _) Hc];
    [decide_goal|reflexivity|vm_compute; reflexivity|exact two_entries_inv|exact two_entries_abs|].
  split; [exists s'; exact Hr|]. destruct (Hc 1%nat sub_b eq_refl) as (s2 & Hr2 & _ & _ & Hv).
  exists s2, (turned 1024 publish_even sub_b). split_and!; [exact Hr2|reflexivity|]. apply Hv. decide_goal.
Defined.

Definition clone_session : list received :=
  [Received (bytes_of_string "REGISTER t" ++ [10]) (le_val [10; 0; 0; 3]) (bswap16 5000);
   Received (bytes_of_string "SUBSCRIBE t") (le_val [10; 0; 0; 3]) (bswap16 5000);
   Received (bytes_of_string "SUBSCRIBE t") (le_val [10; 0; 0; 3]) (bswap16 5000)].

(** The same client twice: two subscriptions. *)
Lemma clone_serve_refines_roster_witness :
  exists s', krun (clone_serve (replicate 1024 0) clone_session) boot_view = (Ok tt, s') /\ inv s' /\
    abs s' = {[key_t := [sub_a; sub_a]]} /\
    v_out s' = [Datagram (bytes_of_string "REGACK t") (le_val [10; 0; 0; 3]) (bswap16 5000);
                Datagram (bytes_of_string "SUBACK t") (le_val [10; 0; 0; 3]) (bswap16 5000);
                Datagram (bytes_of_string "SUBACK t") (le_val [10; 0; 0; 3]) (bswap16 5000)].
Proof.
  refine (clone_serve_refines_roster boot_view (replicate 1024 0) clone_session {[key_t := [sub_a; sub_a]]} _ _ _ _ _);
    [done|done|split; done|vm_compute; reflexivity].
Defined.

Lemma clone_serve_robust_witness :
  exists s', krun (clone_serve (replicate 1024 0) clone_session) boot_view = (Ok tt, s') /\
    kept ({[sub_a]} : gset Z) s' /\ v_fds s' = ∅.
Proof.
  refine (clone_serve_robust {[sub_a]} boot_view (replicate 1024 0) clone_session _ _ _); [done| |split; done].
  repeat constructor; try done; decide_goal.
Defined.

Lemma stale_copy_to_zero_witness :
  exists r s1 s2 f', krun (flush_topic key_t) two_entries = (Ok r, s1) /\
    krun (xdp_broker (copy_meta 2) publish_even) s1 = (Ok (XDP_TX, f'), s2) /\
    take 4 (drop 30 f') = [0; 0; 0; 0] /\ take 2 (drop 36 f') = [0; 0].
Proof.
  refine (stale_copy_to_zero publish_even two_entries key_t key_t [sub_a; sub_b] 1 _ _ _ _ _ _ _);
    [decide_goal|reflexivity|vm_compute; reflexivity|vm_compute; reflexivity
    |exact two_entries_inv|exact two_entries_abs|cbn; lia].
Defined.
