(* ===== verification/CloneConcurrency.v ===== *)
(** * The XDP-only broker under interleaving

    The pool is the control program of the XDP-only broker and any number of
    runs of its kernel program, on publishes and on copies.  Between a copy
    being asked for and being handled the subscribers may change: a copy
    goes to an address that subscribed or, when the topic was flushed in the
    meantime, to the zero of a free entry. *)

From Stdlib Require Import String.
From S2P Require Import Prelude Prog Packet Checksum Kernel RefKernel XdpBroker CString Server Faults.
From S2P Require Import Interleaving UnderLoad CloneKern CloneControl CloneSpec CloneProps.
From stdpp Require Import base tactics numbers list gmap fin_maps relations.
Local Open Scope Z_scope.
Local Open Scope broker_scope.

(** A run of the kernel program: the metadata in front of the packet, and
    the packet. *)
Definition clone_thread `{!ProbeRead} (p : list Z * list Z) : prog ev outcome :=
  thread OPacket (xdp_broker p.1 p.2).

Definition clone_pool `{!ProbeRead} (buf : list Z) (input : list received) (packets : list (list Z * list Z)) : pool :=
  thread OServer (serve clone_commands buf input) :: (clone_thread <$> packets).

(** ** The calls *)

(** Only replies to senders are sent by call. *)
Definition reply_ok (S : gset Z) (o : output) : Prop :=
  match o with Datagram _ addr port => sender_key addr port ∈ S | Clone _ _ => False end.

Abbreviation clone_call S := (server_call (array_kept S) (λ _, True) (reply_ok S)).

Section Server.
Context (S : gset Z).

Ltac server_side :=
  split_and!; first [exact Logic.I | apply array_kept_new | done | by intros []
    | by intros ? ? ?; apply array_kept_insert; auto].
Ltac server_step := calls_step ltac:(server_side).

Lemma clone_calls_add_subscriber key ip port :
  pack ip port ∈ S -> calls (clone_call S) (add_subscriber key ip port).
Proof. intros HS. unfold add_subscriber. repeat server_step. Qed.

Lemma clone_calls_zero_loop n i fd : calls (clone_call S) (zero_loop n i fd).
Proof. revert i. induction n as [|n IH]; intros i; cbn [zero_loop]; repeat server_step. apply IH. Qed.

Lemma clone_calls_flush_topic key : calls (clone_call S) (flush_topic key).
Proof. unfold flush_topic. repeat first [apply clone_calls_zero_loop | server_step]. Qed.

Lemma clone_calls_add_topic key : calls (clone_call S) (add_topic key).
Proof. unfold add_topic. repeat server_step. Qed.

Lemma clone_calls_handle buf s_addr sin_port :
  sender_key s_addr sin_port ∈ S -> calls (clone_call S) (handle_datagram clone_commands buf s_addr sin_port).
Proof.
  intros HS. unfold handle_datagram. cbn [clone_commands cmd_register cmd_subscribe cmd_flush].
  repeat first [apply clone_calls_add_topic | by apply clone_calls_add_subscriber | apply clone_calls_flush_topic | server_step].
Qed.

Lemma clone_calls_serve buf input : well_formed S input -> calls (clone_call S) (serve clone_commands buf input).
Proof.
  revert buf. induction input as [|[|msg s_addr sin_port] rest IH]; intros buf Hin; cbn [serve];
    [done|apply IH; by inversion Hin|]. apply Forall_cons in Hin as [[_ HS] Hrest].
  apply calls_ubind; [by apply clone_calls_handle|]. intros _. by apply IH.
Qed.
End Server.

Lemma calls_clone `{!ProbeRead} meta f : calls quiet_call (xdp_broker meta f).
Proof.
  unfold xdp_broker, clone_copy, clone_original, swap_macs, readdress.
  repeat first [apply calls_count | quiet_step].
Qed.

(** ** Commands while anything else happens *)

Lemma clone_defined_zero_loop n i fd : defined (zero_loop n i fd).
Proof. revert i. induction n as [|n IH]; intros i; cbn [zero_loop]; repeat defined_step. apply IH. Qed.

Lemma clone_defined_ops key k ip port :
  make_topic_key key = Some (Some k) ->
  defined (add_topic key) /\ defined (add_subscriber key ip port) /\ defined (flush_topic key).
Proof.
  intros Hk. unfold add_topic, add_subscriber, flush_topic. rewrite Hk. cbn [ulift]. rewrite !ubind_uret.
  split_and!; repeat first [apply clone_defined_zero_loop | defined_step].
Qed.

(** ** A packet while anything else happens *)

Section Good.
Context `{!ProbeRead} (S : gset Z) (base : list output).

Abbreviation good := (good (array_kept S) (λ _, True) (reply_ok S) base).

(** What a run does to a packet: transmit it to a subscriber or to zero, or
    leave it and answer pass, drop or copy. *)
Definition clone_post (f : list Z) (r : res (Z * list Z)) : Prop :=
  exists rc f', r = Ok (rc, f') /\
    ((rc = XDP_TX /\ exists packed, (packed = 0 \/ packed ∈ S) /\ f' = turned 1024 f packed) \/
     (f' = f /\ (rc = XDP_PASS \/ rc = XDP_DROP \/ exists n, rc = XDP_CLONE_TX n))).

Lemma entry_kept id i u packed : kept S u -> elems_of (by_id id) u !! i = Some packed -> packed = 0 \/ packed ∈ S.
Proof.
  intros Hu Hp. unfold elems_of, obj_of in Hp. cbn in Hp. destruct (v_objs u !! id) as [o|] eqn:Eo; [|by rewrite lookup_empty in Hp].
  destruct (snd_obj _ _ _ Hu _ _ Eo) as (_ & _ & Hall). exact (Hall _ _ Hp).
Qed.

Lemma clone_copy_rely k f : bytes_ok f -> pwp (rely good) (clone_copy k) (λ rc f' _, clone_post f (Ok (rc, f'))) f tt.
Proof.
  intros Hf. assert (clone_post f (Ok (XDP_DROP, f))) as Hdrop by (exists XDP_DROP, f; split; [done|]; right; auto).
  unfold clone_copy, parse_udp_packet, starts_with, extract_topic_id. case_goal; [by apply pwp_ret|].
  eapply pwp_bind, pwp_rd; [by apply parse_udp_packet_eq|].
  destruct (udp_frame 43 f) eqn:Hfr; cbn [std_hdrs]; [|by apply pwp_ret].
  apply udp_frame_length in Hfr.
  eapply pwp_bind, pwp_rd; [apply ld16_le; change (38 <= length f)%nat; lia|]. case_goal; [by apply pwp_ret|].
  eapply pwp_bind, pwp_rd; [apply starts_with_eq|]. case_goal; [by apply pwp_ret|].
  eapply pwp_bind, pwp_rd; [done|]. destruct (Packet.extract_topic_id _ _ _ _) as [rc t]. case_goal; [by apply pwp_ret|].
  apply pwp_bind, pwp_call. intros [id|] [] _; [|by apply pwp_ret].
  apply pwp_bind, pwp_call. intros p [] (v & v' & [Hv _] & Hs). destruct Hs as [_ Hp].
  destruct p as [packed|]; [|by apply pwp_ret].
  apply pwp_bind, swap_macs_wp; [lia|].
  apply pwp_bind, (readdress_udp_wp _ 1024); [done|auto with broker| |lia|].
  { rewrite swapped_length. lia. }
  intros da dp ic -> -> ->. apply pwp_ret. exists XDP_TX, (turned 1024 f packed). split; [done|]. left. split; [done|].
  exists packed. split; [|done]. by apply (entry_kept id (u32 (k - 1)) v).
Qed.

Lemma clone_original_rely f : bytes_ok f -> pwp (rely good) clone_original (λ rc f' _, clone_post f (Ok (rc, f'))) f tt.
Proof.
  intros Hf. assert (clone_post f (Ok (XDP_PASS, f))) as Hpass by (exists XDP_PASS, f; split; [done|]; right; auto).
  unfold clone_original, parse_udp_packet, starts_with, extract_topic_id.
  eapply pwp_bind, pwp_rd; [by apply parse_udp_packet_eq|].
  destruct (udp_frame 43 f) eqn:Hfr; cbn [std_hdrs]; [|by apply pwp_ret].
  apply udp_frame_length in Hfr.
  eapply pwp_bind, pwp_rd; [apply ld16_le; change (38 <= length f)%nat; lia|]. case_goal; [by apply pwp_ret|].
  eapply pwp_bind, pwp_rd; [apply starts_with_eq|]. case_goal; [by apply pwp_ret|].
  apply pwp_bind, count_event_rely.
  eapply pwp_bind, pwp_rd; [done|]. destruct (Packet.extract_topic_id _ _ _ _) as [rc t]. case_goal; [by apply pwp_ret|].
  apply pwp_bind, pwp_call. intros [n|] [] _; [|by apply pwp_ret]. case_goal; apply pwp_ret; [done|].
  exists (XDP_CLONE_TX n), f. split; [done|]. right. split; [done|]. right. right. by exists n.
Qed.

Lemma clone_rely meta f : bytes_ok f -> wp (rely good) (xdp_broker meta f) (λ r _, clone_post f r) tt.
Proof.
  intros Hf. enough (pwp (rely good) (xdp_broker meta) (λ rc f' _, clone_post f (Ok (rc, f'))) f tt) as Hwp.
  { eapply wp_mono; [|exact Hwp]. by intros [[rc f']| |] []. }
  unfold xdp_broker. case_goal; [by apply clone_copy_rely|by apply clone_original_rely].
Qed.
End Good.

(** ** Properties *)

(** C17. Safety of the XDP-only broker under any interleaving.  Let its
    control program process any datagrams whose topic names fit the key
    (less than 20 bytes) while its kernel program runs on any number of publishes and copies, all calls interleaved in any order
    and answered in any way their specification allows.  At every point the
    arrays record only addresses that subscribed, all that the server sent
    are replies to senders, no program has reached undefined behaviour, and a
    run that has finished has left its packet unchanged or transmitted it to
    a subscriber or to the zero of a free entry. *)
Theorem clone_concurrent_safety `{!ProbeRead} (S : gset Z) buf input packets v ps' v' :
  length buf = 1024%nat -> well_formed S input -> Forall (λ p, bytes_ok p.2) packets -> kept S v ->
  rtc (cstep kernel_spec) (clone_pool buf input packets, v) (ps', v') ->
  kept S v' /\ (exists outs, v_out v' = v_out v ++ outs /\ Forall (reply_ok S) outs) /\
  (forall r, ps' !! 0%nat = Some (Ret r) -> exists r', r = OServer r' /\ r' <> UB) /\
  (forall i p r, packets !! i = Some p -> ps' !! (1 + i)%nat = Some (Ret r) ->
     exists r', r = OPacket r' /\ clone_post S p.2 r').
Proof.
  intros Hbuf Hin Hf Hv Hsteps. set (I := good (array_kept S) (λ _, True) (reply_ok S) (v_out v)).
  set (Ps := (λ p r, exists r', r = OPacket r' /\ clone_post S p.2 r') <$> packets).
  set (Qs := (λ r, exists r', r = OServer r' /\ r' <> UB) :: Ps).
  assert (Forall2 (safe I) (clone_pool buf input packets) Qs) as Hps.
  { constructor.
    - eapply safe_program; [apply server_guarantee|by apply clone_calls_serve|]. eapply wp_mono; [|apply defined_wp, (defined_server clone_commands S); try done].
      + intros r [] Hr. by exists r.
      + intros. by eapply clone_defined_ops.
    - apply Forall2_fmap, Forall_Forall2_diag, (Forall_impl _ _ _ Hf). intros p Hp.
      eapply safe_program; [apply quiet_guarantee|apply calls_clone|]. eapply wp_mono; [|by apply clone_rely].
      intros r [] Hr. by exists r. }
  assert (I v) as HI by by apply good_start.
  destruct (interleaving_safe I _ Qs v ps' v' Hps HI Hsteps) as [Hps' [Hk Ho]].
  split_and!; [done|done| |].
  - intros r Hr. exact (safe_finished I _ Qs 0 r _ Hps' Hr eq_refl).
  - intros i p r Hi Hr. apply (safe_finished I _ Qs _ r (λ r, exists r', r = OPacket r' /\ clone_post S p.2 r') Hps' Hr).
    change (Ps !! i = Some (λ r, exists r', r = OPacket r' /\ clone_post S p.2 r')). unfold Ps. by rewrite list_lookup_fmap, Hi.
Qed.

#[export] Instance clone_abs_proper : Proper (same_core ==> eq) abs.
Proof.
  intros v w (Ho & Hc & _ & Hob & _). unfold abs. rewrite Ho. apply map_eq. intros t. rewrite !map_lookup_imap.
  destruct (v_outer v !! t) as [id|]; [|done]. cbn. f_equal. unfold subscribers, elems_of, obj_of. cbn. by rewrite Hob, Hc.
Qed.

Lemma clone_inv_core (N : Z) v w : same_core v w -> inv v -> inv w.
Proof.
  intros (Ho & Hc & _ & Hob & Hfd & _) [H1 H2 H3 H4 H5]. split; rewrite ?Ho, ?Hfd; try done.
  - intros t id Ht. rewrite Hob. by apply (H2 t).
  - intros t n Hn. rewrite Hc in Hn. by apply H4.
Qed.

(** C18. The control program of the XDP-only broker is served under load: let
    it process any datagrams whose topic names fit while any number of
    publishes and copies are handled, on a kernel whose calls fail only for
    documented reasons.  No schedule runs forever or gets stuck, and under
    every schedule a server that has finished has ended normally, with the
    roster and the replies of its specification. *)
Theorem clone_served_under_load `{!ProbeRead} (N : Z) buf input packets v B outs :
  length buf = 1024%nat -> 0 <= N -> N + Z.of_nat (length input) < 2 ^ 32 ->
  inv v -> spec_serve roster_model input (abs v) = Some (B, outs) ->
  served abs (λ _, inv) N input (clone_pool buf input packets) v B outs.
Proof.
  intros Hbuf HN HN1 Hinv Hspec.
  apply (serve_among clone_commands roster_model abs (λ _, inv) clone_abs_proper clone_inv_core); try done.
  - eapply calls_mono, (clone_calls_serve (senders input)), spec_serve_parses, Hspec. by intros X e [? _].
  - apply Forall_fmap, Forall_forall. intros p _. apply calls_thread. eapply calls_mono, calls_clone. by intros X e [? _].
Qed.

(** ** Examples *)

(** Topic "t" with two subscriptions is flushed while its second copy is on
    the way. *)
Definition flush_t : list received := [Received (bytes_of_string "FLUSH t") (le_val [10; 0; 0; 3]) (bswap16 5000)].
Definition one_copy : list (list Z * list Z) := [(copy_meta 2, publish_even)].

Definition flush1 : prog ev outcome * kview := run_calls 20 (thread OServer (serve clone_commands (replicate 1024 0) flush_t)) two_entries.
Definition flush2 : prog ev outcome * kview := run_calls 10 (clone_thread (copy_meta 2, publish_even)) flush1.2.

Lemma flush_steps : rtc (cstep reliable_spec) (clone_pool (replicate 1024 0) flush_t one_copy, two_entries) ([flush1.1; flush2.1], flush2.2).
Proof.
  set (p := clone_pool (replicate 1024 0) flush_t one_copy).
  pose proof (run_calls_steps p 0 20 (thread OServer (serve clone_commands (replicate 1024 0) flush_t)) two_entries eq_refl) as H1.
  fold flush1 in H1. etrans; [exact H1|]. clear H1.
  pose proof (run_calls_steps (<[0%nat := flush1.1]> p) 1 10 (clone_thread (copy_meta 2, publish_even)) flush1.2 eq_refl) as H2.
  fold flush2 in H2. exact H2.
Qed.

Lemma array_kept_pair (S : gset Z) g a b :
  a ∈ S -> b ∈ S -> array_ok g -> map_Forall (λ _ x, x = 0 \/ x ∈ S) g ->
  array_kept S (MObj array_attr (<[0 := a]> (<[1 := b]> g))).
Proof.
  intros Ha Hb Hok Hall. split; [done|]. cbn [mo_elems]. unfold MAX_SUBSCRIBERS. split.
  - apply array_ok_insert; [apply array_ok_insert; [done|]|]; unfold MAX_SUBSCRIBERS; lia.
  - apply map_Forall_insert_2; [by right|]. apply map_Forall_insert_2; [by right|done].
Qed.

Lemma two_entries_kept : kept ({[sub_a; sub_b]} : gset Z) two_entries.
Proof.
  split; [|done]. intros id o Ho. cbn [two_entries v_objs] in Ho. apply lookup_singleton_Some in Ho as [_ <-].
  destruct (array_kept_new {[sub_a; sub_b]}) as (_ & Hok & Hall).
  apply array_kept_pair; [set_solver|set_solver|exact Hok|exact Hall].
Qed.

Lemma clone_concurrent_safety_witness :
  kept ({[sub_a; sub_b]} : gset Z) flush2.2 /\
  exists r, flush2.1 = Ret (OPacket r) /\ clone_post {[sub_a; sub_b]} publish_even r.
Proof.
  destruct (clone_concurrent_safety {[sub_a; sub_b]} (replicate 1024 0) flush_t one_copy two_entries
    [flush1.1; flush2.1] flush2.2) as (Hk & _ & _ & Hp).
  - reflexivity.
  - repeat constructor; try done; decide_goal.
  - repeat constructor; decide_goal.
  - exact two_entries_kept.
  - eapply cstep_mono; [|exact flush_steps]. intros X e w x w' [H _]. exact H.
  - split; [exact Hk|]. assert (exists r, flush2.1 = Ret r) as [r Hr].
    { exists (match flush2.1 with Ret r => r | _ => OPacket UB end). vm_compute. reflexivity. }
    assert ([flush1.1; flush2.1] !! 1%nat = Some (Ret r)) as Hl by (rewrite <- Hr; reflexivity).
    destruct (Hp 0%nat (copy_meta 2, publish_even) r eq_refl Hl) as (r' & -> & Hpost). exists r'. split; [exact Hr|exact Hpost].
Defined.

Lemma clone_served_under_load_witness :
  flush1.1 = Ret (OServer (Ok tt)) /\ abs flush2.2 = {[key_t := []]} /\
  datagrams (v_out flush2.2) = [Datagram (bytes_of_string "FLUSHED") (le_val [10; 0; 0; 3]) (bswap16 5000)].
Proof.
  destruct (clone_served_under_load 0 (replicate 1024 0) flush_t one_copy two_entries {[key_t := []]}
    [Datagram (bytes_of_string "FLUSHED") (le_val [10; 0; 0; 3]) (bswap16 5000)]) as [_ Hall].
  - reflexivity.
  - lia.
  - reflexivity.
  - exact two_entries_inv.
  - vm_compute. reflexivity.
  - destruct (Hall _ _ flush_steps) as [_ Hr].
    assert (exists r, flush1.1 = Ret r) as [r Hr2].
    { exists (match flush1.1 with Ret r => r | _ => OPacket UB end). vm_compute. reflexivity. }
    assert ([flush1.1; flush2.1] !! 0%nat = Some (Ret r)) as Hl by (rewrite <- Hr2; reflexivity).
    destruct (Hr r Hl) as (-> & _ & Ha & Ho). split; [exact Hr2|]. split; [exact Ha|exact Ho].
Defined.
