(* ===== verification/Host.v ===== *)
(** * The interface between the user programs and the host

    The calls of the two loaders and of the start-up of the control programs:
    libbpf, netlink, the BPF file system and libc, all outside the
    repository.  As for [Kernel], [hev] lists the calls, [hev_spec] is their
    documented effect on the observable state [hview], [Host] the class of
    systems that answer them and [Dependable] the assumption that a call
    fails only when its documented prerequisites do not hold. *)

From S2P Require Import Prelude Prog.
From stdpp Require Import base tactics numbers list gmap fin_maps.
Local Open Scope Z_scope.

Definition EEXIST : Z := 17.
Definition PATH_MAX : nat := 4096.
Definition XDP_FLAGS_DRV_MODE : Z := 4.
Definition BPF_TC_INGRESS : Z := 1.
Definition BPF_TC_EGRESS : Z := 2.
Definition BPF_TC_F_REPLACE : Z := 1.
Definition SIGUSR1 : Z := 10.
Definition SIGINT : Z := 2.
Definition SIGTERM : Z := 15.

Inductive bpf_prog_type := BPF_PROG_TYPE_XDP | BPF_PROG_TYPE_SCHED_CLS.

(** ** The calls

    A call that sets [errno] returns it with its result.  Programs and maps
    of the object file are addressed by name, as libbpf does; names and paths
    are their bytes. *)

Inductive hev : Type -> Type :=
| IfNameToIndex (name : list Z) : hev Z
| Calloc (n : Z) : hev bool
| SetRlimit : hev Z
| ObjectOpen (filename : list Z) : hev bool
| FindProgram (name : list Z) : hev bool
| ProgramSetType (name : list Z) (type : bpf_prog_type) : hev unit
| ObjectLoad : hev Z
| FindMapFd (name : list Z) : hev Z
| ProgramFd (name : list Z) : hev Z
| ProgArrayUpdate (map_fd key prog_fd : Z) : hev Z
| ProgramPin (name path : list Z) : hev (Z * Z)
| ProgramUnpin (name path : list Z) : hev Z
| XdpAttach (ifindex prog_fd flags : Z) : hev Z
| ObjPin (fd : Z) (path : list Z) : hev (Z * Z)
| ObjGet (path : list Z) : hev Z
| Close (fd : Z) : hev unit
| Unlink (path : list Z) : hev Z
| TcHookDestroy (ifindex attach_point : Z) : hev Z
| TcHookCreate (ifindex attach_point : Z) : hev Z
| TcAttach (ifindex attach_point prog_fd flags : Z) : hev Z
| SigBlock (sigs : list Z) : hev Z
| SigWait (sigs : list Z) : hev (Z * Z)
| SocketUdp : hev Z
| Bind (sock addr port : Z) : hev Z.

(** ** The observable state *)

(** What an object file declares. *)
Record bpf_object := BpfObject { bo_progs : gset (list Z); bo_maps : gset (list Z) }.

(** What a descriptor or a pin refers to: a program or map of the object
    the loader loaded, anything older, or a socket. *)
Inductive kobj := KProg (name : list Z) | KMap (name : list Z) | KOld (n : Z) | KSock.

#[export] Instance kobj_eq_dec : EqDecision kobj.
Proof. solve_decision. Defined.

Record hview := HView {
  h_files : gmap (list Z) bpf_object;   (* object files on disk *)
  h_open : option bpf_object;           (* the object file that is open *)
  h_progs : gmap (list Z) Z;            (* descriptors of the loaded programs *)
  h_maps : gmap (list Z) Z;             (* and maps *)
  h_fds : gmap Z kobj;                  (* open descriptors *)
  h_pins : gmap (list Z) kobj;          (* the BPF file system *)
  h_links : gset Z;                     (* network interfaces *)
  h_names : gmap (list Z) Z;            (* and their names *)
  h_xdp : gmap Z kobj;                  (* XDP program of an interface *)
  h_tc : gmap Z (option kobj);          (* clsact qdiscs and their ingress filter *)
  h_bound : gmap Z Z                    (* bound sockets and their port *)
}.

Definition set_h_open (o : option bpf_object) (v : hview) : hview :=
  let 'HView fl _ p m fd pi l n x t b := v in HView fl o p m fd pi l n x t b.
Definition set_loaded (p m : gmap (list Z) Z) (fd : gmap Z kobj) (v : hview) : hview :=
  let 'HView fl o _ _ _ pi l n x t b := v in HView fl o p m fd pi l n x t b.
Definition set_h_fds (fd : gmap Z kobj) (v : hview) : hview :=
  let 'HView fl o p m _ pi l n x t b := v in HView fl o p m fd pi l n x t b.
Definition set_pins (pi : gmap (list Z) kobj) (v : hview) : hview :=
  let 'HView fl o p m fd _ l n x t b := v in HView fl o p m fd pi l n x t b.
Definition set_xdp (x : gmap Z kobj) (v : hview) : hview :=
  let 'HView fl o p m fd pi l n _ t b := v in HView fl o p m fd pi l n x t b.
Definition set_tc (t : gmap Z (option kobj)) (v : hview) : hview :=
  let 'HView fl o p m fd pi l n x _ b := v in HView fl o p m fd pi l n x t b.
Definition set_bound (b : gmap Z Z) (v : hview) : hview :=
  let 'HView fl o p m fd pi l n x t _ := v in HView fl o p m fd pi l n x t b.

(** [p] and [m] give every program and map of [o] a descriptor in [fd]. *)
Definition loaded (o : bpf_object) (p m : gmap (list Z) Z) (fd : gmap Z kobj) : Prop :=
  dom p = bo_progs o /\ dom m = bo_maps o /\
  map_Forall (λ n d, 0 <= d /\ fd !! d = Some (KProg n)) p /\
  map_Forall (λ n d, 0 <= d /\ fd !! d = Some (KMap n)) m.

(** Both directions: the clsact qdisc itself. *)
Definition clsact : Z := Z.lor BPF_TC_INGRESS BPF_TC_EGRESS.

(** ** The documented effect of the calls *)

(** Pinning the object [x]. *)
Definition pin_spec (x : option kobj) (path : list Z) (v : hview) (r : Z * Z) (v' : hview) : Prop :=
  (r.1 = 0 /\ h_pins v !! path = None /\
   exists k, x = Some k /\ v' = set_pins (<[path := k]> (h_pins v)) v)
  \/ (r.1 <> 0 /\ v' = v /\ (r.2 = EEXIST -> is_Some (h_pins v !! path))).

Definition unpin_spec (path : list Z) (v : hview) (x : Z) (v' : hview) : Prop :=
  (x = 0 /\ is_Some (h_pins v !! path) /\ v' = set_pins (delete path (h_pins v)) v) \/ (x <> 0 /\ v' = v).

(** A new descriptor for [k], or an error. *)
Definition open_spec (k : kobj) (v : hview) (x : Z) (v' : hview) : Prop :=
  0 <= x /\ h_fds v !! x = None /\ v' = set_h_fds (<[x := k]> (h_fds v)) v.

Definition hev_spec {X} (e : hev X) (v : hview) : X -> hview -> Prop :=
  match e in hev X return X -> hview -> Prop with
  | IfNameToIndex name => λ x v', v' = v /\ x = default 0 (h_names v !! name)
  | Calloc _ | FindProgram _ => λ x v', v' = v
  | SetRlimit | ProgArrayUpdate _ _ _ | SigBlock _ => λ x v', v' = v
  | ObjectOpen filename => λ x v',
      (x = true /\ is_Some (h_files v !! filename) /\ v' = set_h_open (h_files v !! filename) v)
      \/ (x = false /\ v' = v)
  | ProgramSetType _ _ => λ _ v', v' = v
  | ObjectLoad => λ x v',
      (x = 0 /\ exists o p m fd, h_open v = Some o /\ h_fds v ⊆ fd /\ loaded o p m fd /\ v' = set_loaded p m fd v)
      \/ (x <> 0 /\ v' = v)
  | FindMapFd name => λ x v', v' = v /\ (h_maps v !! name = Some x \/ x < 0)
  | ProgramFd name => λ x v', v' = v /\ (h_progs v !! name = Some x \/ x < 0)
  | ProgramPin name path => pin_spec (h_progs v !! name ≫= λ fd, h_fds v !! fd) path v
  | ProgramUnpin _ path => unpin_spec path v
  | XdpAttach i fd _ => λ x v',
      (0 <= x /\ i ∈ h_links v /\
       ((fd = -1 /\ v' = set_xdp (delete i (h_xdp v)) v) \/
        (fd <> -1 /\ exists k, h_fds v !! fd = Some k /\ v' = set_xdp (<[i := k]> (h_xdp v)) v)))
      \/ (x < 0 /\ v' = v)
  | ObjPin fd path => pin_spec (h_fds v !! fd) path v
  | ObjGet path => λ x v',
      (exists k, h_pins v !! path = Some k /\ open_spec k v x v') \/ (x < 0 /\ v' = v)
  | Close fd => λ _ v', v' = set_h_fds (delete fd (h_fds v)) v
  | Unlink path => unpin_spec path v
  | TcHookDestroy i point => λ x v',
      (x = 0 /\ is_Some (h_tc v !! i) /\
       v' = set_tc (if point =? clsact then delete i (h_tc v) else <[i := None]> (h_tc v)) v)
      \/ (x <> 0 /\ v' = v)
  | TcHookCreate i _ => λ x v',
      (x = 0 /\ h_tc v !! i = None /\ v' = set_tc (<[i := None]> (h_tc v)) v) \/ (x <> 0 /\ v' = v)
  | TcAttach i point fd _ => λ x v',
      (x = 0 /\ point = BPF_TC_INGRESS /\ is_Some (h_tc v !! i) /\
       exists k, h_fds v !! fd = Some k /\ v' = set_tc (<[i := Some k]> (h_tc v)) v)
      \/ (x <> 0 /\ v' = v)
  | SigWait sigs => λ x v', v' = v /\ (x.1 = 0 -> x.2 ∈ sigs)
  | SocketUdp => λ x v', open_spec KSock v x v' \/ (x < 0 /\ v' = v)
  | Bind sock _ port => λ x v',
      (0 <= x /\ h_fds v !! sock = Some KSock /\ v' = set_bound (<[sock := port]> (h_bound v)) v)
      \/ (x < 0 /\ v' = v)
  end.

Definition host_spec : contract hview := λ X e v x v', @hev_spec X e v x v'.

(** ** Calls that fail only when their prerequisites do not hold *)

Definition hev_dependable {X} (e : hev X) (v : hview) : X -> Prop :=
  match e in hev X return X -> Prop with
  | Calloc _ => λ x, x = true
  | SetRlimit => λ x, x = 0
  | ObjectOpen filename => λ x, is_Some (h_files v !! filename) -> x = true
  | FindProgram name => λ x, forall o, h_open v = Some o -> name ∈ bo_progs o -> x = true
  | ObjectLoad => λ x, is_Some (h_open v) -> x = 0
  | FindMapFd name => λ x, forall fd, h_maps v !! name = Some fd -> x = fd
  | ProgramFd name => λ x, forall fd, h_progs v !! name = Some fd -> x = fd
  | ProgramPin name path => λ x,
      is_Some (h_progs v !! name ≫= λ fd, h_fds v !! fd) -> x.1 = 0 \/ (is_Some (h_pins v !! path) /\ x.2 = EEXIST)
  | ProgramUnpin _ path | Unlink path => λ x, is_Some (h_pins v !! path) -> x = 0
  | XdpAttach i fd _ => λ x, i ∈ h_links v -> fd = -1 \/ is_Some (h_fds v !! fd) -> 0 <= x
  | ObjPin fd path => λ x,
      is_Some (h_fds v !! fd) -> x.1 = 0 \/ (is_Some (h_pins v !! path) /\ x.2 = EEXIST)
  | ObjGet path => λ x, is_Some (h_pins v !! path) -> 0 <= x
  | TcHookDestroy i _ => λ x, is_Some (h_tc v !! i) -> x = 0
  | TcHookCreate i _ => λ x, h_tc v !! i = None -> i ∈ h_links v -> x = 0
  | TcAttach i point fd _ => λ x,
      point = BPF_TC_INGRESS -> is_Some (h_tc v !! i) -> is_Some (h_fds v !! fd) -> x = 0
  | SigBlock _ => λ x, x = 0
  | SigWait sigs => λ x, sigs <> [] -> x.1 = 0
  | SocketUdp => λ x, 0 <= x
  | Bind sock _ _ => λ x, h_fds v !! sock = Some KSock -> 0 <= x
  | _ => λ _, True
  end.

Definition dependable_spec : contract hview :=
  λ X e v x v', @hev_spec X e v x v' /\ @hev_dependable X e v x.

(** ** Hosts *)

Class Host (H : Type) : Type := {
  hdo : forall X, hev X -> H -> X * H;
  hview_of : H -> hview;
  hdo_ok : forall X (e : hev X) (s : H), hev_spec e (hview_of s) (hdo X e s).1 (hview_of (hdo X e s).2)
}.

Class Dependable (H : Type) `{!Host H} : Prop :=
  hdo_dependable : forall X (e : hev X) (s : H), hev_dependable e (hview_of s) (hdo X e s).1.

Section Run.
Context {H : Type} `{!Host H}.

Definition hrun {A} (p : prog hev A) (s : H) : A * H := run hdo p s.

Lemma hrun_wp {A} (p : prog hev A) Q s :
  wp host_spec p Q (hview_of s) -> Q (hrun p s).1 (hview_of (hrun p s).2).
Proof. apply wp_run. intros. apply hdo_ok. Qed.

Lemma hrun_wp_dependable `{!Dependable H} {A} (p : prog hev A) Q s :
  wp dependable_spec p Q (hview_of s) -> Q (hrun p s).1 (hview_of (hrun p s).2).
Proof. apply wp_run. intros. split; [apply hdo_ok|apply hdo_dependable]. Qed.
End Run.
