(* ===== verification/RefHost.v ===== *)
(** * A reference host

    A concrete system that answers the calls of [Host] and fails only when
    their prerequisites do not hold; it shows that the interface can be met
    and runs the loaders on concrete inputs. *)

From Stdlib Require Import String.
From S2P Require Import Prelude Prog Kernel RefKernel Host.
From stdpp Require Import base tactics numbers list gmap fin_maps.
Local Open Scope Z_scope.

(** Descriptors for the names of a list. *)
Fixpoint alloc (k : list Z -> kobj) (ns : list (list Z)) (fds : gmap Z kobj) : gmap (list Z) Z * gmap Z kobj :=
  match ns with
  | [] => (∅, fds)
  | n :: ns' =>
      let '(p, fds') := alloc k ns' fds in
      let d := fresh_key fds' in (<[n := d]> p, <[d := k n]> fds')
  end.

Lemma alloc_spec k ns fds :
  let '(p, fds') := alloc k ns fds in
  dom p = list_to_set ns /\ fds ⊆ fds' /\ map_Forall (λ n d, 0 <= d /\ fds' !! d = Some (k n)) p.
Proof.
  induction ns as [|n ns IH]; cbn [alloc]; [split_and!; [apply dom_empty_L|done|apply map_Forall_empty]|].
  destruct (alloc k ns fds) as [p fds']. destruct IH as (Hdom & Hsub & Hall).
  pose proof (fresh_key_None fds') as Hnone. pose proof (fresh_key_above fds') as [Hpos _]. split_and!.
  - rewrite dom_insert_L, Hdom. done.
  - etrans; [exact Hsub|]. by apply insert_subseteq.
  - intros m d. rewrite lookup_insert. case_decide as Hm.
    + intros [= <-]. subst m. split; [lia|]. apply lookup_insert_eq.
    + intros Hmd. destruct (Hall m d Hmd) as [Hd Hf]. split; [done|]. rewrite lookup_insert_ne; [done|]. intros <-. congruence.
Qed.

Definition ref_load (o : bpf_object) (v : hview) : hview :=
  let '(p, fds1) := alloc KProg (elements (bo_progs o)) (h_fds v) in
  let '(m, fds2) := alloc KMap (elements (bo_maps o)) fds1 in
  set_loaded p m fds2 v.

Definition ref_pin (x : option kobj) (path : list Z) (v : hview) : (Z * Z) * hview :=
  match x, h_pins v !! path with
  | Some k, None => ((0, 0), set_pins (<[path := k]> (h_pins v)) v)
  | Some _, Some _ => ((-1, EEXIST), v)
  | None, _ => ((-1, 9), v)
  end.

Definition ref_unpin (path : list Z) (v : hview) : Z * hview :=
  match h_pins v !! path with Some _ => (0, set_pins (delete path (h_pins v)) v) | None => (-1, v) end.

Definition ref_open (k : kobj) (v : hview) : Z * hview :=
  let fd := fresh_key (h_fds v) in (fd, set_h_fds (<[fd := k]> (h_fds v)) v).

Definition ref_hdo {X} (e : hev X) (v : hview) : X * hview :=
  match e in hev X return X * hview with
  | IfNameToIndex name => (default 0 (h_names v !! name), v)
  | Calloc _ => (true, v)
  | SetRlimit => (0, v)
  | ObjectOpen filename =>
      match h_files v !! filename with Some o => (true, set_h_open (Some o) v) | None => (false, v) end
  | FindProgram name =>
      (match h_open v with Some o => bool_decide (name ∈ bo_progs o) | None => false end, v)
  | ProgramSetType _ _ => (tt, v)
  | ObjectLoad => match h_open v with Some o => (0, ref_load o v) | None => (-1, v) end
  | FindMapFd name => (default (-1) (h_maps v !! name), v)
  | ProgramFd name => (default (-1) (h_progs v !! name), v)
  | ProgArrayUpdate _ _ _ => (0, v)
  | ProgramPin name path => ref_pin (h_progs v !! name ≫= λ fd, h_fds v !! fd) path v
  | ProgramUnpin _ path => ref_unpin path v
  | XdpAttach i fd _ =>
      if decide (i ∈ h_links v) then
        if fd =? -1 then (0, set_xdp (delete i (h_xdp v)) v) else
        match h_fds v !! fd with Some k => (0, set_xdp (<[i := k]> (h_xdp v)) v) | None => (-1, v) end
      else (-1, v)
  | ObjPin fd path => ref_pin (h_fds v !! fd) path v
  | ObjGet path => match h_pins v !! path with Some k => ref_open k v | None => (-1, v) end
  | Close fd => (tt, set_h_fds (delete fd (h_fds v)) v)
  | Unlink path => ref_unpin path v
  | TcHookDestroy i point =>
      match h_tc v !! i with
      | Some _ => (0, set_tc (if point =? clsact then delete i (h_tc v) else <[i := None]> (h_tc v)) v)
      | None => (-1, v)
      end
  | TcHookCreate i _ =>
      match h_tc v !! i with None => (0, set_tc (<[i := None]> (h_tc v)) v) | Some _ => (-1, v) end
  | TcAttach i point fd _ =>
      if point =? BPF_TC_INGRESS then
        match h_tc v !! i, h_fds v !! fd with
        | Some _, Some k => (0, set_tc (<[i := Some k]> (h_tc v)) v)
        | _, _ => (-1, v)
        end
      else (-1, v)
  | SigBlock _ => (0, v)
  | SigWait sigs => match sigs with sig :: _ => ((0, sig), v) | [] => ((1, 0), v) end
  | SocketUdp => ref_open KSock v
  | Bind sock _ port =>
      match h_fds v !! sock with
      | Some KSock => (0, set_bound (<[sock := port]> (h_bound v)) v)
      | _ => (-1, v)
      end
  end.

Lemma ref_open_ok k v : open_spec k v (ref_open k v).1 (ref_open k v).2.
Proof.
  unfold open_spec, ref_open. cbn. pose proof (fresh_key_above (h_fds v)) as [? _].
  split_and!; [lia|apply fresh_key_None|done].
Qed.

Lemma ref_pin_ok x path v : pin_spec x path v (ref_pin x path v).1 (ref_pin x path v).2.
Proof.
  unfold pin_spec, ref_pin. destruct x as [k|], (h_pins v !! path) eqn:E; cbn; [right|left|right|right].
  all: split_and!; try done; by eexists.
Qed.

Lemma ref_unpin_ok path v : unpin_spec path v (ref_unpin path v).1 (ref_unpin path v).2.
Proof. unfold unpin_spec, ref_unpin. destruct (h_pins v !! path) eqn:E; cbn; [left|right]; split_and!; done. Qed.

Lemma ref_load_ok o v :
  exists p m fd, h_fds v ⊆ fd /\ loaded o p m fd /\ ref_load o v = set_loaded p m fd v.
Proof.
  unfold ref_load. pose proof (alloc_spec KProg (elements (bo_progs o)) (h_fds v)) as H1.
  destruct (alloc KProg _ _) as [p fds1]. destruct H1 as (Hp & Hs1 & Ha1).
  pose proof (alloc_spec KMap (elements (bo_maps o)) fds1) as H2.
  destruct (alloc KMap _ _) as [m fds2]. destruct H2 as (Hm & Hs2 & Ha2).
  rewrite list_to_set_elements_L in Hp, Hm. exists p, m, fds2. split; [by etrans|]. split; [|done]. split_and!; [done..| |done].
  intros n d Hn. destruct (Ha1 n d Hn) as [Hd Hf]. split; [done|]. by eapply lookup_weaken.
Qed.

Lemma ref_hdo_ok {X} (e : hev X) v : hev_spec e v (ref_hdo e v).1 (ref_hdo e v).2.
Proof.
  destruct e; cbn [ref_hdo hev_spec]; try done; try apply ref_pin_ok; try apply ref_unpin_ok.
  - destruct (h_files v !! filename) eqn:E; cbn; [left|right]; by split_and!.
  - destruct (h_open v) as [o|] eqn:E; cbn; [left|by right].
    split; [done|]. destruct (ref_load_ok o v) as (p & m & fd & ? & ? & ->). by exists o, p, m, fd.
  - destruct (h_maps v !! name); cbn; split; auto with lia.
  - destruct (h_progs v !! name); cbn; split; auto with lia.
  - case_decide; [|by right]. destruct (prog_fd =? -1) eqn:E; split_hyps; cbn; [left; split_and!; auto with lia|].
    destruct (h_fds v !! prog_fd) as [k|]; cbn; [left|by right]. split_and!; [lia|done|]. right. split; [done|]. by exists k.
  - destruct (h_pins v !! path) as [k|]; cbn; [left|by right]. exists k. split; [done|apply ref_open_ok].
  - destruct (h_tc v !! ifindex); cbn; [left|right]; by split_and!.
  - destruct (h_tc v !! ifindex); cbn; [right|left]; by split_and!.
  - destruct (attach_point =? BPF_TC_INGRESS) eqn:E; split_hyps; cbn; [|by right].
    destruct (h_tc v !! ifindex), (h_fds v !! prog_fd) as [k|]; cbn; try by right.
    left. split_and!; [done..|]. by exists k.
  - destruct sigs as [|sig sigs]; cbn; split; try done. intros _. by left.
  - left. apply ref_open_ok.
  - destruct (h_fds v !! sock) as [[]|]; cbn; try by right. left. split_and!; [lia|done..].
Qed.

Lemma ref_hdo_dependable {X} (e : hev X) v : hev_dependable e v (ref_hdo e v).1.
Proof.
  assert (forall x path, is_Some x -> (ref_pin x path v).1.1 = 0 \/ (is_Some (h_pins v !! path) /\ (ref_pin x path v).1.2 = EEXIST)) as Hpin.
  { intros x path [k ->]. unfold ref_pin. destruct (h_pins v !! path); cbn; auto. }
  assert (forall path, is_Some (h_pins v !! path) -> (ref_unpin path v).1 = 0) as Hun.
  { intros path [k Hk]. unfold ref_unpin. by rewrite Hk. }
  pose proof (fresh_key_above (h_fds v)) as [Hfresh _].
  destruct e; cbn [ref_hdo hev_dependable]; try done; auto.
  - intros [o Ho]. by rewrite Ho.
  - intros o Ho Hin. rewrite Ho. by apply bool_decide_eq_true.
  - intros [o Ho]. by rewrite Ho.
  - by intros fd ->.
  - by intros fd ->.
  - intros Hi Hk. rewrite decide_True by done. destruct (prog_fd =? -1) eqn:E; cbn; [done|]. split_hyps.
    destruct Hk as [|[k ->]]; done.
  - intros [k ->]. cbn. lia.
  - intros [k ->]. done.
  - by intros -> _.
  - intros -> [x ->] [k ->]. done.
  - by destruct sigs.
  - cbn. lia.
  - intros ->. done.
Qed.

#[export] Instance ref_host : Host hview := {|
  hdo X e v := ref_hdo e v;
  hview_of v := v;
  hdo_ok X e v := ref_hdo_ok e v
|}.

#[export] Instance ref_host_dependable : Dependable hview.
Proof. intros X e v. apply ref_hdo_dependable. Qed.
