(* ===== verification/Loader.v ===== *)
(** * The loader: bpf_broker/bpf_broker_user.c

    It resolves the interfaces named on the command line, loads the kernel
    programs, pins the slow path and the maps, attaches both programs to
    every interface, waits for a signal and takes them off again.  [main] is
    split where the program blocks: [setup], [wait_signal], [cleanup].

    [errno] is taken to survive the message printed before it is tested;
    messages, libbpf_set_print and list_bpf_programs have no effect here. *)

From Stdlib Require Import String.
From S2P Require Import Prelude Prog CString Host.
From stdpp Require Import base tactics numbers list gmap fin_maps.
Local Open Scope Z_scope.
Local Open Scope broker_scope.

Definition BPF_SYSFS_ROOT : list Z := bytes_of_string "/sys/fs/bpf".

(** [snprintf(path, PATH_MAX, "%s/%s", BPF_SYSFS_ROOT, name)]. *)
Definition full_path (name : list Z) : list Z := BPF_SYSFS_ROOT ++ bytes_of_string "/" ++ name.
Definition sysfs_path (name : list Z) : list Z := take (PATH_MAX - 1) (full_path name).

Record bpf_progs_desc := BpfProgsDesc {
  pd_name : list Z;
  pd_type : bpf_prog_type;
  pd_pin : Z;
  pd_map_prog_idx : Z
}.

Definition xdp_prog : bpf_progs_desc :=
  BpfProgsDesc (bytes_of_string "xdp_broker") BPF_PROG_TYPE_XDP 0 (-1).
Definition tc_prog : bpf_progs_desc :=
  BpfProgsDesc (bytes_of_string "tc_ingress_broker") BPF_PROG_TYPE_SCHED_CLS 1 (-1).
Definition progs : list bpf_progs_desc := [xdp_prog; tc_prog].

Definition maps : list (list Z) :=
  bytes_of_string <$> ["topic_subscribe"; "topic_sub_cnt"; "topic_first_sub"; "pub_counter_2"]%string.

Definition pin_map (map_name : list Z) : um hev Z :=
  map_fd <~ ucall (FindMapFd map_name) ;;
  if map_fd <? 0 then uret (-1) else
  let pin_path := sysfs_path map_name in
  pinned <~ ucall (ObjPin map_fd pin_path) ;;
  let '(rc, errno) := pinned in
  if rc =? 0 then uret 0 else
  if errno =? EEXIST then
    old_fd <~ ucall (ObjGet pin_path) ;;
    (if 0 <=? old_fd then ucall (Close old_fd) else uret tt) ;~
    removed <~ ucall (Unlink pin_path) ;;
    if negb (removed =? 0) then uret (-1) else
    again <~ ucall (ObjPin map_fd pin_path) ;;
    if negb (again.1 =? 0) then uret (-1) else uret 0
  else uret (-1).

(** A name or a number; the [long] of [strtol] is assigned to an [int]. *)
Definition resolve_interface (arg : list Z) : um hev Z :=
  let '(value, endptr) := strtol arg in
  let idx := i32 value in
  if bool_decide (endptr = []) && (0 <? idx) then uret idx else
  n <~ ucall (IfNameToIndex arg) ;;
  let idx := i32 n in
  if idx =? 0 then uret (-1) else uret idx.

(** The array of interface indices. *)
Fixpoint resolve_all (args : list (list Z)) : em hev (list Z) :=
  match args with
  | [] => eret []
  | arg :: args' =>
      idx <! elift (resolve_interface arg) ;;
      if idx <=? 0 then efail 1 else
      rest <! resolve_all args' ;;
      eret (idx :: rest)
  end.

Definition find_program (d : bpf_progs_desc) : em hev unit :=
  found <! ecall (FindProgram (pd_name d)) ;;
  if negb found then efail 1 else ecall (ProgramSetType (pd_name d) (pd_type d)).

(** The entry of a program array, for programs that have one. *)
Definition set_prog_array (map_progs_xdp_fd map_progs_tc_fd prog_fd : Z) (d : bpf_progs_desc) : em hev unit :=
  if pd_map_prog_idx d =? -1 then eret tt else
  let map_prog_idx := u32 (pd_map_prog_idx d) in
  if map_prog_idx <? 0 then efail 1 else
  let map_progs_fd :=
    match pd_type d with
    | BPF_PROG_TYPE_XDP => map_progs_xdp_fd
    | BPF_PROG_TYPE_SCHED_CLS => map_progs_tc_fd
    end in
  err <! ecall (ProgArrayUpdate map_progs_fd map_prog_idx prog_fd) ;;
  if negb (err =? 0) then efail 1 else eret tt.

(** [retry: if (bpf_program__pin(...)) { ... goto retry; }], at most [fuel]
    attempts. *)
Fixpoint pin_retry (fuel : nat) (name filename : list Z) : em hev unit :=
  match fuel with
  | O => Ret NoFuel
  | S fuel' =>
      pinned <! ecall (ProgramPin name filename) ;;
      let '(rc, errno) := pinned in
      if rc =? 0 then eret tt else
      if errno =? EEXIST then
        unpinned <! ecall (ProgramUnpin name filename) ;;
        if negb (unpinned =? 0) then efail (-1) else pin_retry fuel' name filename
      else efail (-1)
  end.

(** The second attempt finds the path free. *)
Definition pin_fuel : nat := 2.

Definition pin_program (d : bpf_progs_desc) : em hev unit :=
  if pd_pin d =? 0 then eret tt else
  if (PATH_MAX <=? length (full_path (pd_name d)))%nat then efail (-1) else
  pin_retry pin_fuel (pd_name d) (sysfs_path (pd_name d)).

Definition start_program (map_progs_xdp_fd map_progs_tc_fd : Z) (d : bpf_progs_desc) : em hev unit :=
  prog_fd <! ecall (ProgramFd (pd_name d)) ;;
  if prog_fd <? 0 then efail 1 else
  set_prog_array map_progs_xdp_fd map_progs_tc_fd prog_fd d ;!
  pin_program d.

Definition attach_xdp (xdp_flags prog_fd idx : Z) : em hev unit :=
  r <! ecall (XdpAttach idx prog_fd xdp_flags) ;;
  if r <? 0 then efail 1 else eret tt.

Definition pin_or_fail (map_name : list Z) : em hev unit :=
  r <! elift (pin_map map_name) ;;
  if r <? 0 then efail (-1) else eret tt.

(** "Attach TC ingress program to each interface". *)
Definition attach_tc (tc_prog_fd idx : Z) : em hev unit :=
  ecall (TcHookDestroy idx (Z.lor BPF_TC_INGRESS BPF_TC_EGRESS)) ;!
  err <! ecall (TcHookCreate idx BPF_TC_INGRESS) ;;
  if negb (err =? 0) then efail 1 else
  err <! ecall (TcAttach idx BPF_TC_INGRESS tc_prog_fd BPF_TC_F_REPLACE) ;;
  if negb (err =? 0) then efail 1 else eret tt.

(** [snprintf(filename, sizeof(filename), "%s_kern.o", argv\[0\])]. *)
Definition object_file (argv0 : list Z) : list Z := take (PATH_MAX - 1) (argv0 ++ bytes_of_string "_kern.o").

Definition xdp_flags : Z := Z.lor 0 XDP_FLAGS_DRV_MODE.

(** From the command line to an open, loaded object file. *)
Definition open_object (argv0 : list Z) (args : list (list Z)) (progs : list bpf_progs_desc) : em hev (list Z) :=
  (if (length args =? 0)%nat then efail 1 else eret tt) ;!
  interfaces <! ecall (Calloc (Z.of_nat (length args))) ;;
  if negb interfaces then efail 1 else
  interfaces_idx <! resolve_all args ;;
  err <! ecall SetRlimit ;;
  if negb (err =? 0) then efail 1 else
  obj <! ecall (ObjectOpen (object_file argv0)) ;;
  if negb obj then efail 1 else
  efor find_program progs ;!
  err <! ecall ObjectLoad ;;
  if negb (err =? 0) then efail 1 else
  eret interfaces_idx.

Definition map_fd_or_fail (map_name : list Z) : em hev Z :=
  fd <! ecall (FindMapFd map_name) ;;
  if fd <? 0 then efail 1 else eret fd.

Definition prog_fd_or_fail (d : bpf_progs_desc) : em hev Z :=
  fd <! ecall (ProgramFd (pd_name d)) ;;
  if fd <? 0 then efail 1 else eret fd.

(** Attach the programs to every interface and pin the maps. *)
Definition attach_and_pin (interfaces_idx : list Z) : em hev unit :=
  xdp_main_prog_fd <! prog_fd_or_fail xdp_prog ;;
  efor (attach_xdp xdp_flags xdp_main_prog_fd) interfaces_idx ;!
  efor pin_or_fail maps ;!
  tc_hooks <! ecall (Calloc (Z.of_nat (length interfaces_idx))) ;;
  if negb tc_hooks then efail 1 else
  tc_prog_fd <! prog_fd_or_fail tc_prog ;;
  efor (attach_tc tc_prog_fd) interfaces_idx.

(** From the loaded object to attached programs and pinned maps. *)
Definition install (interfaces_idx : list Z) : em hev unit :=
  map_progs_xdp_fd <! map_fd_or_fail (bytes_of_string "map_progs_xdp") ;;
  map_progs_tc_fd <! map_fd_or_fail (bytes_of_string "map_progs_tc") ;;
  efor (start_program map_progs_xdp_fd map_progs_tc_fd) progs ;!
  attach_and_pin interfaces_idx.

(** Everything before the wait for a signal. *)
Definition setup (argv0 : list Z) (args : list (list Z)) : em hev (list Z) :=
  interfaces_idx <! open_object argv0 args progs ;;
  install interfaces_idx ;!
  eret interfaces_idx.

Definition signal_mask : list Z := [SIGINT; SIGTERM; SIGUSR1].

(** [while (!quit) { sigwait(...); ... }], at most [fuel] signals. *)
Fixpoint wait_signal (fuel : nat) : em hev unit :=
  match fuel with
  | O => Ret NoFuel
  | S fuel' =>
      waited <! ecall (SigWait signal_mask) ;;
      let '(err, sig) := waited in
      if negb (err =? 0) then efail 1 else
      if bool_decide (sig ∈ signal_mask) then eret tt else wait_signal fuel'
  end.

(** [sigwait] only returns signals of the mask. *)
Definition wait_fuel : nat := 1.

Definition block_and_wait : em hev unit :=
  err <! ecall (SigBlock signal_mask) ;;
  if negb (err =? 0) then efail 1 else wait_signal wait_fuel.

Definition detach (idx : Z) : em hev unit :=
  ecall (TcHookDestroy idx (Z.lor BPF_TC_INGRESS BPF_TC_EGRESS)) ;!
  ecall (XdpAttach idx (-1) xdp_flags) ;!
  eret tt.

(** The exit status of a program. *)
Definition exit_status (m : em hev unit) : um hev Z :=
  r <~ m ;; uret match r with inl code => code | inr _ => 0 end.

Definition main (argv0 : list Z) (args : list (list Z)) : um hev Z :=
  exit_status (
    interfaces_idx <! setup argv0 args ;;
    block_and_wait ;!
    efor detach interfaces_idx).
