(* ===== verification/LoaderSpec.v ===== *)
(** * What the steps of the loader do

    One lemma per step of [Loader], for any host and, when the flag [D]
    holds, for a dependable one: what a successful step leaves behind, and
    that on a dependable host it fails only for a named reason. *)

From Stdlib Require Import String.
From S2P Require Import Prelude Prog CString Host Loader.
From stdpp Require Import base tactics numbers list gmap fin_maps.
Local Open Scope Z_scope.
Local Open Scope broker_scope.

(** The contract of a host that is dependable if [D]. *)
Definition flagged (D : Prop) : contract hview :=
  λ X e v x v', @hev_spec X e v x v' /\ (D -> @hev_dependable X e v x).

(** Every loaded program and map has its descriptor. *)
Record linked (v : hview) : Prop := Linked {
  lk_progs : forall n d, h_progs v !! n = Some d -> 0 <= d /\ h_fds v !! d = Some (KProg n);
  lk_maps : forall n d, h_maps v !! n = Some d -> 0 <= d /\ h_fds v !! d = Some (KMap n)
}.

(** The interfaces, programs and pins of a later state. *)
Definition xdp_on (k : kobj) (idxs : list Z) (g : gmap Z kobj) : gmap Z kobj :=
  foldl (λ g i, <[i := k]> g) g idxs.
Definition tc_on (k : kobj) (idxs : list Z) (g : gmap Z (option kobj)) : gmap Z (option kobj) :=
  foldl (λ g i, <[i := Some k]> g) g idxs.
Definition pins_on (names : list (list Z)) (g : gmap (list Z) kobj) : gmap (list Z) kobj :=
  foldl (λ g n, <[sysfs_path n := KMap n]> g) g names.

(** What [resolve_interface] computes. *)
Definition resolve (names : gmap (list Z) Z) (arg : list Z) : Z :=
  let '(value, endptr) := strtol arg in
  if bool_decide (endptr = []) && (0 <? i32 value) then i32 value else
  let n := i32 (default 0 (names !! arg)) in
  if n =? 0 then -1 else n.

(** The object file was read and loaded, nothing else changed. *)
Definition loaded_from (argv0 : list Z) (v w : hview) : Prop :=
  exists o p m fd, h_files v !! object_file argv0 = Some o /\ h_fds v ⊆ fd /\ loaded o p m fd /\
    w = set_loaded p m fd (set_h_open (Some o) v).

(** A command line and an object file with which the set-up can succeed: [ps] and
    [ms] are the programs and maps it looks for. *)
Definition ready (argv0 : list Z) (args ps ms : list (list Z)) (v : hview) : Prop :=
  args <> [] /\ Forall (λ a, 0 < resolve (h_names v) a) args /\
  exists o, h_files v !! object_file argv0 = Some o /\
    Forall (λ n, n ∈ bo_progs o) ps /\ Forall (λ n, n ∈ bo_maps o) ms.

(** Next call: its contract as [Hs], what dependability adds as [Hd]. *)
Ltac hcall x w Hs Hd :=
  first [apply ewp_bind, ewp_call | apply ewp_call | apply uwp_bind, uwp_call | apply uwp_call];
  intros x w [Hs Hd]; cbn [hev_spec hev_dependable] in Hs, Hd; unfold pin_spec, unpin_spec in Hs; cbn [fst snd] in Hs, Hd.

Lemma exit_status_wp (c : contract hview) (m : em hev unit) (Q : Z -> hview -> Prop) v :
  ewp c m Q (λ _ w, Q 0 w) v -> uwp c (exit_status m) Q v.
Proof. intros H. apply uwp_bind. eapply uwp_mono; [|exact H]. by intros [code|u] w. Qed.

Section Steps.
Context (D : Prop).

Lemma resolve_interface_wp arg v :
  uwp (flagged D) (resolve_interface arg) (λ r w, r = resolve (h_names v) arg /\ w = v) v.
Proof.
  unfold resolve_interface, resolve. destruct (strtol arg) as [value endptr].
  destruct (_ && _); [by apply uwp_ret|]. hcall n w Hs Hd. destruct Hs as [-> ->].
  by destruct (i32 _ =? 0); apply uwp_ret.
Qed.

Lemma resolve_all_wp args v :
  ewp (flagged D) (resolve_all args)
    (λ code w, code = 1 /\ w = v /\ ~ Forall (λ a, 0 < resolve (h_names v) a) args)
    (λ idxs w, idxs = resolve (h_names v) <$> args /\ w = v /\ Forall (λ a, 0 < resolve (h_names v) a) args) v.
Proof.
  induction args as [|arg args IH]; cbn [resolve_all]; [by apply ewp_ret|].
  apply ewp_bind, ewp_lift. eapply uwp_mono; [|apply resolve_interface_wp]. intros idx w [-> ->].
  destruct (_ <=? 0) eqn:E; split_hyps.
  - apply ewp_fail. split_and!; [done..|]. intros H. apply Forall_cons in H as [H _]. lia.
  - apply ewp_bind. eapply ewp_mono; [| |exact IH].
    + intros code w (-> & -> & Hn). split_and!; [done..|]. rewrite Forall_cons. tauto.
    + intros idxs w (-> & -> & Hall). apply ewp_ret. split_and!; [done..|]. by constructor.
Qed.

Lemma find_programs_wp (ds : list bpf_progs_desc) v :
  ewp (flagged D) (efor find_program ds)
    (λ code w, code = 1 /\ w = v /\
       (D -> forall o, h_open v = Some o -> ~ Forall (λ d, pd_name d ∈ bo_progs o) ds))
    (λ _ w, w = v) v.
Proof.
  apply (ewp_for _ _ (λ _ w, w = v)); [done|]. intros pre d post w -> ->. unfold find_program.
  hcall found w Hs Hd. subst w. destruct found; cbn [negb].
  - hcall u w Hs Hd'. done.
  - apply ewp_fail. split_and!; [done..|]. intros HD o Ho Hall. rewrite Forall_app, Forall_cons in Hall.
    destruct Hall as (_ & Hin & _). specialize (Hd HD o Ho Hin). done.
Qed.

Lemma loaded_linked argv0 v w : loaded_from argv0 v w -> linked w.
Proof.
  intros (o & p & m & fd & _ & _ & (_ & _ & Hp & Hm) & ->). destruct v; split; cbn; intros n d Hn.
  - by apply (Hp n d).
  - by apply (Hm n d).
Qed.

Lemma open_object_wp argv0 args ds ms v :
  ewp (flagged D) (open_object argv0 args ds)
    (λ code w, code = 1 /\ (w = v \/ exists o, w = set_h_open o v) /\
       (D -> ~ ready argv0 args (pd_name <$> ds) ms v))
    (λ idxs w, idxs = resolve (h_names v) <$> args /\ Forall (λ a, 0 < resolve (h_names v) a) args /\
       loaded_from argv0 v w) v.
Proof.
  unfold open_object. apply ewp_bind.
  destruct args as [|a args]; [apply ewp_fail; split_and!; [done|by left|]; by intros _ [? _]|].
  set (l := a :: args). cbn [length Nat.eqb]. apply ewp_ret.
  hcall b w Hs Hd. subst w. destruct b; cbn [negb]; [|apply ewp_fail; split_and!; [done|by left|]; intros HD; by specialize (Hd HD)].
  apply ewp_bind. eapply ewp_mono; [| |apply resolve_all_wp].
  { intros code w (-> & -> & Hn). split_and!; [done|by left|]. by intros _ (_ & ? & _). }
  intros idxs w (-> & -> & Hpos).
  hcall err w Hs Hd1. subst w.
  destruct (err =? 0) eqn:E; split_hyps; cbn [negb];
    [|apply ewp_fail; split_and!; [done|by left|]; intros HD; by specialize (Hd1 HD)].
  hcall b w Hs Hd2. destruct Hs as [(-> & [o Ho] & ->)|[-> ->]]; cbn [negb].
  2: { apply ewp_fail. split_and!; [done|by left|]. intros HD (_ & _ & o & Ho & _). by specialize (Hd2 HD (mk_is_Some _ _ Ho)). }
  rewrite Ho. apply ewp_bind. eapply ewp_mono; [| |apply find_programs_wp].
  { intros code w (-> & -> & Hn). split_and!; [done|right; by eexists|]. intros HD (_ & _ & o' & Ho' & Hall & _).
    rewrite Ho in Ho'. injection Ho' as <-. eapply Hn; [done|by destruct v|]. by rewrite Forall_fmap in Hall. }
  intros [] w ->. hcall err' w Hs Hd3. destruct Hs as [(-> & o' & p & m & fd & Ho' & Hsub & Hld & ->)|[Hne ->]].
  - apply ewp_ret. split_and!; [done..|]. assert (o' = o) as -> by (destruct v; cbn in Ho'; congruence).
    exists o, p, m, fd. split_and!; try done. by destruct v.
  - rewrite (proj2 (Z.eqb_neq err' 0) Hne). apply ewp_fail. split_and!; [done|right; by eexists|].
    intros HD _. specialize (Hd3 HD). destruct v; cbn in *. by rewrite Hd3 in Hne.
Qed.

Lemma map_fd_wp name v :
  linked v ->
  ewp (flagged D) (map_fd_or_fail name)
    (λ code w, code = 1 /\ w = v /\ (D -> h_maps v !! name = None))
    (λ fd w, w = v /\ h_maps v !! name = Some fd) v.
Proof.
  intros Hv. unfold map_fd_or_fail. hcall fd w Hs Hd. destruct Hs as [-> Hs].
  destruct (fd <? 0) eqn:E; split_hyps; [apply ewp_fail|apply ewp_ret].
  - split_and!; [done..|]. intros HD. destruct (h_maps v !! name) as [x|] eqn:Ex; [|done]. pose proof (lk_maps v Hv _ _ Ex). specialize (Hd HD x eq_refl). lia.
  - split; [done|]. destruct Hs; [done|lia].
Qed.

Lemma prog_fd_wp d v :
  linked v ->
  ewp (flagged D) (prog_fd_or_fail d)
    (λ code w, code = 1 /\ w = v /\ (D -> h_progs v !! pd_name d = None))
    (λ fd w, w = v /\ h_progs v !! pd_name d = Some fd) v.
Proof.
  intros Hv. unfold prog_fd_or_fail. hcall fd w Hs Hd. destruct Hs as [-> Hs].
  destruct (fd <? 0) eqn:E; split_hyps; [apply ewp_fail|apply ewp_ret].
  - split_and!; [done..|]. intros HD. destruct (h_progs v !! pd_name d) as [x|] eqn:Ex; [|done]. pose proof (lk_progs v Hv _ _ Ex). specialize (Hd HD x eq_refl). lia.
  - split; [done|]. destruct Hs; [done|lia].
Qed.

(** *** Pinning *)

Lemma set_pins_same v : set_pins (h_pins v) v = v.
Proof. by destruct v. Qed.

Lemma open_close_fd k v x w : open_spec k v x w -> set_h_fds (delete x (h_fds w)) w = v.
Proof. intros (_ & Hx & ->). destruct v; cbn in *. by rewrite delete_insert_id. Qed.

(** After the pin at [path] was removed. *)
Lemma repin path k v : set_pins (<[path := k]> (h_pins (set_pins (delete path (h_pins v)) v))) (set_pins (delete path (h_pins v)) v)
  = set_pins (<[path := k]> (h_pins v)) v.
Proof. destruct v; cbn. by rewrite insert_delete_eq. Qed.

Lemma free_pin path v : h_pins (set_pins (delete path (h_pins v)) v) !! path = None.
Proof. destruct v; cbn. apply lookup_delete_eq. Qed.

Lemma pin_map_wp name v :
  linked v ->
  uwp (flagged D) (pin_map name) (λ r w,
    (r = 0 /\ is_Some (h_maps v !! name) /\ w = set_pins (<[sysfs_path name := KMap name]> (h_pins v)) v) \/
    (r = -1 /\ (w = v \/ w = set_pins (delete (sysfs_path name) (h_pins v)) v) /\ (D -> h_maps v !! name = None))) v.
Proof.
  intros Hv. unfold pin_map. set (path := sysfs_path name). hcall fd w Hs Hd. destruct Hs as [-> Hs].
  destruct (fd <? 0) eqn:E; split_hyps.
  { apply uwp_ret. right. split_and!; [done|by left|]. intros HD. destruct (h_maps v !! name) as [d|] eqn:Em; [|done].
    pose proof (lk_maps v Hv _ _ Em). specialize (Hd HD d eq_refl). lia. }
  destruct Hs as [Hm|]; [|lia]. destruct (lk_maps v Hv _ _ Hm) as [_ Hfd].
  hcall pinned w Hs Hp. rewrite Hfd in *. destruct pinned as [rc errno]. cbn [fst snd] in *.
  destruct Hs as [(-> & Hfree & k & [= <-] & ->)|(Hrc & -> & Hex)].
  { apply uwp_ret. left. by split_and!. }
  rewrite (proj2 (Z.eqb_neq rc 0) Hrc). destruct (errno =? EEXIST) eqn:Ee; split_hyps.
  2: { apply uwp_ret. right. split_and!; [done|by left|]. intros HD. destruct (Hp HD ltac:(done)); lia. }
  specialize (Hex ltac:(done)). hcall old w Ho Hod. apply uwp_bind.
  assert (exists u, (if 0 <=? old then ucall (Close old) else uret tt) = u /\
    uwp (flagged D) u (λ _ w', w' = v) w) as (u & -> & Hclose).
  { eexists. split; [done|]. destruct Ho as [(k & _ & Ho)|[Hneg ->]].
    - destruct (0 <=? old) eqn:Eo; split_hyps; [|destruct Ho; lia]. hcall x w' Hs Hd'. subst. by eapply open_close_fd.
    - rewrite (proj2 (Z.leb_gt 0 old) Hneg). by apply uwp_ret. }
  eapply uwp_mono; [|exact Hclose]. intros _ w' ->.
  hcall removed w' Hs Hun. destruct Hs as [(-> & _ & ->)|[Hne ->]]; cbn [Z.eqb negb].
  2: { rewrite (proj2 (Z.eqb_neq removed 0) Hne). apply uwp_ret. right. split_and!; [done|by left|].
       intros HD. by specialize (Hun HD Hex). }
  hcall again w' Hs Ha. destruct again as [rc' errno']. cbn [fst snd] in *.
  assert (h_fds (set_pins (delete path (h_pins v)) v) !! fd = Some (KMap name)) as Hfd' by (by destruct v).
  rewrite Hfd', (free_pin path v) in *. destruct Hs as [(-> & _ & k & [= <-] & ->)|(Hrc' & -> & _)]; cbn [Z.eqb negb].
  - apply uwp_ret. left. split_and!; [done..|]. apply repin.
  - rewrite (proj2 (Z.eqb_neq rc' 0) Hrc'). apply uwp_ret. right. split_and!; [done|by right|].
    intros HD. destruct (Ha HD ltac:(done)) as [|[[? ?] _]]; done.
Qed.

Lemma pin_retry_wp name path fd v :
  linked v -> h_progs v !! name = Some fd ->
  ewp (flagged D) (pin_retry pin_fuel name path)
    (λ code w, code = -1 /\ (w = v \/ w = set_pins (delete path (h_pins v)) v) /\ ~ D)
    (λ _ w, w = set_pins (<[path := KProg name]> (h_pins v)) v) v.
Proof.
  intros Hv Hn. destruct (lk_progs v Hv _ _ Hn) as [_ Hfd]. cbn [pin_retry pin_fuel].
  hcall pinned w Hs Hp. rewrite Hn in *. cbn [mbind option_bind] in *. rewrite Hfd in *. destruct pinned as [rc errno]. cbn [fst snd] in *.
  destruct Hs as [(-> & Hfree & k & [= <-] & ->)|(Hrc & -> & Hex)]; [by apply ewp_ret|].
  rewrite (proj2 (Z.eqb_neq rc 0) Hrc). destruct (errno =? EEXIST) eqn:Ee; split_hyps.
  2: { apply ewp_fail. split_and!; [done|by left|]. intros HD. destruct (Hp HD ltac:(done)); lia. }
  specialize (Hex ltac:(done)). hcall removed w' Hs Hun. destruct Hs as [(-> & _ & ->)|[Hne ->]]; cbn [Z.eqb negb].
  2: { rewrite (proj2 (Z.eqb_neq removed 0) Hne). apply ewp_fail. split_and!; [done|by left|].
       intros HD. by specialize (Hun HD Hex). }
  set (v1 := set_pins (delete path (h_pins v)) v) in *.
  assert (h_progs v1 !! name = Some fd /\ h_fds v1 !! fd = Some (KProg name)) as [Hn1 Hfd1] by (by destruct v).
  hcall again w' Hs Ha. rewrite Hn1 in *. cbn [mbind option_bind] in *. rewrite Hfd1 in *. unfold v1 in *. rewrite (free_pin path v) in *.
  destruct again as [rc' errno']. cbn [fst snd] in *. destruct Hs as [(-> & _ & k & [= <-] & ->)|(Hrc' & -> & Hex')].
  - apply ewp_ret. apply repin.
  - rewrite (proj2 (Z.eqb_neq rc' 0) Hrc'). destruct (errno' =? EEXIST) eqn:Ee'; split_hyps.
    + destruct (Hex' ltac:(done)) as [? ?]. done.
    + apply ewp_fail. split_and!; [done|by right|]. intros HD. destruct (Ha HD ltac:(done)) as [|[[? ?] _]]; done.
Qed.

(** *** Attaching *)

Lemma attach_all_wp fl fd k idxs v :
  h_fds v !! fd = Some k -> 0 <= fd ->
  ewp (flagged D) (efor (attach_xdp fl fd) idxs)
    (λ code w, code = 1 /\ exists pre bad post, idxs = pre ++ bad :: post /\ Forall (.∈ h_links v) pre /\
       w = set_xdp (xdp_on k pre (h_xdp v)) v /\ (D -> bad ∉ h_links v))
    (λ _ w, Forall (.∈ h_links v) idxs /\ w = set_xdp (xdp_on k idxs (h_xdp v)) v) v.
Proof.
  intros Hfd Hpos. apply (ewp_for _ _ (λ pre w, Forall (.∈ h_links v) pre /\ w = set_xdp (xdp_on k pre (h_xdp v)) v)).
  { split; [done|by destruct v]. }
  intros pre i post w -> [Hpre ->]. unfold attach_xdp.
  assert (forall X, h_links (set_xdp X v) = h_links v /\ h_fds (set_xdp X v) = h_fds v /\ h_xdp (set_xdp X v) = X /\
    forall Y, set_xdp Y (set_xdp X v) = set_xdp Y v) as Hv by (by destruct v).
  destruct (Hv (xdp_on k pre (h_xdp v))) as (Hl & Hf & Hx & Hxx).
  hcall r w Hs Hd. rewrite Hl, Hf, ?Hx, Hfd in *. destruct Hs as [(Hr & Hi & Hs)|[Hr ->]].
  - rewrite (proj2 (Z.ltb_ge r 0) Hr). apply ewp_ret. split.
    + rewrite Forall_app. auto.
    + destruct Hs as [[-> _]|(_ & k' & [= <-] & ->)]; [lia|]. rewrite Hxx. unfold xdp_on. by rewrite foldl_app.
  - rewrite (proj2 (Z.ltb_lt r 0) Hr). apply ewp_fail. split; [done|]. exists pre, i, post. split_and!; try done.
    intros HD Hi. specialize (Hd HD Hi ltac:(by right)). lia.
Qed.

Lemma pin_all_wp names v :
  linked v ->
  ewp (flagged D) (efor pin_or_fail names)
    (λ code w, code = -1 /\ (D -> exists n, n ∈ names /\ h_maps v !! n = None) /\
       exists P, w = set_pins P v /\ forall p, p ∉ sysfs_path <$> names -> P !! p = h_pins v !! p)
    (λ _ w, w = set_pins (pins_on names (h_pins v)) v) v.
Proof.
  intros Hv. eapply ewp_mono; [intros code w Hw; exact Hw| |].
  2: apply (ewp_for _ _ (λ pre w, w = set_pins (pins_on pre (h_pins v)) v /\
      forall p, p ∉ sysfs_path <$> pre -> pins_on pre (h_pins v) !! p = h_pins v !! p)).
  { by intros _ w [-> _]. }
  { split; [by destruct v|done]. }
  intros pre n post w -> [-> Hout]. unfold pin_or_fail. set (w := set_pins (pins_on pre (h_pins v)) v).
  assert (forall X, h_maps (set_pins X v) = h_maps v /\ h_fds (set_pins X v) = h_fds v /\ h_pins (set_pins X v) = X /\
    h_progs (set_pins X v) = h_progs v /\ forall Y, set_pins Y (set_pins X v) = set_pins Y v) as He by (by destruct v).
  destruct (He (pins_on pre (h_pins v))) as (Hm & Hf & Hp & Hpr & Hpp). fold w in Hm, Hf, Hp, Hpr.
  assert (linked w) as Hw by (by destruct Hv, v).
  apply ewp_bind, ewp_lift. eapply uwp_mono; [|by apply pin_map_wp].
  intros r w' [(-> & _ & ->)|(-> & Hw' & HD)]; cbn [Z.ltb Z.compare].
  - apply ewp_ret. rewrite Hp. unfold w. rewrite Hpp. unfold pins_on. rewrite foldl_app. split; [done|].
    intros p Hnin. cbn [foldl]. rewrite fmap_app, elem_of_app in Hnin. rewrite lookup_insert_ne; [apply Hout; tauto|].
    intros <-. apply Hnin. right. by left.
  - apply ewp_fail. split_and!; [done| |].
    + intros H. exists n. split; [|by rewrite <- Hm; apply HD]. rewrite elem_of_app, elem_of_cons. tauto.
    + destruct Hw' as [-> | ->].
      * exists (pins_on pre (h_pins v)). split; [done|]. intros p Hnin. apply Hout. rewrite fmap_app, elem_of_app in Hnin. tauto.
      * rewrite Hp. exists (delete (sysfs_path n) (pins_on pre (h_pins v))). split; [unfold w; apply Hpp|].
        intros p Hnin. rewrite fmap_app, elem_of_app in Hnin. rewrite lookup_delete_ne; [apply Hout; tauto|].
        intros <-. apply Hnin. right. by left.
Qed.

Lemma set_tc_proj X v : h_links (set_tc X v) = h_links v /\ h_fds (set_tc X v) = h_fds v /\ h_tc (set_tc X v) = X /\
  forall Y, set_tc Y (set_tc X v) = set_tc Y v.
Proof. by destruct v. Qed.

(** Destroying a stale qdisc leaves the other interfaces alone. *)
Lemma destroy_wp i v :
  ewp (flagged D) (ecall (TcHookDestroy i (Z.lor BPF_TC_INGRESS BPF_TC_EGRESS))) (λ _ _, False)
    (λ _ w, exists T, w = set_tc T v /\ (forall j, j <> i -> T !! j = h_tc v !! j) /\
       (T !! i = None \/ T = h_tc v) /\ (D -> T !! i = None)) v.
Proof.
  hcall x w Hs Hd. change (Z.lor BPF_TC_INGRESS BPF_TC_EGRESS =? clsact) with true in Hs. cbn in Hs.
  destruct Hs as [(-> & Ht & ->)|[Hx ->]].
  - exists (delete i (h_tc v)). split_and!; [done| |left; apply lookup_delete_eq|intros _; apply lookup_delete_eq].
    intros j Hj. by apply lookup_delete_ne.
  - exists (h_tc v). split_and!; [by destruct v|done|by right|]. intros HD. destruct (h_tc v !! i) eqn:E; [|done].
    by specialize (Hd HD ltac:(done)).
Qed.

Lemma attach_tc_wp fd k i v :
  h_fds v !! fd = Some k ->
  ewp (flagged D) (attach_tc fd i)
    (λ code w, code = 1 /\ (D -> i ∉ h_links v) /\ exists T, w = set_tc T v /\ forall j, j <> i -> T !! j = h_tc v !! j)
    (λ _ w, w = set_tc (<[i := Some k]> (h_tc v)) v) v.
Proof.
  intros Hfd. unfold attach_tc. apply ewp_bind. eapply ewp_mono; [| |apply destroy_wp]; [intros ? ? []|].
  intros _ w (T & -> & Hj & _ & Hi). destruct (set_tc_proj T v) as (Hl & Hf & HT & HTT).
  hcall err w' Hs Hd. rewrite Hl, HT in *. destruct Hs as [(-> & Hnone & ->)|[Hne ->]]; cbn [Z.eqb negb].
  2: { rewrite (proj2 (Z.eqb_neq err 0) Hne). apply ewp_fail. split_and!; [done| |by exists T].
       intros HD Hin. by specialize (Hd HD (Hi HD) Hin). }
  rewrite HTT. clear Hd. destruct (set_tc_proj (<[i := None]> T) v) as (Hl1 & Hf1 & HT1 & HTT1).
  assert (forall X j, j <> i -> (<[i := X]> T) !! j = h_tc v !! j) as Hj' by (intros X j Hji; rewrite lookup_insert_ne; auto).
  hcall err w' Hs Hd. rewrite Hf1, HT1 in *.
  rewrite Hfd, lookup_insert_eq in Hd. destruct Hs as [(-> & _ & _ & k' & Hk & ->)|[Hne ->]]; cbn [Z.eqb negb].
  2: { rewrite (proj2 (Z.eqb_neq err 0) Hne). apply ewp_fail. split_and!; [done| |exists (<[i := None]> T); auto].
       intros HD _. by specialize (Hd HD eq_refl ltac:(done) ltac:(done)). }
  apply ewp_ret. assert (k' = k) as -> by congruence. rewrite HTT1, insert_insert_eq. f_equal. apply map_eq. intros j.
  destruct (decide (j = i)) as [->|Hji]; [by rewrite !lookup_insert_eq|]. rewrite (lookup_insert_ne (h_tc v)); auto.
Qed.

Lemma attach_tc_all_wp fd k idxs v :
  h_fds v !! fd = Some k ->
  ewp (flagged D) (efor (attach_tc fd) idxs)
    (λ code w, code = 1 /\ (D -> ~ Forall (.∈ h_links v) idxs) /\
       exists T, w = set_tc T v /\ forall i, i ∉ idxs -> T !! i = h_tc v !! i)
    (λ _ w, w = set_tc (tc_on k idxs (h_tc v)) v) v.
Proof.
  intros Hfd. eapply ewp_mono; [intros code w Hw; exact Hw| |].
  2: apply (ewp_for _ _ (λ pre w, w = set_tc (tc_on k pre (h_tc v)) v /\
      forall i, i ∉ pre -> tc_on k pre (h_tc v) !! i = h_tc v !! i)).
  { by intros _ w [-> _]. }
  { split; [by destruct v|done]. }
  intros pre i post w -> [-> Hout].
  destruct (set_tc_proj (tc_on k pre (h_tc v)) v) as (Hl & Hf & HT & HTT).
  eapply ewp_mono; [| |apply (attach_tc_wp fd k); by rewrite Hf]; rewrite ?Hl, ?HT.
  - intros code w (-> & HD & T & -> & Hj). rewrite HTT. split_and!; [done| |].
    + intros H Hall. rewrite Forall_app, Forall_cons in Hall. destruct Hall as (_ & Hin & _). by apply HD.
    + exists T. split; [done|]. intros j Hin. rewrite elem_of_app, elem_of_cons in Hin. rewrite Hj by tauto. apply Hout. tauto.
  - intros _ w ->. rewrite HTT. unfold tc_on. rewrite foldl_app. split; [done|]. intros j Hin. cbn [foldl].
    rewrite elem_of_app, elem_of_cons in Hin. rewrite lookup_insert_ne by (intros ->; tauto). apply Hout. tauto.
Qed.
End Steps.

(** *** The states between the load and the end of the set-up *)

Definition stage (v : hview) X P T : hview := set_tc T (set_pins P (set_xdp X v)).

Lemma stage_start v : v = stage v (h_xdp v) (h_pins v) (h_tc v).
Proof. by destruct v. Qed.

Lemma stage_proj v X P T :
  h_xdp (stage v X P T) = X /\ h_pins (stage v X P T) = P /\ h_tc (stage v X P T) = T /\
  h_fds (stage v X P T) = h_fds v /\ h_progs (stage v X P T) = h_progs v /\ h_maps (stage v X P T) = h_maps v /\
  h_links (stage v X P T) = h_links v.
Proof. by destruct v. Qed.

Lemma stage_set v X P T X' P' T' :
  set_xdp X' (stage v X P T) = stage v X' P T /\ set_pins P' (stage v X P T) = stage v X P' T /\
  set_tc T' (stage v X P T) = stage v X P T'.
Proof. by destruct v. Qed.

Lemma stage_linked v X P T : linked v -> linked (stage v X P T).
Proof. by intros [? ?]; destruct v. Qed.

(** The pins of the loader: its slow path and its maps. *)
Definition own_paths : list (list Z) := sysfs_path (pd_name tc_prog) :: (sysfs_path <$> maps).

Definition pinned (P : gmap (list Z) kobj) : gmap (list Z) kobj :=
  pins_on maps (<[sysfs_path (pd_name tc_prog) := KProg (pd_name tc_prog)]> P).

(** Nothing of others is touched: foreign pins, and what runs on
    interfaces that were not named. *)
Definition confined (paths : list (list Z)) (idxs : list Z) (v w : hview) : Prop :=
  (forall p, p ∉ paths -> h_pins w !! p = h_pins v !! p) /\
  (forall i, i ∉ idxs -> h_xdp w !! i = h_xdp v !! i /\ h_tc w !! i = h_tc v !! i).

Lemma xdp_on_out k idxs g i : i ∉ idxs -> xdp_on k idxs g !! i = g !! i.
Proof.
  revert g. induction idxs as [|j l IH]; intros g Hi; [done|]. rewrite elem_of_cons in Hi. cbn [xdp_on foldl].
  change (foldl _ ?a l) with (xdp_on k l a). rewrite IH by tauto. apply lookup_insert_ne. intros ->. tauto.
Qed.

Lemma xdp_on_in k idxs g i : i ∈ idxs -> xdp_on k idxs g !! i = Some k.
Proof.
  revert g. induction idxs as [|j l IH]; intros g Hi; [by apply elem_of_nil in Hi|]. cbn [xdp_on foldl].
  change (foldl _ ?a l) with (xdp_on k l a). destruct (decide (i ∈ l)) as [Hl|Hl]; [by apply IH|].
  rewrite xdp_on_out by done. apply elem_of_cons in Hi as [->|]; [apply lookup_insert_eq|done].
Qed.

Lemma tc_on_xdp k idxs T i :
  tc_on k idxs T !! i = if decide (i ∈ idxs) then Some (Some k) else T !! i.
Proof.
  revert T. induction idxs as [|j l IH]; intros T; [done|]. cbn [tc_on foldl].
  change (foldl _ ?a l) with (tc_on k l a). rewrite IH. case_decide as Hl; case_decide as Hi; rewrite elem_of_cons in Hi; try tauto.
  - assert (i = j) as -> by tauto. apply lookup_insert_eq.
  - apply lookup_insert_ne. intros ->. tauto.
Qed.

(** The loaded object has the programs [ps] and the maps [ms]. *)
Definition has (ps ms : list (list Z)) (v : hview) : Prop :=
  Forall (λ n, is_Some (h_progs v !! n)) ps /\ Forall (λ n, is_Some (h_maps v !! n)) ms.

(** The set-up stopped at an interface that does not exist, after the ones
    before it got their program. *)
Definition stopped_at_link (idxs : list Z) (v w : hview) (code : Z) : Prop :=
  exists pre bad post, idxs = pre ++ bad :: post /\ Forall (.∈ h_links v) pre /\ ~ (bad ∈ h_links v) /\
    code = 1 /\ h_xdp w = xdp_on (KProg (pd_name xdp_prog)) pre (h_xdp v).

Definition installed (idxs : list Z) (v : hview) : hview :=
  stage v (xdp_on (KProg (pd_name xdp_prog)) idxs (h_xdp v)) (pinned (h_pins v))
    (tc_on (KProg (pd_name tc_prog)) idxs (h_tc v)).

Lemma stage_confined X P T paths idxs v :
  (forall p, p ∉ paths -> P !! p = h_pins v !! p) ->
  (forall i, i ∉ idxs -> X !! i = h_xdp v !! i /\ T !! i = h_tc v !! i) -> confined paths idxs v (stage v X P T).
Proof. intros HP HXT. destruct (stage_proj v X P T) as (HX & HPs & HT & _). split; rewrite ?HX, ?HPs, ?HT; done. Qed.

Lemma pins_on_out names P p : p ∉ sysfs_path <$> names -> pins_on names P !! p = P !! p.
Proof.
  revert P. induction names as [|n l IH]; intros P Hp; [done|]. rewrite fmap_cons, elem_of_cons in Hp. cbn [pins_on foldl].
  change (foldl _ ?a l) with (pins_on l a). rewrite IH by tauto. apply lookup_insert_ne. intros <-. tauto.
Qed.

Lemma pinned_out P p : p ∉ own_paths -> pinned P !! p = P !! p.
Proof.
  intros Hp. unfold own_paths in Hp. rewrite elem_of_cons in Hp. unfold pinned. rewrite pins_on_out by tauto.
  apply lookup_insert_ne. intros <-. tauto.
Qed.

Section Install.
Context (D : Prop).

(** Every map [main] looks up. *)
Definition needed_maps : list (list Z) := (bytes_of_string <$> ["map_progs_xdp"; "map_progs_tc"]%string) ++ maps.

Definition complete (v : hview) : Prop := has (pd_name <$> progs) needed_maps v.

Lemma start_programs_wp a b v :
  linked v ->
  ewp (flagged D) (efor (start_program a b) progs)
    (λ code w, (code = 1 \/ code = -1) /\ (D -> ~ complete v) /\
       exists P, w = set_pins P v /\ forall p, p ∉ own_paths -> P !! p = h_pins v !! p)
    (λ _ w, w = set_pins (<[sysfs_path (pd_name tc_prog) := KProg (pd_name tc_prog)]> (h_pins v)) v) v.
Proof.
  intros Hv. cbn [efor progs]. apply ewp_bind.
  assert (forall d fd w, (fd <? 0) = true -> (D -> forall x, h_progs v !! pd_name d = Some x -> fd = x) ->
    d ∈ progs -> w = v -> (D -> ~ complete v) /\ exists P, w = set_pins P v /\ forall p, p ∉ own_paths -> P !! p = h_pins v !! p) as Hmiss.
  { intros d fd w Hneg HD Hin ->. split_hyps. split; [|exists (h_pins v); by rewrite set_pins_same].
    intros H [Hc _]. rewrite Forall_fmap, Forall_forall in Hc. destruct (Hc d Hin) as [x Hx]. pose proof (lk_progs v Hv _ _ Hx). specialize (HD H x Hx). lia. }
  unfold start_program at 1. hcall fd w Hs Hd. destruct Hs as [-> Hs].
  destruct (fd <? 0) eqn:E; [apply ewp_fail; split; [by left|]; apply (Hmiss xdp_prog fd); [done|by apply Hd|by left|done]|].
  apply ewp_bind, ewp_ret. cbn [pin_program pd_pin xdp_prog Z.eqb]. apply ewp_ret.
  apply ewp_bind. unfold start_program. clear Hs Hd E. hcall fd' w Hs Hd. destruct Hs as [-> Hs].
  destruct (fd' <? 0) eqn:E; [apply ewp_fail; split; [by left|]; apply (Hmiss tc_prog fd'); [done|by apply Hd|right; by left|done]|].
  split_hyps. destruct Hs as [Hs|]; [|lia].
  apply ewp_bind, ewp_ret. unfold pin_program. cbn [pd_pin tc_prog Z.eqb].
  change (PATH_MAX <=? length (full_path (pd_name tc_prog)))%nat with false. cbn match.
  eapply ewp_mono; [| |by apply (pin_retry_wp D _ _ fd')]; [|by intros _ w ->].
  intros code w (-> & Hw & HD). split_and!; [by right|by intros|].
  destruct Hw as [-> | ->]; [exists (h_pins v); by rewrite set_pins_same|].
  eexists. split; [done|]. intros p Hp. apply lookup_delete_ne. intros <-. apply Hp. by left.
Qed.

Lemma install_attach_wp tc_fd idxs v X P :
  linked v -> h_progs v !! pd_name tc_prog = Some tc_fd ->
  ewp (flagged D) (efor (attach_tc tc_fd) idxs)
    (λ code w, code = 1 /\ (D -> ~ Forall (.∈ h_links v) idxs) /\
       exists T, w = stage v X P T /\ forall i, i ∉ idxs -> T !! i = h_tc v !! i)
    (λ _ w, w = stage v X P (tc_on (KProg (pd_name tc_prog)) idxs (h_tc v))) (stage v X P (h_tc v)).
Proof.
  intros Hv Hn. destruct (lk_progs v Hv _ _ Hn) as [_ Hfd].
  destruct (stage_proj v X P (h_tc v)) as (_ & _ & HT & Hf & _ & _ & Hl).
  eapply ewp_mono; [| |apply (attach_tc_all_wp D tc_fd (KProg (pd_name tc_prog))); by rewrite Hf]; rewrite ?Hl, ?HT.
  - intros code w (-> & HD & T & -> & Hj). split_and!; [done..|]. exists T. split; [apply (stage_set v X P _ X P T)|done].
  - intros _ w ->. apply (stage_set v X P (h_tc v) X P).
Qed.

Definition missing_map (v : hview) : Prop := exists n, n ∈ needed_maps /\ h_maps v !! n = None.
Definition missing_prog (v : hview) : Prop := exists d, d ∈ progs /\ h_progs v !! pd_name d = None.

Lemma complete_maps v : complete v -> ~ missing_map v.
Proof. intros [_ Hc] (n & Hn & Hnone). rewrite Forall_forall in Hc. destruct (Hc n Hn). congruence. Qed.

Lemma complete_progs v : complete v -> ~ missing_prog v.
Proof. intros [Hc _] (d & Hd & Hnone). rewrite Forall_fmap, Forall_forall in Hc. destruct (Hc d Hd). congruence. Qed.

Lemma attach_and_pin_wp idxs v P1 :
  linked v -> (forall p, p ∉ own_paths -> P1 !! p = h_pins v !! p) ->
  ewp (flagged D) (attach_and_pin idxs)
    (λ code w, (code = 1 \/ code = -1) /\ confined own_paths idxs v w /\ (D -> complete v -> stopped_at_link idxs v w code))
    (λ _ w, w = stage v (xdp_on (KProg (pd_name xdp_prog)) idxs (h_xdp v)) (pins_on maps P1)
                  (tc_on (KProg (pd_name tc_prog)) idxs (h_tc v)) /\ Forall (.∈ h_links v) idxs)
    (stage v (h_xdp v) P1 (h_tc v)).
Proof.
  intros Hv HP1. set (k := KProg (pd_name xdp_prog)).
  assert (forall pre post, idxs = pre ++ post -> forall i, i ∉ idxs -> xdp_on k pre (h_xdp v) !! i = h_xdp v !! i) as HX.
  { intros pre post -> i Hi. apply xdp_on_out. rewrite elem_of_app in Hi. tauto. }
  unfold attach_and_pin. destruct (stage_proj v (h_xdp v) P1 (h_tc v)) as (Hx & _ & _ & Hf & Hp & _ & Hl).
  apply ewp_bind. eapply ewp_mono; [| |by apply prog_fd_wp, stage_linked]; rewrite Hp.
  { intros code w (-> & -> & HD). split_and!; [by left|by apply stage_confined|].
    intros H Hc. destruct (complete_progs v Hc). exists xdp_prog. split; [by left|auto]. }
  intros fx w [-> Hfx]. destruct (lk_progs v Hv _ _ Hfx) as [Hpos Hfd].
  apply ewp_bind. eapply ewp_mono; [| |apply (attach_all_wp D _ fx k); [by rewrite Hf|done]]; rewrite Hl, Hx.
  { intros code w (-> & pre & bad & post & Hi & Hpre & -> & HD). destruct (stage_set v (h_xdp v) P1 (h_tc v) (xdp_on k pre (h_xdp v)) P1 (h_tc v)) as (-> & _).
    split_and!; [by left| |].
    - apply stage_confined; [done|]. intros i Hnin. split; [by apply (HX pre (bad :: post))|done].
    - intros H _. exists pre, bad, post. split_and!; try done; [by apply HD|]. by destruct (stage_proj v (xdp_on k pre (h_xdp v)) P1 (h_tc v)) as (-> & _). }
  intros _ w [Hall ->]. set (X := xdp_on k idxs (h_xdp v)).
  destruct (stage_set v (h_xdp v) P1 (h_tc v) X P1 (h_tc v)) as (-> & _). clear Hx Hf Hp Hl Hfx.
  assert (forall i, i ∉ idxs -> X !! i = h_xdp v !! i) as HXi by (apply (HX idxs []); by rewrite app_nil_r).
  destruct (stage_proj v X P1 (h_tc v)) as (_ & HP & _ & _ & _ & Hm & _).
  apply ewp_bind. eapply ewp_mono; [| |apply pin_all_wp; by apply stage_linked]; rewrite ?Hm, ?HP.
  { intros code w (-> & HD & P & -> & HPp). destruct (stage_set v X P1 (h_tc v) X P (h_tc v)) as (_ & -> & _).
    split_and!; [by right| |].
    - apply stage_confined; [|auto]. intros p Hnin. rewrite HPp; [by apply HP1|]. unfold own_paths in Hnin. rewrite elem_of_cons in Hnin. tauto.
    - intros H Hc. destruct (complete_maps v Hc). destruct (HD H) as (n & Hn & Hnone). exists n. split; [|done].
      unfold needed_maps. rewrite elem_of_app. by right. }
  set (P := pins_on maps P1). intros _ w ->. destruct (stage_set v X P1 (h_tc v) X P (h_tc v)) as (_ & -> & _).
  assert (confined own_paths idxs v (stage v X P (h_tc v))) as Hconf.
  { apply stage_confined; [|auto]. intros p Hnin. unfold P. rewrite pins_on_out; [by apply HP1|].
    unfold own_paths in Hnin. rewrite elem_of_cons in Hnin. tauto. }
  hcall hooks w Hs Hd. subst w. destruct hooks; cbn [negb].
  2: { apply ewp_fail. split_and!; [by left|done|]. intros H. by specialize (Hd H). }
  apply ewp_bind. eapply ewp_mono; [| |by apply prog_fd_wp, stage_linked]; destruct (stage_proj v X P (h_tc v)) as (_ & _ & _ & _ & -> & _).
  { intros code w (-> & -> & HD). split_and!; [by left|done|].
    intros H Hc. destruct (complete_progs v Hc). exists tc_prog. split; [right; by left|auto]. }
  intros ft w [-> Hft]. eapply ewp_mono; [| |by apply (install_attach_wp ft idxs v X P)].
  - intros code w (-> & HD & T & -> & HT). split_and!; [by left| |intros H; by destruct (HD H)].
    apply stage_confined; [|auto]. intros p Hnin. destruct Hconf as [Hconf _].
    specialize (Hconf p Hnin). by destruct (stage_proj v X P (h_tc v)) as (_ & Hps & _); rewrite Hps in Hconf.
  - intros _ w ->. done.
Qed.

Lemma install_wp idxs v :
  linked v ->
  ewp (flagged D) (install idxs)
    (λ code w, (code = 1 \/ code = -1) /\ confined own_paths idxs v w /\ (D -> complete v -> stopped_at_link idxs v w code))
    (λ _ w, w = installed idxs v /\ Forall (.∈ h_links v) idxs) v.
Proof.
  intros Hv. assert (forall n, n ∈ needed_maps ->
    ewp (flagged D) (map_fd_or_fail n)
      (λ code w, (code = 1 \/ code = -1) /\ confined own_paths idxs v w /\ (D -> complete v -> stopped_at_link idxs v w code))
      (λ _ w, w = v) v) as Hmap.
  { intros n Hn. eapply ewp_mono; [| |by apply map_fd_wp]; [|by intros fd w [-> _]].
    intros code w (-> & -> & HD). split_and!; [by left|done|]. intros H Hc. destruct (complete_maps v Hc). exists n. auto. }
  unfold install. apply ewp_bind. eapply ewp_mono; [intros code w Hw; exact Hw| |apply Hmap; by left]. intros fx w ->.
  apply ewp_bind. eapply ewp_mono; [intros code w Hw; exact Hw| |apply Hmap; right; by left]. intros ft w ->.
  apply ewp_bind. eapply ewp_mono; [| |by apply start_programs_wp].
  { intros code w (Hcode & HD & P & -> & HP). split_and!; [done| |intros H Hc; by destruct (HD H)].
    assert (set_pins P v = stage v (h_xdp v) P (h_tc v)) as -> by (by destruct v). by apply stage_confined. }
  intros _ w ->. set (P1 := <[_ := _]> (h_pins v)).
  assert (set_pins P1 v = stage v (h_xdp v) P1 (h_tc v)) as -> by (by destruct v).
  apply attach_and_pin_wp; [done|]. intros p Hp. apply lookup_insert_ne. intros <-. apply Hp. by left.
Qed.
End Install.

(** ** On a host *)

Section OnHost.
Context {H : Type} `{!Host H}.

Lemma hrun_flagged (D : Prop) {A} (m : um hev A) Q s :
  (D -> Dependable H) -> uwp (flagged D) m Q (hview_of s) ->
  exists a s', hrun m s = (Ok a, s') /\ Q a (hview_of s').
Proof.
  intros HD Hm. pose proof (wp_run hdo hview_of (flagged D) m
    (λ r v', match r with Ok a => Q a v' | _ => False end) s) as Hrun.
  assert (forall X (e : hev X) s, flagged D X e (hview_of s) (hdo X e s).1 (hview_of (hdo X e s).2)) as Hok.
  { intros X e s'. split; [apply hdo_ok|]. intros d. apply HD, d. }
  specialize (Hrun Hok Hm). unfold hrun. destruct (run hdo m s) as [[a| |] s']; [|done|done]. by exists a, s'.
Qed.
End OnHost.
