(* ===== verification/LoaderProps.v ===== *)
(** * The loader of the first program: theorems

    What bpf_broker/bpf_broker_user.c leaves on the host, when it succeeds,
    when it stops half-way and when it is told to quit; and what
    [resolve_interface] makes of a command-line argument. *)

From Stdlib Require Import String.
From S2P Require Import Prelude Prog CString Host RefHost Loader LoaderSpec.
From stdpp Require Import base tactics numbers list gmap fin_maps.
Local Open Scope Z_scope.
Local Open Scope broker_scope.

(** ** From the command line to the wait *)

Lemma loaded_same argv0 v w :
  loaded_from argv0 v w ->
  h_pins w = h_pins v /\ h_xdp w = h_xdp v /\ h_tc w = h_tc v /\ h_links w = h_links v /\ h_names w = h_names v.
Proof. intros (o & p & m & fd & _ & _ & _ & ->). by destruct v. Qed.

Lemma loaded_has argv0 args v w ps ms : loaded_from argv0 v w -> ready argv0 args ps ms v -> has ps ms w.
Proof.
  intros (o & p & m & fd & Ho & _ & (Hp & Hm & _) & ->) (_ & _ & o' & Ho' & Hps & Hms).
  assert (o' = o) as -> by congruence. destruct v; unfold has; cbn. rewrite <- Hp in Hps. rewrite <- Hm in Hms.
  split; eapply Forall_impl; [exact Hps| |exact Hms|]; intros n Hn; by apply elem_of_dom.
Qed.

(** ** A loader in general

    Both programs are a loader: they open an object file with the programs
    [ds], install them with [inst], which looks up the maps [ms] and pins
    [paths], wait, and detach with [det], which removes the qdiscs too when
    [slow] holds. *)

Section Loader.
Context (D slow : Prop) (ds : list bpf_progs_desc) (ms paths : list (list Z)).
Context (inst : list Z -> em hev unit) (det : Z -> em hev unit).
Context (post : list Z -> hview -> hview) (pin : gmap (list Z) kobj -> gmap (list Z) kobj).

Definition setup_failed argv0 args v code w : Prop :=
  let idxs := resolve (h_names v) <$> args in
  (code = 1 \/ code = -1) /\ confined paths idxs v w /\
  (D -> ready argv0 args (pd_name <$> ds) ms v -> stopped_at_link idxs v w code).

Definition install_spec : Prop := forall idxs v, linked v ->
  ewp (flagged D) (inst idxs)
    (λ code w, (code = 1 \/ code = -1) /\ confined paths idxs v w /\
       (D -> has (pd_name <$> ds) ms v -> stopped_at_link idxs v w code))
    (λ _ w, w = post idxs v /\ Forall (.∈ h_links v) idxs) v.

Lemma setup_from argv0 args v :
  install_spec ->
  ewp (flagged D) (idxs <! open_object argv0 args ds ;; inst idxs ;! eret idxs)
    (setup_failed argv0 args v)
    (λ r w, r = resolve (h_names v) <$> args /\ Forall (.∈ h_links v) r /\
       exists v1, loaded_from argv0 v v1 /\ w = post r v1) v.
Proof.
  intros Hinst. apply ewp_bind. eapply ewp_mono; [| |apply (open_object_wp D argv0 args ds ms)].
  { intros code w (-> & Hw & HD). split_and!; [by left| |intros H Hr; by destruct (HD H)].
    destruct Hw as [-> | [o ->]]; by destruct v. }
  intros r w (-> & _ & Hld). pose proof (loaded_same _ _ _ Hld) as (Hp & Hx & Ht & Hl & _).
  apply ewp_bind. eapply ewp_mono; [| |by apply Hinst; eapply loaded_linked].
  - intros code w' (Hcode & Hconf & HD). split_and!; [done| |].
    + unfold confined in *. by rewrite Hp, Hx, Ht in Hconf.
    + intros H Hr. specialize (HD H (loaded_has _ _ _ _ _ _ Hld Hr)).
      unfold stopped_at_link in *. by rewrite Hl, Hx in HD.
  - intros _ w' [-> Hall]. rewrite Hl in Hall. apply ewp_ret. split_and!; [done..|]. by exists w.
Qed.

Lemma block_and_wait_wp v :
  ewp (flagged D) block_and_wait (λ code w, code = 1 /\ w = v /\ ~ D) (λ _ w, w = v) v.
Proof.
  unfold block_and_wait. hcall err w Hs Hd. subst w. destruct (err =? 0) eqn:E; split_hyps; cbn [negb].
  2: { apply ewp_fail. split_and!; [done..|]. intros H. by specialize (Hd H). }
  cbn [wait_signal wait_fuel]. clear Hd. hcall waited w Hs Hd. destruct waited as [e sig]. cbn [fst snd] in *. destruct Hs as [-> Hs].
  destruct (e =? 0) eqn:Ee; split_hyps; cbn [negb].
  - rewrite bool_decide_eq_true_2 by auto. by apply ewp_ret.
  - apply ewp_fail. split_and!; [done..|]. intros H. by specialize (Hd H ltac:(done)).
Qed.

(** [X] and [T] differ from [v]'s only on [idxs]; on a dependable host
    nothing is left there. *)
Definition detached (idxs : list Z) (v : hview) (X : gmap Z kobj) (T : gmap Z (option kobj)) : Prop :=
  (forall i, i ∉ idxs -> X !! i = h_xdp v !! i /\ T !! i = h_tc v !! i) /\
  (D -> Forall (.∈ h_links v) idxs -> forall i, i ∈ idxs -> X !! i = None /\ (slow -> T !! i = None)).

Definition detach_spec : Prop := forall i v,
  ewp (flagged D) (det i) (λ _ _, False)
    (λ _ w, exists X T, w = stage v X (h_pins v) T /\ detached [i] v X T) v.

Lemma detach_all_wp idxs v :
  detach_spec ->
  ewp (flagged D) (efor det idxs) (λ _ _, False)
    (λ _ w, exists X T, w = stage v X (h_pins v) T /\ detached idxs v X T) v.
Proof.
  intros Hdet. apply (ewp_for _ _ (λ pre w, exists X T, w = stage v X (h_pins v) T /\ detached pre v X T)).
  { exists (h_xdp v), (h_tc v). split; [apply stage_start|]. split; [done|]. intros _ _ i Hi. by apply elem_of_nil in Hi. }
  intros pre i rest w _ (X & T & -> & Hout & Hin).
  destruct (stage_proj v X (h_pins v) T) as (HX & HP & HT & _ & _ & _ & Hl).
  eapply ewp_mono; [intros code w Hw; exact Hw| |apply Hdet].
  intros _ w (X' & T' & -> & Hout' & Hin'). rewrite HP. rewrite HX, HT, Hl in *.
  exists X', T'. split; [by destruct v|]. split.
  - intros j Hj. rewrite elem_of_app in Hj. destruct (Hout' j ltac:(tauto)) as [-> ->]. apply Hout. tauto.
  - intros H Hall j Hj. rewrite Forall_app in Hall. destruct Hall as [Hpre Hi].
    destruct (decide (j ∈ [i])) as [Hji|Hji]; [by apply Hin'|].
    destruct (Hout' j Hji) as [-> ->]. apply Hin; [done..|]. rewrite elem_of_app in Hj. tauto.
Qed.

(** What a run to the end leaves: the pins. *)
Definition cleaned (idxs : list Z) (v w : hview) : Prop :=
  Forall (.∈ h_links v) idxs /\ h_pins w = pin (h_pins v) /\
  (D -> forall i, i ∈ idxs -> h_xdp w !! i = None /\ (slow -> h_tc w !! i = None)).

(** What [post] may do. *)
Definition post_ok : Prop := forall idxs v,
  h_links (post idxs v) = h_links v /\ h_pins (post idxs v) = pin (h_pins v) /\ confined paths idxs v (post idxs v).

Lemma main_from argv0 args v (su : em hev (list Z)) :
  post_ok -> detach_spec ->
  ewp (flagged D) su (setup_failed argv0 args v)
    (λ r w, r = resolve (h_names v) <$> args /\ Forall (.∈ h_links v) r /\
       exists v1, loaded_from argv0 v v1 /\ w = post r v1) v ->
  let idxs := resolve (h_names v) <$> args in
  uwp (flagged D) (exit_status (idxs <! su ;; block_and_wait ;! efor det idxs))
    (λ r w, confined paths idxs v w /\ ((r = 0 /\ cleaned idxs v w) \/ setup_failed argv0 args v r w)) v.
Proof.
  intros Hpost Hdet Hsu idxs. apply exit_status_wp, ewp_bind. eapply ewp_mono; [| |exact Hsu].
  { intros code w Hf. split; [by destruct Hf as (_ & ? & _)|by right]. }
  intros r w (-> & Hall & v1 & Hld & ->). fold idxs in Hall |- *.
  destruct (loaded_same _ _ _ Hld) as (Hp & Hx & Ht & Hl1 & _).
  destruct (Hpost idxs v1) as (Hl & HP & Hconf). unfold confined in Hconf. rewrite Hp, Hx, Ht in Hconf.
  apply ewp_bind. eapply ewp_mono; [| |apply block_and_wait_wp].
  { intros code w (-> & -> & HD). split; [done|]. right. split_and!; [by left|done|]. by intros H. }
  intros _ w ->. eapply ewp_mono; [| |by apply detach_all_wp]; [intros ? ? []|].
  intros _ w (X & T & -> & Hout & Hin).
  destruct (stage_proj (post idxs v1) X (h_pins (post idxs v1)) T) as (HX & HP' & HT & _).
  unfold confined, cleaned. rewrite HX, HP', HT. destruct Hconf as [Hcp Hci]. split; [split; [done|]|left].
  - intros i Hi. destruct (Hout i Hi) as [-> ->]. by apply Hci.
  - split_and!; [done..|by rewrite HP, Hp|]. intros H i Hi. apply Hin; [done| |done]. by rewrite Hl, Hl1.
Qed.
End Loader.

(** ** The first program *)

Section Spec.
Context (D : Prop).

Lemma setup_wp argv0 args v :
  ewp (flagged D) (setup argv0 args) (setup_failed D progs needed_maps own_paths argv0 args v)
    (λ r w, r = resolve (h_names v) <$> args /\ Forall (.∈ h_links v) r /\
       exists v1, loaded_from argv0 v v1 /\ w = installed r v1) v.
Proof. apply setup_from. intros idxs v1 Hv. by apply install_wp. Qed.

Lemma detach_wp : detach_spec D True detach.
Proof.
  intros i v. unfold detach. apply ewp_bind. eapply ewp_mono; [| |apply destroy_wp]; [intros ? ? []|].
  intros _ w (T & -> & Hj & _ & HD). assert (set_tc T v = stage v (h_xdp v) (h_pins v) T) as -> by (by destruct v).
  destruct (stage_proj v (h_xdp v) (h_pins v) T) as (Hx & _ & _ & _ & _ & _ & Hl).
  assert (forall X, set_xdp X (stage v (h_xdp v) (h_pins v) T) = stage v X (h_pins v) T) as Hset by (by destruct v).
  assert (forall j, j ∉ [i] -> i <> j /\ j <> i) as Hne by (intros j Hj'; split; intros ->; apply Hj'; by left).
  hcall r w Hs Hd. rewrite Hl, ?Hx in *. destruct Hs as [(Hr & Hi & [[_ ->]|[? _]])|[Hr ->]]; [|done|].
  - exists (delete i (h_xdp v)), T. split; [done|]. split.
    + intros j Hin. destruct (Hne j Hin). split; [by apply lookup_delete_ne|by apply Hj].
    + intros H _ j Hin. apply list_elem_of_singleton in Hin as ->. split; [apply lookup_delete_eq|intros _; by apply HD].
  - exists (h_xdp v), T. split; [done|]. split.
    + intros j Hin. destruct (Hne j Hin). split; [done|by apply Hj].
    + intros H Hall. rewrite Forall_singleton in Hall. specialize (Hd H Hall ltac:(by left)). lia.
Qed.

Lemma installed_proj idxs v :
  h_xdp (installed idxs v) = xdp_on (KProg (pd_name xdp_prog)) idxs (h_xdp v) /\ h_pins (installed idxs v) = pinned (h_pins v) /\
  h_tc (installed idxs v) = tc_on (KProg (pd_name tc_prog)) idxs (h_tc v) /\ h_links (installed idxs v) = h_links v.
Proof. unfold installed. split_and!; apply stage_proj. Qed.

Lemma installed_ok : post_ok own_paths installed pinned.
Proof.
  intros idxs v. destruct (installed_proj idxs v) as (_ & HP & _ & Hl). split_and!; [done..|].
  apply stage_confined; [intros p; apply pinned_out|]. intros i Hi. split; [by apply xdp_on_out|].
  rewrite tc_on_xdp. by rewrite decide_False.
Qed.

Lemma main_wp argv0 args v :
  let idxs := resolve (h_names v) <$> args in
  uwp (flagged D) (main argv0 args)
    (λ r w, confined own_paths idxs v w /\
       ((r = 0 /\ cleaned D True pinned idxs v w) \/ setup_failed D progs needed_maps own_paths argv0 args v r w)) v.
Proof. apply (main_from D True progs needed_maps own_paths install detach installed pinned); [apply installed_ok|apply detach_wp|apply setup_wp]. Qed.
End Spec.

Lemma first_missing (L : gset Z) pre bad post pre' bad' post' :
  pre ++ bad :: post = pre' ++ bad' :: post' -> Forall (.∈ L) pre -> Forall (.∈ L) pre' -> bad ∉ L -> bad' ∉ L -> pre = pre'.
Proof.
  revert pre'. induction pre as [|x pre IH]; intros [|x' pre'] Heq H H' Hb Hb'; cbn in Heq; injection Heq; intros; subst; try done.
  - apply Forall_cons in H' as [? _]. done.
  - apply Forall_cons in H as [? _]. done.
  - apply Forall_cons in H as [_ ?], H' as [_ ?]. f_equal. eauto.
Qed.

(** The pins the loader makes. *)
Lemma pinned_own P :
  pinned P !! sysfs_path (pd_name tc_prog) = Some (KProg (pd_name tc_prog)) /\
  Forall (λ n, pinned P !! sysfs_path n = Some (KMap n)) maps.
Proof.
  unfold pinned, pins_on, maps. cbn [foldl fmap list_fmap].
  split; [|repeat (apply Forall_cons; split); [..|apply Forall_nil; done]];
  repeat first [rewrite lookup_insert_eq; reflexivity | rewrite lookup_insert_ne by decide_goal].
Qed.

(** ** Theorems *)

Section Theorems.
Context {H : Type} `{!Host H}.

(** C13. Whatever the host does, the loader ends: no loop runs forever, the
    status is 0, 1 or -1, and all it ever touches are its own pins and the
    interfaces it was given. *)
Theorem loader_confined argv0 args (s : H) :
  exists r s', hrun (main argv0 args) s = (Ok r, s') /\ (r = 0 \/ r = 1 \/ r = -1) /\
    confined own_paths (resolve (h_names (hview_of s)) <$> args) (hview_of s) (hview_of s').
Proof.
  destruct (hrun_flagged False (main argv0 args) _ s ltac:(done) (main_wp False argv0 args _)) as (r & s' & Hr & Hc & Hcases).
  exists r, s'. split_and!; [done| |done]. destruct Hcases as [[-> _]|[[-> | ->] _]]; auto.
Qed.

(** C12. On a dependable host, with an object file that has the programs and
    maps and interfaces that exist, the set-up succeeds: both programs run on
    every interface named, and the pins that the control program and the
    slow path are found by lead to the maps and the program just loaded.
    When the signal comes, the loader ends with status 0 and has taken both
    programs off every interface; the pins stay. *)
Theorem loader_installs `{!Dependable H} argv0 args (s : H) :
  let v := hview_of s in let idxs := resolve (h_names v) <$> args in
  ready argv0 args (pd_name <$> progs) needed_maps v -> Forall (.∈ h_links v) idxs ->
  (exists s', hrun (setup argv0 args) s = (Ok (inr idxs), s') /\
    Forall (λ i, h_xdp (hview_of s') !! i = Some (KProg (pd_name xdp_prog)) /\
                 h_tc (hview_of s') !! i = Some (Some (KProg (pd_name tc_prog)))) idxs /\
    h_pins (hview_of s') !! sysfs_path (pd_name tc_prog) = Some (KProg (pd_name tc_prog)) /\
    Forall (λ n, h_pins (hview_of s') !! sysfs_path n = Some (KMap n)) maps) /\
  (exists s', hrun (main argv0 args) s = (Ok 0, s') /\
    Forall (λ i, h_xdp (hview_of s') !! i = None /\ h_tc (hview_of s') !! i = None) idxs /\
    h_pins (hview_of s') = pinned (h_pins v)).
Proof.
  intros v idxs Hready Hlinks.
  assert (forall code w, ~ setup_failed True progs needed_maps own_paths argv0 args v code w) as Hok.
  { intros code w (_ & _ & Hstop). destruct (Hstop I Hready) as (pre & bad & post & Hi & _ & Hbad & _).
    fold idxs in Hi. rewrite Hi, Forall_app, Forall_cons in Hlinks. tauto. }
  split.
  - destruct (hrun_flagged True _ _ s ltac:(done) (setup_wp True argv0 args _)) as ([code|r] & s' & Hr & Hpost); [by apply Hok in Hpost|].
    destruct Hpost as (-> & _ & v1 & Hld & Hv'). exists s'. split; [done|]. rewrite Hv'.
    destruct (installed_proj idxs v1) as (HX & HP & HT & _). fold v idxs. rewrite HX, HP, HT.
    split; [|apply pinned_own]. apply Forall_forall. intros i Hi. split; [by apply xdp_on_in|].
    rewrite tc_on_xdp. by rewrite decide_True.
  - destruct (hrun_flagged True _ _ s ltac:(done) (main_wp True argv0 args _)) as (r & s' & Hr & _ & Hcases).
    destruct Hcases as [(-> & _ & Hp & Hc)|Hf]; [|by apply Hok in Hf].
    exists s'. split_and!; [done| |done]. apply Forall_forall. intros i Hi. destruct (Hc I i Hi) as [? Ht]; auto.
Qed.

(** C36. When one of the interfaces does not exist, the loader gives up
    without taking the fast path off the interfaces before it: it exits with
    status 1 and they go on running the program. *)
Theorem loader_leaves_programs `{!Dependable H} argv0 args (s : H) pre bad post :
  let v := hview_of s in
  ready argv0 args (pd_name <$> progs) needed_maps v -> resolve (h_names v) <$> args = pre ++ bad :: post ->
  Forall (.∈ h_links v) pre -> bad ∉ h_links v ->
  exists s', hrun (main argv0 args) s = (Ok 1, s') /\
    Forall (λ i, h_xdp (hview_of s') !! i = Some (KProg (pd_name xdp_prog))) pre.
Proof.
  intros v Hready Hi Hpre Hbad.
  destruct (hrun_flagged True (main argv0 args) _ s ltac:(done) (main_wp True argv0 args _)) as (r & s' & Hr & _ & Hcases).
  fold v in Hcases. destruct Hcases as [(_ & Hall & _)|(_ & _ & Hstop)].
  - rewrite Hi, Forall_app, Forall_cons in Hall. tauto.
  - destruct (Hstop I Hready) as (pre' & bad' & post' & Hi' & Hpre' & Hbad' & -> & Hx).
    fold v in Hi'. rewrite Hi in Hi'.
    rewrite (first_missing _ _ _ _ _ _ _ Hi' Hpre Hpre' Hbad Hbad'). exists s'. split; [done|].
    rewrite Hx. apply Forall_forall. intros i. apply xdp_on_in.
Qed.
End Theorems.

(** ** Interface numbers *)

Definition numeral (ds : list Z) : Prop := ds <> [] /\ Forall (λ c, is_digit c = true) ds.

#[export] Instance numeral_dec ds : Decision (numeral ds).
Proof. unfold numeral. apply _. Defined.

Definition dec_value (ds : list Z) : Z := foldl (λ acc c, 10 * acc + (c - 48)) 0 ds.

Lemma digits_numeral acc ds :
  Forall (λ c, is_digit c = true) ds -> digits acc ds = (foldl (λ acc c, 10 * acc + (c - 48)) acc ds, []).
Proof. intros Hd. revert acc. induction Hd as [|c ds Hc Hd IH]; intros acc; cbn [digits foldl]; [done|]. by rewrite Hc. Qed.

Lemma strtol_numeral ds : numeral ds -> strtol ds = (clamp64 (dec_value ds), []).
Proof.
  intros [Hne Hall]. destruct ds as [|c ds]; [done|]. pose proof Hall as Hall'. apply Forall_cons in Hall' as [Hc _].
  assert (48 <= c <= 57) as Hr by (unfold is_digit in Hc; split_hyps; lia).
  unfold strtol. cbn [skip_spaces]. assert (is_space c = false) as ->.
  { unfold is_space. apply orb_false_intro; [apply Z.eqb_neq; lia|]. apply andb_false_intro2, Z.leb_gt. lia. }
  unfold sign. rewrite (proj2 (Z.eqb_neq c 45)), (proj2 (Z.eqb_neq c 43)) by lia. rewrite Hc, digits_numeral by done.
  by rewrite Z.mul_1_l.
Qed.

(** C37. A number names the interface with that index, without asking the
    host, as long as it fits an [int]; a larger one is cut to 32 bits and
    can silently name another interface. *)
Theorem resolve_interface_number {H} `{!Host H} (ds : list Z) (s : H) :
  numeral ds ->
  (0 < dec_value ds < 2 ^ 31 -> hrun (resolve_interface ds) s = (Ok (dec_value ds), s)) /\
  (2 ^ 31 <= dec_value ds < 2 ^ 63 -> 0 < i32 (dec_value ds) ->
     hrun (resolve_interface ds) s = (Ok (i32 (dec_value ds)), s) /\ i32 (dec_value ds) < dec_value ds).
Proof.
  intros Hn. assert (forall n, 0 <= n < 2 ^ 63 -> clamp64 n = n) as Hclamp by (intros n ?; unfold clamp64; lia).
  assert (forall n, i32 n < 2 ^ 31) as Hi32.
  { intros n. unfold i32. pose proof (Z.mod_pos_bound (n + 2 ^ 31) (2 ^ 32)). lia. }
  assert (0 <= dec_value ds < 2 ^ 63 -> 0 < i32 (dec_value ds) -> hrun (resolve_interface ds) s = (Ok (i32 (dec_value ds)), s)) as Hrun.
  { intros Hr Hpos. unfold resolve_interface. rewrite strtol_numeral, Hclamp by done.
    rewrite bool_decide_eq_true_2 by done. by rewrite (proj2 (Z.ltb_lt _ _) Hpos). }
  split.
  - intros Hr. assert (i32 (dec_value ds) = dec_value ds) as Heq by (unfold i32; rewrite Z.mod_small; lia).
    rewrite <- Heq at 1. apply Hrun; lia.
  - intros Hr Hpos. split; [apply Hrun; lia|]. specialize (Hi32 (dec_value ds)). lia.
Qed.

(** ** Examples *)

(** The object file of the repository and two interfaces; an older load left
    a pin behind. *)
Definition broker_object : bpf_object :=
  BpfObject (list_to_set (pd_name <$> progs)) (list_to_set (needed_maps ++ [bytes_of_string "clone_counter_2"; bytes_of_string "queue_count_map"])).

Definition argv0 : list Z := bytes_of_string "./bpf_broker".
Definition host0 : hview :=
  HView {[object_file argv0 := broker_object]} None ∅ ∅ {[3 := KOld 0]} {[sysfs_path (bytes_of_string "topic_sub_cnt") := KOld 0]}
    {[2; 7]} {[bytes_of_string "eth0" := 7]} ∅ {[7 := None]} ∅.

Definition two_links : list (list Z) := [bytes_of_string "2"; bytes_of_string "eth0"].

Lemma host0_ready args :
  args <> [] -> forallb (λ a, 0 <? resolve (h_names host0) a) args = true -> ready argv0 args (pd_name <$> progs) needed_maps host0.
Proof.
  intros Hne Hall. split; [done|]. split.
  - apply Forall_forall. intros a Ha. rewrite forallb_forall in Hall. apply Z.ltb_lt, Hall. by apply list_elem_of_In.
  - exists broker_object. split; [vm_compute; reflexivity|]. split; decide_goal.
Qed.

Lemma loader_installs_witness :
  (exists s', hrun (setup argv0 two_links) host0 = (Ok (inr [2; 7]), s') /\
    h_pins s' !! sysfs_path (bytes_of_string "topic_sub_cnt") = Some (KMap (bytes_of_string "topic_sub_cnt"))) /\
  exists s', hrun (main argv0 two_links) host0 = (Ok 0, s') /\ Forall (λ i, h_xdp s' !! i = None /\ h_tc s' !! i = None) [2; 7].
Proof.
  destruct (loader_installs argv0 two_links host0) as [(s' & Hr & _ & _ & Hm) (s2 & Hr2 & Hc & _)];
    [apply host0_ready; [done|vm_compute; reflexivity]|decide_goal|]. split.
  - exists s'. split; [exact Hr|]. rewrite Forall_forall in Hm. apply Hm. right. by left.
  - exists s2. split; [exact Hr2|exact Hc].
Defined.

(** The second interface, number 9, does not exist. *)
Lemma loader_leaves_programs_witness :
  exists s', hrun (main argv0 [bytes_of_string "2"; bytes_of_string "9"]) host0 = (Ok 1, s') /\
    h_xdp s' !! 2 = Some (KProg (bytes_of_string "xdp_broker")).
Proof.
  destruct (loader_leaves_programs argv0 [bytes_of_string "2"; bytes_of_string "9"] host0 [2] 9 []) as (s' & Hr & Hc);
    [apply host0_ready; [done|vm_compute; reflexivity]|vm_compute; reflexivity|decide_goal|decide_goal|].
  exists s'. split; [exact Hr|]. by apply Forall_cons in Hc as [? _].
Defined.

(** 4294967298 names interface 2. *)
Lemma resolve_interface_number_witness :
  hrun (resolve_interface (bytes_of_string "42")) host0 = (Ok 42, host0) /\
  hrun (resolve_interface (bytes_of_string "4294967298")) host0 = (Ok 2, host0).
Proof.
  split.
  - destruct (resolve_interface_number (bytes_of_string "42") host0) as [Hr _]; [decide_goal|].
    rewrite Hr by (split; by vm_compute). vm_compute. reflexivity.
  - destruct (resolve_interface_number (bytes_of_string "4294967298") host0) as [_ Hr]; [decide_goal|].
    by destruct Hr as [Hr _]; [split; vm_compute|vm_compute|].
Defined.
