(* ===== verification/CloneLoader.v ===== *)
(** * The loader of the XDP-only broker: bpf_broker_xdp/bpf_broker_user.c

    The steps of [Loader] without the slow path: one program, no program
    pin, no qdiscs.  [resolve_interface], [pin_map] and the wait are the same
    text as in the first program. *)

From Stdlib Require Import String.
From S2P Require Import Prelude Prog CString Host RefHost Loader LoaderSpec LoaderProps.
From stdpp Require Import base tactics numbers list gmap fin_maps.
Local Open Scope Z_scope.
Local Open Scope broker_scope.

(** ** The code *)

Definition progs : list bpf_progs_desc := [xdp_prog].

Definition maps : list (list Z) :=
  bytes_of_string <$> ["topic_sub_array"; "topic_sub_cnt"; "pub_counter_2"]%string.

Definition check_program (d : bpf_progs_desc) : em hev unit :=
  prog_fd <! ecall (ProgramFd (pd_name d)) ;;
  if prog_fd <? 0 then efail 1 else eret tt.

(** The same function again. *)
Definition pin_map : list Z -> um hev Z := Loader.pin_map.

Definition pin_or_fail (map_name : list Z) : em hev unit :=
  r <! elift (pin_map map_name) ;;
  if r <? 0 then efail (-1) else eret tt.

Definition install (interfaces_idx : list Z) : em hev unit :=
  efor check_program progs ;!
  xdp_main_prog_fd <! prog_fd_or_fail xdp_prog ;;
  efor (attach_xdp xdp_flags xdp_main_prog_fd) interfaces_idx ;!
  efor pin_or_fail maps.

(** Everything before the wait for a signal. *)
Definition setup (argv0 : list Z) (args : list (list Z)) : em hev (list Z) :=
  interfaces_idx <! open_object argv0 args progs ;;
  install interfaces_idx ;!
  eret interfaces_idx.

Definition detach (idx : Z) : em hev unit :=
  ecall (XdpAttach idx (-1) xdp_flags) ;!
  eret tt.

Definition main (argv0 : list Z) (args : list (list Z)) : um hev Z :=
  exit_status (
    interfaces_idx <! setup argv0 args ;;
    block_and_wait ;!
    efor detach interfaces_idx).

(** ** What the steps do *)

Definition own_paths : list (list Z) := sysfs_path <$> maps.
Definition xdp_obj : kobj := KProg (pd_name xdp_prog).

(** Programs attached, maps pinned. *)
Definition installed (idxs : list Z) (v : hview) : hview :=
  stage v (xdp_on xdp_obj idxs (h_xdp v)) (pins_on maps (h_pins v)) (h_tc v).

Section Spec.
Context (D : Prop).

Definition complete (v : hview) : Prop := has (pd_name <$> progs) maps v.

Lemma complete_prog v : complete v -> h_progs v !! pd_name xdp_prog <> None.
Proof. intros [Hc _]. apply Forall_cons in Hc as [[x Hx] _]. congruence. Qed.

Lemma complete_map v n : complete v -> n ∈ maps -> h_maps v !! n <> None.
Proof. intros [_ Hc] Hn. rewrite Forall_forall in Hc. destruct (Hc n Hn). congruence. Qed.

Lemma check_programs_wp v :
  linked v ->
  ewp (flagged D) (efor check_program progs)
    (λ code w, code = 1 /\ w = v /\ (D -> ~ complete v)) (λ _ w, w = v) v.
Proof.
  intros Hv. cbn [efor progs]. apply ewp_bind. unfold check_program. hcall fd w Hs Hd. destruct Hs as [-> Hs].
  destruct (fd <? 0) eqn:E; split_hyps; [apply ewp_fail|by apply ewp_ret]. split_and!; [done..|].
  intros HD Hc. apply complete_prog in Hc. destruct (h_progs v !! _) as [x|] eqn:Ex; [|done].
  pose proof (lk_progs v Hv _ _ Ex). specialize (Hd HD x eq_refl). lia.
Qed.

Lemma clone_install_wp idxs v :
  linked v ->
  ewp (flagged D) (install idxs)
    (λ code w, (code = 1 \/ code = -1) /\ confined own_paths idxs v w /\ (D -> complete v -> stopped_at_link idxs v w code))
    (λ _ w, w = installed idxs v /\ Forall (.∈ h_links v) idxs) v.
Proof.
  intros Hv. unfold install. apply ewp_bind. eapply ewp_mono; [| |by apply check_programs_wp].
  { intros code w (-> & -> & HD). split_and!; [by left|done|]. intros H Hc. by destruct (HD H). }
  intros _ w ->. apply ewp_bind. eapply ewp_mono; [| |by apply prog_fd_wp].
  { intros code w (-> & -> & HD). split_and!; [by left|done|]. intros H Hc. by destruct (complete_prog v Hc (HD H)). }
  intros fd w [-> Hfd]. destruct (lk_progs v Hv _ _ Hfd) as [Hpos Hk].
  assert (forall X, set_xdp X v = stage v X (h_pins v) (h_tc v)) as Hx by (by destruct v).
  apply ewp_bind. eapply ewp_mono; [| |apply (attach_all_wp D _ fd xdp_obj); done].
  { intros code w (-> & pre & bad & post & Hi & Hpre & -> & HD). rewrite Hx. split_and!; [by left| |].
    - apply stage_confined; [done|]. intros i Hnin. split; [|done]. apply xdp_on_out.
      rewrite Hi, elem_of_app in Hnin. tauto.
    - intros H _. exists pre, bad, post. split_and!; try done; [by apply HD|].
      by destruct (stage_proj v (xdp_on xdp_obj pre (h_xdp v)) (h_pins v) (h_tc v)) as (-> & _). }
  intros _ w [Hall ->]. rewrite Hx. set (X := xdp_on xdp_obj idxs (h_xdp v)).
  destruct (stage_proj v X (h_pins v) (h_tc v)) as (_ & HP & _ & _ & _ & Hm & _).
  assert (forall P, set_pins P (stage v X (h_pins v) (h_tc v)) = stage v X P (h_tc v)) as Hset by (by intros P; destruct v).
  eapply ewp_mono; [| |apply pin_all_wp; by apply stage_linked]; rewrite ?Hm, ?HP.
  - intros code w (-> & HD & P & -> & HPp). rewrite Hset. split_and!; [by right| |].
    + apply stage_confined; [done|]. intros i Hi. split; [by apply xdp_on_out|done].
    + intros H Hc. destruct (HD H) as (n & Hn & Hnone). by destruct (complete_map v n Hc Hn).
  - intros _ w ->. by rewrite Hset.
Qed.

Lemma clone_setup_wp argv0 args v :
  ewp (flagged D) (setup argv0 args) (setup_failed D progs maps own_paths argv0 args v)
    (λ r w, r = resolve (h_names v) <$> args /\ Forall (.∈ h_links v) r /\
       exists v1, loaded_from argv0 v v1 /\ w = installed r v1) v.
Proof. apply setup_from. intros idxs v1 Hv. by apply clone_install_wp. Qed.

Lemma clone_detach_wp : detach_spec D False detach.
Proof.
  intros i v. unfold detach. hcall r w Hs Hd.
  assert (forall X, set_xdp X v = stage v X (h_pins v) (h_tc v)) as Hx by (by destruct v).
  assert (forall j, j ∉ [i] -> i <> j) as Hne by (intros j Hj ->; apply Hj; by left).
  destruct Hs as [(Hr & Hi & [[_ ->]|[? _]])|[Hr ->]]; [|done|].
  - rewrite Hx. exists (delete i (h_xdp v)), (h_tc v). split; [done|]. split.
    + intros j Hin. split; [by apply lookup_delete_ne, Hne|done].
    + intros H _ j Hin. apply list_elem_of_singleton in Hin as ->. split; [apply lookup_delete_eq|done].
  - exists (h_xdp v), (h_tc v). split; [apply stage_start|]. split; [done|].
    intros H Hall. rewrite Forall_singleton in Hall. specialize (Hd H Hall ltac:(by left)). lia.
Qed.

Lemma clone_installed_proj idxs v :
  h_xdp (installed idxs v) = xdp_on xdp_obj idxs (h_xdp v) /\ h_pins (installed idxs v) = pins_on maps (h_pins v) /\
  h_links (installed idxs v) = h_links v.
Proof. unfold installed. split_and!; apply stage_proj. Qed.

Lemma clone_installed_ok : post_ok own_paths installed (pins_on maps).
Proof.
  intros idxs v. destruct (clone_installed_proj idxs v) as (_ & HP & Hl). split_and!; [done..|].
  apply stage_confined; [intros p; apply pins_on_out|]. intros i Hi. split; [by apply xdp_on_out|done].
Qed.

Lemma clone_main_wp argv0 args v :
  let idxs := resolve (h_names v) <$> args in
  uwp (flagged D) (main argv0 args)
    (λ r w, confined own_paths idxs v w /\
       ((r = 0 /\ cleaned D False (pins_on maps) idxs v w) \/ setup_failed D progs maps own_paths argv0 args v r w)) v.
Proof.
  apply (main_from D False progs maps own_paths install detach installed (pins_on maps)); [apply clone_installed_ok|apply clone_detach_wp|apply clone_setup_wp].
Qed.
End Spec.

Lemma pins_on_own P : Forall (λ n, pins_on maps P !! sysfs_path n = Some (KMap n)) maps.
Proof.
  unfold pins_on, maps. cbn [foldl fmap list_fmap]. repeat (apply Forall_cons; split); [..|apply Forall_nil; done];
  repeat first [rewrite lookup_insert_eq; reflexivity | rewrite lookup_insert_ne by decide_goal].
Qed.

(** ** Theorems *)

Section Theorems.
Context {H : Type} `{!Host H}.

(** Whatever the host does, the loader of the XDP-only program ends with
    status 0, 1 or -1 and touches only its own pins and the interfaces it was
    given. *)
Theorem clone_loader_confined argv0 args (s : H) :
  exists r s', hrun (main argv0 args) s = (Ok r, s') /\ (r = 0 \/ r = 1 \/ r = -1) /\
    confined own_paths (resolve (h_names (hview_of s)) <$> args) (hview_of s) (hview_of s').
Proof.
  destruct (hrun_flagged False (main argv0 args) _ s ltac:(done) (clone_main_wp False argv0 args _)) as (r & s' & Hr & Hc & Hcases).
  exists r, s'. split_and!; [done| |done]. destruct Hcases as [[-> _]|[[-> | ->] _]]; auto.
Qed.

(** C20. On a dependable host with a complete object file and existing
    interfaces, the loader of the XDP-only program runs it on every interface
    and pins its maps where the control program opens them, and takes the
    program off again when the signal comes. *)
Theorem clone_loader_installs `{!Dependable H} argv0 args (s : H) :
  let v := hview_of s in let idxs := resolve (h_names v) <$> args in
  ready argv0 args (pd_name <$> progs) maps v -> Forall (.∈ h_links v) idxs ->
  (exists s', hrun (setup argv0 args) s = (Ok (inr idxs), s') /\
     Forall (λ i, h_xdp (hview_of s') !! i = Some xdp_obj) idxs /\
     Forall (λ n, h_pins (hview_of s') !! sysfs_path n = Some (KMap n)) maps) /\
  (exists s', hrun (main argv0 args) s = (Ok 0, s') /\ Forall (λ i, h_xdp (hview_of s') !! i = None) idxs).
Proof.
  intros v idxs Hready Hlinks.
  assert (forall code w, ~ setup_failed True progs maps own_paths argv0 args v code w) as Hok.
  { intros code w (_ & _ & Hstop). destruct (Hstop I Hready) as (pre & bad & post & Hi & _ & Hbad & _).
    fold idxs in Hi. rewrite Hi, Forall_app, Forall_cons in Hlinks. tauto. }
  split.
  - destruct (hrun_flagged True (setup argv0 args) _ s ltac:(done) (clone_setup_wp True argv0 args _)) as ([code|r] & s' & Hr & Hpost); [by apply Hok in Hpost|].
    destruct Hpost as (-> & _ & v1 & Hld & Hv'). exists s'. split; [done|]. rewrite Hv'.
    destruct (clone_installed_proj idxs v1) as (HX & HP & _). fold v idxs. rewrite HX, HP.
    split; [|apply pins_on_own]. apply Forall_forall. intros i. apply xdp_on_in.
  - destruct (hrun_flagged True (main argv0 args) _ s ltac:(done) (clone_main_wp True argv0 args _)) as (r & s' & Hr & _ & Hcases).
    destruct Hcases as [(-> & _ & _ & Hc)|Hf]; [|by apply Hok in Hf]. exists s'. split; [done|].
    apply Forall_forall. intros i Hi. by apply (Hc I i Hi).
Qed.
End Theorems.

(** ** Example *)

Definition clone_object : bpf_object := BpfObject (list_to_set (pd_name <$> progs)) (list_to_set maps).
Definition clone_host : hview :=
  HView {[object_file argv0 := clone_object]} None ∅ ∅ ∅ ∅ {[2; 7]} {[bytes_of_string "eth0" := 7]} ∅ ∅ ∅.

Lemma clone_host_ready : ready argv0 two_links (pd_name <$> progs) maps clone_host.
Proof.
  split; [done|]. split; [repeat constructor|]. exists clone_object.
  split; [vm_compute; reflexivity|]. split; decide_goal.
Qed.

Lemma clone_loader_installs_witness :
  exists s', hrun (main argv0 two_links) clone_host = (Ok 0, s') /\ Forall (λ i, h_xdp s' !! i = None) [2; 7].
Proof.
  destruct (clone_loader_installs argv0 two_links clone_host) as [_ (s' & Hr & Hx)].
  - exact clone_host_ready.
  - decide_goal.
  - exists s'. split; [exact Hr|exact Hx].
Defined.
