(* ===== verification/Startup.v ===== *)
(** * The control programs from their start

    Before the server loop, [main] of both proto.c files opens the pinned
    maps by path and binds a UDP socket.  Those are calls of the host.  The
    loop makes calls of the kernel through the descriptors the start
    returned: on the whole system ([on_fds]) such a call reaches the maps
    only when its descriptor denotes the right one, and does anything
    otherwise. *)

From Stdlib Require Import String.
From S2P Require Import Prelude Prog Packet Checksum Kernel RefKernel XdpBroker CString Server Control ControlSpec.
From S2P Require Import Host RefHost Loader LoaderSpec LoaderProps CloneControl CloneSpec CloneLoader.
From stdpp Require Import base tactics numbers list gmap fin_maps.
Local Open Scope Z_scope.
Local Open Scope broker_scope.

(** ** The code *)

Definition INADDR_ANY : Z := 0.

(** [fd = bpf_obj_get(path); if (fd < 0) return 1;] *)
Definition open_map (path : string) : em hev Z :=
  fd <! ecall (ObjGet (bytes_of_string path)) ;;
  if fd <? 0 then efail 1 else eret fd.

Definition open_socket : em hev Z :=
  sock <! ecall SocketUdp ;;
  if sock <? 0 then efail 1 else eret sock.

Definition bind_socket (sock : Z) : em hev unit :=
  r <! ecall (Bind sock INADDR_ANY (bswap16 (u16 49152))) ;;
  if r <? 0 then efail 1 else eret tt.

(** What [main] holds when the loop begins. *)
Record descriptors := Descriptors { outer_fd : Z; sub_count_fd : Z; first_sub_fd : option Z; sock : Z }.

Definition start : em hev descriptors :=
  outer_fd <! open_map "/sys/fs/bpf/topic_subscribe" ;;
  sub_count_fd <! open_map "/sys/fs/bpf/topic_sub_cnt" ;;
  first_sub_fd <! open_map "/sys/fs/bpf/topic_first_sub" ;;
  sock <! open_socket ;;
  bind_socket sock ;!
  eret (Descriptors outer_fd sub_count_fd (Some first_sub_fd) sock).

(** The XDP-only program has no map of first subscribers. *)
Definition clone_start : em hev descriptors :=
  outer_fd <! open_map "/sys/fs/bpf/topic_sub_array" ;;
  sub_count_fd <! open_map "/sys/fs/bpf/topic_sub_cnt" ;;
  sock <! open_socket ;;
  bind_socket sock ;!
  eret (Descriptors outer_fd sub_count_fd None sock).

(** The descriptor a call of the loop goes through; the calls on inner maps
    have theirs among the arguments. *)
Definition map_fd (d : descriptors) (m : tmap) : Z :=
  match m with
  | topic_outer => outer_fd d
  | topic_sub_cnt => sub_count_fd d
  | topic_first_sub => default (-1) (first_sub_fd d)
  end.

Definition fd_of (d : descriptors) {X} (e : ev X) : option Z :=
  match e with
  | TopicGet m _ | TopicUpdate m _ _ | TopicDelete m _ => Some (map_fd d m)
  | SendTo _ _ _ => Some (sock d)
  | _ => None
  end.

Inductive fd_ev (X : Type) : Type := FdCall (fd : option Z) (e : ev X).
Arguments FdCall {X} fd e.

Definition via (d : descriptors) (X : Type) (e : ev X) : sum_ev hev fd_ev X := inr_ev (FdCall (fd_of d e) e).

(** [main]: the start, then the loop over the descriptors. *)
Definition main_of (start : em hev descriptors) (loop : um ev unit) : prog (sum_ev hev fd_ev) (res Z) :=
  ubind (embed (λ _, inl_ev) start) (λ r,
    match r with
    | inl code => uret code
    | inr d => ubind (embed (via d) loop) (λ _, uret 0)
    end).

Definition main (stack_bytes : Z) (buf : list Z) (input : list received) : prog (sum_ev hev fd_ev) (res Z) :=
  main_of start (serve (broker_commands stack_bytes flush_fuel) buf input).

Definition clone_main (buf : list Z) (input : list received) : prog (sum_ev hev fd_ev) (res Z) :=
  main_of clone_start (serve clone_commands buf input).

(** ** The start *)

(** Open descriptors stay open, the pins stay. *)
Definition extends (v w : hview) : Prop := h_fds v ⊆ h_fds w /\ h_pins w = h_pins v.

Lemma extends_trans u v w : extends u v -> extends v w -> extends u w.
Proof. intros [? H1] [? H2]. split; [by etrans|by rewrite H2]. Qed.

Lemma extends_fd v w fd k : extends v w -> h_fds v !! fd = Some k -> h_fds w !! fd = Some k.
Proof. intros [Hs _] Hk. by eapply lookup_weaken. Qed.

Lemma open_extends k v fd w : open_spec k v fd w -> 0 <= fd /\ extends v w /\ h_fds w !! fd = Some k.
Proof.
  intros (Hfd & Hn & ->). unfold extends. destruct v; cbn in *. split_and!; [done|by apply insert_subseteq|done|].
  apply lookup_insert_eq.
Qed.

(** The pins of [names] lead to the maps of that name. *)
Definition pins_ready (names : list (list Z)) (v : hview) : Prop :=
  Forall (λ n, h_pins v !! sysfs_path n = Some (KMap n)) names.

Lemma extends_pins names v w : extends v w -> pins_ready names v -> pins_ready names w.
Proof. intros [_ Hp]. unfold pins_ready. by rewrite Hp. Qed.

Section Start.
Context (D : Prop).

(** A failed step: status 1, and not on a dependable host. *)
Definition start_failed (code : Z) (_ : hview) : Prop := code = 1 /\ ~ D.

Lemma open_map_wp path names n v :
  sysfs_path n = bytes_of_string path -> n ∈ names -> pins_ready names v ->
  ewp (flagged D) (open_map path) start_failed (λ fd w, extends v w /\ h_fds w !! fd = Some (KMap n)) v.
Proof.
  intros Hpath Hn Hall. unfold pins_ready in Hall. rewrite Forall_forall in Hall. specialize (Hall n Hn). rewrite Hpath in Hall.
  unfold open_map. hcall fd w Hs Hd. destruct (fd <? 0) eqn:E; split_hyps.
  - apply ewp_fail. split; [done|]. intros H. specialize (Hd H (mk_is_Some _ _ Hall)). lia.
  - apply ewp_ret. destruct Hs as [(k' & Hk & Hs)|[? _]]; [|lia]. assert (k' = KMap n) as -> by congruence.
    by apply open_extends in Hs as (_ & ? & ?).
Qed.

Lemma open_socket_wp v :
  ewp (flagged D) open_socket start_failed (λ fd w, extends v w /\ h_fds w !! fd = Some KSock) v.
Proof.
  unfold open_socket. hcall fd w Hs Hd. destruct (fd <? 0) eqn:E; split_hyps.
  - apply ewp_fail. split; [done|]. intros H. specialize (Hd H). lia.
  - apply ewp_ret. destruct Hs as [Hs|[? _]]; [|lia]. by apply open_extends in Hs as (_ & ? & ?).
Qed.

Lemma bind_socket_wp fd v :
  h_fds v !! fd = Some KSock ->
  ewp (flagged D) (bind_socket fd) start_failed
    (λ _ w, extends v w /\ h_bound w !! fd = Some (bswap16 49152)) v.
Proof.
  intros Hk. unfold bind_socket. hcall r w Hs Hd. destruct Hs as [(Hr & _ & ->)|[Hr ->]].
  - rewrite (proj2 (Z.ltb_ge r 0) Hr). apply ewp_ret. split; [by destruct v|]. destruct v; cbn. apply lookup_insert_eq.
  - rewrite (proj2 (Z.ltb_lt r 0) Hr). apply ewp_fail. split; [done|]. intros H. specialize (Hd H Hk). lia.
Qed.

(** Where the descriptors lead. *)
Definition started (outer : list Z) (v : hview) (d : descriptors) : Prop :=
  h_fds v !! outer_fd d = Some (KMap outer) /\
  h_fds v !! sub_count_fd d = Some (KMap (bytes_of_string "topic_sub_cnt")) /\
  (forall fd, first_sub_fd d = Some fd -> h_fds v !! fd = Some (KMap (bytes_of_string "topic_first_sub"))) /\
  h_fds v !! sock d = Some KSock /\ h_bound v !! sock d = Some (bswap16 49152).

(** Open the next pinned map of [names]. *)
Ltac next_map path names name fd w E H :=
  eapply ewp_seq; [apply (open_map_wp path names (bytes_of_string name)); [vm_compute; reflexivity|decide_goal|done]|];
  intros fd w [E H]; match goal with Hp : pins_ready names _ |- _ => apply (extends_pins _ _ _ E) in Hp end.

Lemma start_wp v :
  pins_ready Loader.maps v ->
  ewp (flagged D) start start_failed
    (λ d w, started (bytes_of_string "topic_subscribe") w d /\ is_Some (first_sub_fd d)) v.
Proof.
  intros Hp. unfold start.
  next_map "/sys/fs/bpf/topic_subscribe"%string Loader.maps "topic_subscribe"%string o v1 E1 Ho.
  next_map "/sys/fs/bpf/topic_sub_cnt"%string Loader.maps "topic_sub_cnt"%string c v2 E2 Hc.
  next_map "/sys/fs/bpf/topic_first_sub"%string Loader.maps "topic_first_sub"%string f v3 E3 Hf.
  eapply ewp_seq; [apply open_socket_wp|]. intros s v4 [E4 Hs].
  eapply ewp_seq; [by apply bind_socket_wp|]. intros _ v5 [E5 Hb]. apply ewp_ret.
  pose proof (extends_trans _ _ _ E4 E5) as E45. pose proof (extends_trans _ _ _ E3 E45) as E345.
  split; [|done]. unfold started. cbn [outer_fd sub_count_fd first_sub_fd sock].
  split_and!; [|by apply (extends_fd _ _ _ _ E345)| |by apply (extends_fd _ _ _ _ E5)|done].
  - eapply extends_fd, Ho. by eapply extends_trans.
  - intros fd [= <-]. by apply (extends_fd _ _ _ _ E45).
Qed.

Lemma clone_start_wp v :
  pins_ready CloneLoader.maps v ->
  ewp (flagged D) clone_start start_failed (λ d w, started (bytes_of_string "topic_sub_array") w d) v.
Proof.
  intros Hp. unfold clone_start.
  next_map "/sys/fs/bpf/topic_sub_array"%string CloneLoader.maps "topic_sub_array"%string o v1 E1 Ho.
  next_map "/sys/fs/bpf/topic_sub_cnt"%string CloneLoader.maps "topic_sub_cnt"%string c v2 E2 Hc.
  eapply ewp_seq; [apply open_socket_wp|]. intros s v3 [E3 Hs].
  eapply ewp_seq; [by apply bind_socket_wp|]. intros _ v4 [E4 Hb]. apply ewp_ret.
  pose proof (extends_trans _ _ _ E3 E4) as E34. pose proof (extends_trans _ _ _ E2 E34) as E234.
  unfold started. cbn [outer_fd sub_count_fd first_sub_fd sock].
  split_and!; [by apply (extends_fd _ _ _ _ E234)|by apply (extends_fd _ _ _ _ E34)|done|by apply (extends_fd _ _ _ _ E4)|done].
Qed.
End Start.

(** ** The whole program *)

(** The object a call is meant for. *)
Definition map_name (outer : list Z) (m : tmap) : list Z :=
  match m with
  | topic_outer => outer
  | topic_sub_cnt => bytes_of_string "topic_sub_cnt"
  | topic_first_sub => bytes_of_string "topic_first_sub"
  end.

Definition object_of (outer : list Z) {X} (e : ev X) : kobj :=
  match e with
  | TopicGet m _ | TopicUpdate m _ _ | TopicDelete m _ => KMap (map_name outer m)
  | _ => KSock
  end.

(** The call's descriptor denotes it. *)
Definition denotes (outer : list Z) (fds : gmap Z kobj) {X} (fd : option Z) (e : ev X) : Prop :=
  match fd with None => True | Some fd => fds !! fd = Some (object_of outer e) end.

#[export] Instance denotes_dec outer fds {X} fd (e : ev X) : Decision (denotes outer fds fd e).
Proof. unfold denotes. destruct fd; apply _. Defined.

Section Main.
Context {H K : Type} `{!Host H, !Kernel K}.

(** Host and kernel together.  A call through a descriptor of anything else
    answers, and changes the maps, by [stray]. *)
Definition on_fds (outer : list Z) (stray : forall X, ev X -> K -> X * K)
    (X : Type) (e : sum_ev hev fd_ev X) (st : H * K) : X * (H * K) :=
  match e with
  | inl_ev e => let '(x, s) := hdo X e st.1 in (x, (s, st.2))
  | inr_ev (FdCall fd e) =>
      let '(x, k) := if decide (denotes outer (h_fds (hview_of st.1)) fd e) then kdo X e st.2 else stray X e st.2 in
      (x, (st.1, k))
  end.

Context (outer : list Z) (stray : forall X, ev X -> K -> X * K).

Lemma run_start {A} (p : prog hev A) s k :
  run (on_fds outer stray) (embed (λ _, inl_ev) p) (s, k) = let '(a, s') := hrun p s in (a, (s', k)).
Proof.
  unfold hrun. revert s. induction p as [a|X e q IH]; intros s; [done|]. cbn. destruct (hdo X e s) as [x s']. apply IH.
Qed.

(** A loop whose descriptors are right runs on the kernel alone. *)
Lemma run_via {A} d (p : prog ev A) s k :
  calls (λ X e, denotes outer (h_fds (hview_of s)) (fd_of d e) e) p ->
  run (on_fds outer stray) (embed (via d) p) (s, k) = let '(a, k') := krun p k in (a, (s, k')).
Proof.
  unfold krun. revert k. induction p as [a|X e q IH]; intros k Hc; [done|]. destruct Hc as [He Hq]. cbn -[denotes].
  rewrite decide_True by done. destruct (kdo X e k) as [x k']. by apply IH.
Qed.

Lemma main_of_runs (start : em hev descriptors) (loop : um ev unit) s d s' (k k' : K) :
  calls (λ X e, denotes outer (h_fds (hview_of s')) (fd_of d e) e) loop ->
  hrun start s = (Ok (inr d), s') -> krun loop k = (Ok tt, k') ->
  run (on_fds outer stray) (main_of start loop) (s, k) = (Ok 0, (s', k')).
Proof.
  intros Hc Hs Hk. unfold main_of, ubind. rewrite run_bind, run_start, Hs. by rewrite run_bind, run_via, Hk.
Qed.
End Main.

(** The descriptors of the first program serve every call. *)
Lemma started_denotes outer v d X (e : ev X) :
  started outer v d -> is_Some (first_sub_fd d) -> denotes outer (h_fds v) (fd_of d e) e.
Proof.
  intros (Ho & Hc & Hf & Hs & _) [fd Hfd]. specialize (Hf fd Hfd).
  destruct e; try exact I; try exact Hs; destruct m; try done; cbn; by rewrite Hfd.
Qed.

(** Those of the second serve all but the calls on first subscribers, of
    which it has none. *)
Definition no_first (X : Type) (e : ev X) : Prop :=
  match e with
  | TopicGet m _ | TopicUpdate m _ _ | TopicDelete m _ => m <> topic_first_sub
  | _ => True
  end.

Lemma started_denotes_clone outer v d X (e : ev X) :
  started outer v d -> no_first X e -> denotes outer (h_fds v) (fd_of d e) e.
Proof. intros (Ho & Hc & _ & Hs & _) He. destruct e; try exact I; try exact Hs; by destruct m. Qed.

Lemma calls_all {A} (G : forall X, ev X -> Prop) (p : prog ev A) : (forall X e, G X e) -> calls G p.
Proof. intros HG. induction p; cbn; auto. Qed.

Ltac second_step := calls_step ltac:(cbn; done).

Lemma zero_loop_no_first n i fd : calls no_first (zero_loop n i fd).
Proof. revert i. induction n as [|n IH]; intros i; cbn [zero_loop]; repeat second_step. apply IH. Qed.

Lemma clone_serve_no_first buf input : calls no_first (serve clone_commands buf input).
Proof.
  revert buf. induction input as [|[|msg s_addr sin_port] rest IH]; intros buf; cbn [serve]; [exact I|apply IH|].
  apply calls_ubind; [|intros _; apply IH]. unfold handle_datagram. cbn [clone_commands cmd_register cmd_subscribe cmd_flush].
  unfold CloneControl.add_topic, CloneControl.add_subscriber, CloneControl.flush_topic.
  repeat first [apply zero_loop_no_first | second_step].
Qed.

Section Theorems.
Context {H K : Type} `{!Host H, !Dependable H, !Kernel K, !Reliable K} (stray : forall X, ev X -> K -> X * K).

(** C9. The first broker boots.  Let the loader run on a dependable host with
    a complete object file and existing interfaces, then start the control
    program, on empty maps.  Both succeed: both kernel programs run on every
    interface, the control program holds descriptors of the maps the loader
    pinned and a socket on port 49152, and the server, whose calls go through
    these descriptors and would be lost through any other, processes every
    sequence of datagrams whose topic names fit as the abstract broker does. *)
Theorem broker_boots argv0 args (s : H) (k : K) sb buf input B outs :
  let idxs := resolve (h_names (hview_of s)) <$> args in
  ready argv0 args (pd_name <$> Loader.progs) needed_maps (hview_of s) -> Forall (.∈ h_links (hview_of s)) idxs ->
  v_outer (kview_of k) = ∅ -> v_cnt (kview_of k) = ∅ -> v_first (kview_of k) = ∅ -> v_fds (kview_of k) = ∅ ->
  length buf = 1024%nat -> Z.of_nat (length input) < 2 ^ 32 -> spec_serve broker_model input ∅ = Some (B, outs) ->
  exists s1 s2 k' d, hrun (Loader.setup argv0 args) s = (Ok (inr idxs), s1) /\
    Forall (λ i, h_xdp (hview_of s1) !! i = Some (KProg (pd_name Loader.xdp_prog)) /\
                 h_tc (hview_of s1) !! i = Some (Some (KProg (pd_name tc_prog)))) idxs /\
    hrun start s1 = (Ok (inr d), s2) /\ started (bytes_of_string "topic_subscribe") (hview_of s2) d /\
    run (on_fds (bytes_of_string "topic_subscribe") stray) (main sb buf input) (s1, k) = (Ok 0, (s2, k')) /\
    ControlSpec.abs (kview_of k') = B /\ v_out (kview_of k') = v_out (kview_of k) ++ outs.
Proof.
  intros idxs Hready Hlinks Ho Hc Hf Hfd Hbuf Hlen Hspec.
  destruct (hrun_flagged True _ _ s ltac:(done) (setup_wp True argv0 args _)) as ([code|r] & s1 & Hr & Hpost).
  { destruct Hpost as (_ & _ & Hpost). destruct (Hpost I Hready) as (pre & bad & post & Hi & _ & Hbad & _).
    fold idxs in Hi. rewrite Hi, Forall_app, Forall_cons in Hlinks. tauto. }
  destruct Hpost as (-> & _ & v1 & Hld & Hv1). fold idxs in Hr, Hv1. destruct (installed_proj idxs v1) as (HX & HP & HT & _).
  assert (pins_ready Loader.maps (hview_of s1)) as Hpins by (unfold pins_ready; rewrite Hv1, HP; apply pinned_own).
  destruct (hrun_flagged True _ _ s1 ltac:(done) (start_wp True _ Hpins)) as ([code|d] & s2 & Hst & Hd); [by destruct Hd as [_ []]|]. destruct Hd as [Hd Hfirst].
  assert (ControlSpec.abs (kview_of k) = ∅) as Habs by (unfold ControlSpec.abs; rewrite Ho; apply fmap_empty).
  pose proof (krun_wp_reliable _ _ k (serve_wp (broker_commands sb flush_fuel) broker_model ControlSpec.abs ControlSpec.inv 0 _ buf input B outs
    Hbuf (inv_boot _ Ho Hc Hf Hfd) ltac:(done) Hlen ltac:(by rewrite Habs))) as Hrun.
  destruct (krun _ k) as [[[]| |] k'] eqn:E; cbn [fst snd] in Hrun; [|done|done]. destruct Hrun as (_ & HB & Hout).
  exists s1, s2, k', d. split_and!; [done| |done|done| |done|done].
  - rewrite Hv1, HX, HT. apply Forall_forall. intros i Hi. split; [by apply xdp_on_in|]. by rewrite tc_on_xdp, decide_True.
  - apply (main_of_runs _ stray start _ s1 d); [|done|done]. apply calls_all. intros X e. by apply started_denotes.
Qed.

(** C19. The XDP-only broker boots: after its loader, its control program finds
    the two maps the loader pinned and, through their descriptors, serves as
    the abstract roster does. *)
Theorem clone_broker_boots argv0 args (s : H) (k : K) buf input B outs :
  let idxs := resolve (h_names (hview_of s)) <$> args in
  ready argv0 args (pd_name <$> CloneLoader.progs) CloneLoader.maps (hview_of s) -> Forall (.∈ h_links (hview_of s)) idxs ->
  CloneControl.inv (kview_of k) -> CloneControl.abs (kview_of k) = ∅ ->
  length buf = 1024%nat -> Z.of_nat (length input) < 2 ^ 32 -> spec_serve roster_model input ∅ = Some (B, outs) ->
  exists s1 s2 k' d, hrun (CloneLoader.setup argv0 args) s = (Ok (inr idxs), s1) /\
    hrun clone_start s1 = (Ok (inr d), s2) /\ started (bytes_of_string "topic_sub_array") (hview_of s2) d /\
    run (on_fds (bytes_of_string "topic_sub_array") stray) (clone_main buf input) (s1, k) = (Ok 0, (s2, k')) /\
    CloneControl.abs (kview_of k') = B /\ v_out (kview_of k') = v_out (kview_of k) ++ outs.
Proof.
  intros idxs Hready Hlinks Hinv Habs Hbuf Hlen Hspec.
  destruct (hrun_flagged True _ _ s ltac:(done) (clone_setup_wp True argv0 args _)) as ([code|r] & s1 & Hr & Hpost).
  { destruct Hpost as (_ & _ & Hpost). destruct (Hpost I Hready) as (pre & bad & post & Hi & _ & Hbad & _).
    fold idxs in Hi. rewrite Hi, Forall_app, Forall_cons in Hlinks. tauto. }
  destruct Hpost as (-> & _ & v1 & Hld & Hv1). fold idxs in Hr, Hv1. destruct (clone_installed_proj idxs v1) as (_ & HP & _).
  assert (pins_ready CloneLoader.maps (hview_of s1)) as Hpins by (unfold pins_ready; rewrite Hv1, HP; apply pins_on_own).
  destruct (hrun_flagged True _ _ s1 ltac:(done) (clone_start_wp True _ Hpins)) as ([code|d] & s2 & Hst & Hd); [by destruct Hd as [_ []]|].
  pose proof (krun_wp_reliable _ _ k (serve_wp clone_commands roster_model CloneControl.abs (λ _, CloneControl.inv) 0 _ buf input B outs
    Hbuf Hinv ltac:(done) Hlen ltac:(by rewrite Habs))) as Hrun.
  destruct (krun _ k) as [[[]| |] k'] eqn:E; cbn [fst snd] in Hrun; [|done|done]. destruct Hrun as (_ & HB & Hout).
  exists s1, s2, k', d. split_and!; [done|done|done| |done|done].
  apply (main_of_runs _ stray clone_start _ s1 d); [|done|done]. eapply calls_mono, clone_serve_no_first.
  intros X e. by apply started_denotes_clone.
Qed.
End Theorems.

(** ** Examples *)

Definition boot_session : list received :=
  [Received (bytes_of_string "REGISTER t" ++ [10]) (le_val [10; 0; 0; 3]) (bswap16 5000);
   Received (bytes_of_string "SUBSCRIBE t") (le_val [10; 0; 0; 3]) (bswap16 5000)].

Definition boot_replies : list output :=
  [Datagram (bytes_of_string "REGACK t") (le_val [10; 0; 0; 3]) (bswap16 5000);
   Datagram (bytes_of_string "SUBACK t") (le_val [10; 0; 0; 3]) (bswap16 5000)].

(** A system on which a call through a wrong descriptor is lost. *)
Definition lost (X : Type) (e : ev X) (k : kview) : X * kview := ((ref_do e (KView ∅ ∅ ∅ ∅ ∅ ∅ ∅ ∅ [])).1, k).

Lemma broker_boots_witness :
  exists s1 s2 k', hrun (Loader.setup argv0 two_links) host0 = (Ok (inr [2; 7]), s1) /\
    run (on_fds (bytes_of_string "topic_subscribe") lost) (main 0 (replicate 1024 0) boot_session) (s1, boot_view) = (Ok 0, (s2, k')) /\
    ControlSpec.abs k' = {[key_t := {[sub_a]}]} /\ v_out k' = boot_replies.
Proof.
  destruct (broker_boots lost argv0 two_links host0 boot_view 0 (replicate 1024 0) boot_session {[key_t := {[sub_a]}]} boot_replies)
    as (s1 & s2 & k' & d & Hr & _ & _ & _ & Hm & Ha & Ho);
    [apply host0_ready; [done|vm_compute; reflexivity]|decide_goal|reflexivity|reflexivity|reflexivity|reflexivity
    |reflexivity|reflexivity|vm_compute; reflexivity|].
  exists s1, s2, k'. split; [exact Hr|]. split; [exact Hm|]. split; [exact Ha|exact Ho].
Defined.

Lemma clone_broker_boots_witness :
  exists s1 s2 k', hrun (CloneLoader.setup argv0 two_links) clone_host = (Ok (inr [2; 7]), s1) /\
    run (on_fds (bytes_of_string "topic_sub_array") lost) (clone_main (replicate 1024 0) boot_session) (s1, boot_view) = (Ok 0, (s2, k')) /\
    CloneControl.abs k' = {[key_t := [sub_a]]} /\ v_out k' = boot_replies.
Proof.
  destruct (clone_broker_boots lost argv0 two_links clone_host boot_view (replicate 1024 0) boot_session {[key_t := [sub_a]]} boot_replies)
    as (s1 & s2 & k' & d & Hr & _ & _ & Hm & Ha & Ho);
    [exact clone_host_ready|decide_goal|split; done|reflexivity|reflexivity|reflexivity|vm_compute; reflexivity|].
  exists s1, s2, k'. split; [exact Hr|]. split; [exact Hm|]. split; [exact Ha|exact Ho].
Defined.
