(* ===== verification/Stats.v ===== *)
(** * The statistics thread: [poll_rps_loop] of bpf_broker/bpf_broker_proto.c

    Every second it reads a per-CPU counter into an array of 128 words and
    logs by how much the words grew.  The kernel answers such a lookup with
    one slot of eight bytes per possible CPU, whatever the width of the
    counter, so a slot covers two words and more than 64 CPUs overrun the
    array.  The program does not start the thread; the function is modelled
    as it stands. *)

From S2P Require Import Prelude Packet Checksum.
From stdpp Require Import base tactics numbers list.
Local Open Scope Z_scope.

(** ** The code *)

Definition MAX_CPUS : nat := 128.

(** [__u32 values\[MAX_CPUS\] = {0}], as memory. *)
Definition zero_values : list Z := replicate (4 * MAX_CPUS) 0.

(** The words of such an array. *)
Fixpoint words32 (n : nat) (bs : list Z) : list Z :=
  match n with
  | O => []
  | S n' => le_val (take 4 bs) :: words32 n' (drop 4 bs)
  end.

(** [for (i = 0; i < MAX_CPUS; i++) if (curr > prev) total += curr - prev;] *)
Fixpoint rps_total (curr prev : list Z) (total : Z) : Z :=
  match curr, prev with
  | c :: curr', p :: prev' => rps_total curr' prev' (if p <? c then u32 (total + u32 (c - p)) else total)
  | _, _ => total
  end.

(** What a per-CPU lookup writes: a slot for every CPU. *)
Definition percpu_slots (counters : list Z) : list Z := concat (le_bytes 8 <$> counters).

(** The [while (1)] loop over the answers to the lookup, one a second, [None]
    when it fails: the lines logged, unless the array is overrun. *)
Fixpoint poll_loop (curr_values prev_values : list Z) (answers : list (option (list Z))) : option (list Z) :=
  match answers with
  | [] => Some []
  | None :: rest => poll_loop curr_values prev_values rest
  | Some counters :: rest =>
      curr_values ← store curr_values 0 (percpu_slots counters);
      let total := rps_total (words32 MAX_CPUS curr_values) (words32 MAX_CPUS prev_values) 0 in
      cons total <$> poll_loop curr_values curr_values rest
  end.

Definition poll_rps_loop (log_opened : bool) (answers : list (option (list Z))) : option (list Z) :=
  if log_opened then poll_loop zero_values zero_values answers else Some [].

(** ** What it means to log *)

(** The growth of every counter since the last answer. *)
Definition growth (counters prev : list Z) : Z :=
  foldr Z.add 0 (zip_with (λ c p, Z.max 0 (c - p)) counters prev).

Fixpoint spec_log (prev : list Z) (answers : list (option (list Z))) : list Z :=
  match answers with
  | [] => []
  | None :: rest => spec_log prev rest
  | Some counters :: rest => u32 (growth counters prev) :: spec_log counters rest
  end.

(** ** Lemmas *)

Definition is_u32 (z : Z) : Prop := 0 <= z < 2 ^ 32.

#[export] Instance is_u32_dec z : Decision (is_u32 z).
Proof. unfold is_u32. apply _. Defined.

(** The array after a lookup on [n] CPUs. *)
Definition filled (counters : list Z) : list Z :=
  percpu_slots counters ++ replicate (512 - 8 * length counters) 0.

Lemma percpu_slots_length counters : length (percpu_slots counters) = (8 * length counters)%nat.
Proof.
  unfold percpu_slots. induction counters as [|c l IH]; [done|]. rewrite fmap_cons. cbn [concat].
  rewrite length_app, IH, le_bytes_length. cbn [length]. lia.
Qed.

Lemma slot_words n c bs :
  is_u32 c -> words32 (S (S n)) (le_bytes 8 c ++ bs) = c :: 0 :: words32 n bs.
Proof.
  intros Hc. unfold is_u32 in Hc. assert (le_bytes 8 c = le_bytes 4 c ++ [0; 0; 0; 0]) as ->.
  { change (le_bytes 8 c) with (le_bytes 4 c ++ le_bytes 4 (c / 256 / 256 / 256 / 256)).
    replace (c / 256 / 256 / 256 / 256) with 0 by dlia. done. }
  cbn [words32]. rewrite <- app_assoc.
  rewrite (take_app_length' (le_bytes 4 c) _ 4), (drop_app_length' (le_bytes 4 c) _ 4) by (by rewrite le_bytes_length).
  rewrite le_val_le_bytes by (change (256 ^ Z.of_nat 4) with (2 ^ 32); lia). done.
Qed.

Lemma zero_words n m : m = (4 * n)%nat -> words32 n (replicate m 0) = replicate n 0.
Proof.
  revert m. induction n as [|n IH]; intros m ->; [done|].
  replace (4 * S n)%nat with (4 + 4 * n)%nat by lia. rewrite replicate_add. cbn [words32].
  rewrite (take_app_length' (replicate 4 0) _ 4), (drop_app_length' (replicate 4 0) _ 4) by done.
  by rewrite IH.
Qed.

(** A slot counts like its counter. *)
Lemma rps_total_slots counters prev k total :
  Forall is_u32 counters -> Forall is_u32 prev -> length counters = length prev -> is_u32 total ->
  rps_total (words32 (2 * length counters + k) (percpu_slots counters ++ replicate (4 * k) 0))
            (words32 (2 * length counters + k) (percpu_slots prev ++ replicate (4 * k) 0)) total
  = u32 (total + growth counters prev).
Proof.
  intros Hc. revert prev total. induction Hc as [|c counters Hc Hcs IH]; intros prev total Hp Hlen Ht.
  - destruct prev; [|done]. cbn [length Nat.mul Nat.add percpu_slots fmap list_fmap concat app].
    rewrite zero_words by done. unfold growth. cbn [zip_with foldr]. rewrite Z.add_0_r, u32_small by exact Ht.
    induction k as [|k IHk]; cbn [replicate rps_total]; [done|]. exact IHk.
  - destruct prev as [|p prev]; [done|]. apply Forall_cons in Hp as [Hp Hps]. injection Hlen as Hlen.
    unfold percpu_slots. rewrite !fmap_cons. cbn [concat]. fold (percpu_slots counters) (percpu_slots prev).
    rewrite <- !app_assoc. cbn [length]. replace (2 * S (length counters) + k)%nat with (S (S (2 * length counters + k))) by lia.
    rewrite !slot_words by done. cbn [rps_total Z.ltb Z.compare]. rewrite IH; [|done..|].
    + unfold growth. cbn [zip_with foldr]. unfold is_u32 in *. destruct (p <? c) eqn:E; split_hyps.
      * rewrite (u32_small (c - p)) by lia. unfold u32. rewrite Zplus_mod_idemp_l. f_equal. lia.
      * f_equal. lia.
    + destruct (p <? c); [|done]. apply u32_range.
Qed.

Lemma store_filled old counters :
  (length counters <= 64)%nat -> length old = length counters ->
  store (filled old) 0 (percpu_slots counters) = Some (filled counters).
Proof.
  intros Hn Hlen. unfold store, filled. rewrite !length_app, !percpu_slots_length, length_replicate, Hlen.
  rewrite (proj2 (Nat.leb_le _ _)) by lia. rewrite take_0. cbn [app Nat.add]. do 2 f_equal.
  apply drop_app_length'. by rewrite percpu_slots_length, Hlen.
Qed.

Lemma zero_filled n : (n <= 64)%nat -> zero_values = filled (replicate n 0).
Proof.
  intros Hn. unfold zero_values, filled. rewrite length_replicate. assert (percpu_slots (replicate n 0) = replicate (8 * n) 0) as ->.
  { clear Hn. unfold percpu_slots. induction n as [|n IH]; [done|]. replace (8 * S n)%nat with (8 + 8 * n)%nat by lia.
    rewrite replicate_add, <- IH. done. }
  rewrite <- replicate_add. f_equal. unfold MAX_CPUS. lia.
Qed.

Lemma total_filled counters prev :
  Forall is_u32 counters -> Forall is_u32 prev -> length counters = length prev -> (length counters <= 64)%nat ->
  rps_total (words32 MAX_CPUS (filled counters)) (words32 MAX_CPUS (filled prev)) 0 = u32 (growth counters prev).
Proof.
  intros Hc Hp Hlen Hn. unfold filled. rewrite <- Hlen.
  replace (512 - 8 * length counters)%nat with (4 * (128 - 2 * length counters))%nat by lia.
  replace MAX_CPUS with (2 * length counters + (128 - 2 * length counters))%nat at 1 2 by (unfold MAX_CPUS; lia).
  by rewrite rps_total_slots.
Qed.

(** The answers of a kernel with [n] possible CPUs. *)
Definition answers_ok (n : nat) (answers : list (option (list Z))) : Prop :=
  Forall (λ a, forall cs, a = Some cs -> length cs = n /\ Forall is_u32 cs) answers.

Lemma poll_loop_spec n prev answers :
  (n <= 64)%nat -> length prev = n -> Forall is_u32 prev -> answers_ok n answers ->
  poll_loop (filled prev) (filled prev) answers = Some (spec_log prev answers).
Proof.
  intros Hn. revert prev. induction answers as [|a answers IH]; intros prev Hlen Hp Hall; [done|].
  apply Forall_cons in Hall as [Ha Hall]. destruct a as [cs|]; cbn [poll_loop spec_log]; [|by apply IH].
  destruct (Ha cs eq_refl) as [Hcs Hu]. rewrite store_filled by congruence. cbn [mbind option_bind].
  rewrite IH by done. rewrite total_filled by congruence. done.
Qed.

(** Counters that never shrink. *)
Fixpoint growing (prev : list Z) (answers : list (option (list Z))) : Prop :=
  match answers with
  | [] => True
  | None :: rest => growing prev rest
  | Some cs :: rest => Forall2 Z.le prev cs /\ growing cs rest
  end.

Fixpoint last_answer (prev : list Z) (answers : list (option (list Z))) : list Z :=
  match answers with
  | [] => prev
  | None :: rest => last_answer prev rest
  | Some cs :: rest => last_answer cs rest
  end.

Definition sum_list_Z (l : list Z) : Z := foldr Z.add 0 l.

Lemma growth_sum prev cs : Forall2 Z.le prev cs -> growth cs prev = sum_list_Z cs - sum_list_Z prev.
Proof.
  unfold growth, sum_list_Z. induction 1 as [|p c prev cs Hpc _ IH]; [done|]. cbn [zip_with foldr]. rewrite IH. lia.
Qed.

Lemma spec_log_sum prev answers :
  growing prev answers ->
  (sum_list_Z (spec_log prev answers)) mod 2 ^ 32 = (sum_list_Z (last_answer prev answers) - sum_list_Z prev) mod 2 ^ 32.
Proof.
  revert prev. induction answers as [|[cs|] answers IH]; intros prev; cbn [growing spec_log last_answer].
  - intros _. cbn [sum_list_Z foldr]. f_equal. lia.
  - intros [Hle Hg]. cbn [sum_list_Z foldr]. fold (sum_list_Z (spec_log cs answers)).
    rewrite Zplus_mod, IH by done. unfold u32. rewrite Zmod_mod, <- Zplus_mod, growth_sum by done. f_equal. lia.
  - apply IH.
Qed.

(** ** Theorem *)

(** C31. On a machine with at most 64 possible CPUs the thread stays inside its
    array and logs, for every answered lookup, the growth of the counters
    since the last one, so the lines of counters that only grow add up to
    all events counted (modulo 2^32); a failed lookup loses nothing.  With
    more CPUs, which [MAX_CPUS] is meant to allow, the first answer overruns
    the array. *)
Theorem poll_rps_loop_correct (n : nat) answers :
  answers_ok n answers ->
  ((n <= 64)%nat ->
     poll_rps_loop true answers = Some (spec_log (replicate n 0) answers) /\
     (growing (replicate n 0) answers ->
        sum_list_Z (spec_log (replicate n 0) answers) mod 2 ^ 32 = sum_list_Z (last_answer (replicate n 0) answers) mod 2 ^ 32)) /\
  ((64 < n)%nat -> Exists is_Some answers -> poll_rps_loop true answers = None).
Proof.
  intros Hall. assert (Forall is_u32 (replicate n 0)) as Hz by (apply Forall_replicate; unfold is_u32; lia). split.
  - intros Hn. split.
    + unfold poll_rps_loop. rewrite (zero_filled n) by done. apply (poll_loop_spec n); [done|by rewrite length_replicate|done..].
    + intros Hg. rewrite spec_log_sum by done. f_equal.
      assert (sum_list_Z (replicate n 0) = 0) as -> by (clear; induction n as [|n IH]; [done|exact IH]). lia.
  - intros Hn Hex. unfold poll_rps_loop. generalize zero_values at 2. assert (length zero_values = 512%nat) as Hlen by reflexivity.
    induction answers as [|[cs|] answers IH]; intros prev; [by apply Exists_nil in Hex| |].
    + apply Forall_cons in Hall as [Ha _]. destruct (Ha cs eq_refl) as [Hcs _]. cbn [poll_loop]. unfold store.
      rewrite percpu_slots_length, Hlen, (proj2 (Nat.leb_gt _ _)) by lia. done.
    + apply Forall_cons in Hall as [_ Hall]. apply Exists_cons in Hex as [[? ?]|Hex]; [done|]. cbn [poll_loop]. by apply IH.
Qed.

(** Two CPUs, a failed lookup, and a machine with 65 CPUs. *)
Lemma poll_rps_loop_correct_witness :
  poll_rps_loop true [Some [3; 4]; None; Some [5; 9]] = Some [7; 7] /\
  poll_rps_loop true [Some (replicate 65 1)] = None.
Proof.
  split.
  - destruct (poll_rps_loop_correct 2 [Some [3; 4]; None; Some [5; 9]]) as [H _].
    + unfold answers_ok. rewrite !Forall_cons. split_and!; [..|by constructor]; intros cs Hcs; try done;
        injection Hcs as <-; (split; [done|]); decide_goal.
    + destruct H as [H _]; [lia|]. exact H.
  - destruct (poll_rps_loop_correct 65 [Some (replicate 65 1)]) as [_ H].
    + unfold answers_ok. rewrite Forall_singleton. intros cs Hcs. injection Hcs as <-. split; [done|]. decide_goal.
    + apply H; [lia|]. by apply Exists_cons_hd.
Defined.
